(** * Natac rules engine: a shallow embedding and its verified properties

    The development follows the JavaScript sources of the engine: [Hex],
    [Vertex], [Edge], [NumberToken], the game pieces, [Board], [Player] and
    [Game].  Objects of the JavaScript heap are records; a reference to a
    hex, a vertex or an edge is the key under which the [Board] stores the
    object, a reference to a number token is its index in
    [Board.numberTokens], and a reference to a player is the player's serial
    number.  Mutation of an object is an update of the store that holds it.
    Rendering fields ([mesh]), harbours ([port]) and the textual debug
    identifiers are left out; time stamps of log entries are left out too. *)

From Stdlib Require Import ZArith List Lia Bool Permutation.
From stdpp Require Import base decidable option list numbers strings.
Import ListNotations.
Local Open Scope Z_scope.

(** ** Insertion-ordered maps

    A JavaScript [Map], and an object used as a dictionary with string keys,
    iterate in insertion order; the engine depends on that order
    ([Array.from(hexes.values())], [Object.keys(resources)]).  They are
    modelled as association lists in which [set] overwrites in place and
    appends a new key at the end. *)
Module JSMap.
Section defs.
Context {K V : Type} `{!EqDecision K}.

Fixpoint get (k : K) (m : list (K * V)) : option V :=
  match m with
  | [] => None
  | (k', v) :: m' => if decide (k' = k) then Some v else get k m'
  end.

Definition has (k : K) (m : list (K * V)) : bool :=
  match get k m with Some _ => true | None => false end.

Fixpoint set (k : K) (v : V) (m : list (K * V)) : list (K * V) :=
  match m with
  | [] => [(k, v)]
  | (k', v') :: m' =>
      if decide (k' = k) then (k', v) :: m' else (k', v') :: set k v m'
  end.

(** In-place mutation of the object stored under [k]. *)
Definition modify (k : K) (f : V -> V) (m : list (K * V)) : list (K * V) :=
  match get k m with
  | Some v => set k (f v) m
  | None => m
  end.

Definition keys (m : list (K * V)) : list K := map fst m.
Definition values (m : list (K * V)) : list V := map snd m.
Definition size (m : list (K * V)) : nat := length m.
End defs.
End JSMap.

(** ** Ambient state: the static counters and the random source

    [GamePiece.nextId] and [Player.nextId] are static counters.  A call
    [Math.floor(Math.random() * n)] is a draw from a stream of naturals,
    reduced modulo [n]: every value below [n] is a possible outcome, and an
    exhausted stream yields [0]. *)
Record Globals := mkGlobals {
  GamePiece_nextId : nat;
  Player_nextId : nat;
  Math_random : list nat
}.

Definition randomBelow (n : nat) (G : Globals) : nat * Globals :=
  match Math_random G with
  | [] => (0%nat, G)
  | x :: rest =>
      ((x mod n)%nat, mkGlobals (GamePiece_nextId G) (Player_nextId G) rest)
  end.

Definition freshPieceId (G : Globals) : nat * Globals :=
  (GamePiece_nextId G,
   mkGlobals (S (GamePiece_nextId G)) (Player_nextId G) (Math_random G)).

Definition freshPlayerId (G : Globals) : nat * Globals :=
  (Player_nextId G,
   mkGlobals (GamePiece_nextId G) (S (Player_nextId G)) (Math_random G)).

(** ** References *)
Abbreviation HexKey := (Z * Z)%type (only parsing).
Abbreviation VertexKey := (Z * Z * Z)%type (only parsing).
Abbreviation EdgeKey := (Z * Z * Z)%type (only parsing).
Abbreviation PlayerRef := nat (only parsing).
Abbreviation TokenRef := nat (only parsing).

(** The value of [Hex.terrain]; [other_terrain] stands for any value that
    is none of the seven documented strings ([undefined] included). *)
Inductive Terrain :=
  forest | hills | mountains | fields | pasture | desert | sea | other_terrain.

#[global] Instance Terrain_eq_dec : EqDecision Terrain.
Proof. solve_decision. Defined.

(** ** Objects *)
Module NumberToken.
Record t := mk {
  value : Z;
  hex : option HexKey;
  probability : Z
}.
Definition set_hex (h : option HexKey) (self : t) : t :=
  mk (value self) h (probability self).
End NumberToken.

Module Hex.
Record t := mk {
  q : Z;
  r : Z;
  s : Z;
  terrain : Terrain;
  numberToken : option TokenRef;
  hasRobber : bool;
  vertices : list VertexKey;
  edges : list EdgeKey;
  neighbors : list HexKey
}.
Definition set_numberToken (x : option TokenRef) (h : t) : t :=
  mk (q h) (r h) (s h) (terrain h) x (hasRobber h)
     (vertices h) (edges h) (neighbors h).
Definition set_hasRobber (x : bool) (h : t) : t :=
  mk (q h) (r h) (s h) (terrain h) (numberToken h) x
     (vertices h) (edges h) (neighbors h).
Definition set_vertices (x : list VertexKey) (h : t) : t :=
  mk (q h) (r h) (s h) (terrain h) (numberToken h) (hasRobber h)
     x (edges h) (neighbors h).
Definition set_edges (x : list EdgeKey) (h : t) : t :=
  mk (q h) (r h) (s h) (terrain h) (numberToken h) (hasRobber h)
     (vertices h) x (neighbors h).
Definition set_neighbors (x : list HexKey) (h : t) : t :=
  mk (q h) (r h) (s h) (terrain h) (numberToken h) (hasRobber h)
     (vertices h) (edges h) x.
End Hex.

Module Settlement.
Record t := mk {
  id : nat;
  owner : PlayerRef;
  vertex : option VertexKey
}.
End Settlement.

Module City.
Record t := mk {
  id : nat;
  owner : PlayerRef;
  vertex : option VertexKey
}.
End City.

Module Road.
Record t := mk {
  id : nat;
  owner : PlayerRef;
  edge : option EdgeKey
}.
End Road.

Module Robber.
Record t := mk {
  id : nat;
  hex : option HexKey
}.
End Robber.

(** What a vertex holds in [building]: the [type] tag of the piece is the
    constructor. *)
Inductive Building :=
  | ASettlement (s : Settlement.t)
  | ACity (c : City.t).

Definition Building_owner (b : Building) : PlayerRef :=
  match b with
  | ASettlement s => Settlement.owner s
  | ACity c => City.owner c
  end.

Module Vertex.
Record t := mk {
  q : Z;
  r : Z;
  direction : Z;
  building : option Building;
  hexes : list HexKey;
  edges : list EdgeKey;
  adjacentVertices : list VertexKey
}.
Definition set_building (x : option Building) (v : t) : t :=
  mk (q v) (r v) (direction v) x (hexes v) (edges v) (adjacentVertices v).
Definition set_hexes (x : list HexKey) (v : t) : t :=
  mk (q v) (r v) (direction v) (building v) x (edges v) (adjacentVertices v).
Definition set_edges (x : list EdgeKey) (v : t) : t :=
  mk (q v) (r v) (direction v) (building v) (hexes v) x (adjacentVertices v).
End Vertex.

Module Edge.
Record t := mk {
  q : Z;
  r : Z;
  direction : Z;
  road : option Road.t;
  hexes : list HexKey;
  vertices : list VertexKey;
  adjacentEdges : list EdgeKey
}.
Definition set_road (x : option Road.t) (e : t) : t :=
  mk (q e) (r e) (direction e) x (hexes e) (vertices e) (adjacentEdges e).
Definition set_hexes (x : list HexKey) (e : t) : t :=
  mk (q e) (r e) (direction e) (road e) x (vertices e) (adjacentEdges e).
Definition set_vertices (x : list VertexKey) (e : t) : t :=
  mk (q e) (r e) (direction e) (road e) (hexes e) x (adjacentEdges e).
End Edge.

Inductive BoardType := standard | beginner | custom.

Module Board.
Record t := mk {
  hexes : list (HexKey * Hex.t);
  vertices : list (VertexKey * Vertex.t);
  edges : list (EdgeKey * Edge.t);
  numberTokens : list NumberToken.t;
  robber : Robber.t;
  isGenerated : bool;
  boardType : BoardType
}.
Definition set_hexes x (b : t) : t :=
  mk x (vertices b) (edges b) (numberTokens b) (robber b)
     (isGenerated b) (boardType b).
Definition set_vertices x (b : t) : t :=
  mk (hexes b) x (edges b) (numberTokens b) (robber b)
     (isGenerated b) (boardType b).
Definition set_edges x (b : t) : t :=
  mk (hexes b) (vertices b) x (numberTokens b) (robber b)
     (isGenerated b) (boardType b).
Definition set_numberTokens x (b : t) : t :=
  mk (hexes b) (vertices b) (edges b) x (robber b)
     (isGenerated b) (boardType b).
Definition set_robber x (b : t) : t :=
  mk (hexes b) (vertices b) (edges b) (numberTokens b) x
     (isGenerated b) (boardType b).
End Board.

(** ** Hex *)

(** [canProduceResources]: not desert, not sea, and a number token bound. *)
Definition Hex_canProduceResources (self : Hex.t) : bool :=
  negb (bool_decide (Hex.terrain self = desert))
  && negb (bool_decide (Hex.terrain self = sea))
  && match Hex.numberToken self with Some _ => true | None => false end.

Definition Hex_getResourceType (self : Hex.t) : option string :=
  match Hex.terrain self with
  | forest => Some "lumber"%string
  | hills => Some "brick"%string
  | mountains => Some "ore"%string
  | fields => Some "grain"%string
  | pasture => Some "wool"%string
  | _ => None
  end.

(** [shouldProduce(diceRoll)]; [diceRoll] is [None] when the caller passes
    no argument ([undefined]), and then no token value is strictly equal to
    it. *)
Definition Hex_shouldProduce (tokens : list NumberToken.t)
    (diceRoll : option Z) (self : Hex.t) : bool :=
  Hex_canProduceResources self
  && match Hex.numberToken self with
     | Some t =>
         match tokens !! t, diceRoll with
         | Some tok, Some d => bool_decide (NumberToken.value tok = d)
         | _, _ => false
         end
     | None => false
     end
  && negb (Hex.hasRobber self).

Definition Hex_new (q r : Z) (terrain : Terrain) : Hex.t :=
  Hex.mk q r (- q - r) terrain None false [] [] [].

(** ** NumberToken *)
Definition NumberToken_calculateProbability (value : Z) : Z :=
  match value with
  | 2 => 1 | 3 => 2 | 4 => 3 | 5 => 4 | 6 => 5 | 7 => 6
  | 8 => 5 | 9 => 4 | 10 => 3 | 11 => 2 | 12 => 1
  | _ => 0
  end.

Definition NumberToken_new (value : Z) : NumberToken.t :=
  NumberToken.mk value None (NumberToken_calculateProbability value).

Definition NumberToken_isHighProbability (self : NumberToken.t) : bool :=
  bool_decide (NumberToken.value self = 6)
  || bool_decide (NumberToken.value self = 8).

Definition NumberToken_createStandardSet : list NumberToken.t :=
  map NumberToken_new [2; 3; 3; 4; 4; 5; 5; 6; 6; 8; 8; 9; 9; 10; 10; 11; 11; 12].

(** [token.placeOnHex(hex)]: the previous hex of the token, if any, loses
    its token reference; the token and the new hex point at each other.
    [hex] is [None] for an [undefined] argument. *)
Definition NumberToken_placeOnHex (token : TokenRef) (hex : option HexKey)
    (b : Board.t) : Board.t :=
  match Board.numberTokens b !! token with
  | None => b
  | Some tok =>
      let hexes1 :=
        match NumberToken.hex tok with
        | Some old => JSMap.modify old (Hex.set_numberToken None) (Board.hexes b)
        | None => Board.hexes b
        end in
      let tokens1 :=
        <[token := NumberToken.set_hex hex tok]> (Board.numberTokens b) in
      let hexes2 :=
        match hex with
        | Some h => JSMap.modify h (Hex.set_numberToken (Some token)) hexes1
        | None => hexes1
        end in
      Board.set_numberTokens tokens1 (Board.set_hexes hexes2 b)
  end.

(** ** Robber *)
Definition Robber_new (G : Globals) : Robber.t * Globals :=
  let '(i, G1) := freshPieceId G in (Robber.mk i None, G1).

Definition Robber_moveTo (hex : option HexKey) (b : Board.t) : Board.t :=
  let rob := Board.robber b in
  let hexes1 :=
    match Robber.hex rob with
    | Some old => JSMap.modify old (Hex.set_hasRobber false) (Board.hexes b)
    | None => Board.hexes b
    end in
  let hexes2 :=
    match hex with
    | Some h => JSMap.modify h (Hex.set_hasRobber true) hexes1
    | None => hexes1
    end in
  Board.set_robber (Robber.mk (Robber.id rob) hex) (Board.set_hexes hexes2 b).

(** ** Board: topology *)
Definition Board_new (G : Globals) : Board.t * Globals :=
  let '(rob, G1) := Robber_new G in
  (Board.mk [] [] [] [] rob false standard, G1).

Definition Board_clear (b : Board.t) (G : Globals) : Board.t * Globals :=
  let '(rob, G1) := Robber_new G in
  (Board.mk [] [] [] [] rob false (Board.boardType b), G1).

Definition Board_addHex (hex : Hex.t) (b : Board.t) : Board.t :=
  Board.set_hexes (JSMap.set (Hex.q hex, Hex.r hex) hex (Board.hexes b)) b.

Definition Board_getHex (q r : Z) (b : Board.t) : option Hex.t :=
  JSMap.get (q, r) (Board.hexes b).

Definition vertexOffsets : list (Z * Z * Z) :=
  [(1, -1, 4); (1, 0, 5); (0, 1, 0); (-1, 1, 1); (-1, 0, 2); (0, -1, 3)].

Definition Board_getVertexCoords (hexQ hexR : Z) (direction : nat) : VertexKey :=
  let '(oq, or, od) := nth direction vertexOffsets (0, 0, 0) in
  (hexQ + oq, hexR + or, od).

Definition Board_getEdgeCoords (hexQ hexR : Z) (direction : nat) : EdgeKey :=
  (hexQ, hexR, Z.of_nat direction).

Definition Vertex_new (k : VertexKey) : Vertex.t :=
  let '(q, r, d) := k in Vertex.mk q r d None [] [] [].

Definition Edge_new (k : EdgeKey) : Edge.t :=
  let '(q, r, d) := k in Edge.mk q r d None [] [] [].

Definition directions : list nat := [0; 1; 2; 3; 4; 5]%nat.

Definition Board_createVerticesForHex (hex : HexKey) (b : Board.t) : Board.t :=
  fold_left (fun b direction =>
    let key := Board_getVertexCoords hex.1 hex.2 direction in
    let b1 :=
      if JSMap.has key (Board.vertices b) then b
      else Board.set_vertices (JSMap.set key (Vertex_new key) (Board.vertices b)) b in
    let b2 :=
      Board.set_hexes
        (JSMap.modify hex (fun h => Hex.set_vertices (Hex.vertices h ++ [key]) h)
           (Board.hexes b1)) b1 in
    Board.set_vertices
      (JSMap.modify key (fun v => Vertex.set_hexes (Vertex.hexes v ++ [hex]) v)
         (Board.vertices b2)) b2)
  directions b.

Definition Board_createEdgesForHex (hex : HexKey) (b : Board.t) : Board.t :=
  fold_left (fun b direction =>
    let key := Board_getEdgeCoords hex.1 hex.2 direction in
    let b1 :=
      if JSMap.has key (Board.edges b) then b
      else Board.set_edges (JSMap.set key (Edge_new key) (Board.edges b)) b in
    let b2 :=
      Board.set_hexes
        (JSMap.modify hex (fun h => Hex.set_edges (Hex.edges h ++ [key]) h)
           (Board.hexes b1)) b1 in
    Board.set_edges
      (JSMap.modify key (fun e => Edge.set_hexes (Edge.hexes e ++ [hex]) e)
         (Board.edges b2)) b2)
  directions b.

Definition neighborOffsets : list (Z * Z) :=
  [(1, -1); (1, 0); (0, 1); (-1, 1); (-1, 0); (0, -1)].

Definition includes {A} `{!EqDecision A} (x : A) (l : list A) : bool :=
  existsb (fun y => bool_decide (y = x)) l.

(** The entries of an array: each element with its index. *)
Definition entries {A} (l : list A) : list (nat * A) :=
  combine (seq 0 (length l)) l.

Definition Board_linkHexRelationships (hex : HexKey) (b : Board.t) : Board.t :=
  let b1 :=
    fold_left (fun b offset =>
      match Board_getHex (hex.1 + offset.1) (hex.2 + offset.2) b with
      | Some neighbor =>
          Board.set_hexes
            (JSMap.modify hex
               (fun h => Hex.set_neighbors
                  (Hex.neighbors h ++ [(Hex.q neighbor, Hex.r neighbor)]) h)
               (Board.hexes b)) b
      | None => b
      end) neighborOffsets b in
  match JSMap.get hex (Board.hexes b1) with
  | None => b1
  | Some h =>
      fold_left (fun b '(vertexIndex, vertex) =>
        let edgeIndices :=
          [((vertexIndex + 5) mod 6)%nat; vertexIndex; ((vertexIndex + 1) mod 6)%nat] in
        fold_left (fun b edgeIndex =>
          match Hex.edges h !! edgeIndex with
          | None => b
          | Some edge =>
              let b1 :=
                Board.set_vertices
                  (JSMap.modify vertex
                     (fun v => if includes edge (Vertex.edges v) then v
                               else Vertex.set_edges (Vertex.edges v ++ [edge]) v)
                     (Board.vertices b)) b in
              Board.set_edges
                (JSMap.modify edge
                   (fun e => if includes vertex (Edge.vertices e) then e
                             else Edge.set_vertices (Edge.vertices e ++ [vertex]) e)
                   (Board.edges b1)) b1
          end) edgeIndices b)
      (entries (Hex.vertices h)) b1
  end.

Definition Board_buildRelationships (b : Board.t) : Board.t :=
  let b1 :=
    fold_left (fun b hex =>
      Board_createEdgesForHex hex (Board_createVerticesForHex hex b))
    (JSMap.keys (Board.hexes b)) b in
  fold_left (fun b hex => Board_linkHexRelationships hex b)
    (JSMap.keys (Board.hexes b1)) b1.

(** ** Board: terrain and number tokens *)

(** [[a[i], a[j]] = [a[j], a[i]]]. *)
Definition swap {A} (i j : nat) (l : list A) : list A :=
  match l !! i, l !! j with
  | Some a, Some b => <[j := a]> (<[i := b]> l)
  | _, _ => l
  end.

(** The loop of [shuffleArray]: [for (i = n; i > 0; i--)]. *)
Fixpoint shuffleLoop {A} (i : nat) (shuffled : list A) (G : Globals)
    : list A * Globals :=
  match i with
  | O => (shuffled, G)
  | S i' =>
      let '(j, G1) := randomBelow (i + 1) G in
      shuffleLoop i' (swap i j shuffled) G1
  end.

Definition Board_shuffleArray {A} (array : list A) (G : Globals)
    : list A * Globals :=
  shuffleLoop (length array - 1) array G.

(** [array.indexOf(x)], [-1] when absent. *)
Fixpoint indexOf {A} `{!EqDecision A} (x : A) (l : list A) : Z :=
  match l with
  | [] => -1
  | y :: l' =>
      if decide (y = x) then 0
      else let i := indexOf x l' in if i <? 0 then -1 else i + 1
  end.

(** [array.splice(start, 1)], with JavaScript's treatment of a negative
    start. *)
Definition splice1 {A} (start : Z) (l : list A) : list A :=
  let len := Z.of_nat (length l) in
  let s := if start <? 0 then Z.max (len + start) 0 else Z.min start len in
  delete (Z.to_nat s) l.

(** [array.pop()]: the last element and the shortened array. *)
Definition pop {A} (l : list A) : option A * list A :=
  (last l, removelast l).

Definition hexLayout : list (Z * Z) :=
  [(-2, 0); (-1, -1); (0, -2);
   (-2, 1); (-1, 0); (0, -1); (1, -2);
   (-2, 2); (-1, 1); (0, 0); (1, -1); (2, -2);
   (-1, 2); (0, 1); (1, 0); (2, -1);
   (0, 2); (1, 1); (2, 0)].

Definition terrains : list Terrain :=
  [forest; forest; forest; forest;
   pasture; pasture; pasture; pasture;
   fields; fields; fields; fields;
   hills; hills; hills;
   mountains; mountains; mountains;
   desert].

(** [neighbor.numberToken && neighbor.numberToken.isHighProbability()] *)
Definition Hex_hasHighProbabilityToken (b : Board.t) (hex : HexKey) : bool :=
  match JSMap.get hex (Board.hexes b) with
  | Some h =>
      match Hex.numberToken h with
      | Some t =>
          match Board.numberTokens b !! t with
          | Some tok => NumberToken_isHighProbability tok
          | None => false
          end
      | None => false
      end
  | None => false
  end.

Definition Hex_neighbors (b : Board.t) (hex : HexKey) : list HexKey :=
  match JSMap.get hex (Board.hexes b) with
  | Some h => Hex.neighbors h
  | None => []
  end.

(** The hexes of [availableHexes] none of whose neighbours carries a 6 or
    an 8. *)
Definition validHexesFor (b : Board.t) (availableHexes : list HexKey)
    : list HexKey :=
  List.filter
    (fun hex => negb (existsb (Hex_hasHighProbabilityToken b)
                        (Hex_neighbors b hex)))
    availableHexes.

(** The body of the loop of [placeRedTokensWithConstraint], on the state
    made of [availableHexes], the board and the random source. *)
Definition placeRedToken (st : list HexKey * Board.t * Globals)
    (token : TokenRef) : list HexKey * Board.t * Globals :=
  let '(availableHexes, b, G) := st in
  let validHexes := validHexesFor b availableHexes in
  if (0 <? length validHexes)%nat then
    let '(randomIndex, G1) := randomBelow (length validHexes) G in
    let selectedHex := validHexes !! randomIndex in
    let b1 := NumberToken_placeOnHex token selectedHex b in
    let hexIndex :=
      match selectedHex with
      | Some h => indexOf h availableHexes
      | None => -1
      end in
    (splice1 hexIndex availableHexes, b1, G1)
  else if (0 <? length availableHexes)%nat then
    let '(h, rest) := pop availableHexes in
    (rest, NumberToken_placeOnHex token h b, G)
  else (availableHexes, b, G).

Definition Board_placeRedTokensWithConstraint (redTokens : list TokenRef)
    (hexes : list HexKey) (b : Board.t) (G : Globals) : Board.t * Globals :=
  let '(_, b', G') := fold_left placeRedToken redTokens (hexes, b, G) in
  (b', G').

Definition Hex_hasNumberToken (b : Board.t) (hex : HexKey) : bool :=
  match JSMap.get hex (Board.hexes b) with
  | Some h => match Hex.numberToken h with Some _ => true | None => false end
  | None => false
  end.

Definition Board_placeRemainingTokens (tokens : list TokenRef)
    (hexes : list HexKey) (b : Board.t) (G : Globals) : Board.t * Globals :=
  let availableHexes :=
    List.filter (fun hex => negb (Hex_hasNumberToken b hex)) hexes in
  let '(shuffledAvailable, G1) := Board_shuffleArray availableHexes G in
  (fold_left (fun b '(token, hex) => NumberToken_placeOnHex token (Some hex) b)
     (combine tokens shuffledAvailable) b, G1).

Definition Hex_terrainIs (b : Board.t) (t : Terrain) (hex : HexKey) : bool :=
  match JSMap.get hex (Board.hexes b) with
  | Some h => bool_decide (Hex.terrain h = t)
  | None => false
  end.

Definition tokenIsHighProbability (b : Board.t) (token : TokenRef) : bool :=
  match Board.numberTokens b !! token with
  | Some tok => NumberToken_isHighProbability tok
  | None => false
  end.

Definition Board_placeNumberTokens (b : Board.t) (G : Globals)
    : Board.t * Globals :=
  let b := Board.set_numberTokens NumberToken_createStandardSet b in
  let resourceHexes :=
    List.filter (fun hex => negb (Hex_terrainIs b desert hex))
      (JSMap.keys (Board.hexes b)) in
  let tokens := seq 0 (length (Board.numberTokens b)) in
  let redTokens := List.filter (tokenIsHighProbability b) tokens in
  let nonRedTokens :=
    List.filter (fun t => negb (tokenIsHighProbability b t)) tokens in
  let '(shuffledRedTokens, G1) := Board_shuffleArray redTokens G in
  let '(shuffledNonRedTokens, G2) := Board_shuffleArray nonRedTokens G1 in
  let '(b1, G3) :=
    Board_placeRedTokensWithConstraint shuffledRedTokens resourceHexes b G2 in
  Board_placeRemainingTokens shuffledNonRedTokens resourceHexes b1 G3.

Definition Board_placeRobberOnDesert (b : Board.t) : Board.t :=
  match find (Hex_terrainIs b desert) (JSMap.keys (Board.hexes b)) with
  | Some desertHex => Robber_moveTo (Some desertHex) b
  | None => b
  end.

(** The [hexLayout.forEach] of [generateStandardBoard]: one hex per
    coordinate, with the terrain found at the same index. *)
Definition createHexes (shuffledTerrains : list Terrain) (b : Board.t)
    : Board.t :=
  fold_left (fun b '(index, coord) =>
    Board_addHex
      (Hex_new coord.1 coord.2 (nth index shuffledTerrains other_terrain)) b)
    (entries hexLayout) b.

Definition Board_generateStandardBoard (b : Board.t) (G : Globals)
    : Board.t * Globals :=
  let '(b0, G0) := Board_clear b G in
  let '(shuffledTerrains, G1) := Board_shuffleArray terrains G0 in
  let b1 := createHexes shuffledTerrains b0 in
  let b2 := Board_buildRelationships b1 in
  let '(b3, G3) := Board_placeNumberTokens b2 G1 in
  let b4 := Board_placeRobberOnDesert b3 in
  (Board.mk (Board.hexes b4) (Board.vertices b4) (Board.edges b4)
     (Board.numberTokens b4) (Board.robber b4) true standard, G3).

Definition Board_getProducingHexes (diceRoll : option Z) (b : Board.t)
    : list HexKey :=
  map fst
    (List.filter (fun kh => Hex_shouldProduce (Board.numberTokens b) diceRoll kh.2)
       (Board.hexes b)).

(** ** Vertex *)
Definition Vertex_hasBuilding (b : Board.t) (vertex : VertexKey) : bool :=
  match JSMap.get vertex (Board.vertices b) with
  | Some v => match Vertex.building v with Some _ => true | None => false end
  | None => false
  end.

(** [canPlaceSettlement]: no building here and none on a vertex listed in
    [adjacentVertices]. *)
Definition Vertex_canPlaceSettlement (b : Board.t) (self : Vertex.t) : bool :=
  match Vertex.building self with
  | Some _ => false
  | None =>
      forallb (fun adjacentVertex => negb (Vertex_hasBuilding b adjacentVertex))
        (Vertex.adjacentVertices self)
  end.

Definition Vertex_canPlaceCity (player : PlayerRef) (self : Vertex.t) : bool :=
  match Vertex.building self with
  | Some (ASettlement s) => bool_decide (Settlement.owner s = player)
  | _ => false
  end.

(** [vertex.placeSettlement(settlement)]; the settlement ends up pointing at
    the vertex. *)
Definition Vertex_placeSettlement (settlement : Settlement.t)
    (vertex : VertexKey) (b : Board.t) : bool * Board.t :=
  match JSMap.get vertex (Board.vertices b) with
  | None => (false, b)
  | Some v =>
      if Vertex_canPlaceSettlement b v then
        let placed :=
          Settlement.mk (Settlement.id settlement) (Settlement.owner settlement)
            (Some vertex) in
        (true,
         Board.set_vertices
           (JSMap.modify vertex (Vertex.set_building (Some (ASettlement placed)))
              (Board.vertices b)) b)
      else (false, b)
  end.

(** [vertex.upgradeToCity(city)]: the old settlement, or [None]. *)
Definition Vertex_upgradeToCity (city : City.t) (vertex : VertexKey)
    (b : Board.t) : option Settlement.t * Board.t :=
  match JSMap.get vertex (Board.vertices b) with
  | None => (None, b)
  | Some v =>
      if Vertex_canPlaceCity (City.owner city) v then
        match Vertex.building v with
        | Some (ASettlement oldSettlement) =>
            let placed :=
              City.mk (City.id city) (City.owner city) (Some vertex) in
            (Some oldSettlement,
             Board.set_vertices
               (JSMap.modify vertex (Vertex.set_building (Some (ACity placed)))
                  (Board.vertices b)) b)
        | _ => (None, b)
        end
      else (None, b)
  end.

(** ** Edge *)
Definition Vertex_buildingOwnedBy (b : Board.t) (player : PlayerRef)
    (vertex : VertexKey) : bool :=
  match JSMap.get vertex (Board.vertices b) with
  | Some v =>
      match Vertex.building v with
      | Some bd => bool_decide (Building_owner bd = player)
      | None => false
      end
  | None => false
  end.

Definition Edge_roadOwnedBy (b : Board.t) (player : PlayerRef)
    (edge : EdgeKey) : bool :=
  match JSMap.get edge (Board.edges b) with
  | Some e =>
      match Edge.road e with
      | Some rd => bool_decide (Road.owner rd = player)
      | None => false
      end
  | None => false
  end.

Definition Edge_canPlaceRoad (b : Board.t) (player : PlayerRef)
    (self : Edge.t) : bool :=
  match Edge.road self with
  | Some _ => false
  | None =>
      existsb (Vertex_buildingOwnedBy b player) (Edge.vertices self)
      || existsb (Edge_roadOwnedBy b player) (Edge.adjacentEdges self)
  end.

Definition Edge_placeRoad (road : Road.t) (edge : EdgeKey) (b : Board.t)
    : bool * Board.t :=
  match JSMap.get edge (Board.edges b) with
  | None => (false, b)
  | Some e =>
      if Edge_canPlaceRoad b (Road.owner road) e then
        let placed := Road.mk (Road.id road) (Road.owner road) (Some edge) in
        (true,
         Board.set_edges
           (JSMap.modify edge (Edge.set_road (Some placed)) (Board.edges b)) b)
      else (false, b)
  end.

(** A vertex that holds a building of another player. *)
Definition Vertex_blockedFor (b : Board.t) (player : PlayerRef)
    (vertex : VertexKey) : bool :=
  match JSMap.get vertex (Board.vertices b) with
  | Some v =>
      match Vertex.building v with
      | Some bd => negb (bool_decide (Building_owner bd = player))
      | None => false
      end
  | None => false
  end.

Definition Vertex_edges (b : Board.t) (vertex : VertexKey) : list EdgeKey :=
  match JSMap.get vertex (Board.vertices b) with
  | Some v => Vertex.edges v
  | None => []
  end.

Definition Edge_vertices (b : Board.t) (edge : EdgeKey) : list VertexKey :=
  match JSMap.get edge (Board.edges b) with
  | Some e => Edge.vertices e
  | None => []
  end.

(** [edge.getRoadLength(player, visited)].  The set [visited] is shared by
    all the recursive calls, so it is threaded through them; the recursion
    is bounded by [fuel], and [None] means the bound was too small. *)
Fixpoint Edge_getRoadLength (fuel : nat) (b : Board.t) (player : PlayerRef)
    (self : EdgeKey) (visited : list EdgeKey) : option (nat * list EdgeKey) :=
  match fuel with
  | O => None
  | S fuel' =>
      if includes self visited then Some (0%nat, visited)
      else if negb (Edge_roadOwnedBy b player self) then Some (0%nat, visited)
      else
        let visited := visited ++ [self] in
        let result :=
          fold_left (fun acc vertex =>
            if Vertex_blockedFor b player vertex then acc
            else
              fold_left (fun acc edge =>
                match acc with
                | None => None
                | Some (maxLength, visited) =>
                    if negb (bool_decide (edge = self))
                       && Edge_roadOwnedBy b player edge
                    then
                      match Edge_getRoadLength fuel' b player edge visited with
                      | Some (len, visited') =>
                          Some (Nat.max maxLength len, visited')
                      | None => None
                      end
                    else acc
                end) (Vertex_edges b vertex) acc)
            (Edge_vertices b self) (Some (0%nat, visited)) in
        match result with
        | Some (maxLength, visited') => Some (S maxLength, visited')
        | None => None
        end
  end.

(** ** Pieces *)
Definition Settlement_new (owner : PlayerRef) (G : Globals)
    : Settlement.t * Globals :=
  let '(i, G1) := freshPieceId G in (Settlement.mk i owner None, G1).

Definition City_new (owner : PlayerRef) (G : Globals) : City.t * Globals :=
  let '(i, G1) := freshPieceId G in (City.mk i owner None, G1).

Definition Road_new (owner : PlayerRef) (G : Globals) : Road.t * Globals :=
  let '(i, G1) := freshPieceId G in (Road.mk i owner None, G1).

Definition Settlement_placeOn (self : Settlement.t) (vertex : VertexKey)
    (b : Board.t) : bool * Settlement.t * Board.t :=
  let '(ok, b1) := Vertex_placeSettlement self vertex b in
  if ok then
    (true, Settlement.mk (Settlement.id self) (Settlement.owner self) (Some vertex), b1)
  else (false, self, b).

Definition City_placeOn (self : City.t) (vertex : VertexKey) (b : Board.t)
    : option Settlement.t * City.t * Board.t :=
  let '(oldSettlement, b1) := Vertex_upgradeToCity self vertex b in
  match oldSettlement with
  | Some old =>
      (Some old, City.mk (City.id self) (City.owner self) (Some vertex), b1)
  | None => (None, self, b)
  end.

Definition Road_placeOn (self : Road.t) (edge : EdgeKey) (b : Board.t)
    : bool * Road.t * Board.t :=
  let '(ok, b1) := Edge_placeRoad self edge b in
  if ok then (true, Road.mk (Road.id self) (Road.owner self) (Some edge), b1)
  else (false, self, b).

(** The resources one hex gives to a building next to it on [diceRoll]. *)
Definition Hex_yield (b : Board.t) (diceRoll : option Z) (hex : HexKey)
    : list string :=
  match JSMap.get hex (Board.hexes b) with
  | Some h =>
      if Hex_shouldProduce (Board.numberTokens b) diceRoll h then
        match Hex_getResourceType h with
        | Some resourceType => [resourceType]
        | None => []
        end
      else []
  | None => []
  end.

Definition Vertex_hexes (b : Board.t) (vertex : VertexKey) : list HexKey :=
  match JSMap.get vertex (Board.vertices b) with
  | Some v => Vertex.hexes v
  | None => []
  end.

(** [collectResources(diceRoll)].  A piece holds the Vertex object it was
    placed on; here it holds the key of that vertex, which is read on the
    board at hand.  The two agree while the board stores that object under
    the key, that is for every piece placed since the board was last
    generated: [generateStandardBoard] drops the vertices and hexes of the
    board before, and the pieces placed on them keep them. *)
Definition Settlement_collectResources (b : Board.t) (diceRoll : option Z)
    (self : Settlement.t) : list string :=
  match Settlement.vertex self with
  | Some vertex => flat_map (Hex_yield b diceRoll) (Vertex_hexes b vertex)
  | None => []
  end.

(** A city pushes each resource twice.  The vertex is read as for a
    settlement, and agrees with the object the city holds under the same
    condition. *)
Definition City_collectResources (b : Board.t) (diceRoll : option Z)
    (self : City.t) : list string :=
  match City.vertex self with
  | Some vertex =>
      flat_map (fun hex => flat_map (fun r => [r; r]) (Hex_yield b diceRoll hex))
        (Vertex_hexes b vertex)
  | None => []
  end.

Definition Road_getRoadNetworkLength (fuel : nat) (b : Board.t) (self : Road.t)
    : option nat :=
  match Road.edge self with
  | Some edge =>
      match Edge_getRoadLength fuel b (Road.owner self) edge [] with
      | Some (len, _) => Some len
      | None => None
      end
  | None => Some 0%nat
  end.

(** ** Player *)
Module DevelopmentCards.
Record t := mk {
  knight : Z;
  roadBuilding : Z;
  yearOfPlenty : Z;
  monopoly : Z;
  victoryPoint : Z
}.
End DevelopmentCards.

Module Player.
(** [payForOverridden] records that the instance method [payFor] has been
    replaced by [() => true].  The trade ratios and the per-player turn
    flags, which no operation of the engine reads, are left out. *)
Record t := mk {
  id : PlayerRef;
  color : string;
  name : string;
  settlements : list Settlement.t;
  cities : list City.t;
  roads : list Road.t;
  settlementsRemaining : Z;
  citiesRemaining : Z;
  roadsRemaining : Z;
  resources : list (string * Z);
  developmentCards : DevelopmentCards.t;
  victoryPoints : Z;
  knightsPlayed : Z;
  hasLongestRoad : bool;
  hasLargestArmy : bool;
  payForOverridden : bool
}.
Definition set_resources x (p : t) : t :=
  mk (id p) (color p) (name p) (settlements p) (cities p) (roads p)
     (settlementsRemaining p) (citiesRemaining p) (roadsRemaining p)
     x (developmentCards p) (victoryPoints p) (knightsPlayed p)
     (hasLongestRoad p) (hasLargestArmy p) (payForOverridden p).
Definition set_victoryPoints x (p : t) : t :=
  mk (id p) (color p) (name p) (settlements p) (cities p) (roads p)
     (settlementsRemaining p) (citiesRemaining p) (roadsRemaining p)
     (resources p) (developmentCards p) x (knightsPlayed p)
     (hasLongestRoad p) (hasLargestArmy p) (payForOverridden p).
Definition set_payForOverridden x (p : t) : t :=
  mk (id p) (color p) (name p) (settlements p) (cities p) (roads p)
     (settlementsRemaining p) (citiesRemaining p) (roadsRemaining p)
     (resources p) (developmentCards p) (victoryPoints p) (knightsPlayed p)
     (hasLongestRoad p) (hasLargestArmy p) x.
Definition set_settlements x n (p : t) : t :=
  mk (id p) (color p) (name p) x (cities p) (roads p)
     n (citiesRemaining p) (roadsRemaining p)
     (resources p) (developmentCards p) (victoryPoints p) (knightsPlayed p)
     (hasLongestRoad p) (hasLargestArmy p) (payForOverridden p).
Definition set_cities x n (p : t) : t :=
  mk (id p) (color p) (name p) (settlements p) x (roads p)
     (settlementsRemaining p) n (roadsRemaining p)
     (resources p) (developmentCards p) (victoryPoints p) (knightsPlayed p)
     (hasLongestRoad p) (hasLargestArmy p) (payForOverridden p).
Definition set_roads x n (p : t) : t :=
  mk (id p) (color p) (name p) (settlements p) (cities p) x
     (settlementsRemaining p) (citiesRemaining p) n
     (resources p) (developmentCards p) (victoryPoints p) (knightsPlayed p)
     (hasLongestRoad p) (hasLargestArmy p) (payForOverridden p).
End Player.

Definition Player_new (color : string) (name : option string) (G : Globals)
    : Player.t * Globals :=
  let '(i, G1) := freshPlayerId G in
  (Player.mk i color
     (match name with
      | Some n => if decide (n = ""%string) then String.append "Player " color else n
      | None => String.append "Player " color
      end)
     [] [] [] 5 4 15
     [("lumber", 0); ("brick", 0); ("ore", 0); ("grain", 0); ("wool", 0)]%string
     (DevelopmentCards.mk 0 0 0 0 0) 0 0 false false false, G1).

(** [addResources(resourceType, amount)].  Counters and amounts are
    JavaScript numbers; the integers of the model agree with them for whole
    numbers as long as no counter leaves the range of [2 ^ 53] in which
    doubles are exact. *)
Definition Player_addResources (resourceType : string) (amount : Z)
    (self : Player.t) : Player.t :=
  match JSMap.get resourceType (Player.resources self) with
  | Some v =>
      Player.set_resources
        (JSMap.set resourceType (v + amount) (Player.resources self)) self
  | None => self
  end.

Definition Player_removeResources (resourceType : string) (amount : Z)
    (self : Player.t) : bool * Player.t :=
  match JSMap.get resourceType (Player.resources self) with
  | Some v =>
      (true,
       Player.set_resources
         (JSMap.set resourceType (Z.max 0 (v - amount)) (Player.resources self))
         self)
  | None => (false, self)
  end.

Definition Player_getTotalResources (self : Player.t) : Z :=
  fold_left (fun sum count => sum + count) (JSMap.values (Player.resources self)) 0.

(** The property names that every object literal inherits from
    [Object.prototype]. *)
Definition Object_prototype_keys : list string :=
  ["constructor"; "hasOwnProperty"; "isPrototypeOf"; "propertyIsEnumerable";
   "toLocaleString"; "toString"; "valueOf"; "__proto__";
   "__defineGetter__"; "__defineSetter__"; "__lookupGetter__";
   "__lookupSetter__"]%string.

(** [costs[buildingType]], with [None] for a value that is not truthy.  The
    table is an object literal: under an inherited name the lookup finds a
    function (or, for [__proto__], the prototype), which is truthy and has
    no entries of its own for [Object.entries] to list. *)
Definition costs (buildingType : string) : option (list (string * Z)) :=
  if decide (buildingType = "road"%string) then
    Some [("lumber", 1); ("brick", 1)]%string
  else if decide (buildingType = "settlement"%string) then
    Some [("lumber", 1); ("brick", 1); ("wool", 1); ("grain", 1)]%string
  else if decide (buildingType = "city"%string) then
    Some [("ore", 3); ("grain", 2)]%string
  else if decide (buildingType = "developmentCard"%string) then
    Some [("ore", 1); ("wool", 1); ("grain", 1)]%string
  else if bool_decide (buildingType ∈ Object_prototype_keys) then Some []
  else None.

(** [canAfford]: a comparison with a missing counter ([undefined < amount])
    is false and so does not reject. *)
Definition Player_canAfford (buildingType : string) (self : Player.t) : bool :=
  match costs buildingType with
  | None => false
  | Some cost =>
      forallb (fun '(resource, amount) =>
        match JSMap.get resource (Player.resources self) with
        | Some v => negb (v <? amount)
        | None => true
        end) cost
  end.

(** The method [payFor] as the class defines it. *)
Definition Player_payFor_original (buildingType : string) (self : Player.t)
    : bool * Player.t :=
  if negb (Player_canAfford buildingType self) then (false, self)
  else
    match costs buildingType with
    | Some cost =>
        (true,
         fold_left (fun p '(resource, amount) =>
           (Player_removeResources resource amount p).2) cost self)
    | None => (true, self)
    end.

(** [this.payFor(...)]: the instance property shadows the method once it
    has been assigned. *)
Definition Player_payFor (buildingType : string) (self : Player.t)
    : bool * Player.t :=
  if Player.payForOverridden self then (true, self)
  else Player_payFor_original buildingType self.

Definition Player_updateVictoryPoints (self : Player.t) : Z * Player.t :=
  let points := 0 in
  let points := points + Z.of_nat (length (Player.settlements self)) * 1 in
  let points := points + Z.of_nat (length (Player.cities self)) * 2 in
  let points :=
    points + DevelopmentCards.victoryPoint (Player.developmentCards self) in
  let points := if Player.hasLongestRoad self then points + 2 else points in
  let points := if Player.hasLargestArmy self then points + 2 else points in
  (points, Player.set_victoryPoints points self).

Definition Player_buildSettlement (vertex : VertexKey) (self : Player.t)
    (b : Board.t) (G : Globals)
    : option Settlement.t * Player.t * Board.t * Globals :=
  if negb (Player_canAfford "settlement" self)
     || (Player.settlementsRemaining self <=? 0)
  then (None, self, b, G)
  else
    let '(settlement, G1) := Settlement_new (Player.id self) G in
    let '(ok, settlement1, b1) := Settlement_placeOn settlement vertex b in
    if ok then
      let p1 := (Player_payFor "settlement" self).2 in
      let p2 :=
        Player.set_settlements (Player.settlements p1 ++ [settlement1])
          (Player.settlementsRemaining p1 - 1) p1 in
      let p3 := (Player_updateVictoryPoints p2).2 in
      (Some settlement1, p3, b1, G1)
    else (None, self, b, G1).

(** [settlements.indexOf(old)] followed by [splice(index, 1)] when found;
    pieces are compared by identity, that is by serial number. *)
Fixpoint removeSettlement (old : Settlement.t) (l : list Settlement.t)
    : list Settlement.t :=
  match l with
  | [] => []
  | s :: l' =>
      if decide (Settlement.id s = Settlement.id old) then l'
      else s :: removeSettlement old l'
  end.

Definition Player_buildCity (vertex : VertexKey) (self : Player.t)
    (b : Board.t) (G : Globals)
    : option (City.t * Settlement.t) * Player.t * Board.t * Globals :=
  if negb (Player_canAfford "city" self) || (Player.citiesRemaining self <=? 0)
  then (None, self, b, G)
  else
    let '(city, G1) := City_new (Player.id self) G in
    let '(oldSettlement, city1, b1) := City_placeOn city vertex b in
    match oldSettlement with
    | Some old =>
        let p1 := (Player_payFor "city" self).2 in
        let p2 :=
          Player.set_cities (Player.cities p1 ++ [city1])
            (Player.citiesRemaining p1 - 1) p1 in
        let p3 :=
          Player.set_settlements (Player.settlements p2)
            (Player.settlementsRemaining p2 + 1) p2 in
        let p4 :=
          Player.set_settlements (removeSettlement old (Player.settlements p3))
            (Player.settlementsRemaining p3) p3 in
        let p5 := (Player_updateVictoryPoints p4).2 in
        (Some (city1, old), p5, b1, G1)
    | None => (None, self, b, G1)
    end.

Definition Player_buildRoad (edge : EdgeKey) (self : Player.t)
    (b : Board.t) (G : Globals)
    : option Road.t * Player.t * Board.t * Globals :=
  if negb (Player_canAfford "road" self) || (Player.roadsRemaining self <=? 0)
  then (None, self, b, G)
  else
    let '(road, G1) := Road_new (Player.id self) G in
    let '(ok, road1, b1) := Road_placeOn road edge b in
    if ok then
      let p1 := (Player_payFor "road" self).2 in
      let p2 :=
        Player.set_roads (Player.roads p1 ++ [road1])
          (Player.roadsRemaining p1 - 1) p1 in
      (Some road1, p2, b1, G1)
    else (None, self, b, G1).

Definition Player_getLongestRoadLength (fuel : nat) (b : Board.t)
    (self : Player.t) : option nat :=
  fold_left (fun acc road =>
    match acc, Road_getRoadNetworkLength fuel b road with
    | Some maxLength, Some len => Some (Nat.max maxLength len)
    | _, _ => None
    end) (Player.roads self) (Some 0%nat).

Definition Player_collectFromDiceRoll (b : Board.t) (diceRoll : option Z)
    (self : Player.t) : list string * Player.t :=
  let collect (acc : list string * Player.t) (resources : list string) :=
    fold_left (fun '(collected, p) resource =>
      (collected ++ [resource], Player_addResources resource 1 p))
      resources acc in
  let acc1 :=
    fold_left (fun acc settlement =>
      collect acc (Settlement_collectResources b diceRoll settlement))
      (Player.settlements self) ([], self) in
  fold_left (fun acc city =>
    collect acc (City_collectResources b diceRoll city))
    (Player.cities self) acc1.

(** One pass of the [for] loop inside [discardHalf]. *)
Definition discardPass (resourceTypes : list string)
    (st : Player.t * list string * Z) : Player.t * list string * Z :=
  fold_left (fun '(p, discarded, remaining) resourceType =>
    if remaining <=? 0 then (p, discarded, remaining)
    else
      match JSMap.get resourceType (Player.resources p) with
      | Some v =>
          if 0 <? v then
            ((Player_removeResources resourceType 1 p).2,
             discarded ++ [resourceType], remaining - 1)
          else (p, discarded, remaining)
      | None => (p, discarded, remaining)
      end) resourceTypes st.

(** The [while (remaining > 0)] loop, bounded by [fuel]. *)
Fixpoint discardLoop (fuel : nat) (resourceTypes : list string)
    (st : Player.t * list string * Z) : option (Player.t * list string * Z) :=
  if st.2 <=? 0 then Some st
  else
    match fuel with
    | O => None
    | S fuel' => discardLoop fuel' resourceTypes (discardPass resourceTypes st)
    end.

(** [discardHalf]: [None] only if the loop does not come to an end within
    [toDiscard] passes (it always does on a well-formed ledger, see
    [Player_discardHalf_total]). *)
Definition Player_discardHalf (self : Player.t)
    : option (list string * Player.t) :=
  let total := Player_getTotalResources self in
  if total <=? 7 then Some ([], self)
  else
    let toDiscard := total / 2 in
    match discardLoop (Z.to_nat toDiscard) (JSMap.keys (Player.resources self))
            (self, [], toDiscard) with
    | Some (p, discarded, _) => Some (discarded, p)
    | None => None
    end.

(** ** Game *)
Inductive GamePhase := waiting | setup | playing | finished.

#[global] Instance GamePhase_eq_dec : EqDecision GamePhase.
Proof. solve_decision. Defined.

Module Dice.
Record t := mk { lastRoll : option Z }.
End Dice.

Definition Dice_roll (G : Globals) : Z * Dice.t * Globals :=
  let '(x, G1) := randomBelow 6 G in
  let v := Z.of_nat x + 1 in
  (v, Dice.mk (Some v), G1).

Module DiceResult.
Record t := mk { die1 : Z; die2 : Z; total : Z }.
End DiceResult.

(** The texts of the log, with the interpolated values kept as data. *)
Inductive Message :=
  | MsgJoined (name : string)
  | MsgGameStarted
  | MsgPlacedSettlement (name : string) (vertex : VertexKey)
  | MsgPlacedRoad (name : string) (edge : EdgeKey)
  | MsgRolled (name : option string) (total die1 die2 : Z)
  | MsgDiscarded (name : string) (count : nat)
  | MsgRobberActivated
  | MsgCollected (name : string) (collected : list string)
  | MsgSetupComplete
  | MsgTurn (turnNumber : Z) (name : option string)
  | MsgWins (name : string) (victoryPoints : Z)
  | MsgRobberMoved (terrain : option Terrain).

Module Event.
Record t := mk {
  turn : Z;
  phase : GamePhase;
  player : option string;
  message : Message
}.
End Event.

Module Game.
Record t := mk {
  board : Board.t;
  players : list Player.t;
  dice : list Dice.t;
  gamePhase : GamePhase;
  currentPlayerIndex : Z;
  turnNumber : Z;
  setupRound : Z;
  setupDirection : Z;
  hasRolledDice : bool;
  diceResult : option DiceResult.t;
  canBuild : bool;
  canTrade : bool;
  eventLog : list Event.t;
  winner : option PlayerRef;
  targetVictoryPoints : Z;
  maxPlayers : Z
}.
Definition set_board x (g : t) : t :=
  mk x (players g) (dice g) (gamePhase g) (currentPlayerIndex g)
     (turnNumber g) (setupRound g) (setupDirection g) (hasRolledDice g)
     (diceResult g) (canBuild g) (canTrade g) (eventLog g) (winner g)
     (targetVictoryPoints g) (maxPlayers g).
Definition set_players x (g : t) : t :=
  mk (board g) x (dice g) (gamePhase g) (currentPlayerIndex g)
     (turnNumber g) (setupRound g) (setupDirection g) (hasRolledDice g)
     (diceResult g) (canBuild g) (canTrade g) (eventLog g) (winner g)
     (targetVictoryPoints g) (maxPlayers g).
Definition set_dice x (g : t) : t :=
  mk (board g) (players g) x (gamePhase g) (currentPlayerIndex g)
     (turnNumber g) (setupRound g) (setupDirection g) (hasRolledDice g)
     (diceResult g) (canBuild g) (canTrade g) (eventLog g) (winner g)
     (targetVictoryPoints g) (maxPlayers g).
Definition set_gamePhase x (g : t) : t :=
  mk (board g) (players g) (dice g) x (currentPlayerIndex g)
     (turnNumber g) (setupRound g) (setupDirection g) (hasRolledDice g)
     (diceResult g) (canBuild g) (canTrade g) (eventLog g) (winner g)
     (targetVictoryPoints g) (maxPlayers g).
Definition set_currentPlayerIndex x (g : t) : t :=
  mk (board g) (players g) (dice g) (gamePhase g) x
     (turnNumber g) (setupRound g) (setupDirection g) (hasRolledDice g)
     (diceResult g) (canBuild g) (canTrade g) (eventLog g) (winner g)
     (targetVictoryPoints g) (maxPlayers g).
Definition set_turnNumber x (g : t) : t :=
  mk (board g) (players g) (dice g) (gamePhase g) (currentPlayerIndex g)
     x (setupRound g) (setupDirection g) (hasRolledDice g)
     (diceResult g) (canBuild g) (canTrade g) (eventLog g) (winner g)
     (targetVictoryPoints g) (maxPlayers g).
Definition set_setupRound round direction (g : t) : t :=
  mk (board g) (players g) (dice g) (gamePhase g) (currentPlayerIndex g)
     (turnNumber g) round direction (hasRolledDice g)
     (diceResult g) (canBuild g) (canTrade g) (eventLog g) (winner g)
     (targetVictoryPoints g) (maxPlayers g).
(** The four fields of the turn state. *)
Definition set_turnState rolled result build trade (g : t) : t :=
  mk (board g) (players g) (dice g) (gamePhase g) (currentPlayerIndex g)
     (turnNumber g) (setupRound g) (setupDirection g) rolled
     result build trade (eventLog g) (winner g)
     (targetVictoryPoints g) (maxPlayers g).
Definition set_eventLog x (g : t) : t :=
  mk (board g) (players g) (dice g) (gamePhase g) (currentPlayerIndex g)
     (turnNumber g) (setupRound g) (setupDirection g) (hasRolledDice g)
     (diceResult g) (canBuild g) (canTrade g) x (winner g)
     (targetVictoryPoints g) (maxPlayers g).
Definition set_winner x (g : t) : t :=
  mk (board g) (players g) (dice g) (gamePhase g) (currentPlayerIndex g)
     (turnNumber g) (setupRound g) (setupDirection g) (hasRolledDice g)
     (diceResult g) (canBuild g) (canTrade g) (eventLog g) x
     (targetVictoryPoints g) (maxPlayers g).
End Game.

Definition Game_new (G : Globals) : Game.t * Globals :=
  let '(b, G1) := Board_new G in
  (Game.mk b [] [Dice.mk None; Dice.mk None] waiting 0 0 1 1 false None
     false false [] None 10 6, G1).

(** [array[index]] for a numeric index that may be negative. *)
Definition at_index {A} (l : list A) (index : Z) : option A :=
  if index <? 0 then None else l !! Z.to_nat index.

Definition Game_getCurrentPlayer (g : Game.t) : option Player.t :=
  at_index (Game.players g) (Game.currentPlayerIndex g).

Definition Game_logEvent (message : Message) (g : Game.t) : Game.t :=
  Game.set_eventLog
    (Game.eventLog g ++
     [Event.mk (Game.turnNumber g) (Game.gamePhase g)
        (option_map Player.name (Game_getCurrentPlayer g)) message]) g.

Definition Game_addPlayer (color : string) (name : option string)
    (g : Game.t) (G : Globals) : option Player.t * Game.t * Globals :=
  if Game.maxPlayers g <=? Z.of_nat (length (Game.players g)) then (None, g, G)
  else if negb (bool_decide (Game.gamePhase g = waiting)) then (None, g, G)
  else
    let '(player, G1) := Player_new color name G in
    let g1 := Game.set_players (Game.players g ++ [player]) g in
    (Some player, Game_logEvent (MsgJoined (Player.name player)) g1, G1).

Definition Game_startGame (g : Game.t) (G : Globals)
    : bool * Game.t * Globals :=
  if (length (Game.players g) <? 2)%nat then (false, g, G)
  else
    let '(b, G1) := Board_generateStandardBoard (Game.board g) G in
    let g1 := Game.set_board b g in
    let g2 := Game.set_gamePhase setup g1 in
    let g3 := Game.set_currentPlayerIndex 0 g2 in
    (true, Game_logEvent MsgGameStarted g3, G1).

(** The player argument of a placement is a position in [players];
    [None] stands for the omitted argument, which selects the current
    player. *)
Definition Game_resolvePlayer (player : option nat) (g : Game.t) : option nat :=
  match player with
  | Some i => Some i
  | None =>
      if Game.currentPlayerIndex g <? 0 then None
      else Some (Z.to_nat (Game.currentPlayerIndex g))
  end.

Definition Game_placeSetupSettlement (vertex : VertexKey) (player : nat)
    (g : Game.t) (G : Globals) : option Settlement.t * Game.t * Globals :=
  match Game.players g !! player, JSMap.get vertex (Board.vertices (Game.board g)) with
  | Some p, Some v =>
      if negb (Vertex_canPlaceSettlement (Game.board g) v) then (None, g, G)
      else
        let '(settlement, p1, b1, G1) :=
          Player_buildSettlement vertex p (Game.board g) G in
        match settlement with
        | Some s =>
            let p2 := Player.set_payForOverridden true p1 in
            let p3 :=
              if bool_decide (Game.setupRound g = 2) then
                fold_left (fun p resource => Player_addResources resource 1 p)
                  (Settlement_collectResources b1 None s) p2
              else p2 in
            let g1 :=
              Game.set_players (<[player := p3]> (Game.players g))
                (Game.set_board b1 g) in
            (Some s,
             Game_logEvent (MsgPlacedSettlement (Player.name p3) vertex) g1, G1)
        | None =>
            (None,
             Game.set_players (<[player := p1]> (Game.players g))
               (Game.set_board b1 g), G1)
        end
  | _, _ => (None, g, G)
  end.

Definition Game_placeNormalSettlement (vertex : VertexKey) (player : nat)
    (g : Game.t) (G : Globals) : option Settlement.t * Game.t * Globals :=
  if negb (Game.canBuild g) || negb (Game.hasRolledDice g) then (None, g, G)
  else
    match Game.players g !! player with
    | Some p =>
        let '(settlement, p1, b1, G1) :=
          Player_buildSettlement vertex p (Game.board g) G in
        (settlement,
         Game.set_players (<[player := p1]> (Game.players g))
           (Game.set_board b1 g), G1)
    | None => (None, g, G)
    end.

Definition Game_placeSettlement (vertex : VertexKey) (player : option nat)
    (g : Game.t) (G : Globals) : option Settlement.t * Game.t * Globals :=
  match Game_resolvePlayer player g with
  | None => (None, g, G)
  | Some player =>
      match Game.gamePhase g with
      | setup => Game_placeSetupSettlement vertex player g G
      | playing => Game_placeNormalSettlement vertex player g G
      | _ => (None, g, G)
      end
  end.

Definition Game_placeSetupRoad (edge : EdgeKey) (player : nat)
    (g : Game.t) (G : Globals) : option Road.t * Game.t * Globals :=
  match Game.players g !! player with
  | Some p =>
      let '(road, p1, b1, G1) := Player_buildRoad edge p (Game.board g) G in
      match road with
      | Some rd =>
          let p2 := Player.set_payForOverridden true p1 in
          let g1 :=
            Game.set_players (<[player := p2]> (Game.players g))
              (Game.set_board b1 g) in
          (Some rd, Game_logEvent (MsgPlacedRoad (Player.name p2) edge) g1, G1)
      | None =>
          (None,
           Game.set_players (<[player := p1]> (Game.players g))
             (Game.set_board b1 g), G1)
      end
  | None => (None, g, G)
  end.

Definition Game_placeNormalRoad (edge : EdgeKey) (player : nat)
    (g : Game.t) (G : Globals) : option Road.t * Game.t * Globals :=
  if negb (Game.canBuild g) || negb (Game.hasRolledDice g) then (None, g, G)
  else
    match Game.players g !! player with
    | Some p =>
        let '(road, p1, b1, G1) := Player_buildRoad edge p (Game.board g) G in
        (road,
         Game.set_players (<[player := p1]> (Game.players g))
           (Game.set_board b1 g), G1)
    | None => (None, g, G)
    end.

Definition Game_placeRoad (edge : EdgeKey) (player : option nat)
    (g : Game.t) (G : Globals) : option Road.t * Game.t * Globals :=
  match Game_resolvePlayer player g with
  | None => (None, g, G)
  | Some player =>
      match Game.gamePhase g with
      | setup => Game_placeSetupRoad edge player g G
      | playing => Game_placeNormalRoad edge player g G
      | _ => (None, g, G)
      end
  end.

(** [handleRobberRoll]: every player with more than 7 cards discards. *)
Definition Game_handleRobberRoll (g : Game.t) : option Game.t :=
  let g1 :=
    fold_left (fun acc index =>
      match acc with
      | None => None
      | Some g =>
          match Game.players g !! index with
          | Some player =>
              if 7 <? Player_getTotalResources player then
                match Player_discardHalf player with
                | Some (discarded, p1) =>
                    Some (Game_logEvent
                            (MsgDiscarded (Player.name p1) (length discarded))
                            (Game.set_players (<[index := p1]> (Game.players g)) g))
                | None => None
                end
              else Some g
          | None => Some g
          end
      end) (seq 0 (length (Game.players g))) (Some g) in
  option_map (Game_logEvent MsgRobberActivated) g1.

Definition Game_handleResourceProduction (diceRoll : Z) (g : Game.t) : Game.t :=
  let producingHexes := Board_getProducingHexes (Some diceRoll) (Game.board g) in
  fold_left (fun g index =>
    match Game.players g !! index with
    | Some player =>
        let '(collected, p1) :=
          Player_collectFromDiceRoll (Game.board g) (Some diceRoll) player in
        let g1 := Game.set_players (<[index := p1]> (Game.players g)) g in
        if (0 <? length collected)%nat
        then Game_logEvent (MsgCollected (Player.name p1) collected) g1
        else g1
    | None => g
    end) (seq 0 (length (Game.players g))) g.

(** [rollDice]: the outer [None] is reserved for a discard loop that does
    not end; the inner option is the returned dice result or [null]. *)
Definition Game_rollDice (g : Game.t) (G : Globals)
    : option (option DiceResult.t * Game.t * Globals) :=
  if negb (bool_decide (Game.gamePhase g = playing)) || Game.hasRolledDice g
  then Some (None, g, G)
  else
    let '(die1, d1, G1) := Dice_roll G in
    let '(die2, d2, G2) := Dice_roll G1 in
    let total := die1 + die2 in
    let result := DiceResult.mk die1 die2 total in
    let g1 := Game.set_dice (<[1%nat := d2]> (<[0%nat := d1]> (Game.dice g))) g in
    let g2 := Game.set_turnState true (Some result) true true g1 in
    let g3 :=
      Game_logEvent
        (MsgRolled (option_map Player.name (Game_getCurrentPlayer g2))
           total die1 die2) g2 in
    if bool_decide (total = 7) then
      match Game_handleRobberRoll g3 with
      | Some g4 => Some (Some result, g4, G2)
      | None => None
      end
    else Some (Some result, Game_handleResourceProduction total g3, G2).

Definition Game_endSetupTurn (g : Game.t) : Game.t :=
  let n := Z.of_nat (length (Game.players g)) in
  let g1 :=
    Game.set_currentPlayerIndex
      (Game.currentPlayerIndex g + Game.setupDirection g) g in
  if bool_decide (Game.setupDirection g1 = 1)
     && (n <=? Game.currentPlayerIndex g1)
  then
    if bool_decide (Game.setupRound g1 = 1) then
      Game.set_currentPlayerIndex (n - 1) (Game.set_setupRound 2 (-1) g1)
    else
      Game_logEvent MsgSetupComplete
        (Game.set_currentPlayerIndex 0 (Game.set_gamePhase playing g1))
  else if bool_decide (Game.setupDirection g1 = -1)
          && (Game.currentPlayerIndex g1 <? 0)
  then
    Game_logEvent MsgSetupComplete
      (Game.set_currentPlayerIndex 0 (Game.set_gamePhase playing g1))
  else g1.

Definition Game_endNormalTurn (g : Game.t) : Game.t :=
  let g1 := Game.set_turnState false None false false g in
  let g2 :=
    Game.set_currentPlayerIndex
      (Z.rem (Game.currentPlayerIndex g1 + 1)
         (Z.of_nat (length (Game.players g1)))) g1 in
  let g3 := Game.set_turnNumber (Game.turnNumber g2 + 1) g2 in
  Game_logEvent
    (MsgTurn (Game.turnNumber g3)
       (option_map Player.name (Game_getCurrentPlayer g3))) g3.

(** The loop of [checkWinCondition] over the positions [indices] of
    [players]: the first player at or above the target ends the game, and
    the players after that one are not visited. *)
Fixpoint checkWinLoop (indices : list nat) (g : Game.t) : bool * Game.t :=
  match indices with
  | [] => (false, g)
  | index :: rest =>
      match Game.players g !! index with
      | None => checkWinLoop rest g
      | Some player =>
          let p1 := (Player_updateVictoryPoints player).2 in
          let g1 := Game.set_players (<[index := p1]> (Game.players g)) g in
          if Game.targetVictoryPoints g1 <=? Player.victoryPoints p1 then
            let g2 := Game.set_winner (Some (Player.id p1)) g1 in
            let g3 := Game.set_gamePhase finished g2 in
            (true,
             Game_logEvent (MsgWins (Player.name p1) (Player.victoryPoints p1)) g3)
          else checkWinLoop rest g1
      end
  end.

Definition Game_checkWinCondition (g : Game.t) : bool * Game.t :=
  checkWinLoop (seq 0 (length (Game.players g))) g.

Definition Game_endTurn (g : Game.t) : Game.t :=
  let g1 :=
    match Game.gamePhase g with
    | setup => Game_endSetupTurn g
    | playing => Game_endNormalTurn g
    | _ => g
    end in
  (Game_checkWinCondition g1).2.

Definition Game_moveRobber (hex : HexKey) (g : Game.t) : bool * Game.t :=
  match Game.diceResult g with
  | Some result =>
      if bool_decide (DiceResult.total result = 7) then
        let g1 := Game.set_board (Robber_moveTo (Some hex) (Game.board g)) g in
        (true,
         Game_logEvent
           (MsgRobberMoved
              (option_map Hex.terrain (JSMap.get hex (Board.hexes (Game.board g1)))))
           g1)
      else (false, g)
  | None => (false, g)
  end.

(** * Vocabulary of the statements *)

(** No counter of the ledger is negative. *)
Definition Ledger_nonneg (resources : list (string * Z)) : Prop :=
  forall k v, JSMap.get k resources = Some v -> 0 <= v.

(** The sum of a list of counters. *)
Definition sumZ (l : list Z) : Z := foldr Z.add 0 l.


(** A ledger as [new Player] creates it, with given counters. *)
Definition ledger (lumber brick ore grain wool : Z) : list (string * Z) :=
  [("lumber", lumber); ("brick", brick); ("ore", ore); ("grain", grain);
   ("wool", wool)]%string.

(** A player as [new Player] creates it, with serial number [i] and the
    given ledger. *)
Definition playerWith (i : PlayerRef) (resources : list (string * Z)) : Player.t :=
  Player.mk i "red" "Player red" [] [] [] 5 4 15 resources
    (DevelopmentCards.mk 0 0 0 0 0) 0 0 false false false.


(** The building that the vertex stored under [vertex] holds. *)
Definition Board_buildingAt (b : Board.t) (vertex : VertexKey) : option Building :=
  match JSMap.get vertex (Board.vertices b) with
  | Some v => Vertex.building v
  | None => None
  end.

(** The score that [updateVictoryPoints] computes. *)
Definition Player_score (p : Player.t) : Z := (Player_updateVictoryPoints p).1.


(** ** Concrete states used to run the functions *)

(** A random source and the standard board it generates. *)
Definition sampleGlobals : Globals :=
  mkGlobals 1 1
    [3; 1; 4; 1; 5; 9; 2; 6; 5; 3; 5; 8; 9; 7; 9; 3; 2; 3; 8; 4; 6; 2; 6; 4;
     3; 3; 8; 3; 2; 7; 9; 5; 0; 2; 8; 8; 4; 1; 9; 7; 1; 6; 9; 3; 9; 9; 3; 7;
     5; 1; 0; 5; 8; 2; 0; 9; 7; 4; 9; 4]%nat.

Definition sampleBoard : Board.t * Globals :=
  Eval vm_compute in
  Board_generateStandardBoard (Board_new sampleGlobals).1 sampleGlobals.

(** A player who has built settlements on three corners of the centre hex
    and holds the price of a city. *)
Definition threeSettlements : Player.t * Board.t * Globals :=
  Eval vm_compute in
  let p0 := playerWith 1%nat (ledger 3 3 3 5 3) in
  let '(_, p1, b1, G1) :=
    Player_buildSettlement (1, -1, 4) p0 sampleBoard.1 sampleBoard.2 in
  let '(_, p2, b2, G2) := Player_buildSettlement (0, 1, 0) p1 b1 G1 in
  let '(_, p3, b3, G3) := Player_buildSettlement (-1, 0, 2) p2 b2 G2 in
  (p3, b3, G3).


(** A game of two players brought to the playing phase, in which the dice
    have been rolled and the first player, given cards through
    [addResources], has built five settlements around the centre hex and
    upgraded four of them: 4 cities and 1 settlement, 9 points. *)
Definition ninePoints : Game.t * Globals :=
  Eval vm_compute in
  let '(g0, G0) := Game_new sampleGlobals in
  let '(_, g1, G1) := Game_addPlayer "red" None g0 G0 in
  let '(_, g2, G2) := Game_addPlayer "blue" None g1 G1 in
  let '(_, g3, G3) := Game_startGame g2 G2 in
  let g4 := Game_endTurn (Game_endTurn (Game_endTurn (Game_endTurn g3))) in
  match Game_rollDice g4 G3, Game.players g4 !! 0%nat with
  | Some (_, g5, G5), Some red =>
      let red1 :=
        fold_left (fun p '(resource, amount) => Player_addResources resource amount p)
          [("lumber", 6); ("brick", 6); ("wool", 6); ("grain", 14); ("ore", 12)]%string
          red in
      let corners : list VertexKey :=
        [(1, -1, 4); (1, 0, 5); (0, 1, 0); (-1, 1, 1); (-1, 0, 2)] in
      let '(red2, b2, G6) :=
        fold_left (fun '(p, b, G) vertex =>
          let '(_, p', b', G') := Player_buildSettlement vertex p b G in (p', b', G'))
          corners (red1, Game.board g5, G5) in
      let '(red3, b3, G7) :=
        fold_left (fun '(p, b, G) vertex =>
          let '(_, p', b', G') := Player_buildCity vertex p b G in (p', b', G'))
          (firstn 4 corners) (red2, b2, G6) in
      (Game.set_players (<[0%nat := red3]> (Game.players g5))
         (Game.set_board b3 g5), G7)
  | _, _ => (g4, G3)
  end.


(** The game [ninePoints] after the first player has placed a sixth
    building, a settlement on the corner [(0, -1, 3)]: 10 points. *)
Definition tenPoints : Game.t * Globals :=
  Eval vm_compute in
  let '(_, g, G) :=
    Game_placeSettlement (0, -1, 3) None ninePoints.1 ninePoints.2 in
  (g, G).

(** A game of two players right after [startGame]: setup round 1, the first
    player to move, nobody holds a card. *)
Definition setupStart : Game.t * Globals :=
  Eval vm_compute in
  let '(g0, G0) := Game_new sampleGlobals in
  let '(_, g1, G1) := Game_addPlayer "red" None g0 G0 in
  let '(_, g2, G2) := Game_addPlayer "blue" None g1 G1 in
  let '(_, g3, G3) := Game_startGame g2 G2 in
  (g3, G3).

(** The same game two turn ends later, in setup round 2 with the second
    player to move, after that player was handed one lumber, one brick, one
    wool and one grain through [addResources]. *)
Definition setupRoundTwo : Game.t * Globals :=
  Eval vm_compute in
  let g := Game_endTurn (Game_endTurn setupStart.1) in
  match Game.players g !! 1%nat with
  | Some blue =>
      let blue1 :=
        fold_left (fun p resource => Player_addResources resource 1 p)
          ["lumber"; "brick"; "wool"; "grain"]%string blue in
      (Game.set_players (<[1%nat := blue1]> (Game.players g)) g, setupStart.2)
  | None => (g, setupStart.2)
  end.


(** ** The board without its tokens

    [Board_erase] forgets which token lies on which hex (the [numberToken]
    field of the hexes and the [hex] field of the tokens); two boards with
    the same erasure have the same hexes, terrain, topology, token values and
    robber. *)
Definition Board_erase (b : Board.t) : Board.t :=
  Board.mk
    (map (fun kh => (kh.1, Hex.set_numberToken None kh.2)) (Board.hexes b))
    (Board.vertices b) (Board.edges b)
    (map (NumberToken.set_hex None) (Board.numberTokens b))
    (Board.robber b) (Board.isGenerated b) (Board.boardType b).

(** The token that lies on a hex, and the hex a token lies on. *)
Definition Board_tokenAt (b : Board.t) (hex : HexKey) : option TokenRef :=
  match JSMap.get hex (Board.hexes b) with
  | Some h => Hex.numberToken h
  | None => None
  end.

Definition Board_hexOf (b : Board.t) (token : TokenRef) : option HexKey :=
  match Board.numberTokens b !! token with
  | Some tok => NumberToken.hex tok
  | None => None
  end.


(** The game [setupStart] after each player was handed the price of a
    settlement through [addResources], the first player placed a settlement
    on the corner [(1, -1, 4)] (direction 0 of the centre hex) and ended the
    turn. *)
Definition redAtCorner : Game.t * Globals :=
  Eval vm_compute in
  let fund (p : Player.t) :=
    fold_left (fun p resource => Player_addResources resource 1 p)
      ["lumber"; "brick"; "wool"; "grain"]%string p in
  let g := Game.set_players (map fund (Game.players setupStart.1)) setupStart.1 in
  let '(_, g1, G1) := Game_placeSettlement (1, -1, 4) None g setupStart.2 in
  (Game_endTurn g1, G1).


(** Every counter of [res'] is at most the same counter of [res]. *)
Definition Ledger_le (res' res : list (string * Z)) : Prop :=
  forall k v, JSMap.get k res = Some v ->
    exists v', JSMap.get k res' = Some v' /\ v' <= v.


(** ** The production rule, in the words of the specification *)

(** The hex is bound to a marker of value [V], its terrain is neither desert
    nor sea, it does not carry the robber, and [r] is the resource of its
    terrain. *)
Definition Hex_produces (b : Board.t) (V : Z) (r : string) (hex : HexKey) : bool :=
  match JSMap.get hex (Board.hexes b) with
  | Some h =>
      match Hex.numberToken h with
      | Some t =>
          match Board.numberTokens b !! t with
          | Some tok => bool_decide (NumberToken.value tok = V)
          | None => false
          end
      | None => false
      end
      && negb (bool_decide (Hex.terrain h = desert))
      && negb (bool_decide (Hex.terrain h = sea))
      && negb (Hex.hasRobber h)
      && bool_decide (Hex_getResourceType h = Some r)
  | None => false
  end.

(** The names of a corner.  A vertex carries the coordinates of a hex and a
    direction: it is the corner of that hex in that direction.  The table of
    [getVertexCoords] names the corner [d] of the hex [(q, r)] as the corner
    [od] of the neighbour [(q + oq, r + or)], for the hexes round a corner
    to share it; so the corner named [(q, r, d)] is also the one named
    [getVertexCoords q r d], and the one named next after that. *)
Definition cornerNames (corner : VertexKey) : list VertexKey :=
  let next (K : VertexKey) := Board_getVertexCoords K.1.1 K.1.2 (Z.to_nat K.2) in
  [corner; next corner; next (next corner)].

(** The tiles adjacent to a corner: the hexes of its names that lie on the
    board. *)
Definition adjacentTiles (b : Board.t) (corner : VertexKey) : list HexKey :=
  List.filter (fun hex => JSMap.has hex (Board.hexes b))
    (map fst (cornerNames corner)).

(** The number of tiles adjacent to a building that produce [r] on [V]. *)
Definition countProducing (b : Board.t) (V : Z) (r : string)
    (vertex : option VertexKey) : Z :=
  match vertex with
  | Some v => Z.of_nat (length (List.filter (Hex_produces b V r) (adjacentTiles b v)))
  | None => 0
  end.

(** What a roll of [V] owes a player in resource [r]: 1 unit per producing
    tile adjacent to each settlement, 2 units per producing tile adjacent to
    each city. *)
Definition Player_gain (b : Board.t) (V : Z) (r : string) (p : Player.t) : Z :=
  sumZ (map (fun s => 1 * countProducing b V r (Settlement.vertex s))
          (Player.settlements p))
  + sumZ (map (fun c => 2 * countProducing b V r (City.vertex c))
            (Player.cities p)).

(** The number of resource cards a player holds. *)
Definition Player_cardCount (p : Player.t) : Z :=
  sumZ (map snd (Player.resources p)).

(** Adding collected resources to the ledger one by one. *)
Definition addAll (l : list string) (p : Player.t) : Player.t :=
  fold_left (fun p resource => Player_addResources resource 1 p) l p.


(** The game [ninePoints] after the turn was ended: the second player is
    about to roll. *)
Definition readyToRoll : Game.t * Globals :=
  Eval vm_compute in (Game_endTurn ninePoints.1, ninePoints.2).

(** The random source whose next two outcomes are [x1] and [x2]: the dice
    show [x1 + 1] and [x2 + 1]. *)
Definition withDice (x1 x2 : nat) (G : Globals) : Globals :=
  mkGlobals (GamePiece_nextId G) (Player_nextId G) [x1; x2].

(** What [rollDice] returns with the dice [x1 + 1] and [x2 + 1]: the total
    and the ledgers of the players afterwards. *)
Definition rollReport (st : Game.t * Globals) (x1 x2 : nat)
    : option (Z * list (list (string * Z))) :=
  match Game_rollDice st.1 (withDice x1 x2 st.2) with
  | Some (Some result, g', _) =>
      Some (DiceResult.total result, map Player.resources (Game.players g'))
  | _ => None
  end.

(** The game [setupStart] after each player was handed 1 lumber, 2 brick,
    3 ore, 3 grain and 4 wool through [addResources], the first player
    placed a settlement on the vertex [(1, 0, 0)], and the turn was ended
    four times: the playing phase, the first player about to roll. *)
Definition cornerGame : Game.t * Globals :=
  Eval vm_compute in
  let hand (p : Player.t) :=
    fold_left (fun p '(resource, amount) => Player_addResources resource amount p)
      [("lumber", 1); ("brick", 2); ("ore", 3); ("grain", 3); ("wool", 4)]%string
      p in
  let g := Game.set_players (map hand (Game.players setupStart.1)) setupStart.1 in
  let '(_, g1, G1) := Game_placeSettlement (1, 0, 0) None g setupStart.2 in
  (Nat.iter 4 Game_endTurn g1, G1).

(** The same game after the first player upgraded the settlement to a city
    with [buildCity]. *)
Definition cornerCity : Game.t * Globals :=
  Eval vm_compute in
  match Game.players cornerGame.1 !! 0%nat with
  | Some red =>
      let '(_, red1, b1, G1) :=
        Player_buildCity (1, 0, 0) red (Game.board cornerGame.1) cornerGame.2 in
      (Game.set_players (<[0%nat := red1]> (Game.players cornerGame.1))
         (Game.set_board b1 cornerGame.1), G1)
  | None => cornerGame
  end.

(** The game [cornerGame] after a roll of 1 and 6, the robber moved to the
    hex [(1, -1)] and the turn ended. *)
Definition cornerRobbed : Game.t * Globals :=
  Eval vm_compute in
  match Game_rollDice cornerGame.1 (withDice 0 5 cornerGame.2) with
  | Some (_, g1, G1) => (Game_endTurn (Game_moveRobber (1, -1) g1).2, G1)
  | None => cornerGame
  end.


(** ** The hex grid of the standard layout, as a table *)

Definition HexKey_eqb (a b : HexKey) : bool := (a.1 =? b.1) && (a.2 =? b.2).

Definition memHex (k : HexKey) (l : list HexKey) : bool :=
  existsb (HexKey_eqb k) l.

(** The neighbours of a hex within the layout, in the order of
    [neighborOffsets]. *)
Definition stdNeighbors (k : HexKey) : list HexKey :=
  List.filter (fun n => memHex n hexLayout)
    (map (fun o : Z * Z => (k.1 + o.1, k.2 + o.2)) neighborOffsets).

(** The hexes of the layout other than [d]. *)
Definition allBut (d : HexKey) : list HexKey :=
  List.filter (fun k => negb (HexKey_eqb k d)) hexLayout.

(** The hexes of [l] that are neither [r] nor a neighbour of [r]. *)
Definition freeOf (r : HexKey) (l : list HexKey) : list HexKey :=
  let blocked := r :: stdNeighbors r in
  List.filter (fun h => negb (memHex h blocked)) l.

Definition nonEmpty {A} (l : list A) : bool :=
  match l with [] => false | _ => true end.

(** Wherever the desert [d] lies and whichever three other hexes [r1],
    [r2], [r3] are taken, some hex other than [d] is neither one of them
    nor next to one of them: [check3], [check2] and [check1] run through
    the third, the second and the first of these hexes. *)
Definition check3 (res l2 : list HexKey) : bool :=
  forallb (fun r3 => nonEmpty (freeOf r3 l2)) res.

Definition check2 (res l1 : list HexKey) : bool :=
  forallb (fun r2 => nonEmpty (freeOf r2 l1) && check3 res (freeOf r2 l1)) res.

Definition check1 (res : list HexKey) : bool :=
  forallb (fun r1 => nonEmpty (freeOf r1 res) && check2 res (freeOf r1 res)) res.


(** What the token placement reads of a hex. *)
Definition hexView (h : Hex.t)
    : Terrain * option TokenRef * bool * list HexKey :=
  (Hex.terrain h, Hex.numberToken h, Hex.hasRobber h, Hex.neighbors h).

(** The hexes of a board are those of the standard layout, with their
    neighbours, and the desert lies on [d] and nowhere else. *)
Definition StandardHexes (d : HexKey) (b : Board.t) : Prop :=
  JSMap.keys (Board.hexes b) = hexLayout
  /\ d ∈ hexLayout
  /\ forall k, k ∈ hexLayout ->
       Hex_neighbors b k = stdNeighbors k
       /\ Hex_terrainIs b desert k = bool_decide (k = d).


(** ** The state of the token placement

    [RedInv d b0 done R avail b]: starting from the board [b0], whose desert
    lies on [d], the tokens [done] have been laid on the hexes [R]; [avail]
    is what is left of the resource hexes; tokens and hexes point at each
    other; and no two hexes of [R] are neighbours. *)
Record RedInv (d : HexKey) (b0 : Board.t) (done : list TokenRef)
    (R avail : list HexKey) (b : Board.t) : Prop := {
  ri_erase : Board_erase b = Board_erase b0;
  ri_avail : avail = List.filter (fun k => negb (memHex k R)) (allBut d);
  ri_at : forall k, Board_tokenAt b k <> None <-> k ∈ R;
  ri_back : forall i k, Board_hexOf b i = Some k -> Board_tokenAt b k = Some i;
  ri_forth : forall k i,
    Board_tokenAt b k = Some i ->
    Board_hexOf b i = Some k /\ tokenIsHighProbability b0 i = true;
  ri_done : forall i, Board_hexOf b i <> None <-> i ∈ done;
  ri_res : Forall (fun r => r ∈ allBut d) R;
  ri_nodup : NoDup R;
  ri_indep : forall r1 r2, r1 ∈ R -> r2 ∈ R -> r2 ∉ stdNeighbors r1;
  ri_len : length R = length done
}.

(** [TokenInv b0 R done P b]: the tokens [done] lie on the hexes [P], tokens
    and hexes point at each other, and a 6 or an 8 lies on a hex of [R]
    only. *)
Record TokenInv (b0 : Board.t) (R : list HexKey) (done : list TokenRef)
    (P : list HexKey) (b : Board.t) : Prop := {
  ti_erase : Board_erase b = Board_erase b0;
  ti_at : forall k, Board_tokenAt b k <> None <-> k ∈ P;
  ti_back : forall i k, Board_hexOf b i = Some k -> Board_tokenAt b k = Some i;
  ti_forth : forall k i, Board_tokenAt b k = Some i -> Board_hexOf b i = Some k;
  ti_done : forall i, Board_hexOf b i <> None <-> i ∈ done;
  ti_high : forall k i,
    Board_tokenAt b k = Some i -> tokenIsHighProbability b0 i = true -> k ∈ R
}.

(** ** The outcome of [generateStandardBoard]

    [StandardBoard d R B]: the hexes of [B] are those of the standard
    layout; the desert lies on [d], carries no token and holds the robber;
    the eighteen tokens of the standard set lie one on each other hex; the
    hexes that carry a 6 or an 8 are among [R], no two of which are
    neighbours. *)
Record StandardBoard (d : HexKey) (R : list HexKey) (B : Board.t) : Prop := {
  sb_keys : JSMap.keys (Board.hexes B) = hexLayout;
  sb_desert_in : d ∈ hexLayout;
  sb_neighbors : forall k, k ∈ hexLayout -> Hex_neighbors B k = stdNeighbors k;
  sb_desert : forall k,
    k ∈ hexLayout -> Hex_terrainIs B desert k = bool_decide (k = d);
  sb_values :
    map NumberToken.value (Board.numberTokens B)
    = [2; 3; 3; 4; 4; 5; 5; 6; 6; 8; 8; 9; 9; 10; 10; 11; 11; 12];
  sb_bound : forall i,
    (i < 18)%nat ->
    exists k, Board_hexOf B i = Some k /\ Board_tokenAt B k = Some i;
  sb_forth : forall k i, Board_tokenAt B k = Some i -> Board_hexOf B i = Some k;
  sb_marked : forall k, k ∈ hexLayout -> k <> d -> Board_tokenAt B k <> None;
  sb_desert_bare : Board_tokenAt B d = None;
  sb_robber : Robber.hex (Board.robber B) = Some d;
  sb_hasRobber : forall k h,
    JSMap.get k (Board.hexes B) = Some h -> Hex.hasRobber h = bool_decide (k = d);
  sb_high : forall k, Hex_hasHighProbabilityToken B k = true -> k ∈ R;
  sb_R : Forall (fun r => r ∈ hexLayout) R;
  sb_indep : forall r1 r2, r1 ∈ R -> r2 ∈ R -> r2 ∉ stdNeighbors r1
}.

(** ** Road lengths

    [walk] is [Edge_getRoadLength] read over an arbitrary graph: [own]
    tells the edges that carry a road of the player, [blocked] the vertices
    that hold a building of somebody else, [everts] the vertices of an edge
    and [vedges] the edges of a vertex.  It serves to compare the walk on a
    board with the walk on the six edges of one hex. *)
Section Walk.
Context {E V : Type} `{!EqDecision E}.
Variables (own : E -> bool) (blocked : V -> bool)
  (everts : E -> list V) (vedges : V -> list E).

Definition visitEdge (rec : E -> list E -> option (nat * list E)) (self : E)
    (acc : option (nat * list E)) (edge : E) : option (nat * list E) :=
  match acc with
  | None => None
  | Some (maxLength, visited) =>
      if negb (bool_decide (edge = self)) && own edge then
        match rec edge visited with
        | Some (len, visited') => Some (Nat.max maxLength len, visited')
        | None => None
        end
      else acc
  end.

Definition visitVertex (rec : E -> list E -> option (nat * list E)) (self : E)
    (acc : option (nat * list E)) (vertex : V) : option (nat * list E) :=
  if blocked vertex then acc
  else fold_left (visitEdge rec self) (vedges vertex) acc.

Fixpoint walk (fuel : nat) (self : E) (visited : list E)
    : option (nat * list E) :=
  match fuel with
  | O => None
  | S fuel' =>
      if includes self visited then Some (0%nat, visited)
      else if negb (own self) then Some (0%nat, visited)
      else
        match fold_left (visitVertex (walk fuel') self) (everts self)
                (Some (0%nat, visited ++ [self])) with
        | Some (maxLength, visited') => Some (S maxLength, visited')
        | None => None
        end
  end.
End Walk.

(** The vertices of the edge [j] of a hex and the edges of its vertex [i],
    by direction, as [linkHexRelationships] leaves them. *)
Definition hexEdgeVertices (j : nat) : list nat :=
  nth j [[0; 1; 5]; [0; 1; 2]; [1; 2; 3]; [2; 3; 4]; [3; 4; 5]; [0; 4; 5]]%nat [].

Definition hexVertexEdges (i : nat) : list nat :=
  nth i [[5; 0; 1]; [0; 1; 2]; [1; 2; 3]; [2; 3; 4]; [3; 4; 5]; [4; 5; 0]]%nat [].

(** The walk on one hex: [ownBits] and [blockedBits] tell, by direction,
    which edges carry a road of the player and which vertices are blocked. *)
Definition hexWalk (fuel : nat) (ownBits blockedBits : list bool)
    (j : nat) (visited : list nat) : option (nat * list nat) :=
  walk (fun j => nth j ownBits false) (fun i => nth i blockedBits false)
    hexEdgeVertices hexVertexEdges fuel j visited.

(** All the lists of [n] booleans. *)
Fixpoint allBits (n : nat) : list (list bool) :=
  match n with
  | O => [[]]
  | S n' => map (cons false) (allBits n') ++ map (cons true) (allBits n')
  end.

(** A board has the standard topology when its edges and vertices refer to
    each other as they do on a generated board. *)
Definition StandardTopology (b : Board.t) : Prop :=
  (forall e, Edge_vertices b e = Edge_vertices sampleBoard.1 e)
  /\ (forall v, Vertex_edges b v = Vertex_edges sampleBoard.1 v).

(** The edges of the standard board: [(q, r, direction)] for a hex of the
    layout and a direction below 6. *)
Definition isStandardEdge (e : EdgeKey) : bool :=
  memHex (e.1.1, e.1.2) hexLayout && (0 <=? e.2) && (e.2 <? 6).

(** The assignment [edge.road = road]. *)
Definition Board_setRoad (edge : EdgeKey) (road : option Road.t)
    (b : Board.t) : Board.t :=
  Board.set_edges (JSMap.modify edge (Edge.set_road road) (Board.edges b)) b.

(** The sample board after player 1 built a settlement on the vertex [own]
    and a road on the edge [start], and player 2 built settlements on the
    vertices [o1] and [o2]. *)
Definition blockedEnds (own : VertexKey) (start : EdgeKey) (o1 o2 : VertexKey)
    : Player.t * Board.t * Globals :=
  let red0 := playerWith 1%nat (ledger 5 5 5 5 5) in
  let blue0 := playerWith 2%nat (ledger 5 5 5 5 5) in
  let '(_, red1, b1, G1) :=
    Player_buildSettlement own red0 sampleBoard.1 sampleBoard.2 in
  let '(_, red2, b2, G2) := Player_buildRoad start red1 b1 G1 in
  let '(_, blue1, b3, G3) := Player_buildSettlement o1 blue0 b2 G2 in
  let '(_, blue2, b4, G4) := Player_buildSettlement o2 blue1 b3 G3 in
  (red2, b4, G4).

(** What building a road on the edge 0 of the centre hex does in the state
    [blockedEnds own start o1 o2]: whether [o1] and [o2] hold buildings of
    the other player, the longest road of player 1 before, whether
    [buildRoad] returns a road, the longest road after, and the length of
    the walk from [start] after. *)
Definition blockedEndsReport (own : VertexKey) (start : EdgeKey)
    (o1 o2 : VertexKey)
    : list bool * option nat * bool * option nat * option nat :=
  let st := blockedEnds own start o1 o2 in
  let '(road, p', b', _) := Player_buildRoad (0, 0, 0) st.1.1 st.1.2 st.2 in
  (map (Vertex_blockedFor st.1.2 1%nat) [o1; o2],
   Player_getLongestRoadLength 7 st.1.2 st.1.1,
   match road with Some _ => true | None => false end,
   Player_getLongestRoadLength 7 b' p',
   option_map fst (Edge_getRoadLength 7 b' 1%nat start [])).

(** * Further functions of the engine *)

(** ** Hex, NumberToken *)

(** [distanceTo(otherHex)].  The division is the one of JavaScript numbers;
    the sum it divides is even, so that it is exact.  The differences and
    sums are those of doubles: they are the integers computed here as long
    as none of them exceeds [2 ^ 53], which [Hex_inRange] ensures. *)
Definition Hex_distanceTo (self otherHex : Hex.t) : Z :=
  (Z.abs (Hex.q self - Hex.q otherHex)
   + Z.abs (Hex.q self + Hex.r self - Hex.q otherHex - Hex.r otherHex)
   + Z.abs (Hex.r self - Hex.r otherHex)) / 2.

(** Coordinates with which [distanceTo] stays within the integers that
    doubles hold exactly: each difference is at most [2 ^ 51], the
    difference of the sums at most [2 ^ 52], the total at most [2 ^ 53]. *)
Definition Hex_inRange (h : Hex.t) : Prop :=
  Z.abs (Hex.q h) <= 2 ^ 50 /\ Z.abs (Hex.r h) <= 2 ^ 50.

(** Counters and amounts whose sums and differences doubles hold exactly. *)
Definition Amount_inRange (n : Z) : Prop := Z.abs n <= 2 ^ 52.

Definition NumberToken_isLowProbability (self : NumberToken.t) : bool :=
  bool_decide (NumberToken.value self = 2)
  || bool_decide (NumberToken.value self = 12).

Definition NumberToken_getColor (self : NumberToken.t) : string :=
  if NumberToken_isHighProbability self then "red" else "black".

(** [token.removeFromHex()]. *)
Definition NumberToken_removeFromHex (token : TokenRef) (b : Board.t)
    : Board.t :=
  match Board.numberTokens b !! token with
  | None => b
  | Some tok =>
      match NumberToken.hex tok with
      | Some h =>
          Board.set_numberTokens
            (<[token := NumberToken.set_hex None tok]> (Board.numberTokens b))
            (Board.set_hexes
               (JSMap.modify h (Hex.set_numberToken None) (Board.hexes b)) b)
      | None => b
      end
  end.

(** [token.isBlockedByRobber()], as a truth value. *)
Definition NumberToken_isBlockedByRobber (b : Board.t) (self : NumberToken.t)
    : bool :=
  match NumberToken.hex self with
  | Some h =>
      match JSMap.get h (Board.hexes b) with
      | Some hex => Hex.hasRobber hex
      | None => false
      end
  | None => false
  end.

(** The number of ways of rolling [v] with two dice. *)
Definition diceWays (v : Z) : Z :=
  Z.of_nat
    (length
       (List.filter (fun d : Z * Z => d.1 + d.2 =? v)
          (list_prod [1; 2; 3; 4; 5; 6] [1; 2; 3; 4; 5; 6]))).

(** The sample board once the token of index 1 has been taken off its
    hex. *)
Definition oneTokenOff : Board.t :=
  Eval vm_compute in NumberToken_removeFromHex 1 sampleBoard.1.

(** ** Robber *)

(** [robber.isBlocking(hex)]. *)
Definition Robber_isBlocking (self : Robber.t) (hex : HexKey) : bool :=
  bool_decide (Robber.hex self = Some hex).

(** [robber.getAdjacentPlayers()]: the owners of the buildings around the
    hex of the robber, each once, in the order of the vertices. *)
Definition Robber_getAdjacentPlayers (b : Board.t) : list PlayerRef :=
  match Robber.hex (Board.robber b) with
  | Some h =>
      match JSMap.get h (Board.hexes b) with
      | Some hex =>
          fold_left (fun players vertex =>
            match Board_buildingAt b vertex with
            | Some building =>
                if includes (Building_owner building) players then players
                else players ++ [Building_owner building]
            | None => players
            end) (Hex.vertices hex) []
      | None => []
      end
  | None => []
  end.

(** The hex flagged as holding the robber is the one the robber names. *)
Definition RobberConsistent (b : Board.t) : Prop :=
  forall k h,
    JSMap.get k (Board.hexes b) = Some h ->
    (Hex.hasRobber h = true <-> Robber.hex (Board.robber b) = Some k).

(** ** Player *)


(** The pieces of a player on the board and in the supply add up to the
    5 settlements, 4 cities and 15 roads of [new Player]. *)
Definition Player_supplyOk (p : Player.t) : Prop :=
  Player.settlementsRemaining p + Z.of_nat (length (Player.settlements p)) = 5
  /\ Player.citiesRemaining p + Z.of_nat (length (Player.cities p)) = 4
  /\ Player.roadsRemaining p + Z.of_nat (length (Player.roads p)) = 15.

(** ** Vertex, edge and pieces: what they report *)

(** [vertex.getResourceHexes()]. *)
Definition Vertex_getResourceHexes (b : Board.t) (vertex : VertexKey)
    : list HexKey :=
  List.filter
    (fun hex =>
       match JSMap.get hex (Board.hexes b) with
       | Some h => Hex_canProduceResources h
       | None => false
       end)
    (Vertex_hexes b vertex).

Definition Settlement_getResourceHexes (b : Board.t) (self : Settlement.t)
    : list HexKey :=
  match Settlement.vertex self with
  | Some vertex => Vertex_getResourceHexes b vertex
  | None => []
  end.

Definition City_getResourceHexes (b : Board.t) (self : City.t) : list HexKey :=
  match City.vertex self with
  | Some vertex => Vertex_getResourceHexes b vertex
  | None => []
  end.

(** [settlement.canUpgradeToCity()], as a truth value; pieces are compared
    by identity, that is by serial number. *)
Definition Settlement_canUpgradeToCity (b : Board.t) (self : Settlement.t)
    : bool :=
  match Settlement.vertex self with
  | Some vertex =>
      match Board_buildingAt b vertex with
      | Some (ASettlement s) => bool_decide (Settlement.id s = Settlement.id self)
      | _ => false
      end
  | None => false
  end.

(** [edge.isCoastal()]. *)
Definition Edge_isCoastal (b : Board.t) (self : Edge.t) : bool :=
  existsb (Hex_terrainIs b sea) (Edge.hexes self)
  || (length (Edge.hexes self) <? 2)%nat.




(** ** Board: lists of valid placements *)

(** [getValidRoadPlacements(player)]. *)
Definition Board_getValidRoadPlacements (player : PlayerRef) (b : Board.t)
    : list EdgeKey :=
  map fst (List.filter (fun ke => Edge_canPlaceRoad b player ke.2) (Board.edges b)).

(** No edge of the board lists an adjacent edge. *)
Definition EdgesUnlinked (b : Board.t) : Prop :=
  Forall (fun ke : EdgeKey * Edge.t => Edge.adjacentEdges ke.2 = [])
    (Board.edges b).

(** ** Game *)

(** The fields that steer the game: the phase, whose turn it is, the setup
    round and direction, and the state of the turn. *)
Definition Game_control (g : Game.t) :=
  (Game.gamePhase g, Game.currentPlayerIndex g, Game.turnNumber g,
   Game.setupRound g, Game.setupDirection g,
   Game.hasRolledDice g, Game.diceResult g, Game.canBuild g, Game.canTrade g).

(** No player has reached the target. *)
Definition Game_undecided (g : Game.t) : Prop :=
  forall p, p ∈ Game.players g -> Player_score p < Game.targetVictoryPoints g.

(** The ids of the players are pairwise distinct and below the counter
    [Player.nextId]. *)
Definition Game_playersFresh (g : Game.t) (G : Globals) : Prop :=
  NoDup (map Player.id (Game.players g))
  /\ Forall (fun p => (Player.id p < Player_nextId G)%nat) (Game.players g).

(** Who a player is: serial number, colour and name. *)
Definition Player_identity (p : Player.t) : PlayerRef * string * string :=
  (Player.id p, Player.color p, Player.name p).

(** What only [addPlayer] changes: who sits where, and the settings. *)
Definition Game_static (g : Game.t) :=
  (map Player_identity (Game.players g), Game.targetVictoryPoints g,
   Game.maxPlayers g).

(** A client of [Game]: the calls of its methods that change the game, and
    a sequence of such calls.  [Game_call] is [None] only where [rollDice]
    is. *)
Inductive GameCall :=
  | CallAddPlayer (color : string) (name : option string)
  | CallStartGame
  | CallPlaceSettlement (vertex : VertexKey) (player : option nat)
  | CallPlaceRoad (edge : EdgeKey) (player : option nat)
  | CallRollDice
  | CallEndTurn
  | CallMoveRobber (hex : HexKey).

Definition Game_call (c : GameCall) (g : Game.t) (G : Globals)
    : option (Game.t * Globals) :=
  match c with
  | CallAddPlayer color name =>
      let '(_, g', G') := Game_addPlayer color name g G in Some (g', G')
  | CallStartGame =>
      let '(_, g', G') := Game_startGame g G in Some (g', G')
  | CallPlaceSettlement vertex player =>
      let '(_, g', G') := Game_placeSettlement vertex player g G in Some (g', G')
  | CallPlaceRoad edge player =>
      let '(_, g', G') := Game_placeRoad edge player g G in Some (g', G')
  | CallRollDice =>
      match Game_rollDice g G with
      | Some (_, g', G') => Some (g', G')
      | None => None
      end
  | CallEndTurn => Some (Game_endTurn g, G)
  | CallMoveRobber hex => Some ((Game_moveRobber hex g).2, G)
  end.

Fixpoint Game_calls (cs : list GameCall) (g : Game.t) (G : Globals)
    : option (Game.t * Globals) :=
  match cs with
  | [] => Some (g, G)
  | c :: cs' =>
      match Game_call c g G with
      | Some (g1, G1) => Game_calls cs' g1 G1
      | None => None
      end
  end.

(** * Properties *)

(** ** Insertion-ordered maps *)
Section JSMap_facts.
Context {K V : Type} `{!EqDecision K}.
Implicit Types (m : list (K * V)) (k : K) (v : V).

Lemma JSMap_get_set_eq k v m : JSMap.get k (JSMap.set k v m) = Some v.
Proof.
  induction m as [|[k' v'] m IH]; simpl.
  - rewrite decide_True; auto.
  - destruct (decide (k' = k)) as [->|Hne]; simpl.
    + rewrite decide_True; auto.
    + rewrite decide_False; auto.
Qed.

Lemma JSMap_get_set_ne k k' v m :
  k <> k' -> JSMap.get k' (JSMap.set k v m) = JSMap.get k' m.
Proof.
  intros Hne. induction m as [|[k0 v0] m IH]; simpl.
  - rewrite decide_False; auto.
  - destruct (decide (k0 = k)) as [->|Hne0]; simpl.
    + rewrite !decide_False; auto.
    + destruct (decide (k0 = k')); auto.
Qed.

Lemma JSMap_keys_set_present k v v0 m :
  JSMap.get k m = Some v0 -> JSMap.keys (JSMap.set k v m) = JSMap.keys m.
Proof.
  induction m as [|[k' v'] m IH]; simpl; [discriminate|].
  destruct (decide (k' = k)) as [->|Hne]; simpl; auto.
  intros H. rewrite (IH H). reflexivity.
Qed.

Lemma JSMap_get_modify_eq k f m :
  JSMap.get k (JSMap.modify k f m) = option_map f (JSMap.get k m).
Proof.
  unfold JSMap.modify. destruct (JSMap.get k m) eqn:E; simpl.
  - apply JSMap_get_set_eq.
  - exact E.
Qed.

Lemma JSMap_get_modify_ne k k' f m :
  k <> k' -> JSMap.get k' (JSMap.modify k f m) = JSMap.get k' m.
Proof.
  intros Hne. unfold JSMap.modify. destruct (JSMap.get k m); auto.
  apply JSMap_get_set_ne; auto.
Qed.

Lemma JSMap_keys_modify k f m :
  JSMap.keys (JSMap.modify k f m) = JSMap.keys m.
Proof.
  unfold JSMap.modify. destruct (JSMap.get k m) eqn:E; auto.
  eapply JSMap_keys_set_present; eauto.
Qed.

Lemma JSMap_get_Some_In k v m : JSMap.get k m = Some v -> (k, v) ∈ m.
Proof.
  induction m as [|[k' v'] m IH]; simpl; [discriminate|].
  destruct (decide (k' = k)) as [->|Hne].
  - intros [= ->]. left.
  - intros H. right. auto.
Qed.

Lemma JSMap_get_None_keys k m :
  JSMap.get k m = None <-> k ∉ JSMap.keys m.
Proof.
  induction m as [|[k' v'] m IH]; simpl.
  - split; [intros _; apply not_elem_of_nil | auto].
  - rewrite not_elem_of_cons. destruct (decide (k' = k)) as [->|Hne].
    + split; [discriminate|]. intros [H _]. congruence.
    + rewrite IH. intuition congruence.
Qed.

Lemma JSMap_In_get k v m :
  NoDup (JSMap.keys m) -> (k, v) ∈ m -> JSMap.get k m = Some v.
Proof.
  induction m as [|[k' v'] m IH]; simpl.
  - intros _ H. inversion H.
  - intros Hnd H. apply NoDup_cons in Hnd as [Hnotin Hnd].
    apply elem_of_cons in H as [H|H].
    + injection H as -> ->. rewrite decide_True; auto.
    + destruct (decide (k' = k)) as [->|Hne]; auto.
      exfalso. apply Hnotin. unfold JSMap.keys.
      apply (list_elem_of_fmap_2 fst _ _ H).
Qed.
End JSMap_facts.

(** ** The player ledger *)
Section Ledger.
Implicit Types (p : Player.t) (res : list (string * Z)).

Lemma fold_left_add_sumZ (l : list Z) (a : Z) :
  fold_left (fun sum count => sum + count) l a = a + sumZ l.
Proof.
  revert a. induction l as [|x l IH]; intros a; simpl; [lia|].
  rewrite IH. lia.
Qed.

Lemma Player_getTotalResources_sumZ p :
  Player_getTotalResources p = sumZ (JSMap.values (Player.resources p)).
Proof. unfold Player_getTotalResources. rewrite fold_left_add_sumZ. lia. Qed.

Lemma sumZ_values_set k v v0 res :
  JSMap.get k res = Some v0 ->
  sumZ (JSMap.values (JSMap.set k v res)) = sumZ (JSMap.values res) - v0 + v.
Proof.
  induction res as [|[k' v'] res IH]; simpl; [discriminate|].
  destruct (decide (k' = k)) as [->|Hne]; simpl.
  - intros [= ->]. lia.
  - intros H. rewrite (IH H). lia.
Qed.

Lemma Ledger_nonneg_set k v res :
  0 <= v -> Ledger_nonneg res -> Ledger_nonneg (JSMap.set k v res).
Proof.
  intros Hv Hres k' v' Hget. destruct (decide (k = k')) as [->|Hne].
  - rewrite JSMap_get_set_eq in Hget. injection Hget as <-. exact Hv.
  - rewrite JSMap_get_set_ne in Hget by exact Hne. eauto.
Qed.

Lemma Player_removeResources_resources kind n p :
  Player.resources (Player_removeResources kind n p).2 =
  match JSMap.get kind (Player.resources p) with
  | Some v => JSMap.set kind (Z.max 0 (v - n)) (Player.resources p)
  | None => Player.resources p
  end.
Proof.
  unfold Player_removeResources.
  destruct (JSMap.get kind (Player.resources p)); reflexivity.
Qed.

Lemma Player_removeResources_nonneg kind n p :
  Ledger_nonneg (Player.resources p) ->
  Ledger_nonneg (Player.resources (Player_removeResources kind n p).2).
Proof.
  intros H. rewrite Player_removeResources_resources.
  destruct (JSMap.get kind (Player.resources p)); auto.
  apply Ledger_nonneg_set; auto. lia.
Qed.

Lemma Player_payFor_nonneg buildingType p :
  Ledger_nonneg (Player.resources p) ->
  Ledger_nonneg (Player.resources (Player_payFor buildingType p).2).
Proof.
  intros H. unfold Player_payFor, Player_payFor_original.
  destruct (Player.payForOverridden p); [exact H|].
  destruct (negb (Player_canAfford buildingType p)); [exact H|].
  destruct (costs buildingType) as [cost|]; [|exact H]. simpl.
  revert p H. induction cost as [|[resource amount] cost IH]; intros p H; simpl.
  - exact H.
  - apply IH. apply Player_removeResources_nonneg. exact H.
Qed.

Lemma Player_removeResources_frame kind n p :
  (Player_removeResources kind n p).2 =
  Player.set_resources
    (Player.resources (Player_removeResources kind n p).2) p.
Proof.
  unfold Player_removeResources.
  destruct (JSMap.get kind (Player.resources p)); destruct p; reflexivity.
Qed.

Lemma Ledger_le_refl res : Ledger_le res res.
Proof. intros k v H. exists v. split; [exact H|lia]. Qed.

Lemma Ledger_le_trans res1 res2 res3 :
  Ledger_le res1 res2 -> Ledger_le res2 res3 -> Ledger_le res1 res3.
Proof.
  intros H12 H23 k v H. destruct (H23 k v H) as (v2 & H2 & Hle2).
  destruct (H12 k v2 H2) as (v1 & H1 & Hle1). exists v1. split; [exact H1|lia].
Qed.

Lemma Ledger_le_set k v v0 res :
  JSMap.get k res = Some v0 -> v <= v0 -> Ledger_le (JSMap.set k v res) res.
Proof.
  intros Hget Hle k' v' H'. destruct (decide (k = k')) as [->|Hne].
  - exists v. rewrite JSMap_get_set_eq. split; [reflexivity|].
    rewrite Hget in H'. injection H' as <-. exact Hle.
  - exists v'. rewrite JSMap_get_set_ne by exact Hne. split; [exact H'|lia].
Qed.

(** What one pass of the discard loop does to the ledger. *)
Lemma discardPass_spec rts p d rem p' d' rem' :
  discardPass rts (p, d, rem) = (p', d', rem') ->
  0 <= rem ->
  0 <= rem' <= rem
  /\ sumZ (JSMap.values (Player.resources p')) =
     sumZ (JSMap.values (Player.resources p)) - (rem - rem')
  /\ Z.of_nat (length d') = Z.of_nat (length d) + (rem - rem')
  /\ JSMap.keys (Player.resources p') = JSMap.keys (Player.resources p)
  /\ (Ledger_nonneg (Player.resources p) -> Ledger_nonneg (Player.resources p'))
  /\ p' = Player.set_resources (Player.resources p') p
  /\ Ledger_le (Player.resources p') (Player.resources p).
Proof.
  unfold discardPass. revert p d rem.
  induction rts as [|rt rts IH]; intros p d rem; simpl.
  - intros [= -> -> ->] Hrem. split_and!; auto using Ledger_le_refl; try lia.
    destruct p'; reflexivity.
  - destruct (rem <=? 0) eqn:Hle.
    { intros H Hrem. apply IH; auto. }
    destruct (JSMap.get rt (Player.resources p)) as [v|] eqn:Hget;
      [|intros H Hrem; apply IH; auto].
    destruct (0 <? v) eqn:Hv; [|intros H Hrem; apply IH; auto].
    intros H Hrem. apply Z.leb_gt in Hle. apply Z.ltb_lt in Hv.
    apply IH in H; [|lia].
    destruct H as (Hr & Hsum & Hlen & Hkeys & Hnn & Hframe & Hle').
    rewrite Player_removeResources_resources, Hget in Hsum, Hkeys, Hnn, Hle'.
    rewrite (sumZ_values_set _ _ _ _ Hget) in Hsum.
    rewrite (JSMap_keys_set_present _ _ _ _ Hget) in Hkeys.
    rewrite length_app in Hlen. simpl in Hlen.
    split_and!; auto; try lia.
    + intros Hp. apply Hnn. apply Ledger_nonneg_set; auto. lia.
    + rewrite Hframe. rewrite Player_removeResources_frame.
      destruct p; reflexivity.
    + eapply Ledger_le_trans; [exact Hle'|].
      eapply Ledger_le_set; [exact Hget|lia].
Qed.

Lemma discardPass_progress rts p d rem p' d' rem' :
  discardPass rts (p, d, rem) = (p', d', rem') ->
  0 < rem ->
  (exists k v, k ∈ rts /\ JSMap.get k (Player.resources p) = Some v /\ 0 < v) ->
  rem' < rem.
Proof.
  unfold discardPass. revert p d rem.
  induction rts as [|rt rts IH]; intros p d rem; simpl.
  - intros _ _ (k & v & Hin & _). inversion Hin.
  - intros H Hrem (k & v & Hin & Hget & Hv).
    destruct (rem <=? 0) eqn:Hle; [apply Z.leb_le in Hle; lia|].
    destruct (JSMap.get rt (Player.resources p)) as [v0|] eqn:Hget0.
    + destruct (0 <? v0) eqn:Hv0.
      * apply (discardPass_spec rts) in H; [lia|lia].
      * apply (IH _ _ _ H Hrem). exists k, v. repeat split; auto.
        apply elem_of_cons in Hin as [->|Hin]; auto.
        rewrite Hget in Hget0. injection Hget0 as <-.
        apply Z.ltb_ge in Hv0. lia.
    + apply (IH _ _ _ H Hrem). exists k, v. repeat split; auto.
      apply elem_of_cons in Hin as [->|Hin]; auto. congruence.
Qed.

Lemma sumZ_positive_entry res :
  NoDup (JSMap.keys res) -> 0 < sumZ (JSMap.values res) ->
  exists k v, k ∈ JSMap.keys res /\ JSMap.get k res = Some v /\ 0 < v.
Proof.
  induction res as [|[k v] res IH]; simpl; [lia|].
  intros Hnd Hsum. apply NoDup_cons in Hnd as [Hnotin Hnd].
  destruct (decide (0 < v)) as [Hv|Hv].
  - exists k, v. rewrite decide_True by auto. repeat split; auto. left.
  - destruct IH as (k' & v' & Hin & Hget & Hv'); [auto|lia|].
    exists k', v'. repeat split; auto; [right; auto|].
    rewrite decide_False; auto. intros ->. exact (Hnotin Hin).
Qed.

(** The discard loop ends within [rem] passes and removes exactly [rem]
    cards, provided more cards are held than are to be discarded. *)
Lemma discardLoop_spec fuel p d rem :
  NoDup (JSMap.keys (Player.resources p)) ->
  0 <= rem <= Z.of_nat fuel ->
  rem < sumZ (JSMap.values (Player.resources p)) ->
  exists p' d',
    discardLoop fuel (JSMap.keys (Player.resources p)) (p, d, rem)
      = Some (p', d', 0)
    /\ sumZ (JSMap.values (Player.resources p')) =
       sumZ (JSMap.values (Player.resources p)) - rem
    /\ Z.of_nat (length d') = Z.of_nat (length d) + rem
    /\ JSMap.keys (Player.resources p') = JSMap.keys (Player.resources p)
    /\ (Ledger_nonneg (Player.resources p) -> Ledger_nonneg (Player.resources p'))
    /\ p' = Player.set_resources (Player.resources p') p
    /\ Ledger_le (Player.resources p') (Player.resources p).
Proof.
  revert p d rem. induction fuel as [|fuel IH]; intros p d rem Hnd Hrem Hsum.
  - assert (rem = 0) as -> by lia. exists p, d. simpl.
    split_and!; auto using Ledger_le_refl; try lia. destruct p; reflexivity.
  - simpl. destruct (rem <=? 0) eqn:Hle.
    + apply Z.leb_le in Hle. assert (rem = 0) as -> by lia. exists p, d.
      split_and!; auto using Ledger_le_refl; try lia. destruct p; reflexivity.
    + apply Z.leb_gt in Hle.
      destruct (discardPass (JSMap.keys (Player.resources p)) (p, d, rem))
        as [[p1 d1] rem1] eqn:Hpass.
      pose proof (discardPass_spec _ _ _ _ _ _ _ Hpass ltac:(lia))
        as (Hr & Hs & Hl & Hk & Hn & Hf & Hle1).
      pose proof (discardPass_progress _ _ _ _ _ _ _ Hpass Hle
                    (sumZ_positive_entry _ Hnd ltac:(lia))) as Hlt.
      destruct (IH p1 d1 rem1)
        as (p' & d' & Hloop & Hs' & Hl' & Hk' & Hn' & Hf' & Hle2).
      { rewrite Hk. exact Hnd. }
      { lia. }
      { lia. }
      exists p', d'. rewrite <- Hk, Hloop.
      split_and!; auto; try lia; try congruence.
      * rewrite Hf'. rewrite Hf. destruct p; reflexivity.
      * eapply Ledger_le_trans; eauto.
Qed.

(** [discardHalf] returns, and discards exactly [floor(total / 2)] cards
    when more than 7 are held. *)
Lemma Player_discardHalf_total p :
  NoDup (JSMap.keys (Player.resources p)) ->
  exists discarded p',
    Player_discardHalf p = Some (discarded, p')
    /\ (Player_getTotalResources p <= 7 -> discarded = [] /\ p' = p)
    /\ (7 < Player_getTotalResources p ->
          Z.of_nat (length discarded) = Player_getTotalResources p / 2
          /\ Player_getTotalResources p' =
             Player_getTotalResources p - Player_getTotalResources p / 2)
    /\ JSMap.keys (Player.resources p') = JSMap.keys (Player.resources p)
    /\ (Ledger_nonneg (Player.resources p) -> Ledger_nonneg (Player.resources p'))
    /\ p' = Player.set_resources (Player.resources p') p
    /\ Ledger_le (Player.resources p') (Player.resources p).
Proof.
  intros Hnd. unfold Player_discardHalf.
  destruct (Player_getTotalResources p <=? 7) eqn:Hle.
  - apply Z.leb_le in Hle. exists [], p.
    split_and!; auto using Ledger_le_refl; try lia. destruct p; reflexivity.
  - apply Z.leb_gt in Hle.
    pose proof (Z.div_pos (Player_getTotalResources p) 2 ltac:(lia) ltac:(lia)).
    pose proof (Z.div_lt (Player_getTotalResources p) 2 ltac:(lia) ltac:(lia)).
    destruct (discardLoop_spec (Z.to_nat (Player_getTotalResources p / 2))
                p [] (Player_getTotalResources p / 2))
      as (p' & d' & Hloop & Hs & Hl & Hk & Hn & Hf & Hle').
    { exact Hnd. }
    { lia. }
    { rewrite <- Player_getTotalResources_sumZ. lia. }
    rewrite Hloop. exists d', p'.
    rewrite !Player_getTotalResources_sumZ in *.
    split_and!; auto; try lia.
Qed.
End Ledger.

(** C10.  For a known resource kind (an own property of [resources], holding
    [prev]) and any amount [n], [removeResources(kind, n)] returns [true] and
    sets that counter to [max(0, prev - n)], leaving the other counters alone:
    it clamps at zero instead of failing.  It returns [false], changing
    nothing, exactly for the kinds that are not in the ledger.  Consequently
    a ledger without negative counters has none after [removeResources],
    after [payFor], or after [discardHalf] (which does return). *)
Theorem removeResources_clamps_at_zero
    (p : Player.t) (kind : string) (n prev : Z) :
  JSMap.get kind (Player.resources p) = Some prev ->
  (Player_removeResources kind n p).1 = true
  /\ JSMap.get kind (Player.resources (Player_removeResources kind n p).2)
       = Some (Z.max 0 (prev - n))
  /\ (forall k, k <> kind ->
        JSMap.get k (Player.resources (Player_removeResources kind n p).2)
          = JSMap.get k (Player.resources p))
  /\ (forall unknown m,
        (Player_removeResources unknown m p).1 = false <->
        JSMap.get unknown (Player.resources p) = None)
  /\ (forall unknown m,
        JSMap.get unknown (Player.resources p) = None ->
        Player_removeResources unknown m p = (false, p))
  /\ (Ledger_nonneg (Player.resources p) ->
        (forall k m,
           Ledger_nonneg (Player.resources (Player_removeResources k m p).2))
        /\ (forall buildingType,
              Ledger_nonneg (Player.resources (Player_payFor buildingType p).2))
        /\ (NoDup (JSMap.keys (Player.resources p)) ->
              exists discarded p',
                Player_discardHalf p = Some (discarded, p')
                /\ Ledger_nonneg (Player.resources p'))).
Proof.
  intros Hget. split; [|split; [|split; [|split; [|split]]]].
  - unfold Player_removeResources. rewrite Hget. reflexivity.
  - rewrite Player_removeResources_resources, Hget. apply JSMap_get_set_eq.
  - intros k Hk. rewrite Player_removeResources_resources, Hget.
    apply JSMap_get_set_ne. congruence.
  - intros unknown m. unfold Player_removeResources.
    destruct (JSMap.get unknown (Player.resources p)); simpl;
      split; congruence.
  - intros unknown m Hnone. unfold Player_removeResources.
    rewrite Hnone. reflexivity.
  - intros Hnn. split; [|split].
    + intros k m. apply Player_removeResources_nonneg. exact Hnn.
    + intros buildingType. apply Player_payFor_nonneg. exact Hnn.
    + intros Hnd.
      destruct (Player_discardHalf_total p Hnd)
        as (d & p' & Hd & _ & _ & _ & Hn & _ & _).
      exists d, p'. auto.
Qed.

Lemma removeResources_clamps_at_zero_witness :
  JSMap.get "lumber"%string (Player.resources (playerWith 1%nat (ledger 2 0 0 0 0)))
    = Some 2
  /\ (Player_removeResources "lumber" 5 (playerWith 1%nat (ledger 2 0 0 0 0))).1 = true
  /\ JSMap.get "lumber"%string
       (Player.resources
          (Player_removeResources "lumber" 5 (playerWith 1%nat (ledger 2 0 0 0 0))).2)
     = Some (Z.max 0 (2 - 5)).
Proof.
  split; [reflexivity|].
  pose proof (removeResources_clamps_at_zero
                (playerWith 1%nat (ledger 2 0 0 0 0)) "lumber" 5 2 eq_refl) as H.
  split; [exact (proj1 H) | exact (proj1 (proj2 H))].
Defined.

(** ** Upgrading a settlement to a city *)
Section City.
Lemma Board_buildingAt_modify b vertex x :
  Board_buildingAt b vertex <> None \/ JSMap.has vertex (Board.vertices b) = true ->
  Board_buildingAt
    (Board.set_vertices
       (JSMap.modify vertex (Vertex.set_building x) (Board.vertices b)) b)
    vertex = x.
Proof.
  unfold Board_buildingAt, JSMap.has. simpl. rewrite JSMap_get_modify_eq.
  destruct (JSMap.get vertex (Board.vertices b)); simpl; auto.
  intros [H|H]; congruence.
Qed.

Lemma Vertex_upgradeToCity_spec city vertex b :
  Vertex_upgradeToCity city vertex b =
  match Board_buildingAt b vertex with
  | Some (ASettlement s) =>
      if decide (Settlement.owner s = City.owner city) then
        (Some s,
         Board.set_vertices
           (JSMap.modify vertex
              (Vertex.set_building
                 (Some (ACity (City.mk (City.id city) (City.owner city) (Some vertex)))))
              (Board.vertices b)) b)
      else (None, b)
  | _ => (None, b)
  end.
Proof.
  unfold Vertex_upgradeToCity, Board_buildingAt, Vertex_canPlaceCity.
  destruct (JSMap.get vertex (Board.vertices b)) as [v|]; auto.
  destruct (Vertex.building v) as [[s|c]|]; auto.
  unfold bool_decide. destruct (decide_rel eq _ _); auto;
    destruct (decide _); auto; contradiction.
Qed.

Lemma removeSettlement_length old l :
  (exists s, s ∈ l /\ Settlement.id s = Settlement.id old) ->
  S (length (removeSettlement old l)) = length l.
Proof.
  induction l as [|s l IH]; simpl.
  - intros (s & Hin & _). inversion Hin.
  - intros (s' & Hin & Hid).
    destruct (decide (Settlement.id s = Settlement.id old)); auto.
    simpl. f_equal. apply IH. exists s'. split; auto.
    apply elem_of_cons in Hin as [->|Hin]; auto. contradiction.
Qed.

(** What [indexOf] and [splice] do to the list: the first settlement with
    the serial number of [old] goes, the others stay in place. *)
Lemma removeSettlement_spec old l :
  (exists before x after,
     l = before ++ x :: after
     /\ Settlement.id x = Settlement.id old
     /\ (forall y, y ∈ before -> Settlement.id y <> Settlement.id old)
     /\ removeSettlement old l = before ++ after)
  \/ ((forall y, y ∈ l -> Settlement.id y <> Settlement.id old)
      /\ removeSettlement old l = l).
Proof.
  induction l as [|s l IH]; cbn [removeSettlement].
  - right. split; [intros y Hy; inversion Hy|reflexivity].
  - destruct (decide (Settlement.id s = Settlement.id old)) as [Heq|Hne].
    + left. exists [], s, l. split_and!; auto.
      intros y Hy. inversion Hy.
    + destruct IH as [(before & x & after & -> & Hx & Hbefore & Hrem)
                     |[Hnone Hrem]].
      * left. exists (s :: before), x, after. split_and!; auto.
        -- intros y Hy. apply elem_of_cons in Hy as [->|Hy]; auto.
        -- rewrite Hrem. reflexivity.
      * right. split; [|rewrite Hrem; reflexivity].
        intros y Hy. apply elem_of_cons in Hy as [->|Hy]; auto.
Qed.

Lemma removeSettlement_NoDup old l :
  NoDup (map Settlement.id l) ->
  forall s, s ∈ removeSettlement old l
            <-> s ∈ l /\ Settlement.id s <> Settlement.id old.
Proof.
  intros Hnd s.
  destruct (removeSettlement_spec old l)
    as [(before & x & after & -> & Hx & Hbefore & ->)|[Hnone ->]].
  - rewrite map_app in Hnd. cbn [map] in Hnd.
    apply NoDup_app in Hnd as (_ & Hdisj & Hnd2).
    apply NoDup_cons in Hnd2 as [Hx2 _].
    rewrite !elem_of_app, elem_of_cons. split.
    + intros [Hs|Hs].
      * split; [auto|]. apply Hbefore. exact Hs.
      * split; [auto|]. intros Heq. apply Hx2. rewrite Hx, <- Heq.
        apply (list_elem_of_fmap_2 Settlement.id _ _ Hs).
    + intros [[Hs|[->|Hs]] Hne]; auto. contradiction.
  - split; [intros Hs; split; auto|intros [Hs _]; exact Hs].
Qed.

Lemma Player_payFor_frame buildingType p :
  (Player_payFor buildingType p).2 =
  Player.set_resources (Player.resources (Player_payFor buildingType p).2) p.
Proof.
  unfold Player_payFor, Player_payFor_original.
  destruct (Player.payForOverridden p); [destruct p; reflexivity|].
  destruct (negb (Player_canAfford buildingType p)); [destruct p; reflexivity|].
  destruct (costs buildingType) as [cost|]; [|destruct p; reflexivity]. simpl.
  assert (forall q, q = Player.set_resources (Player.resources q) p ->
    fold_left (fun p0 '(resource, amount) =>
      (Player_removeResources resource amount p0).2) cost q =
    Player.set_resources
      (Player.resources
         (fold_left (fun p0 '(resource, amount) =>
            (Player_removeResources resource amount p0).2) cost q)) p) as H.
  { induction cost as [|[resource amount] cost IH]; intros q Hq; simpl; auto.
    apply IH. rewrite Player_removeResources_frame. rewrite Hq at 2.
    destruct p; reflexivity. }
  apply H. destruct p; reflexivity.
Qed.
End City.

(** C7.  [Player.buildCity(vertex)] succeeds exactly when the player can
    afford a city, has a city left, and the vertex holds a settlement owned by
    that player.  On success the vertex holds the new city, the old settlement
    is removed from the player's [settlements] (the first entry with its
    serial number goes and the others stay where they were; with distinct
    serial numbers the list afterwards holds exactly the other settlements),
    [settlementsRemaining] grows by one, [citiesRemaining] shrinks by one,
    the city joins [cities], and the call returns the city together with the
    removed settlement.  In particular a player with 3 settlements (the
    upgraded one among them), no city, no point card and no achievement
    scores 3 before and 4 after. *)
Theorem buildCity_upgrades_own_settlement
    (vertex : VertexKey) (self : Player.t) (b : Board.t) (G : Globals)
    (result : option (City.t * Settlement.t))
    (self' : Player.t) (b' : Board.t) (G' : Globals) :
  Player_buildCity vertex self b G = (result, self', b', G') ->
  (result <> None <->
     Player_canAfford "city" self = true
     /\ 0 < Player.citiesRemaining self
     /\ exists s, Board_buildingAt b vertex = Some (ASettlement s)
                  /\ Settlement.owner s = Player.id self)
  /\ (forall city old, result = Some (city, old) ->
        Board_buildingAt b vertex = Some (ASettlement old)
        /\ Board_buildingAt b' vertex = Some (ACity city)
        /\ City.owner city = Player.id self
        /\ City.vertex city = Some vertex
        /\ ((exists before x after,
               Player.settlements self = before ++ x :: after
               /\ Settlement.id x = Settlement.id old
               /\ (forall y, y ∈ before -> Settlement.id y <> Settlement.id old)
               /\ Player.settlements self' = before ++ after)
            \/ ((forall y, y ∈ Player.settlements self ->
                           Settlement.id y <> Settlement.id old)
                /\ Player.settlements self' = Player.settlements self))
        /\ (NoDup (map Settlement.id (Player.settlements self)) ->
            forall s, s ∈ Player.settlements self'
                      <-> s ∈ Player.settlements self
                          /\ Settlement.id s <> Settlement.id old)
        /\ Player.settlementsRemaining self' = Player.settlementsRemaining self + 1
        /\ Player.cities self' = Player.cities self ++ [city]
        /\ Player.citiesRemaining self' = Player.citiesRemaining self - 1
        /\ Player.victoryPoints self' = Player_score self'
        /\ (old ∈ Player.settlements self ->
            length (Player.settlements self) = 3%nat ->
            Player.cities self = [] ->
            DevelopmentCards.victoryPoint (Player.developmentCards self) = 0 ->
            Player.hasLongestRoad self = false ->
            Player.hasLargestArmy self = false ->
            Player_score self = 3 /\ Player.victoryPoints self' = 4))
  /\ (result = None -> self' = self /\ b' = b).
Proof.
  unfold Player_buildCity.
  destruct (Player_canAfford "city" self) eqn:Hafford; simpl;
    [|intros [= <- <- <- <-]; repeat split; auto; try tauto; try discriminate;
      intros (? & _); discriminate].
  destruct (Player.citiesRemaining self <=? 0) eqn:Hrem;
    [apply Z.leb_le in Hrem; intros [= <- <- <- <-];
     repeat split; auto; try tauto; try discriminate;
     intros (_ & ? & _); lia|].
  apply Z.leb_gt in Hrem.
  unfold City_new, freshPieceId, City_placeOn. simpl.
  rewrite Vertex_upgradeToCity_spec. simpl.
  destruct (Board_buildingAt b vertex) as [[s|c]|] eqn:Hat;
    try (intros [= <- <- <- <-]; repeat split; auto; try tauto; try discriminate;
         intros (_ & _ & ? & ? & _); discriminate).
  destruct (decide (Settlement.owner s = Player.id self)) as [Hown|Hown];
    [|intros [= <- <- <- <-]; repeat split; auto; try tauto; try discriminate;
      intros (_ & _ & ? & [= <-] & ?); contradiction].
  intros [= <- <- <- <-]. split; [|split].
  - split; [intros _|discriminate]. repeat split; auto. exists s. auto.
  - intros city old [= <- <-].
    rewrite Board_buildingAt_modify by (left; congruence).
    rewrite (Player_payFor_frame "city" self).
    do 4 (split; [solve [auto]|]).
    split; [exact (removeSettlement_spec s (Player.settlements self))|].
    split; [exact (removeSettlement_NoDup s (Player.settlements self))|].
    do 4 (split; [solve [auto]|]).
    intros Hin Hlen Hcities Hdev Hroad Harmy.
    pose proof (removeSettlement_length s (Player.settlements self)
                  ltac:(exists s; auto)) as Hl.
    unfold Player_score, Player_updateVictoryPoints. simpl.
    rewrite Hcities, Hdev, Hroad, Harmy, Hlen. simpl.
    rewrite Hlen in Hl. injection Hl as Hl. rewrite Hl. split; reflexivity.
  - discriminate.
Qed.

Lemma buildCity_upgrades_own_settlement_witness :
  Player_score threeSettlements.1.1 = 3
  /\ map Settlement.vertex (Player.settlements threeSettlements.1.1)
     = [Some (1, -1, 4); Some (0, 1, 0); Some (-1, 0, 2)]
  /\ map Settlement.vertex
       (Player.settlements
          (Player_buildCity (0, 1, 0) threeSettlements.1.1 threeSettlements.1.2
             threeSettlements.2).1.1.2)
     = [Some (1, -1, 4); Some (-1, 0, 2)]
  /\ Player.victoryPoints
       (Player_buildCity (0, 1, 0) threeSettlements.1.1 threeSettlements.1.2
          threeSettlements.2).1.1.2 = 4.
Proof.
  assert (Player_score threeSettlements.1.1 = 3
          /\ Player.victoryPoints
               (Player_buildCity (0, 1, 0) threeSettlements.1.1
                  threeSettlements.1.2 threeSettlements.2).1.1.2 = 4)
    as [Hbefore Hafter].
  { destruct (Player_buildCity (0, 1, 0) threeSettlements.1.1
                threeSettlements.1.2 threeSettlements.2)
      as [[[result self'] b'] G'] eqn:E.
    pose proof (buildCity_upgrades_own_settlement _ _ _ _ _ _ _ _ E)
      as (_ & H & _).
    vm_compute in E. injection E as <- <- <- <-.
    refine (proj2 (proj2 (proj2 (proj2 (proj2 (proj2 (proj2 (proj2 (proj2 (proj2
              (H _ _ eq_refl)))))))))) _ _ _ _ _ _);
      vm_compute; try reflexivity.
    right. left. }
  split; [exact Hbefore|]. split; [reflexivity|]. split; [reflexivity|].
  exact Hafter.
Defined.

(** ** The win condition *)
Section Win.
Implicit Types (g : Game.t) (p : Player.t).

Lemma Player_score_update p :
  Player_score (Player_updateVictoryPoints p).2 = Player_score p.
Proof. destruct p; reflexivity. Qed.

Lemma Player_victoryPoints_update p :
  Player.victoryPoints (Player_updateVictoryPoints p).2 = Player_score p.
Proof. reflexivity. Qed.

Lemma Player_id_update p :
  Player.id (Player_updateVictoryPoints p).2 = Player.id p.
Proof. reflexivity. Qed.

Lemma map_score_insert (l : list Player.t) i p :
  l !! i = Some p ->
  map Player_score (<[i := (Player_updateVictoryPoints p).2]> l)
    = map Player_score l.
Proof.
  revert i. induction l as [|x l IH]; intros [|i];
    cbn -[Player_score Player_updateVictoryPoints]; try discriminate.
  - intros [= ->]. rewrite Player_score_update. reflexivity.
  - intros H. f_equal. apply IH. exact H.
Qed.

Lemma checkWinLoop_cons index rest g :
  checkWinLoop (index :: rest) g =
  match Game.players g !! index with
  | None => checkWinLoop rest g
  | Some player =>
      let p1 := (Player_updateVictoryPoints player).2 in
      let g1 := Game.set_players (<[index := p1]> (Game.players g)) g in
      if Game.targetVictoryPoints g <=? Player_score player then
        (true,
         Game_logEvent (MsgWins (Player.name p1) (Player_score player))
           (Game.set_gamePhase finished
              (Game.set_winner (Some (Player.id player)) g1)))
      else checkWinLoop rest g1
  end.
Proof. reflexivity. Qed.

(** The loop of [checkWinCondition] from position [a] on. *)
Lemma checkWinLoop_spec k : forall a g,
  (a + k = length (Game.players g))%nat ->
  forall won g', checkWinLoop (seq a k) g = (won, g') ->
  map Player_score (Game.players g') = map Player_score (Game.players g)
  /\ Game.targetVictoryPoints g' = Game.targetVictoryPoints g
  /\ (forall i, (i < a)%nat -> Game.players g' !! i = Game.players g !! i)
  /\ (won = true ->
        Game.gamePhase g' = finished
        /\ exists i p,
             (a <= i)%nat /\ Game.players g !! i = Some p
             /\ Game.targetVictoryPoints g <= Player_score p
             /\ Game.winner g' = Some (Player.id p)
             /\ forall j q, (a <= j < i)%nat -> Game.players g !! j = Some q ->
                  Player_score q < Game.targetVictoryPoints g)
  /\ (won = false ->
        Game.gamePhase g' = Game.gamePhase g
        /\ Game.winner g' = Game.winner g
        /\ forall i p, (a <= i)%nat -> Game.players g !! i = Some p ->
             Player_score p < Game.targetVictoryPoints g
             /\ Game.players g' !! i = Some (Player_updateVictoryPoints p).2).
Proof.
  induction k as [|k IH]; intros a g Hlen won g';
    [simpl | rewrite <- cons_seq, checkWinLoop_cons].
  - intros [= <- <-]. split_and!; auto; try discriminate.
    intros _. split_and!; auto.
    intros i p Hi Hp. apply lookup_lt_Some in Hp. lia.
  - destruct (Game.players g !! a) as [pa|] eqn:Hpa;
      [|apply lookup_ge_None in Hpa; lia].
    cbv zeta.
    destruct (Game.targetVictoryPoints g <=? Player_score pa) eqn:Hwin.
    + apply Z.leb_le in Hwin. intros [= <- <-]. simpl.
      split; [apply map_score_insert; auto|].
      split; [reflexivity|].
      split; [intros i Hi; apply list_lookup_insert_ne; lia|].
      split; [|discriminate].
      intros _. split; [reflexivity|]. exists a, pa.
      split_and!; auto. intros j q Hj. lia.
    + apply Z.leb_gt in Hwin. intros Hloop.
      apply IH in Hloop; [|simpl; rewrite length_insert; lia].
      simpl in Hloop.
      destruct Hloop as (Hmap & Htarget & Hbefore & Htrue & Hfalse).
      split; [rewrite Hmap; apply map_score_insert; auto|].
      split; [exact Htarget|].
      split.
      { intros i Hi. rewrite Hbefore by lia.
        apply list_lookup_insert_ne. lia. }
      split.
      * intros Hw. destruct (Htrue Hw) as (Hph & i & p & Hi & Hp & Hsc & Hwn & Hlt).
        split; [exact Hph|]. rewrite list_lookup_insert_ne in Hp by lia.
        exists i, p. split_and!; auto; try lia.
        intros j q Hj Hq. destruct (decide (j = a)) as [->|Hne].
        { rewrite Hpa in Hq. injection Hq as <-. exact Hwin. }
        apply (Hlt j q); [lia|]. rewrite list_lookup_insert_ne by lia. exact Hq.
      * intros Hw. destruct (Hfalse Hw) as (Hph & Hwn & Hall).
        split; [exact Hph|]. split; [exact Hwn|].
        intros i p Hi Hp. destruct (decide (i = a)) as [->|Hne].
        { rewrite Hpa in Hp. injection Hp as <-. split; [exact Hwin|].
          rewrite Hbefore by lia. apply list_lookup_insert_eq.
          apply lookup_lt_Some in Hpa. exact Hpa. }
        apply Hall; [lia|]. rewrite list_lookup_insert_ne by lia. exact Hp.
Qed.

Lemma Game_logEvent_players m g :
  Game.players (Game_logEvent m g) = Game.players g.
Proof. reflexivity. Qed.

Lemma Game_endSetupTurn_players g :
  Game.players (Game_endSetupTurn g) = Game.players g
  /\ Game.targetVictoryPoints (Game_endSetupTurn g) = Game.targetVictoryPoints g.
Proof.
  unfold Game_endSetupTurn.
  repeat match goal with |- context [if ?c then _ else _] => destruct c end;
    split; reflexivity.
Qed.

Lemma Game_endNormalTurn_players g :
  Game.players (Game_endNormalTurn g) = Game.players g
  /\ Game.targetVictoryPoints (Game_endNormalTurn g) = Game.targetVictoryPoints g.
Proof. split; reflexivity. Qed.

(** The players the loop has visited when it stops at a winner: those up
    to the winner hold their recomputed score, those behind are as they
    were. *)
Lemma checkWinLoop_visited k : forall a g g',
  (a + k = length (Game.players g))%nat ->
  checkWinLoop (seq a k) g = (true, g') ->
  exists i p,
    (a <= i)%nat /\ Game.players g !! i = Some p
    /\ Game.targetVictoryPoints g <= Player_score p
    /\ (forall j q, (a <= j < i)%nat -> Game.players g !! j = Some q ->
          Player_score q < Game.targetVictoryPoints g)
    /\ (forall j q, (a <= j <= i)%nat -> Game.players g !! j = Some q ->
          Game.players g' !! j = Some (Player_updateVictoryPoints q).2)
    /\ (forall j, (i < j)%nat -> Game.players g' !! j = Game.players g !! j).
Proof.
  induction k as [|k IH]; intros a g g' Hlen;
    [simpl; discriminate | rewrite <- cons_seq, checkWinLoop_cons].
  destruct (Game.players g !! a) as [pa|] eqn:Hpa;
    [|apply lookup_ge_None in Hpa; lia].
  cbv zeta.
  destruct (Game.targetVictoryPoints g <=? Player_score pa) eqn:Hwin.
  - apply Z.leb_le in Hwin. intros [= <-]. exists a, pa.
    split_and!; auto.
    + intros j q Hj. lia.
    + intros j q Hj Hq. assert (j = a) as -> by lia.
      rewrite Hpa in Hq. injection Hq as <-. cbn.
      apply list_lookup_insert_eq. apply lookup_lt_Some in Hpa. exact Hpa.
    + intros j Hj. cbn. apply list_lookup_insert_ne. lia.
  - apply Z.leb_gt in Hwin. intros Hloop.
    assert (S a + k
            = length (Game.players
                        (Game.set_players
                           (<[a := (Player_updateVictoryPoints pa).2]>
                              (Game.players g)) g)))%nat as Hlen1
      by (simpl; rewrite length_insert; lia).
    pose proof (checkWinLoop_spec k (S a) _ Hlen1 true g' Hloop)
      as (_ & _ & Hbefore & _).
    apply (IH _ _ _ Hlen1) in Hloop.
    destruct Hloop as (i & p & Hi & Hp & Hsc & Hlt & Hupd & Hrest).
    cbn [Game.players Game.set_players Game.targetVictoryPoints] in *.
    rewrite list_lookup_insert_ne in Hp by lia.
    exists i, p. split_and!; auto; try lia.
    + intros j q Hj Hq. destruct (decide (j = a)) as [->|Hne].
      * rewrite Hpa in Hq. injection Hq as <-. exact Hwin.
      * apply (Hlt j q); [lia|]. rewrite list_lookup_insert_ne by lia. exact Hq.
    + intros j q Hj Hq. destruct (decide (j = a)) as [->|Hne].
      * rewrite Hpa in Hq. injection Hq as <-.
        rewrite Hbefore by lia.
        apply list_lookup_insert_eq. apply lookup_lt_Some in Hpa. exact Hpa.
      * apply Hupd; [lia|]. rewrite list_lookup_insert_ne by lia. exact Hq.
    + intros j Hj. rewrite Hrest by lia. apply list_lookup_insert_ne. lia.
Qed.

(** A placement compares nothing with the target. *)
Lemma Game_placeSettlement_phase vertex player g G :
  Game.gamePhase (Game_placeSettlement vertex player g G).1.2 = Game.gamePhase g
  /\ Game.winner (Game_placeSettlement vertex player g G).1.2 = Game.winner g.
Proof.
  unfold Game_placeSettlement.
  destruct (Game_resolvePlayer player g) as [i|]; [|auto].
  destruct (Game.gamePhase g) eqn:Hph; auto.
  - unfold Game_placeSetupSettlement.
    destruct (Game.players g !! i) as [p|]; [|auto].
    destruct (JSMap.get vertex (Board.vertices (Game.board g))) as [v|]; [|auto].
    destruct (negb (Vertex_canPlaceSettlement (Game.board g) v)); [auto|].
    destruct (Player_buildSettlement vertex p (Game.board g) G)
      as [[[[s|] p1] b1] G1]; cbn; auto.
  - unfold Game_placeNormalSettlement.
    destruct (_ || _); [auto|].
    destruct (Game.players g !! i) as [p|]; [|auto].
    destruct (Player_buildSettlement vertex p (Game.board g) G)
      as [[[s p1] b1] G1]; cbn; auto.
Qed.

Lemma Game_placeRoad_phase edge player g G :
  Game.gamePhase (Game_placeRoad edge player g G).1.2 = Game.gamePhase g
  /\ Game.winner (Game_placeRoad edge player g G).1.2 = Game.winner g.
Proof.
  unfold Game_placeRoad.
  destruct (Game_resolvePlayer player g) as [i|]; [|auto].
  destruct (Game.gamePhase g) eqn:Hph; auto.
  - unfold Game_placeSetupRoad.
    destruct (Game.players g !! i) as [p|]; [|auto].
    destruct (Player_buildRoad edge p (Game.board g) G)
      as [[[[r|] p1] b1] G1]; cbn; auto.
  - unfold Game_placeNormalRoad.
    destruct (_ || _); [auto|].
    destruct (Game.players g !! i) as [p|]; [|auto].
    destruct (Player_buildRoad edge p (Game.board g) G)
      as [[[r p1] b1] G1]; cbn; auto.
Qed.
End Win.

(** C8, as the code has it.  [Game.endTurn] recomputes the score of the
    players in order (1 per settlement, 2 per city, the point cards, 2 for
    the longest road, 2 for the largest army) and compares each with the
    target of 10 as soon as it is recomputed: the first player in that order
    whose score is at least 10 ends the game in phase [finished] and is
    recorded as winner; the players up to the winner then hold their
    recomputed score and those behind the winner are not visited.  Hence
    after a turn end the game is in a non-finished phase only if every
    player's stored score is up to date and below 10.  A placement
    ([placeSettlement], [placeRoad]) compares nothing: whatever it is given,
    it leaves the phase and the winner as they were. *)
Theorem endTurn_ends_game_at_target (g : Game.t) :
  Game.targetVictoryPoints g = 10 ->
  (forall p,
     Player_score p =
       Z.of_nat (length (Player.settlements p))
       + 2 * Z.of_nat (length (Player.cities p))
       + DevelopmentCards.victoryPoint (Player.developmentCards p)
       + (if Player.hasLongestRoad p then 2 else 0)
       + (if Player.hasLargestArmy p then 2 else 0))
  /\ map Player_score (Game.players (Game_endTurn g))
       = map Player_score (Game.players g)
  /\ (forall i p,
        Game.players g !! i = Some p ->
        10 <= Player_score p ->
        (forall j q, (j < i)%nat -> Game.players g !! j = Some q ->
                     Player_score q < 10) ->
        Game.gamePhase (Game_endTurn g) = finished
        /\ Game.winner (Game_endTurn g) = Some (Player.id p)
        /\ (forall j q, (j <= i)%nat -> Game.players g !! j = Some q ->
              Game.players (Game_endTurn g) !! j
              = Some (Player_updateVictoryPoints q).2
              /\ Player.victoryPoints (Player_updateVictoryPoints q).2
                 = Player_score q)
        /\ (forall j, (i < j)%nat ->
              Game.players (Game_endTurn g) !! j = Game.players g !! j))
  /\ (Game.gamePhase (Game_endTurn g) <> finished ->
      forall p, p ∈ Game.players (Game_endTurn g) ->
        Player.victoryPoints p = Player_score p /\ Player_score p < 10)
  /\ (forall vertex edge player G,
        Game.gamePhase (Game_placeSettlement vertex player g G).1.2
          = Game.gamePhase g
        /\ Game.winner (Game_placeSettlement vertex player g G).1.2
           = Game.winner g
        /\ Game.gamePhase (Game_placeRoad edge player g G).1.2
           = Game.gamePhase g
        /\ Game.winner (Game_placeRoad edge player g G).1.2 = Game.winner g).
Proof.
  intros Htarget. split.
  { intros p. unfold Player_score, Player_updateVictoryPoints. simpl.
    destruct (Player.hasLongestRoad p), (Player.hasLargestArmy p); lia. }
  assert (forall vertex edge player G,
            Game.gamePhase (Game_placeSettlement vertex player g G).1.2
              = Game.gamePhase g
            /\ Game.winner (Game_placeSettlement vertex player g G).1.2
               = Game.winner g
            /\ Game.gamePhase (Game_placeRoad edge player g G).1.2
               = Game.gamePhase g
            /\ Game.winner (Game_placeRoad edge player g G).1.2
               = Game.winner g) as Hplace.
  { intros vertex edge player G.
    destruct (Game_placeSettlement_phase vertex player g G) as [H1 H2].
    destruct (Game_placeRoad_phase edge player g G) as [H3 H4].
    auto. }
  revert Hplace. generalize (Game_placeSettlement) (Game_placeRoad).
  intros placeS placeR Hplace.
  unfold Game_endTurn, Game_checkWinCondition.
  set (g1 := match Game.gamePhase g with
             | setup => Game_endSetupTurn g
             | playing => Game_endNormalTurn g
             | _ => g
             end).
  assert (Game.players g1 = Game.players g
          /\ Game.targetVictoryPoints g1 = Game.targetVictoryPoints g)
    as [Hplayers Htarget1].
  { subst g1.
    destruct (Game.gamePhase g);
      auto using Game_endSetupTurn_players, Game_endNormalTurn_players. }
  destruct (checkWinLoop (seq 0 (length (Game.players g1))) g1)
    as [won g'] eqn:Hloop.
  pose proof (checkWinLoop_spec _ 0%nat g1 eq_refl won g' Hloop)
    as (Hmap & _ & _ & Htrue & Hfalse).
  assert (won = true ->
          exists i p,
            Game.players g1 !! i = Some p
            /\ Game.targetVictoryPoints g1 <= Player_score p
            /\ (forall j q, (j < i)%nat -> Game.players g1 !! j = Some q ->
                  Player_score q < Game.targetVictoryPoints g1)
            /\ (forall j q, (j <= i)%nat -> Game.players g1 !! j = Some q ->
                  Game.players g' !! j = Some (Player_updateVictoryPoints q).2)
            /\ (forall j, (i < j)%nat ->
                  Game.players g' !! j = Game.players g1 !! j)) as Hvis.
  { intros ->.
    destruct (checkWinLoop_visited _ 0%nat g1 g' eq_refl Hloop)
      as (i & p & _ & Hp & Hsc & Hlt & Hupd & Hrest).
    exists i, p. split_and!; auto.
    - intros j q Hj. apply Hlt. lia.
    - intros j q Hj. apply Hupd. lia. }
  rewrite Hplayers, Htarget1, Htarget in *. simpl.
  split; [exact Hmap|]. split; [|split; [|exact Hplace]].
  - intros i p Hp Hscore Hfirst. destruct won.
    + destruct (Htrue eq_refl) as (Hph & i' & p' & _ & Hp' & Hsc' & Hwn & Hlt).
      destruct (Hvis eq_refl) as (i2 & p2 & Hp2 & Hsc2 & Hlt2 & Hupd & Hrest).
      assert (i' = i) as ->.
      { destruct (lt_eq_lt_dec i i') as [[Hlt'|Heq]|Hgt]; [|auto|].
        - specialize (Hlt i p ltac:(lia) Hp). lia.
        - specialize (Hfirst i' p' Hgt Hp'). lia. }
      assert (i2 = i) as ->.
      { destruct (lt_eq_lt_dec i i2) as [[Hlt'|Heq]|Hgt]; [|auto|].
        - specialize (Hlt2 i p Hlt' Hp). lia.
        - specialize (Hfirst i2 p2 Hgt Hp2). lia. }
      split; [exact Hph|]. split; [congruence|].
      split; [|exact Hrest].
      intros j q Hj Hq. split; [apply Hupd; auto|reflexivity].
    + destruct (Hfalse eq_refl) as (_ & _ & Hall).
      destruct (Hall i p ltac:(lia) Hp) as [Hlt _]. lia.
  - intros Hphase p Hin. destruct won.
    + destruct (Htrue eq_refl) as (Hph & _). contradiction.
    + destruct (Hfalse eq_refl) as (_ & _ & Hall).
      apply list_elem_of_lookup in Hin as [i Hi].
      assert (is_Some (Game.players g !! i)) as [q Hq].
      { apply lookup_lt_is_Some. apply lookup_lt_Some in Hi.
        rewrite <- (length_map Player_score) in Hi |- *.
        rewrite <- Hmap. exact Hi. }
      destruct (Hall i q ltac:(lia) Hq) as [Hlt Hupd].
      assert (p = (Player_updateVictoryPoints q).2) as -> by congruence.
      rewrite Player_score_update. split; [reflexivity|exact Hlt].
Qed.

Lemma endTurn_ends_game_at_target_witness :
  Game.targetVictoryPoints tenPoints.1 = 10
  /\ Game.gamePhase tenPoints.1 = playing
  /\ map Player_score (Game.players tenPoints.1) = [10; 0]
  /\ Game.gamePhase (Game_endTurn tenPoints.1) = finished
  /\ Game.winner (Game_endTurn tenPoints.1) = Some 1%nat
  /\ map Player.victoryPoints (Game.players (Game_endTurn tenPoints.1))
     = [10; 0].
Proof.
  split; [reflexivity|]. split; [reflexivity|]. split; [reflexivity|].
  destruct (Game.players tenPoints.1 !! 0%nat) as [red|] eqn:Hred;
    [|vm_compute in Hred; discriminate].
  assert (Player.id red = 1%nat /\ 10 <= Player_score red) as [Hid Hscore].
  { vm_compute in Hred. injection Hred as <-. split; [reflexivity|].
    vm_compute. discriminate. }
  destruct (proj1 (proj2 (proj2 (endTurn_ends_game_at_target tenPoints.1 eq_refl)))
              0%nat red Hred Hscore ltac:(intros j q Hj; lia))
    as (Hphase & Hwinner & _).
  split; [exact Hphase|]. split; [rewrite Hwinner, Hid; reflexivity|].
  vm_compute. reflexivity.
Defined.

(** C8, the part that fails.  A placement that brings a player to 10 points
    leaves the game in phase [playing], without a winner: from the state
    [ninePoints] the first player places a sixth building, a settlement, and
    holds 10 points at rest. *)
Lemma placement_does_not_check_win :
  let '(settlement, g', _) :=
    Game_placeSettlement (0, -1, 3) None ninePoints.1 ninePoints.2 in
  settlement <> None
  /\ map Player.victoryPoints (Game.players g') = [10; 0]
  /\ map Player_score (Game.players g') = [10; 0]
  /\ Game.targetVictoryPoints g' = 10
  /\ Game.gamePhase g' = playing
  /\ Game.winner g' = None.
Proof. vm_compute. repeat split; discriminate. Qed.

(** ** Setup placements *)
Section Setup.
Lemma Game_set_players_id (g : Game.t) i p :
  Game.players g !! i = Some p ->
  Game.set_players (<[i := p]> (Game.players g))
    (Game.set_board (Game.board g) g) = g.
Proof.
  intros H. rewrite list_insert_id by exact H. destruct g; reflexivity.
Qed.

(** With no dice roll given, no hex produces. *)
Lemma Hex_shouldProduce_undefined tokens h :
  Hex_shouldProduce tokens None h = false.
Proof.
  unfold Hex_shouldProduce.
  destruct (Hex_canProduceResources h); simpl; auto.
  destruct (Hex.numberToken h) as [t|]; simpl; auto.
  destruct (tokens !! t); reflexivity.
Qed.

Lemma Settlement_collectResources_undefined b s :
  Settlement_collectResources b None s = [].
Proof.
  unfold Settlement_collectResources.
  destruct (Settlement.vertex s) as [vertex|]; auto.
  induction (Vertex_hexes b vertex) as [|hex l IH]; simpl; auto.
  rewrite IH. unfold Hex_yield.
  destruct (JSMap.get hex (Board.hexes b)); auto.
  rewrite Hex_shouldProduce_undefined. reflexivity.
Qed.

Lemma Player_buildSettlement_unaffordable vertex p b G :
  Player_canAfford "settlement" p = false ->
  Player_buildSettlement vertex p b G = (None, p, b, G).
Proof. intros H. unfold Player_buildSettlement. rewrite H. reflexivity. Qed.
End Setup.

(** C3, what the code does instead.  In the setup phase a player who cannot
    afford a settlement gets [null] from [Game.placeSettlement] and nothing
    changes, so the players of a fresh game, who hold no card, cannot place;
    a setup settlement collects with no dice roll, which yields nothing on
    any board; and a player who holds exactly the price places in round 2 on
    a corner of a brick hex that carries a token, pays the price and is
    granted nothing. *)
Theorem setup_settlement_is_paid_for :
  (forall g G vertex player p,
     Game.gamePhase g = setup ->
     Game.players g !! player = Some p ->
     Player_canAfford "settlement" p = false ->
     Game_placeSettlement vertex (Some player) g G = (None, g, G))
  /\ (forall b s, Settlement_collectResources b None s = [])
  /\ (Game.gamePhase setupStart.1 = setup
      /\ option_map Player.resources (Game_getCurrentPlayer setupStart.1)
           = Some (ledger 0 0 0 0 0)
      /\ Board_buildingAt (Game.board setupStart.1) (2, -2, 4) = None
      /\ Game_placeSettlement (2, -2, 4) None setupStart.1 setupStart.2
           = (None, setupStart.1, setupStart.2))
  /\ (Game.gamePhase setupRoundTwo.1 = setup
      /\ Game.setupRound setupRoundTwo.1 = 2
      /\ option_map Player.resources (Game_getCurrentPlayer setupRoundTwo.1)
           = Some (ledger 1 1 0 1 1)
      /\ Vertex_hexes (Game.board setupRoundTwo.1) (2, -2, 4) = [(1, -1)]
      /\ option_map Hex_canProduceResources
           (JSMap.get (1, -1) (Board.hexes (Game.board setupRoundTwo.1)))
           = Some true
      /\ option_map Hex_getResourceType
           (JSMap.get (1, -1) (Board.hexes (Game.board setupRoundTwo.1)))
           = Some (Some "brick"%string)
      /\ let '(settlement, g', _) :=
           Game_placeSettlement (2, -2, 4) None setupRoundTwo.1 setupRoundTwo.2 in
         settlement <> None
         /\ option_map Player.resources (Game_getCurrentPlayer g')
              = Some (ledger 0 0 0 0 0)).
Proof.
  split; [|split; [|split]].
  - intros g G vertex player p Hphase Hp Hafford.
    unfold Game_placeSettlement, Game_resolvePlayer. rewrite Hphase.
    unfold Game_placeSetupSettlement. rewrite Hp.
    destruct (JSMap.get vertex (Board.vertices (Game.board g))) as [v|]; auto.
    destruct (negb (Vertex_canPlaceSettlement (Game.board g) v)); auto.
    rewrite Player_buildSettlement_unaffordable by exact Hafford.
    rewrite Game_set_players_id by exact Hp. reflexivity.
  - apply Settlement_collectResources_undefined.
  - vm_compute. repeat split.
  - vm_compute. repeat split; discriminate.
Qed.

(** ** Token placement leaves the rest of the board alone *)
Section Erase.
Implicit Types (b : Board.t).

Lemma map_JSMap_set {K V W} `{!EqDecision K} (f : K * V -> W) k v v0
    (m : list (K * V)) :
  JSMap.get k m = Some v0 -> f (k, v) = f (k, v0) ->
  map f (JSMap.set k v m) = map f m.
Proof.
  intros Hget Hf. induction m as [|[k' v'] m IH]; simpl in *; [discriminate|].
  destruct (decide (k' = k)) as [->|Hne]; simpl.
  - injection Hget as ->. rewrite Hf. reflexivity.
  - rewrite IH by exact Hget. reflexivity.
Qed.

Lemma map_JSMap_modify {K V W} `{!EqDecision K} (f : K * V -> W) k g
    (m : list (K * V)) :
  (forall v, f (k, g v) = f (k, v)) ->
  map f (JSMap.modify k g m) = map f m.
Proof.
  intros Hf. unfold JSMap.modify.
  destruct (JSMap.get k m) as [v0|] eqn:Hget; auto.
  eapply map_JSMap_set; eauto.
Qed.

Lemma map_list_insert {A B} (f : A -> B) i x y (l : list A) :
  l !! i = Some y -> f x = f y -> map f (<[i := x]> l) = map f l.
Proof.
  revert i. induction l as [|a l IH]; intros [|i]; simpl; try discriminate.
  - intros [= ->] ->. reflexivity.
  - intros H Hf. f_equal. apply IH; auto.
Qed.

Lemma NumberToken_placeOnHex_erase token hex b :
  Board_erase (NumberToken_placeOnHex token hex b) = Board_erase b.
Proof.
  unfold NumberToken_placeOnHex.
  destruct (Board.numberTokens b !! token) as [tok|] eqn:Htok; auto.
  unfold Board_erase. simpl. f_equal.
  - destruct hex as [h|].
    + rewrite map_JSMap_modify by reflexivity.
      destruct (NumberToken.hex tok); auto.
      rewrite map_JSMap_modify by reflexivity. reflexivity.
    + destruct (NumberToken.hex tok); auto.
      rewrite map_JSMap_modify by reflexivity. reflexivity.
  - eapply map_list_insert; eauto.
Qed.

Lemma JSMap_get_map_values {K V W} `{!EqDecision K} (f : V -> W) k
    (m' m : list (K * V)) :
  map (fun kv => (kv.1, f kv.2)) m' = map (fun kv => (kv.1, f kv.2)) m ->
  option_map f (JSMap.get k m') = option_map f (JSMap.get k m).
Proof.
  revert m. induction m' as [|[k' v'] m' IH]; intros [|[k0 v0] m]; simpl;
    try discriminate; auto.
  intros [= -> Hv Hm]. destruct (decide (k0 = k)); simpl.
  - rewrite Hv. reflexivity.
  - apply IH. exact Hm.
Qed.

Lemma Board_erase_hexes_get b b' hex :
  Board_erase b' = Board_erase b ->
  option_map (Hex.set_numberToken None) (JSMap.get hex (Board.hexes b'))
    = option_map (Hex.set_numberToken None) (JSMap.get hex (Board.hexes b)).
Proof.
  intros H. apply (f_equal Board.hexes) in H.
  apply JSMap_get_map_values. exact H.
Qed.

Lemma Board_erase_keys b b' :
  Board_erase b' = Board_erase b ->
  JSMap.keys (Board.hexes b') = JSMap.keys (Board.hexes b).
Proof.
  intros H. apply (f_equal Board.hexes) in H. simpl in H.
  apply (f_equal (map fst)) in H. rewrite !map_map in H. exact H.
Qed.

Lemma Board_erase_terrainIs b b' t hex :
  Board_erase b' = Board_erase b ->
  Hex_terrainIs b' t hex = Hex_terrainIs b t hex.
Proof.
  intros H. apply (Board_erase_hexes_get _ _ hex) in H.
  unfold Hex_terrainIs.
  destruct (JSMap.get hex (Board.hexes b')) as [h'|],
           (JSMap.get hex (Board.hexes b)) as [h|]; simpl in H;
    try discriminate; auto.
  assert (Hex.set_numberToken None h' = Hex.set_numberToken None h) as E
    by congruence.
  apply (f_equal Hex.terrain) in E. simpl in E. rewrite E. reflexivity.
Qed.

Lemma Board_erase_neighbors b b' hex :
  Board_erase b' = Board_erase b ->
  Hex_neighbors b' hex = Hex_neighbors b hex.
Proof.
  intros H. apply (Board_erase_hexes_get _ _ hex) in H.
  unfold Hex_neighbors.
  destruct (JSMap.get hex (Board.hexes b')) as [h'|],
           (JSMap.get hex (Board.hexes b)) as [h|]; simpl in H;
    try discriminate; auto.
  assert (Hex.set_numberToken None h' = Hex.set_numberToken None h) as E
    by congruence.
  apply (f_equal Hex.neighbors) in E. exact E.
Qed.

Lemma Board_erase_token_value b b' token :
  Board_erase b' = Board_erase b ->
  option_map NumberToken.value (Board.numberTokens b' !! token)
    = option_map NumberToken.value (Board.numberTokens b !! token).
Proof.
  intros H. apply (f_equal Board.numberTokens) in H. simpl in H.
  apply (f_equal (map NumberToken.value)) in H. rewrite !map_map in H.
  simpl in H.
  change (NumberToken.value <$> (Board.numberTokens b' !! token)
          = NumberToken.value <$> (Board.numberTokens b !! token)).
  rewrite <- !list_lookup_fmap. exact (f_equal (fun l => l !! token) H).
Qed.

Lemma Board_erase_tokenIsHighProbability b b' token :
  Board_erase b' = Board_erase b ->
  tokenIsHighProbability b' token = tokenIsHighProbability b token.
Proof.
  intros H. apply (Board_erase_token_value _ _ token) in H.
  unfold tokenIsHighProbability, NumberToken_isHighProbability.
  destruct (Board.numberTokens b' !! token) as [t'|] eqn:E',
           (Board.numberTokens b !! token) as [t|] eqn:E;
    rewrite ?E', ?E in H; simpl in H;
    try discriminate; auto.
  assert (NumberToken.value t' = NumberToken.value t) as -> by congruence.
  reflexivity.
Qed.
End Erase.

(** ** Shuffling *)
Section Shuffle.
Context {A : Type}.
Implicit Types (l : list A).

Lemma swap_length i j l : length (swap i j l) = length l.
Proof.
  unfold swap. destruct (l !! i), (l !! j); auto.
  rewrite !length_insert. reflexivity.
Qed.

Lemma swap_Permutation i j l : Permutation (swap i j l) l.
Proof.
  unfold swap.
  destruct (l !! i) as [a|] eqn:Hi; [|reflexivity].
  destruct (l !! j) as [c|] eqn:Hj; [|reflexivity].
  destruct (decide (i = j)) as [->|Hne].
  - rewrite list_insert_insert_eq. rewrite list_insert_id by exact Hi.
    reflexivity.
  - apply Permutation_sym. apply Permutation_inj. split.
    + rewrite !length_insert. reflexivity.
    + exists (fun n => if decide (n = i) then j else if decide (n = j) then i else n).
      split.
      * intros x y. repeat case_decide; congruence.
      * intros n. repeat case_decide; subst.
        -- rewrite list_lookup_insert_eq;
             [congruence | rewrite length_insert; eapply lookup_lt_Some; eauto].
        -- rewrite list_lookup_insert_ne by congruence.
           rewrite list_lookup_insert_eq by (eapply lookup_lt_Some; eauto).
           congruence.
        -- rewrite !list_lookup_insert_ne by congruence. reflexivity.
Qed.

Lemma shuffleLoop_Permutation i l G : Permutation (shuffleLoop i l G).1 l.
Proof.
  revert l G. induction i as [|i IH]; intros l G; [reflexivity|].
  change (shuffleLoop (S i) l G)
    with (let '(j, G1) := randomBelow (S i + 1) G in
          shuffleLoop i (swap (S i) j l) G1).
  destruct (randomBelow (S i + 1) G) as [j G1].
  rewrite IH. apply swap_Permutation.
Qed.

Lemma Board_shuffleArray_Permutation l G :
  Permutation (Board_shuffleArray l G).1 l.
Proof. apply shuffleLoop_Permutation. Qed.

Lemma Board_shuffleArray_length l G :
  length (Board_shuffleArray l G).1 = length l.
Proof. apply Permutation_length, Board_shuffleArray_Permutation. Qed.
End Shuffle.

(** ** What board generation fixes, whatever the random source *)
Section Generation_frame.
Implicit Types (b : Board.t) (G : Globals).

Lemma placeRedToken_erase st token :
  Board_erase (placeRedToken st token).1.2 = Board_erase st.1.2.
Proof.
  destruct st as [[availableHexes b] G]. unfold placeRedToken.
  destruct (0 <? length (validHexesFor b availableHexes))%nat.
  - destruct (randomBelow _ G) as [randomIndex G1]. simpl.
    apply NumberToken_placeOnHex_erase.
  - destruct (0 <? length availableHexes)%nat; [|reflexivity].
    simpl. apply NumberToken_placeOnHex_erase.
Qed.

Lemma fold_placeRedToken_erase tokens st :
  Board_erase (fold_left placeRedToken tokens st).1.2 = Board_erase st.1.2.
Proof.
  revert st. induction tokens as [|t tokens IH]; intros st; simpl; auto.
  rewrite IH. apply placeRedToken_erase.
Qed.

Lemma Board_placeRedTokensWithConstraint_erase tokens hexes b G :
  Board_erase (Board_placeRedTokensWithConstraint tokens hexes b G).1
    = Board_erase b.
Proof.
  unfold Board_placeRedTokensWithConstraint.
  pose proof (fold_placeRedToken_erase tokens (hexes, b, G)) as H.
  destruct (fold_left placeRedToken tokens (hexes, b, G)) as [[av b'] G'].
  exact H.
Qed.

Lemma fold_placeOnHex_erase (pairs : list (TokenRef * HexKey)) b :
  Board_erase
    (fold_left (fun b '(token, hex) => NumberToken_placeOnHex token (Some hex) b)
       pairs b) = Board_erase b.
Proof.
  revert b. induction pairs as [|[t h] pairs IH]; intros b; simpl; auto.
  rewrite IH. apply NumberToken_placeOnHex_erase.
Qed.

Lemma Board_placeRemainingTokens_erase tokens hexes b G :
  Board_erase (Board_placeRemainingTokens tokens hexes b G).1 = Board_erase b.
Proof.
  unfold Board_placeRemainingTokens.
  destruct (Board_shuffleArray _ G) as [shuffledAvailable G1]. simpl.
  apply fold_placeOnHex_erase.
Qed.

Lemma Board_placeNumberTokens_erase b G :
  Board_erase (Board_placeNumberTokens b G).1
    = Board_erase (Board.set_numberTokens NumberToken_createStandardSet b).
Proof.
  unfold Board_placeNumberTokens.
  destruct (Board_shuffleArray _ G) as [shuffledRedTokens G1].
  destruct (Board_shuffleArray _ G1) as [shuffledNonRedTokens G2].
  destruct (Board_placeRedTokensWithConstraint _ _ _ G2) as [b1 G3] eqn:Hred.
  rewrite Board_placeRemainingTokens_erase.
  change b1 with (b1, G3).1. rewrite <- Hred.
  apply Board_placeRedTokensWithConstraint_erase.
Qed.

Lemma Board_placeRobberOnDesert_topology b :
  Board.vertices (Board_placeRobberOnDesert b) = Board.vertices b
  /\ Board.edges (Board_placeRobberOnDesert b) = Board.edges b
  /\ Board.numberTokens (Board_placeRobberOnDesert b) = Board.numberTokens b.
Proof.
  unfold Board_placeRobberOnDesert.
  destruct (find _ _); repeat split; reflexivity.
Qed.

Lemma list_of_length_19 {A} (l : list A) :
  length l = 19%nat ->
  exists t0 t1 t2 t3 t4 t5 t6 t7 t8 t9 t10 t11 t12 t13 t14 t15 t16 t17 t18,
    l = [t0; t1; t2; t3; t4; t5; t6; t7; t8; t9; t10; t11; t12; t13; t14;
         t15; t16; t17; t18].
Proof.
  intros H.
  do 19 (destruct l as [|? l]; [discriminate|]).
  destruct l; [|discriminate]. repeat eexists.
Qed.

(** Vertices and edges do not depend on the terrains. *)
Lemma createHexes_topology ts rob bt :
  length ts = 19%nat ->
  Board.vertices
    (Board_buildRelationships (createHexes ts (Board.mk [] [] [] [] rob false bt)))
    = Board.vertices sampleBoard.1
  /\ Board.edges
    (Board_buildRelationships (createHexes ts (Board.mk [] [] [] [] rob false bt)))
    = Board.edges sampleBoard.1.
Proof.
  intros H. apply list_of_length_19 in H.
  destruct H as (t0 & t1 & t2 & t3 & t4 & t5 & t6 & t7 & t8 & t9 & t10 & t11
                 & t12 & t13 & t14 & t15 & t16 & t17 & t18 & ->).
  split; vm_compute; reflexivity.
Qed.

Lemma createHexes_robber ts rob bt :
  length ts = 19%nat ->
  Board.robber
    (Board_buildRelationships (createHexes ts (Board.mk [] [] [] [] rob false bt)))
    = rob.
Proof.
  intros H. apply list_of_length_19 in H.
  destruct H as (t0 & t1 & t2 & t3 & t4 & t5 & t6 & t7 & t8 & t9 & t10 & t11
                 & t12 & t13 & t14 & t15 & t16 & t17 & t18 & ->).
  vm_compute. reflexivity.
Qed.

(** The stages of [generateStandardBoard]. *)
Lemma Board_generateStandardBoard_stages b G :
  exists ts rob bt G1 b3 G3,
    Robber.hex rob = None
    /\ Permutation ts terrains
    /\ Board_placeNumberTokens
         (Board_buildRelationships
            (createHexes ts (Board.mk [] [] [] [] rob false bt))) G1 = (b3, G3)
    /\ Board_generateStandardBoard b G =
         (Board.mk (Board.hexes (Board_placeRobberOnDesert b3))
            (Board.vertices (Board_placeRobberOnDesert b3))
            (Board.edges (Board_placeRobberOnDesert b3))
            (Board.numberTokens (Board_placeRobberOnDesert b3))
            (Board.robber (Board_placeRobberOnDesert b3)) true standard, G3).
Proof.
  unfold Board_generateStandardBoard, Board_clear, Robber_new, freshPieceId.
  pose proof (Board_shuffleArray_Permutation terrains
    (mkGlobals (S (GamePiece_nextId G)) (Player_nextId G) (Math_random G)))
    as Hperm.
  destruct (Board_shuffleArray terrains _) as [ts G1].
  destruct (Board_placeNumberTokens
              (Board_buildRelationships
                 (createHexes ts
                    (Board.mk [] [] [] []
                       (Robber.mk (GamePiece_nextId G) None) false
                       (Board.boardType b)))) G1) as [b3 G3] eqn:Htok.
  exists ts, (Robber.mk (GamePiece_nextId G) None), (Board.boardType b), G1, b3, G3.
  split; [reflexivity|]. split; [exact Hperm|]. split; [exact Htok|].
  reflexivity.
Qed.

Lemma Board_placeNumberTokens_topology b G :
  Board.vertices (Board_placeNumberTokens b G).1 = Board.vertices b
  /\ Board.edges (Board_placeNumberTokens b G).1 = Board.edges b.
Proof.
  pose proof (Board_placeNumberTokens_erase b G) as Her.
  split.
  - exact (f_equal Board.vertices Her).
  - exact (f_equal Board.edges Her).
Qed.

Lemma Board_generateStandardBoard_topology b G :
  Board.vertices (Board_generateStandardBoard b G).1
    = Board.vertices sampleBoard.1
  /\ Board.edges (Board_generateStandardBoard b G).1
    = Board.edges sampleBoard.1.
Proof.
  destruct (Board_generateStandardBoard_stages b G)
    as (ts & rob & bt & G1 & b3 & G3 & _ & Hperm & Htok & ->).
  pose proof (createHexes_topology ts rob bt
                (Permutation_length Hperm)) as [Hv He].
  pose proof (Board_placeRobberOnDesert_topology b3) as (Hv4 & He4 & _).
  pose proof (Board_placeNumberTokens_topology
                (Board_buildRelationships
                   (createHexes ts (Board.mk [] [] [] [] rob false bt))) G1)
    as [Hv3 He3].
  rewrite Htok in Hv3, He3.
  split.
  - exact (eq_trans Hv4 (eq_trans Hv3 Hv)).
  - exact (eq_trans He4 (eq_trans He3 He)).
Qed.
End Generation_frame.

(** C1, what the code builds.  On every generated standard board, whatever
    the random source, the per-direction offset table gives each hex six
    vertex keys and six edge keys of its own: there are 114 vertices and 114
    edges (6 per hex), every vertex references exactly 1 hex and 3 edges,
    and every edge references exactly 1 hex and 3 vertices.  The corner
    where the hexes (0,0), (1,-1) and (1,0) meet exists three times, once
    per hex. *)
Theorem generated_corners_are_not_shared (b : Board.t) (G : Globals) :
  length (Board.vertices (Board_generateStandardBoard b G).1) = 114%nat
  /\ length (Board.edges (Board_generateStandardBoard b G).1) = 114%nat
  /\ Forall (fun kv => length (Vertex.hexes kv.2) = 1%nat
                       /\ length (Vertex.edges kv.2) = 3%nat)
       (Board.vertices (Board_generateStandardBoard b G).1)
  /\ Forall (fun ke => length (Edge.hexes ke.2) = 1%nat
                       /\ length (Edge.vertices ke.2) = 3%nat)
       (Board.edges (Board_generateStandardBoard b G).1)
  /\ Vertex_hexes (Board_generateStandardBoard b G).1 (Board_getVertexCoords 0 0 1)
       = [(0, 0)]
  /\ Vertex_hexes (Board_generateStandardBoard b G).1 (Board_getVertexCoords 1 (-1) 3)
       = [(1, -1)]
  /\ Vertex_hexes (Board_generateStandardBoard b G).1 (Board_getVertexCoords 1 0 5)
       = [(1, 0)].
Proof.
  destruct (Board_generateStandardBoard_topology b G) as [Hv He].
  unfold Vertex_hexes. rewrite Hv, He.
  split; [reflexivity|]. split; [reflexivity|].
  split; [vm_compute; repeat constructor|].
  split; [vm_compute; repeat constructor|].
  vm_compute. repeat split.
Qed.

(** ** The distance rule *)
Section Distance.
Lemma Vertex_canPlaceSettlement_no_adjacent b v :
  Vertex.adjacentVertices v = [] ->
  Vertex_canPlaceSettlement b v =
    match Vertex.building v with Some _ => false | None => true end.
Proof.
  intros H. unfold Vertex_canPlaceSettlement. rewrite H.
  destruct (Vertex.building v); reflexivity.
Qed.
End Distance.

(** C2, what the code does.  No operation fills [adjacentVertices]: on every
    generated board it is empty at every vertex, so [canPlaceSettlement]
    only checks the vertex itself.  In the game [redAtCorner] the corner
    [(1, -1, 4)] holds a settlement, the corner [(1, 0, 5)] is the other end
    of the edge [(0, 0, 0)], and still [canPlaceSettlement] is true there,
    [Vertex.placeSettlement] and [Game.placeSettlement] succeed and the
    building slot is filled. *)
Theorem distance_rule_is_not_enforced :
  (forall b G,
     Forall (fun kv => Vertex.adjacentVertices kv.2 = [])
       (Board.vertices (Board_generateStandardBoard b G).1))
  /\ (forall b v,
        Vertex.adjacentVertices v = [] ->
        Vertex_canPlaceSettlement b v =
          match Vertex.building v with Some _ => false | None => true end)
  /\ (Game.gamePhase redAtCorner.1 = setup
      /\ Board_buildingAt (Game.board redAtCorner.1) (1, -1, 4) <> None
      /\ Board_buildingAt (Game.board redAtCorner.1) (1, 0, 5) = None
      /\ Edge_vertices (Game.board redAtCorner.1) (0, 0, 0)
           = [(1, -1, 4); (1, 0, 5); (0, -1, 3)]
      /\ option_map (Vertex_canPlaceSettlement (Game.board redAtCorner.1))
           (JSMap.get (1, 0, 5) (Board.vertices (Game.board redAtCorner.1)))
           = Some true
      /\ (Vertex_placeSettlement (Settlement.mk 99%nat 2%nat None) (1, 0, 5)
            (Game.board redAtCorner.1)).1 = true
      /\ let '(settlement, g', _) :=
           Game_placeSettlement (1, 0, 5) None redAtCorner.1 redAtCorner.2 in
         settlement <> None
         /\ Board_buildingAt (Game.board g') (1, 0, 5) <> None
         /\ map (fun p => length (Player.settlements p)) (Game.players g')
              = [1; 1]%nat).
Proof.
  split; [|split].
  - intros b G.
    rewrite (proj1 (Board_generateStandardBoard_topology b G)).
    vm_compute. repeat constructor.
  - apply Vertex_canPlaceSettlement_no_adjacent.
  - vm_compute. repeat split; discriminate.
Qed.

(** ** Resource production *)
Section Production.
Implicit Types (b : Board.t) (p : Player.t) (l : list string).

Lemma collect_fold l (collected : list string) p :
  fold_left (fun '(collected, p) resource =>
    (collected ++ [resource], Player_addResources resource 1 p))
    l (collected, p) = (collected ++ l, addAll l p).
Proof.
  revert collected p. induction l as [|x l IH]; intros collected p; simpl.
  - rewrite app_nil_r. reflexivity.
  - rewrite IH. rewrite <- app_assoc. reflexivity.
Qed.

Lemma addAll_app l1 l2 p : addAll (l1 ++ l2) p = addAll l2 (addAll l1 p).
Proof. apply fold_left_app. Qed.

(** [collectFromDiceRoll] returns what the settlements and then the cities
    collect, and adds it to the ledger. *)
Lemma Player_collectFromDiceRoll_spec b diceRoll p :
  Player_collectFromDiceRoll b diceRoll p =
  let collected :=
    flat_map (Settlement_collectResources b diceRoll) (Player.settlements p)
    ++ flat_map (City_collectResources b diceRoll) (Player.cities p) in
  (collected, addAll collected p).
Proof.
  unfold Player_collectFromDiceRoll. cbv zeta.
  assert (forall (ss : list Settlement.t) collected q,
    fold_left (fun acc settlement =>
      fold_left (fun '(collected, p) resource =>
        (collected ++ [resource], Player_addResources resource 1 p))
        (Settlement_collectResources b diceRoll settlement) acc)
      ss (collected, q)
    = (collected ++ flat_map (Settlement_collectResources b diceRoll) ss,
       addAll (flat_map (Settlement_collectResources b diceRoll) ss) q)) as HS.
  { induction ss as [|s ss IH]; intros collected q; simpl.
    - rewrite app_nil_r. reflexivity.
    - rewrite collect_fold, IH, addAll_app, <- app_assoc. reflexivity. }
  assert (forall (cs : list City.t) collected q,
    fold_left (fun acc city =>
      fold_left (fun '(collected, p) resource =>
        (collected ++ [resource], Player_addResources resource 1 p))
        (City_collectResources b diceRoll city) acc)
      cs (collected, q)
    = (collected ++ flat_map (City_collectResources b diceRoll) cs,
       addAll (flat_map (City_collectResources b diceRoll) cs) q)) as HC.
  { induction cs as [|c cs IH]; intros collected q; simpl.
    - rewrite app_nil_r. reflexivity.
    - rewrite collect_fold, IH, addAll_app, <- app_assoc. reflexivity. }
  rewrite HS, HC, addAll_app. reflexivity.
Qed.

Lemma Player_addResources_frame r n p :
  Player_addResources r n p =
  Player.set_resources (Player.resources (Player_addResources r n p)) p.
Proof.
  unfold Player_addResources.
  destruct (JSMap.get r (Player.resources p)); destruct p; reflexivity.
Qed.

Lemma addAll_frame l p :
  addAll l p = Player.set_resources (Player.resources (addAll l p)) p.
Proof.
  revert p. induction l as [|x l IH]; intros p; simpl.
  - destruct p; reflexivity.
  - rewrite IH. rewrite (Player_addResources_frame x 1 p) at 2.
    destruct p; reflexivity.
Qed.

End Production.

(** ** A dice roll, player by player *)
Section Roll.
Implicit Types (g : Game.t) (p : Player.t).

(** The step of [handleResourceProduction] for the player at [index]. *)
Lemma Game_handleResourceProduction_players V g :
  Game.board (Game_handleResourceProduction V g) = Game.board g
  /\ length (Game.players (Game_handleResourceProduction V g))
       = length (Game.players g)
  /\ forall i p, Game.players g !! i = Some p ->
       Game.players (Game_handleResourceProduction V g) !! i
         = Some (Player_collectFromDiceRoll (Game.board g) (Some V) p).2.
Proof.
  unfold Game_handleResourceProduction. cbv zeta.
  set (step := fun g0 index =>
    match Game.players g0 !! index with
    | Some player =>
        let '(collected, p1) :=
          Player_collectFromDiceRoll (Game.board g0) (Some V) player in
        let g1 := Game.set_players (<[index := p1]> (Game.players g0)) g0 in
        if (0 <? length collected)%nat
        then Game_logEvent (MsgCollected (Player.name p1) collected) g1
        else g1
    | None => g0
    end).
  set (f := fun p => (Player_collectFromDiceRoll (Game.board g) (Some V) p).2).
  assert (forall k a g0,
    Game.board g0 = Game.board g ->
    (a + k = length (Game.players g0))%nat ->
    Game.board (fold_left step (seq a k) g0) = Game.board g
    /\ length (Game.players (fold_left step (seq a k) g0))
         = length (Game.players g0)
    /\ forall i p, Game.players g0 !! i = Some p ->
         Game.players (fold_left step (seq a k) g0) !! i
           = Some (if decide (a <= i)%nat then f p else p)) as H.
  { induction k as [|k IH]; intros a g0 Hb Hlen.
    - simpl. split_and!; auto. intros i p Hp.
      apply lookup_lt_Some in Hp as Hlt. rewrite decide_False by lia. exact Hp.
    - rewrite <- cons_seq. simpl.
      destruct (Game.players g0 !! a) as [pa|] eqn:Hpa;
        [|apply lookup_ge_None in Hpa; lia].
      assert (Game.board (step g0 a) = Game.board g
              /\ Game.players (step g0 a) = <[a := f pa]> (Game.players g0))
        as [Hb1 Hp1].
      { subst step f. cbv beta. rewrite Hpa, Hb.
        destruct (Player_collectFromDiceRoll (Game.board g) (Some V) pa)
          as [collected p1].
        destruct (0 <? length collected)%nat; split; auto. }
      destruct (IH (S a) (step g0 a) Hb1) as (Hb2 & Hl2 & Hall).
      { rewrite Hp1, length_insert. lia. }
      split_and!; auto.
      + rewrite Hl2, Hp1, length_insert. reflexivity.
      + intros i p Hp. destruct (decide (i = a)) as [->|Hne].
        * rewrite Hpa in Hp. injection Hp as <-.
          rewrite (Hall a (f pa)).
          -- rewrite decide_False by lia. rewrite decide_True by lia. reflexivity.
          -- rewrite Hp1. apply list_lookup_insert_eq.
             apply lookup_lt_Some in Hpa. exact Hpa.
        * rewrite (Hall i p).
          -- destruct (decide (S a <= i)%nat), (decide (a <= i)%nat);
               auto; lia.
          -- rewrite Hp1. rewrite list_lookup_insert_ne by lia. exact Hp. }
  destruct (H (length (Game.players g)) 0%nat g eq_refl eq_refl)
    as (Hb & Hl & Hall).
  split; [exact Hb|]. split; [exact Hl|].
  intros i p Hp. rewrite (Hall i p Hp).
  destruct (decide (0 <= i)%nat); [reflexivity|lia].
Qed.

(** [handleRobberRoll] comes to an end on well-formed ledgers; the
    players holding more than 7 cards discard. *)
Lemma Game_handleRobberRoll_players g :
  (forall p, p ∈ Game.players g -> NoDup (JSMap.keys (Player.resources p))) ->
  exists g',
    Game_handleRobberRoll g = Some g'
    /\ Game.board g' = Game.board g
    /\ length (Game.players g') = length (Game.players g)
    /\ forall i p, Game.players g !! i = Some p ->
         exists discarded p',
           Game.players g' !! i = Some p'
           /\ Player_discardHalf p = Some (discarded, p').
Proof.
  intros Hnd. unfold Game_handleRobberRoll. cbv zeta.
  set (step := fun (acc : option Game.t) index =>
    match acc with
    | None => None
    | Some g0 =>
        match Game.players g0 !! index with
        | Some player =>
            if 7 <? Player_getTotalResources player then
              match Player_discardHalf player with
              | Some (discarded, p1) =>
                  Some (Game_logEvent
                          (MsgDiscarded (Player.name p1) (length discarded))
                          (Game.set_players
                             (<[index := p1]> (Game.players g0)) g0))
              | None => None
              end
            else Some g0
        | None => Some g0
        end
    end).
  assert (forall k a g0,
    (a + k = length (Game.players g0))%nat ->
    (forall i p, (a <= i)%nat -> Game.players g0 !! i = Some p ->
                 NoDup (JSMap.keys (Player.resources p))) ->
    exists g',
      fold_left step (seq a k) (Some g0) = Some g'
      /\ Game.board g' = Game.board g0
      /\ length (Game.players g') = length (Game.players g0)
      /\ forall i p, Game.players g0 !! i = Some p ->
           if decide (a <= i)%nat then
             exists discarded p',
               Game.players g' !! i = Some p'
               /\ Player_discardHalf p = Some (discarded, p')
           else Game.players g' !! i = Some p) as H.
  { induction k as [|k IH]; intros a g0 Hlen Hgood.
    - exists g0. simpl. split_and!; auto. intros i p Hp.
      apply lookup_lt_Some in Hp as Hlt. rewrite decide_False by lia. exact Hp.
    - rewrite <- cons_seq.
      change (fold_left step (a :: seq (S a) k) (Some g0))
        with (fold_left step (seq (S a) k) (step (Some g0) a)).
      destruct (Game.players g0 !! a) as [pa|] eqn:Hpa;
        [|apply lookup_ge_None in Hpa; lia].
      destruct (Player_discardHalf_total pa (Hgood a pa ltac:(lia) Hpa))
        as (da & pa' & Hda & Hsmall & _).
      assert (exists g1,
        step (Some g0) a = Some g1
        /\ Game.board g1 = Game.board g0
        /\ Game.players g1 = <[a := pa']> (Game.players g0)) as (g1 & Hs1 & Hb1 & Hp1).
      { subst step. cbv beta iota. rewrite Hpa.
        destruct (7 <? Player_getTotalResources pa) eqn:H7.
        - rewrite Hda. eexists. split_and!; reflexivity.
        - apply Z.ltb_ge in H7. destruct (Hsmall H7) as [_ ->].
          exists g0. split_and!; auto.
          rewrite list_insert_id by exact Hpa. reflexivity. }
      rewrite Hs1.
      destruct (IH (S a) g1) as (g' & Hfold & Hb2 & Hl2 & Hall).
      { rewrite Hp1, length_insert. lia. }
      { intros i p Hi Hp. rewrite Hp1 in Hp.
        rewrite list_lookup_insert_ne in Hp by lia. apply (Hgood i p); [lia|exact Hp]. }
      exists g'. split_and!; auto; try congruence.
      + rewrite Hl2, Hp1, length_insert. reflexivity.
      + intros i p Hp. destruct (decide (i = a)) as [->|Hne].
        * rewrite Hpa in Hp. injection Hp as <-.
          rewrite decide_True by lia. exists da, pa'. split; [|exact Hda].
          specialize (Hall a pa'). rewrite decide_False in Hall by lia.
          apply Hall. rewrite Hp1. apply list_lookup_insert_eq.
          apply lookup_lt_Some in Hpa. exact Hpa.
        * specialize (Hall i p).
          rewrite Hp1, list_lookup_insert_ne in Hall by lia.
          specialize (Hall Hp).
          destruct (decide (S a <= i)%nat), (decide (a <= i)%nat);
            auto; lia. }
  destruct (H (length (Game.players g)) 0%nat g eq_refl) as (g' & Hf & Hb & Hl & Hall).
  { intros i p _ Hp. apply Hnd. apply list_elem_of_lookup. eauto. }
  rewrite Hf. simpl. eexists. split; [reflexivity|].
  split; [exact Hb|]. split; [exact Hl|].
  intros i p Hp. specialize (Hall i p Hp).
  destruct (decide (0 <= i)%nat); [exact Hall|lia].
Qed.
End Roll.

Lemma Player_getTotalResources_cardCount p :
  Player_getTotalResources p = Player_cardCount p.
Proof.
  unfold Player_getTotalResources, Player_cardCount, JSMap.values, sumZ.
  assert (forall (l : list Z) a, fold_left (fun sum count => sum + count) l a
                                 = a + foldr Z.add 0 l) as H.
  { induction l as [|x l IH]; intros a; simpl; [lia|]. rewrite IH. lia. }
  rewrite H. lia.
Qed.

Ltac names_step :=
  progress (cbn [nth vertexOffsets fst snd];
            repeat match goal with
              | |- context [Z.to_nat (Zpos ?p)] =>
                  let n := eval vm_compute in (Z.to_nat (Zpos p)) in
                  change (Z.to_nat (Zpos p)) with n
              | |- context [Z.to_nat 0] => change (Z.to_nat 0) with 0%nat
              end).
Ltac names_eq :=
  unfold cornerNames, Board_getVertexCoords; repeat names_step;
  repeat first [apply (f_equal2 cons) | apply (f_equal2 pair)];
  try reflexivity; lia.

(** The three names of a corner belong to three hexes that are neighbours
    of one another, and naming once more gives the first name again. *)
Lemma cornerNames_cycle q r d :
  0 <= d < 6 ->
  exists o1 o2 d1 d2,
    o1 ∈ neighborOffsets /\ o2 ∈ neighborOffsets
    /\ (o2.1 - o1.1, o2.2 - o1.2) ∈ neighborOffsets
    /\ cornerNames (q, r, d)
       = [(q, r, d); (q + o1.1, r + o1.2, d1); (q + o2.1, r + o2.2, d2)]
    /\ Board_getVertexCoords (q + o2.1) (r + o2.2) (Z.to_nat d2) = (q, r, d).
Proof.
  intros Hd.
  assert (d = 0 \/ d = 1 \/ d = 2 \/ d = 3 \/ d = 4 \/ d = 5) as Hcases by lia.
  destruct Hcases as [->|[->|[->|[->|[->| ->]]]]].
  - exists (1, -1), (0, -1), 4, 2.
    split; [apply (bool_decide_unpack _); vm_compute; exact I|]. split; [apply (bool_decide_unpack _); vm_compute; exact I|].
    split; [apply (bool_decide_unpack _); vm_compute; exact I|].
    split; names_eq.
  - exists (1, 0), (1, -1), 5, 3.
    split; [apply (bool_decide_unpack _); vm_compute; exact I|]. split; [apply (bool_decide_unpack _); vm_compute; exact I|].
    split; [apply (bool_decide_unpack _); vm_compute; exact I|].
    split; names_eq.
  - exists (0, 1), (1, 0), 0, 4.
    split; [apply (bool_decide_unpack _); vm_compute; exact I|]. split; [apply (bool_decide_unpack _); vm_compute; exact I|].
    split; [apply (bool_decide_unpack _); vm_compute; exact I|].
    split; names_eq.
  - exists (-1, 1), (0, 1), 1, 5.
    split; [apply (bool_decide_unpack _); vm_compute; exact I|]. split; [apply (bool_decide_unpack _); vm_compute; exact I|].
    split; [apply (bool_decide_unpack _); vm_compute; exact I|].
    split; names_eq.
  - exists (-1, 0), (-1, 1), 2, 0.
    split; [apply (bool_decide_unpack _); vm_compute; exact I|]. split; [apply (bool_decide_unpack _); vm_compute; exact I|].
    split; [apply (bool_decide_unpack _); vm_compute; exact I|].
    split; names_eq.
  - exists (0, -1), (-1, 0), 3, 1.
    split; [apply (bool_decide_unpack _); vm_compute; exact I|]. split; [apply (bool_decide_unpack _); vm_compute; exact I|].
    split; [apply (bool_decide_unpack _); vm_compute; exact I|].
    split; names_eq.
Qed.

(** Every vertex of a generated board references one hex, the hex of its
    third name. *)
Lemma generated_vertex_hexes b G :
  Forall (fun kv => Vertex.hexes kv.2 = map fst (drop 2 (cornerNames kv.1)))
    (Board.vertices (Board_generateStandardBoard b G).1).
Proof.
  rewrite (proj1 (Board_generateStandardBoard_topology b G)).
  apply (bool_decide_unpack _). vm_compute. exact I.
Qed.

Lemma Hex_yield_robber b diceRoll hex h :
  JSMap.get hex (Board.hexes b) = Some h ->
  Hex.hasRobber h = true ->
  Hex_yield b diceRoll hex = [].
Proof.
  intros Hh Hrob. unfold Hex_yield, Hex_shouldProduce. rewrite Hh, Hrob.
  simpl. rewrite !andb_false_r. reflexivity.
Qed.

(** What a roll does whatever the state: the result, and the discards on a
    total of 7. *)
Lemma Game_rollDice_discards g G :
  Game.gamePhase g = playing ->
  Game.hasRolledDice g = false ->
  Forall (fun p => NoDup (JSMap.keys (Player.resources p))) (Game.players g) ->
  exists result g' G',
    Game_rollDice g G = Some (Some result, g', G')
    /\ DiceResult.total result = DiceResult.die1 result + DiceResult.die2 result
    /\ 1 <= DiceResult.die1 result <= 6
    /\ 1 <= DiceResult.die2 result <= 6
    /\ Game.board g' = Game.board g
    /\ length (Game.players g') = length (Game.players g)
    /\ (DiceResult.total result = 7 ->
        forall i p, Game.players g !! i = Some p ->
          exists p',
            Game.players g' !! i = Some p'
            /\ Player.settlements p' = Player.settlements p
            /\ Player.cities p' = Player.cities p
            /\ Ledger_le (Player.resources p') (Player.resources p)
            /\ (7 < Player_cardCount p ->
                Player_cardCount p' = Player_cardCount p - Player_cardCount p / 2)
            /\ (Player_cardCount p <= 7 -> p' = p)).
Proof.
  intros Hphase Hrolled Hnd. unfold Game_rollDice.
  rewrite Hphase, Hrolled. simpl negb. simpl orb. cbv iota.
  unfold Dice_roll.
  destruct (randomBelow 6 G) as [x1 G1] eqn:Hx1.
  destruct (randomBelow 6 G1) as [x2 G2] eqn:Hx2.
  assert (forall n G0, (fst (randomBelow 6 G0) = n -> n < 6)%nat) as Hbound.
  { intros n G0 <-. unfold randomBelow.
    destruct (Math_random G0); cbn [fst]; [lia|].
    apply Nat.mod_upper_bound. lia. }
  pose proof (Hbound x1 G ltac:(rewrite Hx1; reflexivity)) as Hb1.
  pose proof (Hbound x2 G1 ltac:(rewrite Hx2; reflexivity)) as Hb2.
  cbv zeta.
  set (die1 := Z.of_nat x1 + 1). set (die2 := Z.of_nat x2 + 1).
  set (g3 := Game_logEvent _ _).
  assert (Game.players g3 = Game.players g) as Hplayers by reflexivity.
  assert (Game.board g3 = Game.board g) as Hboard by reflexivity.
  destruct (bool_decide (die1 + die2 = 7)) eqn:H7.
  - apply bool_decide_eq_true_1 in H7.
    destruct (Game_handleRobberRoll_players g3) as (g4 & Hg4 & Hb4 & Hl4 & Hall).
    { rewrite Hplayers. apply Forall_forall. exact Hnd. }
    rewrite Hg4. exists (DiceResult.mk die1 die2 (die1 + die2)), g4, G2.
    cbn [DiceResult.total DiceResult.die1 DiceResult.die2].
    split_and!; auto; try lia; try congruence.
    intros _ i p Hp. rewrite <- Hplayers in Hp.
    destruct (Hall i p Hp) as (d & p' & Hp' & Hd).
    assert (NoDup (JSMap.keys (Player.resources p))) as Hndp.
    { rewrite Forall_forall in Hnd. apply Hnd. rewrite <- Hplayers.
      apply list_elem_of_lookup. eauto. }
    destruct (Player_discardHalf_total p Hndp)
      as (d0 & p0 & Hd0 & Hsmall & Hbig & _ & _ & Hframe & Hle).
    rewrite Hd in Hd0. injection Hd0 as <- <-.
    exists p'. split; [exact Hp'|].
    split; [rewrite Hframe; reflexivity|].
    split; [rewrite Hframe; reflexivity|].
    split; [exact Hle|].
    rewrite <- !Player_getTotalResources_cardCount. split.
    + intros Hgt. apply Hbig. exact Hgt.
    + intros Hle7. apply Hsmall. exact Hle7.
  - apply bool_decide_eq_false_1 in H7.
    destruct (Game_handleResourceProduction_players (die1 + die2) g3)
      as (Hb4 & Hl4 & Hall).
    eexists (DiceResult.mk die1 die2 (die1 + die2)), _, G2.
    cbn [DiceResult.total DiceResult.die1 DiceResult.die2].
    split; [reflexivity|].
    split_and!; auto; try lia; try congruence.
Qed.

(** C4.  The claim holds of the discards and of the robber, and fails of the
    adjacent tiles.  Whatever the state, a tile under the robber yields
    nothing, and in the playing phase, with the dice not yet rolled (and
    ledgers whose keys are distinct, as [new Player] makes them), [rollDice]
    returns two dice in 1..6 and their total and leaves the board alone; on
    a total of 7 no player gains, a player holding more than 7 cards loses
    exactly [floor(total / 2)] of them and the others keep what they have.
    But a corner is the meeting point of three tiles, neighbours of one
    another, and on every generated board its vertex references one of them
    only, so a building is paid for that tile and not for the two others.
    In the game [cornerGame] the first player has a settlement on the vertex
    [(1, 0, 0)], the corner of the hexes (1, 0) (pasture, 11), (2, -1)
    (mountains, 8) and (1, -1) (hills, 4), none under the robber.  The rule
    owes that player 1 wool on a total of 11, 1 ore on 8 and 1 brick on 4;
    [rollDice] pays the brick and neither the wool nor the ore.  With a city
    in place of the settlement the rule owes 2 of each, and [rollDice] pays
    2 brick and nothing else.  With the robber on the hex (1, -1) a total
    of 4 pays nothing.  On a total of 7 the first player, with 9 cards,
    keeps 5 and the second, with 13, keeps 7. *)
Theorem rollDice_pays_one_tile_of_three :
  (forall g G,
     Game.gamePhase g = playing ->
     Game.hasRolledDice g = false ->
     Forall (fun p => NoDup (JSMap.keys (Player.resources p))) (Game.players g) ->
     exists result g' G',
       Game_rollDice g G = Some (Some result, g', G')
       /\ DiceResult.total result
          = DiceResult.die1 result + DiceResult.die2 result
       /\ 1 <= DiceResult.die1 result <= 6
       /\ 1 <= DiceResult.die2 result <= 6
       /\ Game.board g' = Game.board g
       /\ length (Game.players g') = length (Game.players g)
       /\ (DiceResult.total result = 7 ->
           forall i p, Game.players g !! i = Some p ->
             exists p',
               Game.players g' !! i = Some p'
               /\ Player.settlements p' = Player.settlements p
               /\ Player.cities p' = Player.cities p
               /\ Ledger_le (Player.resources p') (Player.resources p)
               /\ (7 < Player_cardCount p ->
                   Player_cardCount p'
                   = Player_cardCount p - Player_cardCount p / 2)
               /\ (Player_cardCount p <= 7 -> p' = p)))
  /\ (forall b diceRoll hex h,
        JSMap.get hex (Board.hexes b) = Some h ->
        Hex.hasRobber h = true ->
        Hex_yield b diceRoll hex = [])
  /\ (forall q r d,
        0 <= d < 6 ->
        exists o1 o2 d1 d2,
          o1 ∈ neighborOffsets /\ o2 ∈ neighborOffsets
          /\ (o2.1 - o1.1, o2.2 - o1.2) ∈ neighborOffsets
          /\ cornerNames (q, r, d)
             = [(q, r, d); (q + o1.1, r + o1.2, d1); (q + o2.1, r + o2.2, d2)]
          /\ Board_getVertexCoords (q + o2.1) (r + o2.2) (Z.to_nat d2)
             = (q, r, d))
  /\ (forall b G,
        Forall (fun kv =>
                  Vertex.hexes kv.2 = map fst (drop 2 (cornerNames kv.1)))
          (Board.vertices (Board_generateStandardBoard b G).1))
  /\ (Game.gamePhase cornerGame.1 = playing
      /\ Game.hasRolledDice cornerGame.1 = false
      /\ map (fun p => (map Settlement.vertex (Player.settlements p),
                        map City.vertex (Player.cities p),
                        Player.resources p))
           (Game.players cornerGame.1)
         = [([Some (1, 0, 0)], [], ledger 0 1 3 2 3);
            ([], [], ledger 1 2 3 3 4)]
      /\ adjacentTiles (Game.board cornerGame.1) (1, 0, 0)
         = [(1, 0); (2, -1); (1, -1)]
      /\ Vertex_hexes (Game.board cornerGame.1) (1, 0, 0) = [(1, -1)]
      /\ map (fun '(V, r, hex) =>
                (Hex_produces (Game.board cornerGame.1) V r hex,
                 Hex_yield (Game.board cornerGame.1) (Some V) hex,
                 map (Player_gain (Game.board cornerGame.1) V r)
                   (Game.players cornerGame.1)))
           [(11, "wool", (1, 0)); (8, "ore", (2, -1)); (4, "brick", (1, -1))]%string
         = [(true, ["wool"], [1; 0]); (true, ["ore"], [1; 0]);
            (true, ["brick"], [1; 0])]%string
      /\ rollReport cornerGame 4 5
         = Some (11, [ledger 0 1 3 2 3; ledger 1 2 3 3 4])
      /\ rollReport cornerGame 3 3
         = Some (8, [ledger 0 1 3 2 3; ledger 1 2 3 3 4])
      /\ rollReport cornerGame 0 2
         = Some (4, [ledger 0 2 3 2 3; ledger 1 2 3 3 4])
      /\ rollReport cornerGame 0 5
         = Some (7, [ledger 0 0 2 1 2; ledger 0 0 2 2 3]))
  /\ (Game.gamePhase cornerCity.1 = playing
      /\ Game.hasRolledDice cornerCity.1 = false
      /\ map (fun p => (map Settlement.vertex (Player.settlements p),
                        map City.vertex (Player.cities p),
                        Player.resources p))
           (Game.players cornerCity.1)
         = [([], [Some (1, 0, 0)], ledger 0 1 3 2 3);
            ([], [], ledger 1 2 3 3 4)]
      /\ map (fun '(V, r) =>
                map (Player_gain (Game.board cornerCity.1) V r)
                  (Game.players cornerCity.1))
           [(11, "wool"); (8, "ore"); (4, "brick")]%string
         = [[2; 0]; [2; 0]; [2; 0]]
      /\ rollReport cornerCity 4 5
         = Some (11, [ledger 0 1 3 2 3; ledger 1 2 3 3 4])
      /\ rollReport cornerCity 3 3
         = Some (8, [ledger 0 1 3 2 3; ledger 1 2 3 3 4])
      /\ rollReport cornerCity 0 2
         = Some (4, [ledger 0 3 3 2 3; ledger 1 2 3 3 4]))
  /\ (Game.gamePhase cornerRobbed.1 = playing
      /\ Game.hasRolledDice cornerRobbed.1 = false
      /\ map (fun p => (map Settlement.vertex (Player.settlements p),
                        Player.resources p))
           (Game.players cornerRobbed.1)
         = [([Some (1, 0, 0)], ledger 0 0 2 1 2); ([], ledger 0 0 2 2 3)]
      /\ option_map Hex.hasRobber
           (JSMap.get (1, -1) (Board.hexes (Game.board cornerRobbed.1)))
         = Some true
      /\ Hex_produces (Game.board cornerRobbed.1) 4 "brick" (1, -1) = false
      /\ rollReport cornerRobbed 0 2
         = Some (4, [ledger 0 0 2 1 2; ledger 0 0 2 2 3])).
Proof.
  split; [exact Game_rollDice_discards|].
  split; [exact Hex_yield_robber|].
  split; [exact cornerNames_cycle|].
  split; [exact generated_vertex_hexes|].
  split; [|split]; split_and!; vm_compute; reflexivity.
Qed.

(** ** The grid of the standard layout *)
Section Grid.
Implicit Types (k d h r : HexKey) (l R : list HexKey).

Lemma HexKey_eqb_eq k1 k2 : HexKey_eqb k1 k2 = true <-> k1 = k2.
Proof.
  destruct k1 as [a1 b1], k2 as [a2 b2]. unfold HexKey_eqb. simpl.
  rewrite andb_true_iff, !Z.eqb_eq. split; [intros [-> ->]|intros [= -> ->]]; auto.
Qed.

Lemma HexKey_eqb_neq k1 k2 : HexKey_eqb k1 k2 = false <-> k1 <> k2.
Proof.
  rewrite <- HexKey_eqb_eq. destruct (HexKey_eqb k1 k2); split; congruence.
Qed.

Lemma memHex_elem_of k l : memHex k l = true <-> k ∈ l.
Proof.
  unfold memHex. rewrite existsb_exists. split.
  - intros (x & Hin & Heq). apply HexKey_eqb_eq in Heq as ->.
    apply list_elem_of_In. exact Hin.
  - intros Hin. exists k. split; [apply list_elem_of_In; exact Hin|].
    apply HexKey_eqb_eq. reflexivity.
Qed.

Lemma memHex_not_elem_of k l : memHex k l = false <-> k ∉ l.
Proof.
  rewrite <- memHex_elem_of. destruct (memHex k l); split; congruence.
Qed.

Lemma elem_of_List_filter {A} (f : A -> bool) (x : A) (l : list A) :
  x ∈ List.filter f l <-> x ∈ l /\ f x = true.
Proof. rewrite !list_elem_of_In. apply filter_In. Qed.

Lemma elem_of_allBut k d : k ∈ allBut d <-> k ∈ hexLayout /\ k <> d.
Proof.
  unfold allBut. rewrite elem_of_List_filter, negb_true_iff, HexKey_eqb_neq.
  reflexivity.
Qed.

Lemma elem_of_freeOf h r l :
  h ∈ freeOf r l <-> h ∈ l /\ h <> r /\ h ∉ stdNeighbors r.
Proof.
  unfold freeOf. rewrite elem_of_List_filter, negb_true_iff, memHex_not_elem_of.
  rewrite not_elem_of_cons. reflexivity.
Qed.

Lemma nonEmpty_elem {A} (l : list A) : nonEmpty l = true -> exists x, x ∈ l.
Proof. destruct l as [|x l]; [discriminate|]. intros _. exists x. left. Qed.

(** Checked by running through the layout: wherever the desert lies and
    whichever three other hexes are taken, a free hex remains. *)
Lemma redPlacementAlwaysPossible_true :
  forallb (fun d => nonEmpty (allBut d) && check1 (allBut d)) hexLayout = true.
Proof. vm_compute. reflexivity. Qed.

(** Checked by running through the layout: the neighbour relation is
    symmetric. *)
Lemma stdNeighborsSymmetric_true :
  forallb (fun h => forallb (fun n => memHex h (stdNeighbors n)) (stdNeighbors h))
    hexLayout = true.
Proof. vm_compute. reflexivity. Qed.

Lemma stdNeighbors_sym h n :
  h ∈ hexLayout -> n ∈ stdNeighbors h -> h ∈ stdNeighbors n.
Proof.
  intros Hh Hn.
  assert (forallb (fun n => memHex h (stdNeighbors n)) (stdNeighbors h) = true)
    as H.
  { apply list_elem_of_In in Hh. revert h Hh Hn. intros h Hh _. revert h Hh.
    apply (proj1 (forallb_forall
                    (fun h => forallb (fun n => memHex h (stdNeighbors n))
                                (stdNeighbors h)) hexLayout)).
    exact stdNeighborsSymmetric_true. }
  rewrite forallb_forall in H.
  specialize (H n ltac:(apply list_elem_of_In; exact Hn)).
  apply memHex_elem_of. exact H.
Qed.

(** Checked by running through the layout: no hex is its own neighbour. *)
Lemma stdNeighborsIrreflexive_true :
  forallb (fun h => negb (memHex h (stdNeighbors h))) hexLayout = true.
Proof. vm_compute. reflexivity. Qed.

Lemma stdNeighbors_irrefl h : h ∈ hexLayout -> h ∉ stdNeighbors h.
Proof.
  intros Hh. apply memHex_not_elem_of. apply negb_true_iff.
  apply list_elem_of_In in Hh. revert h Hh.
  apply (proj1 (forallb_forall
                  (fun h => negb (memHex h (stdNeighbors h))) hexLayout)).
  exact stdNeighborsIrreflexive_true.
Qed.

Lemma List_filter_filter {A} (f g : A -> bool) (l : list A) :
  List.filter f (List.filter g l) = List.filter (fun x => g x && f x) l.
Proof.
  induction l as [|x l IH]; [reflexivity|]. simpl.
  destruct (g x); simpl; [destruct (f x)|]; rewrite ?IH; reflexivity.
Qed.

Lemma randomBelow_lt n G : (0 < n)%nat -> ((randomBelow n G).1 < n)%nat.
Proof.
  intros Hn. unfold randomBelow. destruct (Math_random G); cbn [fst]; [lia|].
  apply Nat.mod_upper_bound. lia.
Qed.

Lemma stdNeighbors_in_layout h n : n ∈ stdNeighbors h -> n ∈ hexLayout.
Proof.
  unfold stdNeighbors. rewrite elem_of_List_filter, memHex_elem_of. tauto.
Qed.

Lemma check3_spec res l2 r3 :
  check3 res l2 = true -> r3 ∈ res -> exists h, h ∈ freeOf r3 l2.
Proof.
  unfold check3. rewrite forallb_forall. intros H Hr.
  apply nonEmpty_elem. apply H. apply list_elem_of_In. exact Hr.
Qed.

Lemma check2_spec res l1 r2 :
  check2 res l1 = true -> r2 ∈ res ->
  (exists h, h ∈ freeOf r2 l1) /\ check3 res (freeOf r2 l1) = true.
Proof.
  unfold check2. rewrite forallb_forall. intros H Hr.
  specialize (H r2 ltac:(apply list_elem_of_In; exact Hr)).
  apply andb_true_iff in H as [H1 H2]. split; [|exact H2].
  apply nonEmpty_elem. exact H1.
Qed.

Lemma check1_spec res r1 :
  check1 res = true -> r1 ∈ res ->
  (exists h, h ∈ freeOf r1 res) /\ check2 res (freeOf r1 res) = true.
Proof.
  unfold check1. rewrite forallb_forall. intros H Hr.
  specialize (H r1 ltac:(apply list_elem_of_In; exact Hr)).
  apply andb_true_iff in H as [H1 H2]. split; [|exact H2].
  apply nonEmpty_elem. exact H1.
Qed.

Lemma redPlacementAlwaysPossible_spec d :
  d ∈ hexLayout -> (exists h, h ∈ allBut d) /\ check1 (allBut d) = true.
Proof.
  intros Hd.
  assert (nonEmpty (allBut d) && check1 (allBut d) = true) as H.
  { apply list_elem_of_In in Hd. revert d Hd.
    apply (proj1 (forallb_forall
                    (fun d => nonEmpty (allBut d) && check1 (allBut d))
                    hexLayout)).
    exact redPlacementAlwaysPossible_true. }
  apply andb_true_iff in H as [H1 H2]. split; [|exact H2].
  apply nonEmpty_elem. exact H1.
Qed.

(** At most three hexes are taken: a free hex remains. *)
Lemma free_hex_exists d R :
  d ∈ hexLayout -> (length R <= 3)%nat -> Forall (fun r => r ∈ allBut d) R ->
  exists h, h ∈ allBut d
            /\ Forall (fun r => h <> r /\ h ∉ stdNeighbors r) R.
Proof.
  intros Hd Hlen HR.
  destruct (redPlacementAlwaysPossible_spec d Hd) as [[h0 H0] H].
  destruct R as [|r1 R].
  { exists h0. split; auto. }
  apply Forall_cons in HR as [Hr1 HR].
  destruct (check1_spec _ _ H Hr1) as [[h1 H1] H'].
  destruct R as [|r2 R].
  { apply elem_of_freeOf in H1.
    exists h1. split; [tauto|]. repeat constructor; tauto. }
  apply Forall_cons in HR as [Hr2 HR].
  destruct (check2_spec _ _ _ H' Hr2) as [[h2 H2] H''].
  destruct R as [|r3 R].
  { apply elem_of_freeOf in H2.
    destruct H2 as (H2 & Hne2 & Hnb2). apply elem_of_freeOf in H2.
    exists h2. split; [tauto|]. repeat constructor; tauto. }
  apply Forall_cons in HR as [Hr3 HR].
  destruct (check3_spec _ _ _ H'' Hr3) as [h3 H3].
  destruct R as [|r4 R]; [|simpl in Hlen; lia].
  apply elem_of_freeOf in H3.
  destruct H3 as (H3 & Hne3 & Hnb3). apply elem_of_freeOf in H3.
  destruct H3 as (H3 & Hne2 & Hnb2). apply elem_of_freeOf in H3.
  exists h3. split; [tauto|]. repeat constructor; tauto.
Qed.
End Grid.

(** ** The hexes of a generated board *)
Section Hexes.
Implicit Types (b : Board.t).

Lemma createHexes_view ts rob bt :
  length ts = 19%nat ->
  map (fun kh => (kh.1, hexView kh.2))
    (Board.hexes
       (Board_buildRelationships
          (createHexes ts (Board.mk [] [] [] [] rob false bt))))
  = map (fun kt => (kt.1, (kt.2, None, false, stdNeighbors kt.1)))
      (combine hexLayout ts)
  /\ Board.numberTokens
       (Board_buildRelationships
          (createHexes ts (Board.mk [] [] [] [] rob false bt))) = [].
Proof.
  intros H. apply list_of_length_19 in H.
  destruct H as (t0 & t1 & t2 & t3 & t4 & t5 & t6 & t7 & t8 & t9 & t10 & t11
                 & t12 & t13 & t14 & t15 & t16 & t17 & t18 & ->).
  split; vm_compute; reflexivity.
Qed.

Lemma JSMap_get_map_views {K V V' W} `{!EqDecision K}
    (f : V -> W) (g : K -> V' -> W) k
    (m : list (K * V)) (c : list (K * V')) :
  map (fun kv => (kv.1, f kv.2)) m = map (fun kv => (kv.1, g kv.1 kv.2)) c ->
  option_map f (JSMap.get k m) = option_map (g k) (JSMap.get k c).
Proof.
  revert c. induction m as [|[k1 v1] m IH]; intros [|[k2 v2] c]; simpl;
    try discriminate; auto.
  intros [= -> Hv Hm]. destruct (decide (k2 = k)) as [->|Hne]; simpl.
  - rewrite Hv. reflexivity.
  - apply IH. exact Hm.
Qed.

Lemma JSMap_keys_combine {K V} (ks : list K) (vs : list V) :
  length ks = length vs -> JSMap.keys (combine ks vs) = ks.
Proof.
  revert vs. induction ks as [|k ks IH]; intros [|v vs]; simpl;
    try discriminate; auto.
  intros [= H]. unfold JSMap.keys in *. simpl. f_equal. apply IH. exact H.
Qed.

(** A value that occurs once in [vs] lies under exactly one key. *)
Lemma combine_unique {K V} `{!EqDecision K} (dec : forall x y : V, {x = y} + {x <> y})
    (ks : list K) (vs : list V) (x : V) :
  NoDup ks -> length ks = length vs -> count_occ dec vs x = 1%nat ->
  exists d, d ∈ ks
    /\ JSMap.get d (combine ks vs) = Some x
    /\ forall k, JSMap.get k (combine ks vs) = Some x -> k = d.
Proof.
  revert vs. induction ks as [|k0 ks IH]; intros [|v0 vs] Hnd Hlen Hcount;
    simpl in *; try discriminate.
  apply NoDup_cons in Hnd as [Hnotin Hnd]. injection Hlen as Hlen.
  destruct (dec v0 x) as [->|Hne].
  - exists k0. split; [left|]. rewrite decide_True by reflexivity.
    split; [reflexivity|]. intros k Hk.
    destruct (decide (k0 = k)) as [->|Hk0]; [reflexivity|].
    exfalso. injection Hcount as Hcount.
    apply (count_occ_not_In dec) in Hcount. apply Hcount.
    apply JSMap_get_Some_In in Hk. apply list_elem_of_In in Hk.
    apply in_combine_r in Hk. exact Hk.
  - destruct (IH vs Hnd Hlen Hcount) as (d & Hd & Hget & Huniq).
    exists d. split; [right; exact Hd|].
    assert (k0 <> d) as Hk0 by (intros ->; exact (Hnotin Hd)).
    rewrite decide_False by exact Hk0. split; [exact Hget|].
    intros k Hk. destruct (decide (k0 = k)) as [->|Hk0'].
    + injection Hk as Hk. contradiction.
    + apply Huniq. exact Hk.
Qed.

Lemma hexLayout_NoDup : NoDup hexLayout.
Proof. apply (bool_decide_unpack _). vm_compute. exact I. Qed.

Lemma StandardHexes_of_view b2 ts :
  length ts = 19%nat ->
  count_occ Terrain_eq_dec ts desert = 1%nat ->
  map (fun kh => (kh.1, hexView kh.2)) (Board.hexes b2)
    = map (fun kt => (kt.1, (kt.2, None, false, stdNeighbors kt.1)))
        (combine hexLayout ts) ->
  exists d, StandardHexes d b2
    /\ (forall k, Board_tokenAt b2 k = None)
    /\ (forall k h, JSMap.get k (Board.hexes b2) = Some h ->
          Hex.hasRobber h = false).
Proof.
  intros Hlen Hcount Hview.
  assert (length hexLayout = length ts) as Hlen' by (rewrite Hlen; reflexivity).
  destruct (combine_unique Terrain_eq_dec hexLayout ts desert hexLayout_NoDup
              Hlen' Hcount) as (d & Hd & Hget & Huniq).
  assert (forall k,
    option_map hexView (JSMap.get k (Board.hexes b2))
    = option_map (fun t => (t, None, false, stdNeighbors k))
        (JSMap.get k (combine hexLayout ts))) as Hk.
  { intros k.
    apply (JSMap_get_map_views hexView
             (fun k t => (t, None, false, stdNeighbors k))).
    exact Hview. }
  exists d. split.
  - split; [|split; [exact Hd|]].
    + apply (f_equal (map fst)) in Hview. rewrite !map_map in Hview.
      unfold JSMap.keys.
      transitivity (map fst (combine hexLayout ts)); [exact Hview|].
      apply JSMap_keys_combine. exact Hlen'.
    + intros k Hin. specialize (Hk k).
      unfold Hex_neighbors, Hex_terrainIs.
      destruct (JSMap.get k (Board.hexes b2)) as [h|] eqn:Hh;
        destruct (JSMap.get k (combine hexLayout ts)) as [t|] eqn:Ht;
        cbn [option_map] in Hk; try discriminate.
      * unfold hexView in Hk. injection Hk as Hterr _ _ Hnb.
        split; [exact Hnb|]. rewrite Hterr.
        destruct (decide (t = desert)) as [->|Hne].
        -- rewrite (Huniq k Ht). rewrite !bool_decide_eq_true_2; auto.
        -- rewrite bool_decide_eq_false_2 by exact Hne.
           rewrite bool_decide_eq_false_2; [reflexivity|].
           intros Hkd. rewrite Hkd, Hget in Ht. injection Ht as <-.
           contradiction.
      * exfalso. apply JSMap_get_None_keys in Ht. apply Ht.
        rewrite JSMap_keys_combine by exact Hlen'. exact Hin.
  - split.
    + intros k. specialize (Hk k). unfold Board_tokenAt.
      destruct (JSMap.get k (Board.hexes b2)) as [h|];
        destruct (JSMap.get k (combine hexLayout ts)) as [t|];
        cbn [option_map] in Hk; try discriminate; auto.
      unfold hexView in Hk. injection Hk as _ Htk _ _. exact Htk.
    + intros k h Hh. specialize (Hk k). rewrite Hh in Hk.
      destruct (JSMap.get k (combine hexLayout ts)) as [t|];
        cbn [option_map] in Hk; try discriminate.
      unfold hexView in Hk. injection Hk as _ _ Hr _. exact Hr.
Qed.

(** The board on which the tokens are laid out. *)
Lemma createHexes_StandardHexes ts rob bt :
  Permutation ts terrains ->
  exists d,
    StandardHexes d
      (Board_buildRelationships
         (createHexes ts (Board.mk [] [] [] [] rob false bt)))
    /\ (forall k,
          Board_tokenAt
            (Board_buildRelationships
               (createHexes ts (Board.mk [] [] [] [] rob false bt))) k = None)
    /\ (forall k h,
          JSMap.get k
            (Board.hexes
               (Board_buildRelationships
                  (createHexes ts (Board.mk [] [] [] [] rob false bt)))) = Some h ->
          Hex.hasRobber h = false)
    /\ Board.numberTokens
         (Board_buildRelationships
            (createHexes ts (Board.mk [] [] [] [] rob false bt))) = [].
Proof.
  intros Hperm.
  pose proof (Permutation_length Hperm) as Hlen.
  pose proof (createHexes_view ts rob bt Hlen) as [Hview Htok].
  assert (count_occ Terrain_eq_dec ts desert = 1%nat) as Hcount.
  { exact (proj1 (Permutation_count_occ Terrain_eq_dec ts terrains) Hperm desert). }
  destruct (StandardHexes_of_view _ ts Hlen Hcount Hview)
    as (d & Hstd & Hnone & Hrob).
  exists d. split; [exact Hstd|]. split; [exact Hnone|].
  split; [exact Hrob|exact Htok].
Qed.
End Hexes.

(** ** Arrays: [indexOf], [splice] *)
Section Arrays.
Context {A : Type} `{!EqDecision A}.
Implicit Types (x : A) (l : list A).

Lemma indexOf_nonneg_iff x l : 0 <= indexOf x l <-> x ∈ l.
Proof.
  induction l as [|y l IH]; simpl.
  - split; [lia|]. intros H. inversion H.
  - destruct (decide (y = x)) as [->|Hne].
    + split; [intros _; left|lia].
    + rewrite elem_of_cons. destruct (indexOf x l <? 0) eqn:Hlt.
      * apply Z.ltb_lt in Hlt. split; [lia|].
        intros [->|Hin]; [congruence|]. apply IH in Hin. lia.
      * apply Z.ltb_ge in Hlt. split; [|lia]. intros _. right. apply IH. lia.
Qed.

Lemma indexOf_bound x l : indexOf x l < Z.of_nat (length l).
Proof.
  induction l as [|y l IH]; simpl; [lia|].
  destruct (decide (y = x)); [lia|].
  destruct (indexOf x l <? 0); lia.
Qed.

(** Removing the first occurrence of an element of a list without
    duplicates leaves the other elements. *)
Lemma splice1_indexOf x l :
  NoDup l -> x ∈ l ->
  splice1 (indexOf x l) l = List.filter (fun y => negb (bool_decide (y = x))) l.
Proof.
  intros Hnd Hin. unfold splice1.
  pose proof (proj2 (indexOf_nonneg_iff x l) Hin) as H0.
  pose proof (indexOf_bound x l) as H1.
  rewrite (proj2 (Z.ltb_ge _ _) H0). rewrite Z.min_l by lia.
  revert Hnd Hin H0 H1. induction l as [|y l IH]; intros Hnd Hin H0 H1.
  - inversion Hin.
  - apply NoDup_cons in Hnd as [Hnotin Hnd]. simpl in *.
    destruct (decide (y = x)) as [->|Hne].
    + rewrite bool_decide_eq_true_2 by reflexivity. simpl.
      symmetry. clear -Hnotin. induction l as [|z l IHl]; [reflexivity|].
      apply not_elem_of_cons in Hnotin as [Hzx Hnotin]. simpl.
      rewrite bool_decide_eq_false_2 by congruence. simpl. f_equal.
      apply IHl. exact Hnotin.
    + rewrite bool_decide_eq_false_2 by exact Hne. simpl.
      apply elem_of_cons in Hin as [->|Hin]; [congruence|].
      pose proof (proj2 (indexOf_nonneg_iff x l) Hin) as H0'.
      rewrite (proj2 (Z.ltb_ge _ _) H0').
      replace (Z.to_nat (indexOf x l + 1)) with (S (Z.to_nat (indexOf x l))) by lia.
      simpl. f_equal. apply IH; auto. apply indexOf_bound.
Qed.
End Arrays.

(** ** Laying one token on one hex *)
Section PlaceOnHex.
Implicit Types (b : Board.t) (k h : HexKey) (i j token : TokenRef).

Lemma Board_tokenAt_placeOnHex b token h tok :
  Board.numberTokens b !! token = Some tok ->
  NumberToken.hex tok = None ->
  h ∈ JSMap.keys (Board.hexes b) ->
  forall k,
    Board_tokenAt (NumberToken_placeOnHex token (Some h) b) k
      = if decide (h = k) then Some token else Board_tokenAt b k.
Proof.
  intros Htok Hhex Hin k. unfold NumberToken_placeOnHex, Board_tokenAt.
  rewrite Htok, Hhex. simpl.
  destruct (decide (h = k)) as [->|Hne].
  - rewrite JSMap_get_modify_eq.
    destruct (JSMap.get k (Board.hexes b)) as [hx|] eqn:Hget; [reflexivity|].
    apply JSMap_get_None_keys in Hget. contradiction.
  - rewrite JSMap_get_modify_ne by exact Hne. reflexivity.
Qed.

Lemma Board_hexOf_placeOnHex b token h tok :
  Board.numberTokens b !! token = Some tok ->
  forall j,
    Board_hexOf (NumberToken_placeOnHex token (Some h) b) j
      = if decide (token = j) then Some h else Board_hexOf b j.
Proof.
  intros Htok j. unfold NumberToken_placeOnHex, Board_hexOf.
  rewrite Htok. simpl.
  destruct (decide (token = j)) as [->|Hne].
  - rewrite list_lookup_insert_eq by (eapply lookup_lt_Some; eauto). reflexivity.
  - rewrite list_lookup_insert_ne by exact Hne. reflexivity.
Qed.

Lemma Board_hexOf_None_lookup b token :
  (token < length (Board.numberTokens b))%nat ->
  Board_hexOf b token = None ->
  exists tok, Board.numberTokens b !! token = Some tok
              /\ NumberToken.hex tok = None.
Proof.
  intros Hlt Hnone. unfold Board_hexOf in Hnone.
  destruct (Board.numberTokens b !! token) as [tok|] eqn:Htok.
  - exists tok. auto.
  - apply lookup_ge_None in Htok. lia.
Qed.

Lemma Board_erase_tokens_length b b' :
  Board_erase b' = Board_erase b ->
  length (Board.numberTokens b') = length (Board.numberTokens b).
Proof.
  intros H. apply (f_equal Board.numberTokens) in H. simpl in H.
  apply (f_equal length) in H. rewrite !length_map in H. exact H.
Qed.
End PlaceOnHex.

(** ** Laying out the red tokens *)
Section RedTokens.
Variables (d : HexKey) (b0 : Board.t).
Hypothesis Hstd : StandardHexes d b0.
Implicit Types (b : Board.t) (k h n : HexKey) (R avail : list HexKey)
  (token : TokenRef) (done : list TokenRef) (G : Globals).

Lemma allBut_NoDup : NoDup (allBut d).
Proof.
  unfold allBut. apply NoDup_ListNoDup, List.NoDup_filter, NoDup_ListNoDup.
  exact hexLayout_NoDup.
Qed.

Lemma allBut_layout k : k ∈ allBut d -> k ∈ hexLayout.
Proof. rewrite elem_of_allBut. tauto. Qed.

(** The resource hexes, as [placeNumberTokens] computes them. *)
Lemma resourceHexes_allBut b :
  Board_erase b = Board_erase b0 ->
  List.filter (fun hex => negb (Hex_terrainIs b desert hex))
    (JSMap.keys (Board.hexes b)) = allBut d.
Proof.
  intros Her. destruct Hstd as (Hkeys & Hd & Hall).
  rewrite (Board_erase_keys _ _ Her), Hkeys. unfold allBut.
  apply filter_ext_in. intros k Hk. apply list_elem_of_In in Hk.
  rewrite (Board_erase_terrainIs _ _ _ _ Her).
  rewrite (proj2 (Hall k Hk)). f_equal.
  destruct (HexKey_eqb k d) eqn:E.
  - apply HexKey_eqb_eq in E. apply bool_decide_eq_true_2. exact E.
  - apply HexKey_eqb_neq in E. apply bool_decide_eq_false_2. exact E.
Qed.

Lemma Hex_hasHighProbabilityToken_tokenAt b k :
  Hex_hasHighProbabilityToken b k =
  match Board_tokenAt b k with
  | Some t => tokenIsHighProbability b t
  | None => false
  end.
Proof.
  unfold Hex_hasHighProbabilityToken, Board_tokenAt, tokenIsHighProbability.
  destruct (JSMap.get k (Board.hexes b)) as [hx|]; [|reflexivity].
  destruct (Hex.numberToken hx); reflexivity.
Qed.

Lemma Hex_hasNumberToken_tokenAt b k :
  Hex_hasNumberToken b k =
  match Board_tokenAt b k with Some _ => true | None => false end.
Proof.
  unfold Hex_hasNumberToken, Board_tokenAt.
  destruct (JSMap.get k (Board.hexes b)) as [hx|]; reflexivity.
Qed.

(** While only red tokens lie on the board, a hex carries a 6 or an 8
    exactly when it is one of [R]. *)
Lemma RedInv_high done R avail b k :
  RedInv d b0 done R avail b ->
  Hex_hasHighProbabilityToken b k = true <-> k ∈ R.
Proof.
  intros I. rewrite Hex_hasHighProbabilityToken_tokenAt.
  rewrite <- (ri_at _ _ _ _ _ _ I).
  destruct (Board_tokenAt b k) as [t|] eqn:Ht.
  - rewrite (Board_erase_tokenIsHighProbability _ _ _ (ri_erase _ _ _ _ _ _ I)).
    rewrite (proj2 (ri_forth _ _ _ _ _ _ I k t Ht)). split; congruence.
  - split; [discriminate|congruence].
Qed.

Lemma RedInv_validHexes done R avail b h :
  RedInv d b0 done R avail b ->
  h ∈ validHexesFor b avail <->
  (h ∈ allBut d /\ (h ∉ R) /\ forall n, n ∈ stdNeighbors h -> n ∉ R).
Proof.
  intros I. unfold validHexesFor. rewrite elem_of_List_filter.
  rewrite (ri_avail _ _ _ _ _ _ I) at 1.
  rewrite elem_of_List_filter, !negb_true_iff, memHex_not_elem_of.
  split.
  - intros [[Hres HR] Hex]. split; [exact Hres|]. split; [exact HR|].
    intros n Hn HnR.
    rewrite (Board_erase_neighbors _ _ _ (ri_erase _ _ _ _ _ _ I)) in Hex.
    rewrite (proj1 (proj2 (proj2 Hstd) h (allBut_layout h Hres))) in Hex.
    assert (existsb (Hex_hasHighProbabilityToken b) (stdNeighbors h) = true)
      as Hex'; [|congruence].
    apply existsb_exists. exists n. split; [apply list_elem_of_In; exact Hn|].
    apply (RedInv_high _ _ _ _ _ I). exact HnR.
  - intros (Hres & HR & Hnb). split; [split; [exact Hres|exact HR]|].
    rewrite (Board_erase_neighbors _ _ _ (ri_erase _ _ _ _ _ _ I)).
    rewrite (proj1 (proj2 (proj2 Hstd) h (allBut_layout h Hres))).
    destruct (existsb (Hex_hasHighProbabilityToken b) (stdNeighbors h)) eqn:E;
      [|reflexivity].
    apply existsb_exists in E as (n & Hn & Hhigh).
    apply list_elem_of_In in Hn. apply (RedInv_high _ _ _ _ _ I) in Hhigh.
    exfalso. exact (Hnb n Hn Hhigh).
Qed.

(** With at most three red tokens on the board a valid hex exists: the
    fallback branch is not taken. *)
Lemma RedInv_validHexes_nonempty done R avail b :
  RedInv d b0 done R avail b -> (length R <= 3)%nat ->
  (0 < length (validHexesFor b avail))%nat.
Proof.
  intros I Hlen. destruct Hstd as (_ & Hd & _).
  destruct (free_hex_exists d R Hd Hlen (ri_res _ _ _ _ _ _ I)) as (h & Hh & Hfree).
  assert (h ∈ validHexesFor b avail) as Hin.
  { apply (RedInv_validHexes _ _ _ _ _ I). split; [exact Hh|].
    rewrite Forall_forall in Hfree. split.
    - intros HR. destruct (Hfree h HR) as [Hne _]. congruence.
    - intros n Hn HnR. destruct (Hfree n HnR) as [_ Hnb]. apply Hnb.
      apply stdNeighbors_sym; [apply allBut_layout; exact Hh|exact Hn]. }
  destruct (validHexesFor b avail); [inversion Hin|simpl; lia].
Qed.
(** One turn of the loop of [placeRedTokensWithConstraint]. *)
Lemma placeRedToken_step done R avail b G token :
  RedInv d b0 done R avail b ->
  (length R <= 3)%nat ->
  token ∉ done ->
  (token < length (Board.numberTokens b0))%nat ->
  tokenIsHighProbability b0 token = true ->
  exists h avail' b' G',
    placeRedToken (avail, b, G) token = (avail', b', G')
    /\ RedInv d b0 (token :: done) (h :: R) avail' b'.
Proof.
  intros I Hlen Hnew Hlt Hhigh. unfold placeRedToken.
  pose proof (RedInv_validHexes_nonempty _ _ _ _ I Hlen) as Hne.
  rewrite (proj2 (Nat.ltb_lt _ _) Hne).
  pose proof (randomBelow_lt _ G Hne) as Hidx.
  destruct (randomBelow (length (validHexesFor b avail)) G) as [idx G1].
  cbn [fst] in Hidx.
  destruct (lookup_lt_is_Some_2 _ _ Hidx) as [h Hh]. rewrite Hh.
  assert (h ∈ validHexesFor b avail) as Hvalid
    by (apply list_elem_of_lookup; eauto).
  apply (RedInv_validHexes _ _ _ _ _ I) in Hvalid as (Hres & HhR & Hnb).
  assert (h ∈ avail) as Havail.
  { rewrite (ri_avail _ _ _ _ _ _ I). apply elem_of_List_filter.
    split; [exact Hres|]. apply negb_true_iff, memHex_not_elem_of. exact HhR. }
  assert (NoDup avail) as Hnd.
  { rewrite (ri_avail _ _ _ _ _ _ I).
    apply NoDup_ListNoDup, List.NoDup_filter, NoDup_ListNoDup, allBut_NoDup. }
  assert (Board_hexOf b token = None) as Hunplaced.
  { destruct (Board_hexOf b token) eqn:E; [|reflexivity].
    exfalso. apply Hnew. apply (ri_done _ _ _ _ _ _ I). congruence. }
  destruct (Board_hexOf_None_lookup b token) as (tok & Htok & Hhex).
  { rewrite (Board_erase_tokens_length _ _ (ri_erase _ _ _ _ _ _ I)). exact Hlt. }
  { exact Hunplaced. }
  assert (h ∈ JSMap.keys (Board.hexes b)) as Hkey.
  { rewrite (Board_erase_keys _ _ (ri_erase _ _ _ _ _ _ I)).
    rewrite (proj1 Hstd). apply allBut_layout. exact Hres. }
  pose proof (Board_tokenAt_placeOnHex b token h tok Htok Hhex Hkey) as Hat.
  pose proof (Board_hexOf_placeOnHex b token h tok Htok) as Hof.
  exists h. eexists. eexists. eexists. split; [reflexivity|].
  constructor.
  - rewrite NumberToken_placeOnHex_erase. exact (ri_erase _ _ _ _ _ _ I).
  - rewrite (splice1_indexOf h avail Hnd Havail).
    rewrite (ri_avail _ _ _ _ _ _ I), List_filter_filter.
    apply filter_ext. intros k. simpl.
    destruct (HexKey_eqb k h) eqn:E.
    + apply HexKey_eqb_eq in E. rewrite bool_decide_eq_true_2 by exact E.
      rewrite andb_false_r. reflexivity.
    + apply HexKey_eqb_neq in E. rewrite bool_decide_eq_false_2 by exact E.
      rewrite andb_true_r. reflexivity.
  - intros k. rewrite Hat, elem_of_cons. destruct (decide (h = k)) as [->|Hne'].
    + split; [intros _; left; reflexivity|discriminate].
    + rewrite (ri_at _ _ _ _ _ _ I). split; [tauto|].
      intros [->|Hk]; [contradiction|exact Hk].
  - intros i k. rewrite Hof, Hat. destruct (decide (token = i)) as [->|Hne'].
    + intros [= ->]. rewrite decide_True by reflexivity. reflexivity.
    + intros Hik. pose proof (ri_back _ _ _ _ _ _ I i k Hik) as Hki.
      destruct (decide (h = k)) as [->|Hhk]; [|exact Hki].
      exfalso. apply HhR. apply (ri_at _ _ _ _ _ _ I). congruence.
  - intros k i. rewrite Hat, Hof. destruct (decide (h = k)) as [->|Hhk].
    + intros [= ->]. rewrite decide_True by reflexivity. auto.
    + intros Hki. destruct (ri_forth _ _ _ _ _ _ I k i Hki) as [Hik Hi].
      split; [|exact Hi]. rewrite decide_False; [exact Hik|].
      intros ->. congruence.
  - intros i. rewrite Hof, elem_of_cons. destruct (decide (token = i)) as [->|Hne'].
    + split; [intros _; left; reflexivity|discriminate].
    + rewrite (ri_done _ _ _ _ _ _ I). split; [tauto|].
      intros [->|Hi]; [contradiction|exact Hi].
  - constructor; [exact Hres|exact (ri_res _ _ _ _ _ _ I)].
  - constructor; [exact HhR|exact (ri_nodup _ _ _ _ _ _ I)].
  - intros r1 r2 H1 H2.
    apply elem_of_cons in H1 as [->|H1]; apply elem_of_cons in H2 as [->|H2].
    + apply stdNeighbors_irrefl. apply allBut_layout. exact Hres.
    + intros Hn. exact (Hnb r2 Hn H2).
    + intros Hn. apply (Hnb r1); [|exact H1]. apply stdNeighbors_sym; [|exact Hn].
      pose proof (ri_res _ _ _ _ _ _ I) as HR. rewrite Forall_forall in HR.
      apply allBut_layout. apply HR. exact H1.
    + exact (ri_indep _ _ _ _ _ _ I r1 r2 H1 H2).
  - simpl. rewrite (ri_len _ _ _ _ _ _ I). reflexivity.
Qed.

(** The whole loop: every token of the list is laid on a hex of its own,
    and no two of these hexes are neighbours. *)
Lemma fold_placeRedToken_spec tokens : forall done R avail b G,
  RedInv d b0 done R avail b ->
  (length R + length tokens <= 4)%nat ->
  NoDup tokens ->
  Forall (fun t => (t ∉ done)
                   /\ (t < length (Board.numberTokens b0))%nat
                   /\ tokenIsHighProbability b0 t = true) tokens ->
  exists R' avail' b' G',
    fold_left placeRedToken tokens (avail, b, G) = (avail', b', G')
    /\ RedInv d b0 (rev tokens ++ done) R' avail' b'.
Proof.
  induction tokens as [|t tokens IH]; intros done R avail b G I Hlen Hnd Hall.
  - exists R, avail, b, G. split; [reflexivity|exact I].
  - apply NoDup_cons in Hnd as [Ht Hnd].
    apply Forall_cons in Hall as [(Htd & Htl & Hth) Hall].
    simpl in Hlen.
    destruct (placeRedToken_step done R avail b G t I ltac:(lia) Htd Htl Hth)
      as (h & avail1 & b1 & G1 & Hstep & I1).
    destruct (IH (t :: done) (h :: R) avail1 b1 G1 I1) as (R' & avail' & b' & G' & Hfold & I').
    { simpl. lia. }
    { exact Hnd. }
    { rewrite Forall_forall in Hall |- *. intros x Hx.
      destruct (Hall x Hx) as (Hxd & Hxl & Hxh). split; [|auto].
      rewrite not_elem_of_cons. split; [|exact Hxd]. intros ->. contradiction. }
    exists R', avail', b', G'. cbn [fold_left rev]. rewrite Hstep.
    split; [exact Hfold|]. rewrite <- app_assoc. exact I'.
Qed.
End RedTokens.

(** ** Laying out the other tokens *)
Section RemainingTokens.
Variables (b0 : Board.t) (R : list HexKey).
Implicit Types (b : Board.t) (k h : HexKey) (P : list HexKey)
  (token : TokenRef) (done : list TokenRef).

Lemma RedInv_TokenInv d done avail b :
  RedInv d b0 done R avail b -> TokenInv b0 R done R b.
Proof.
  intros I. constructor.
  - exact (ri_erase _ _ _ _ _ _ I).
  - exact (ri_at _ _ _ _ _ _ I).
  - exact (ri_back _ _ _ _ _ _ I).
  - intros k i H. exact (proj1 (ri_forth _ _ _ _ _ _ I k i H)).
  - exact (ri_done _ _ _ _ _ _ I).
  - intros k i H _. apply (ri_at _ _ _ _ _ _ I). congruence.
Qed.

Lemma placeOnHex_step done P b token h :
  TokenInv b0 R done P b ->
  token ∉ done ->
  (token < length (Board.numberTokens b0))%nat ->
  tokenIsHighProbability b0 token = false ->
  h ∉ P ->
  h ∈ JSMap.keys (Board.hexes b0) ->
  TokenInv b0 R (token :: done) (h :: P)
    (NumberToken_placeOnHex token (Some h) b).
Proof.
  intros I Hnew Hlt Hlow HhP Hkey0.
  assert (Board_hexOf b token = None) as Hunplaced.
  { destruct (Board_hexOf b token) eqn:E; [|reflexivity].
    exfalso. apply Hnew. apply (ti_done _ _ _ _ _ I). congruence. }
  destruct (Board_hexOf_None_lookup b token) as (tok & Htok & Hhex).
  { rewrite (Board_erase_tokens_length _ _ (ti_erase _ _ _ _ _ I)). exact Hlt. }
  { exact Hunplaced. }
  assert (h ∈ JSMap.keys (Board.hexes b)) as Hkey.
  { rewrite (Board_erase_keys _ _ (ti_erase _ _ _ _ _ I)). exact Hkey0. }
  pose proof (Board_tokenAt_placeOnHex b token h tok Htok Hhex Hkey) as Hat.
  pose proof (Board_hexOf_placeOnHex b token h tok Htok) as Hof.
  constructor.
  - rewrite NumberToken_placeOnHex_erase. exact (ti_erase _ _ _ _ _ I).
  - intros k. rewrite Hat, elem_of_cons. destruct (decide (h = k)) as [->|Hne'].
    + split; [intros _; left; reflexivity|discriminate].
    + rewrite (ti_at _ _ _ _ _ I). split; [tauto|].
      intros [->|Hk]; [contradiction|exact Hk].
  - intros i k. rewrite Hof, Hat. destruct (decide (token = i)) as [->|Hne'].
    + intros [= ->]. rewrite decide_True by reflexivity. reflexivity.
    + intros Hik. pose proof (ti_back _ _ _ _ _ I i k Hik) as Hki.
      destruct (decide (h = k)) as [->|Hhk]; [|exact Hki].
      exfalso. apply HhP. apply (ti_at _ _ _ _ _ I). congruence.
  - intros k i. rewrite Hat, Hof. destruct (decide (h = k)) as [->|Hhk].
    + intros [= ->]. rewrite decide_True by reflexivity. reflexivity.
    + intros Hki. pose proof (ti_forth _ _ _ _ _ I k i Hki) as Hik.
      rewrite decide_False; [exact Hik|]. intros ->. congruence.
  - intros i. rewrite Hof, elem_of_cons. destruct (decide (token = i)) as [->|Hne'].
    + split; [intros _; left; reflexivity|discriminate].
    + rewrite (ti_done _ _ _ _ _ I). split; [tauto|].
      intros [->|Hi]; [contradiction|exact Hi].
  - intros k i. rewrite Hat. destruct (decide (h = k)) as [->|Hhk].
    + intros [= <-] Hhigh. congruence.
    + exact (ti_high _ _ _ _ _ I k i).
Qed.

Lemma fold_placeOnHex_spec (pairs : list (TokenRef * HexKey)) :
  forall done P b,
  TokenInv b0 R done P b ->
  NoDup (map fst pairs) ->
  NoDup (map snd pairs) ->
  Forall (fun p => (p.1 ∉ done)
                   /\ (p.1 < length (Board.numberTokens b0))%nat
                   /\ tokenIsHighProbability b0 p.1 = false
                   /\ (p.2 ∉ P)
                   /\ p.2 ∈ JSMap.keys (Board.hexes b0)) pairs ->
  TokenInv b0 R (rev (map fst pairs) ++ done) (rev (map snd pairs) ++ P)
    (fold_left (fun b '(token, hex) => NumberToken_placeOnHex token (Some hex) b)
       pairs b).
Proof.
  induction pairs as [|[t h] pairs IH]; intros done P b I Hnd1 Hnd2 Hall.
  - exact I.
  - cbn [map fst snd] in Hnd1, Hnd2.
    apply NoDup_cons in Hnd1 as [Ht Hnd1]. apply NoDup_cons in Hnd2 as [Hh Hnd2].
    apply Forall_cons in Hall as [(Htd & Htl & Htlow & HhP & Hhk) Hall].
    cbn [fst snd] in Htd, Htl, Htlow, HhP, Hhk.
    cbn [fold_left map rev fst snd]. rewrite <- !app_assoc.
    change ([t] ++ done) with (t :: done). change ([h] ++ P) with (h :: P).
    apply IH; [|exact Hnd1|exact Hnd2|].
    + apply placeOnHex_step; assumption.
    + rewrite Forall_forall in Hall |- *. intros p Hp.
      destruct (Hall p Hp) as (H1 & H2 & H3 & H4 & H5).
      split_and!; [|exact H2|exact H3| |exact H5].
      * rewrite not_elem_of_cons. split; [|exact H1]. intros E. apply Ht.
        rewrite <- E. apply list_elem_of_In, in_map, list_elem_of_In. exact Hp.
      * rewrite not_elem_of_cons. split; [|exact H4]. intros E. apply Hh.
        rewrite <- E. apply list_elem_of_In, in_map, list_elem_of_In. exact Hp.
Qed.
End RemainingTokens.

(** ** [placeNumberTokens] *)
Lemma allBut_length_in d : d ∈ hexLayout -> length (allBut d) = 18%nat.
Proof.
  intros Hd. apply list_elem_of_In in Hd.
  assert (forallb (fun d => Nat.eqb (length (allBut d)) 18) hexLayout = true)
    as H by (vm_compute; reflexivity).
  apply Nat.eqb_eq. exact (proj1 (forallb_forall _ _) H d Hd).
Qed.

Section PlaceNumberTokens.
Variables (d : HexKey) (b2 : Board.t).
Hypothesis Hstd : StandardHexes d b2.
Hypothesis Hbare : forall k, Board_tokenAt b2 k = None.
Local Abbreviation b0 := (Board.set_numberTokens NumberToken_createStandardSet b2).

Lemma redTokens_eq :
  List.filter (tokenIsHighProbability b0) (seq 0 (length (Board.numberTokens b0)))
  = [7; 8; 9; 10]%nat.
Proof. reflexivity. Qed.

Lemma nonRedTokens_eq :
  List.filter (fun t => negb (tokenIsHighProbability b0 t))
    (seq 0 (length (Board.numberTokens b0)))
  = [0; 1; 2; 3; 4; 5; 6; 11; 12; 13; 14; 15; 16; 17]%nat.
Proof. reflexivity. Qed.

Lemma standardSet_unplaced i : Board_hexOf b0 i = None.
Proof.
  unfold Board_hexOf. cbn [Board.numberTokens Board.set_numberTokens].
  do 18 (destruct i as [|i]; [reflexivity|]). reflexivity.
Qed.

Lemma StandardHexes_set_numberTokens : StandardHexes d b0.
Proof. exact Hstd. Qed.

Lemma filter_true {A} (f : A -> bool) (l : list A) :
  (forall x, f x = true) -> List.filter f l = l.
Proof.
  intros H. induction l as [|x l IH]; [reflexivity|].
  simpl. rewrite H, IH. reflexivity.
Qed.

Lemma RedInv_start : RedInv d b0 [] [] (allBut d) b0.
Proof.
  constructor.
  - reflexivity.
  - symmetry. apply filter_true. reflexivity.
  - intros k. change (Board_tokenAt b0 k) with (Board_tokenAt b2 k).
    rewrite Hbare. split; [congruence|]. intros H. inversion H.
  - intros i k. rewrite standardSet_unplaced. discriminate.
  - intros k i. change (Board_tokenAt b0 k) with (Board_tokenAt b2 k).
    rewrite Hbare. discriminate.
  - intros i. rewrite standardSet_unplaced. split; [congruence|].
    intros H. inversion H.
  - constructor.
  - constructor.
  - intros r1 r2 H. inversion H.
  - reflexivity.
Qed.

Lemma allBut_length : length (allBut d) = 18%nat.
Proof. apply allBut_length_in. exact (proj1 (proj2 Hstd)). Qed.

(** What is left of the resource hexes once the hexes [R] are taken. *)
Lemma remaining_length (R : list HexKey) :
  NoDup R -> Forall (fun r => r ∈ allBut d) R ->
  (length (List.filter (fun k => negb (memHex k R)) (allBut d)) + length R
   = 18)%nat.
Proof.
  intros Hnd Hin.
  pose proof (filter_length (fun k => negb (memHex k R)) (allBut d)) as Hlen.
  rewrite allBut_length in Hlen. rewrite <- Hlen. f_equal.
  apply Permutation_length. apply NoDup_Permutation.
  - exact Hnd.
  - apply NoDup_ListNoDup, List.NoDup_filter, NoDup_ListNoDup, allBut_NoDup.
  - intros k. rewrite elem_of_List_filter, negb_involutive, memHex_elem_of.
    rewrite Forall_forall in Hin. split; [|tauto]. intros Hk. split; auto.
Qed.
Lemma elem_of_rev {A} (x : A) (l : list A) : x ∈ rev l <-> x ∈ l.
Proof. rewrite !list_elem_of_In. symmetry. apply in_rev. Qed.

Lemma map_fst_combine {A B} (l1 : list A) : forall (l2 : list B),
  length l1 = length l2 -> map fst (combine l1 l2) = l1.
Proof.
  induction l1 as [|x l1 IH]; intros [|y l2] H; try discriminate; auto.
  simpl. rewrite IH; auto.
Qed.

Lemma map_snd_combine {A B} (l1 : list A) : forall (l2 : list B),
  length l1 = length l2 -> map snd (combine l1 l2) = l2.
Proof.
  induction l1 as [|x l1 IH]; intros [|y l2] H; try discriminate; auto.
  simpl. rewrite IH; auto.
Qed.

(** Once [placeNumberTokens] is over, every token lies on a hex, every hex
    but the desert carries a token, and the hexes that carry a 6 or an 8
    are not neighbours. *)
Lemma Board_placeNumberTokens_spec G :
  exists R done P,
    TokenInv b0 R done P (Board_placeNumberTokens b2 G).1
    /\ (forall i, (i < 18)%nat -> i ∈ done)
    /\ (forall k, k ∈ P <-> k ∈ allBut d)
    /\ (forall r1 r2, r1 ∈ R -> r2 ∈ R -> r2 ∉ stdNeighbors r1)
    /\ Forall (fun r => r ∈ allBut d) R.
Proof.
  unfold Board_placeNumberTokens.
  rewrite (resourceHexes_allBut d b0 StandardHexes_set_numberTokens b0 eq_refl).
  rewrite redTokens_eq, nonRedTokens_eq.
  pose proof (Board_shuffleArray_Permutation [7; 8; 9; 10]%nat G) as Hp1.
  destruct (Board_shuffleArray [7; 8; 9; 10]%nat G) as [red G1].
  pose proof (Board_shuffleArray_Permutation
                [0; 1; 2; 3; 4; 5; 6; 11; 12; 13; 14; 15; 16; 17]%nat G1) as Hp2.
  destruct (Board_shuffleArray
              [0; 1; 2; 3; 4; 5; 6; 11; 12; 13; 14; 15; 16; 17]%nat G1)
    as [nonRed G2].
  cbn [fst] in Hp1, Hp2.
  unfold Board_placeRedTokensWithConstraint.
  destruct (fold_placeRedToken_spec d b0 StandardHexes_set_numberTokens
              red [] [] (allBut d) b0 G2 RedInv_start)
    as (R & avail & b1 & G3 & Hfold & I1).
  { rewrite (Permutation_length Hp1). simpl. lia. }
  { rewrite Hp1. apply (bool_decide_unpack _). vm_compute. exact I. }
  { rewrite Forall_forall. intros t Ht. rewrite Hp1 in Ht.
    split; [intros H; inversion H|].
    repeat (apply elem_of_cons in Ht as [->|Ht]);
      [split; [simpl; lia|reflexivity]..|inversion Ht]. }
  rewrite Hfold. rewrite app_nil_r in I1.
  pose proof (RedInv_TokenInv b0 R d _ _ _ I1) as T1.
  unfold Board_placeRemainingTokens.
  assert (List.filter (fun hex => negb (Hex_hasNumberToken b1 hex)) (allBut d)
          = avail) as ->.
  { rewrite (ri_avail _ _ _ _ _ _ I1). apply filter_ext. intros k. f_equal.
    rewrite Hex_hasNumberToken_tokenAt.
    destruct (Board_tokenAt b1 k) as [t|] eqn:Hk; symmetry.
    - apply memHex_elem_of. apply (ri_at _ _ _ _ _ _ I1). congruence.
    - apply memHex_not_elem_of. intros Hin.
      apply (ri_at _ _ _ _ _ _ I1) in Hin. contradiction. }
  pose proof (Board_shuffleArray_Permutation avail G3) as Hp3.
  destruct (Board_shuffleArray avail G3) as [shuffled G4].
  cbn [fst] in Hp3 |- *.
  assert (length shuffled = 14%nat) as Hlen3.
  { rewrite (Permutation_length Hp3), (ri_avail _ _ _ _ _ _ I1).
    pose proof (remaining_length R (ri_nodup _ _ _ _ _ _ I1)
                  (ri_res _ _ _ _ _ _ I1)) as H.
    rewrite (ri_len _ _ _ _ _ _ I1), length_rev, (Permutation_length Hp1) in H.
    simpl in H. lia. }
  assert (length nonRed = length shuffled) as Hlen.
  { rewrite Hlen3, (Permutation_length Hp2). reflexivity. }
  assert (forall k, k ∈ shuffled <-> k ∈ allBut d /\ (k ∉ R)) as Hsh.
  { intros k. rewrite Hp3, (ri_avail _ _ _ _ _ _ I1), elem_of_List_filter.
    rewrite negb_true_iff, memHex_not_elem_of. reflexivity. }
  exists R, (rev nonRed ++ rev red), (rev shuffled ++ R).
  split_and!.
  - rewrite <- (map_fst_combine nonRed shuffled Hlen) at 1.
    rewrite <- (map_snd_combine nonRed shuffled Hlen) at 2.
    apply fold_placeOnHex_spec.
    + exact T1.
    + rewrite (map_fst_combine _ _ Hlen), Hp2.
      apply (bool_decide_unpack _). vm_compute. exact I.
    + rewrite (map_snd_combine _ _ Hlen), Hp3, (ri_avail _ _ _ _ _ _ I1).
      apply NoDup_ListNoDup, List.NoDup_filter, NoDup_ListNoDup, allBut_NoDup.
    + rewrite Forall_forall. intros [t h] Hp. cbn [fst snd].
      assert (t ∈ nonRed) as Ht.
      { rewrite <- (map_fst_combine nonRed shuffled Hlen).
        apply list_elem_of_In. apply (in_map fst _ (t, h)).
        apply list_elem_of_In. exact Hp. }
      assert (h ∈ shuffled) as Hh.
      { rewrite <- (map_snd_combine nonRed shuffled Hlen).
        apply list_elem_of_In. apply (in_map snd _ (t, h)).
        apply list_elem_of_In. exact Hp. }
      apply Hsh in Hh as [Hh1 Hh2].
      split_and!.
      * rewrite elem_of_rev, Hp1. intros H. rewrite Hp2 in Ht.
        revert H. repeat (apply elem_of_cons in Ht as [->|Ht]);
          [apply (bool_decide_unpack _); vm_compute; exact I..|inversion Ht].
      * rewrite Hp2 in Ht. repeat (apply elem_of_cons in Ht as [->|Ht]);
          [simpl; lia..|inversion Ht].
      * rewrite Hp2 in Ht. repeat (apply elem_of_cons in Ht as [->|Ht]);
          [reflexivity..|inversion Ht].
      * exact Hh2.
      * change (h ∈ JSMap.keys (Board.hexes b2)). rewrite (proj1 Hstd).
        apply (allBut_layout d). exact Hh1.
  - intros i Hi. rewrite elem_of_app, !elem_of_rev, Hp1, Hp2.
    rewrite !elem_of_cons. lia.
  - intros k. rewrite elem_of_app, elem_of_rev, Hsh.
    pose proof (ri_res _ _ _ _ _ _ I1) as HR. rewrite Forall_forall in HR.
    destruct (decide (k ∈ R)) as [Hin|Hout]; split; auto; tauto.
  - exact (ri_indep _ _ _ _ _ _ I1).
  - exact (ri_res _ _ _ _ _ _ I1).
Qed.
End PlaceNumberTokens.

(** ** The robber *)
Section PlaceRobber.
Implicit Types (b : Board.t) (k d : HexKey).

Lemma find_bool_decide (f : HexKey -> bool) d (l : list HexKey) :
  d ∈ l -> (forall k, k ∈ l -> f k = bool_decide (k = d)) -> find f l = Some d.
Proof.
  induction l as [|x l IH]; intros Hd Hf; [inversion Hd|].
  simpl. rewrite (Hf x) by left. case_bool_decide as E.
  - rewrite E. reflexivity.
  - apply IH.
    + apply elem_of_cons in Hd as [->|Hd]; [contradiction|exact Hd].
    + intros k Hk. apply Hf. right. exact Hk.
Qed.

Lemma Board_placeRobberOnDesert_spec d b :
  JSMap.keys (Board.hexes b) = hexLayout ->
  d ∈ hexLayout ->
  (forall k, k ∈ hexLayout -> Hex_terrainIs b desert k = bool_decide (k = d)) ->
  Robber.hex (Board.robber b) = None ->
  Board_placeRobberOnDesert b =
    Board.set_robber (Robber.mk (Robber.id (Board.robber b)) (Some d))
      (Board.set_hexes
         (JSMap.modify d (Hex.set_hasRobber true) (Board.hexes b)) b).
Proof.
  intros Hkeys Hd Hdesert Hrob. unfold Board_placeRobberOnDesert.
  rewrite Hkeys, (find_bool_decide _ d hexLayout Hd Hdesert).
  unfold Robber_moveTo. rewrite Hrob. reflexivity.
Qed.

Lemma JSMap_get_modify {K V} `{!EqDecision K} (f : V -> V) (k k' : K)
    (m : list (K * V)) :
  JSMap.get k' (JSMap.modify k f m)
  = option_map (if decide (k = k') then f else id) (JSMap.get k' m).
Proof.
  destruct (decide (k = k')) as [->|Hne].
  - apply JSMap_get_modify_eq.
  - rewrite JSMap_get_modify_ne by exact Hne.
    destruct (JSMap.get k' m); reflexivity.
Qed.
End PlaceRobber.

(** ** The generated board *)
Section Generated.
Implicit Types (b B : Board.t) (k d : HexKey).

(** Moving the robber leaves tokens, terrain and neighbours alone. *)
Lemma Board_tokenAt_hasRobber b B d v k :
  Board.hexes B = JSMap.modify d (Hex.set_hasRobber v) (Board.hexes b) ->
  Board_tokenAt B k = Board_tokenAt b k.
Proof.
  intros H. unfold Board_tokenAt. rewrite H, JSMap_get_modify.
  destruct (JSMap.get k (Board.hexes b)) as [h|]; [|reflexivity].
  destruct (decide (d = k)); reflexivity.
Qed.

Lemma Hex_neighbors_hasRobber b B d v k :
  Board.hexes B = JSMap.modify d (Hex.set_hasRobber v) (Board.hexes b) ->
  Hex_neighbors B k = Hex_neighbors b k.
Proof.
  intros H. unfold Hex_neighbors. rewrite H, JSMap_get_modify.
  destruct (JSMap.get k (Board.hexes b)) as [h|]; [|reflexivity].
  destruct (decide (d = k)); reflexivity.
Qed.

Lemma Hex_terrainIs_hasRobber b B d v t k :
  Board.hexes B = JSMap.modify d (Hex.set_hasRobber v) (Board.hexes b) ->
  Hex_terrainIs B t k = Hex_terrainIs b t k.
Proof.
  intros H. unfold Hex_terrainIs. rewrite H, JSMap_get_modify.
  destruct (JSMap.get k (Board.hexes b)) as [h|]; [|reflexivity].
  destruct (decide (d = k)); reflexivity.
Qed.

Lemma Board_erase_hasRobber b b' k h :
  Board_erase b' = Board_erase b ->
  JSMap.get k (Board.hexes b') = Some h ->
  exists h0, JSMap.get k (Board.hexes b) = Some h0
             /\ Hex.hasRobber h = Hex.hasRobber h0.
Proof.
  intros Her Hget. apply (Board_erase_hexes_get _ _ k) in Her.
  rewrite Hget in Her.
  destruct (JSMap.get k (Board.hexes b)) as [h0|]; [|discriminate].
  exists h0. split; [reflexivity|]. simpl in Her.
  assert (Hex.set_numberToken None h = Hex.set_numberToken None h0) as E
    by congruence.
  exact (f_equal Hex.hasRobber E).
Qed.

Lemma Board_erase_values b b' :
  Board_erase b' = Board_erase b ->
  map NumberToken.value (Board.numberTokens b')
  = map NumberToken.value (Board.numberTokens b).
Proof.
  intros H. apply (f_equal Board.numberTokens) in H. simpl in H.
  apply (f_equal (map NumberToken.value)) in H. rewrite !map_map in H.
  exact H.
Qed.

(** Whatever board it starts from and whatever the random source,
    [generateStandardBoard] ends on a standard board. *)
Lemma Board_generateStandardBoard_StandardBoard b G :
  exists d R, StandardBoard d R (Board_generateStandardBoard b G).1.
Proof.
  destruct (Board_generateStandardBoard_stages b G)
    as (ts & rob & bt & G1 & b3 & G3 & Hrob & Hperm & Htok & ->).
  destruct (createHexes_StandardHexes ts rob bt Hperm)
    as (d & Hstd & Hbare & Hnorob & _).
  pose proof (createHexes_robber ts rob bt (Permutation_length Hperm)) as Hr2.
  revert Htok Hstd Hbare Hnorob Hr2.
  generalize (Board_buildRelationships
                (createHexes ts (Board.mk [] [] [] [] rob false bt))).
  intros b2 Htok Hstd Hbare Hnorob Hr2.
  destruct (Board_placeNumberTokens_spec d b2 Hstd Hbare G1)
    as (R & done & P & T & Hdone & HP & Hindep & HR).
  rewrite Htok in T. cbn [fst] in T.
  pose proof (ti_erase _ _ _ _ _ T) as Her.
  assert (JSMap.keys (Board.hexes b3) = hexLayout) as Hkeys.
  { rewrite (Board_erase_keys _ _ Her). exact (proj1 Hstd). }
  assert (forall k, k ∈ hexLayout ->
            Hex_terrainIs b3 desert k = bool_decide (k = d)) as Hdesert.
  { intros k Hk. rewrite (Board_erase_terrainIs _ _ _ _ Her).
    exact (proj2 (proj2 (proj2 Hstd) k Hk)). }
  assert (Robber.hex (Board.robber b3) = None) as Hrob3.
  { pose proof (f_equal Board.robber Her) as E. simpl in E.
    rewrite E, Hr2. exact Hrob. }
  rewrite (Board_placeRobberOnDesert_spec d b3 Hkeys (proj1 (proj2 Hstd))
             Hdesert Hrob3).
  cbn [fst Board.hexes Board.vertices Board.edges Board.numberTokens
       Board.robber Board.set_robber Board.set_hexes].
  set (B := Board.mk _ _ _ _ _ _ _).
  assert (Board.hexes B
          = JSMap.modify d (Hex.set_hasRobber true) (Board.hexes b3)) as HB
    by reflexivity.
  exists d, R. constructor.
  - rewrite HB, JSMap_keys_modify. exact Hkeys.
  - exact (proj1 (proj2 Hstd)).
  - intros k Hk. rewrite (Hex_neighbors_hasRobber b3 B d true k HB).
    rewrite (Board_erase_neighbors _ _ _ Her).
    exact (proj1 (proj2 (proj2 Hstd) k Hk)).
  - intros k Hk. rewrite (Hex_terrainIs_hasRobber b3 B d true _ k HB).
    exact (Hdesert k Hk).
  - change (Board.numberTokens B) with (Board.numberTokens b3).
    rewrite (Board_erase_values _ _ Her). reflexivity.
  - intros i Hi. change (Board_hexOf B i) with (Board_hexOf b3 i).
    apply Hdone, (ti_done _ _ _ _ _ T) in Hi.
    destruct (Board_hexOf b3 i) as [k|] eqn:Hk; [|contradiction].
    exists k. split; [reflexivity|].
    rewrite (Board_tokenAt_hasRobber b3 B d true k HB).
    exact (ti_back _ _ _ _ _ T i k Hk).
  - intros k i. rewrite (Board_tokenAt_hasRobber b3 B d true k HB).
    exact (ti_forth _ _ _ _ _ T k i).
  - intros k Hk Hne. rewrite (Board_tokenAt_hasRobber b3 B d true k HB).
    apply (ti_at _ _ _ _ _ T), HP, elem_of_allBut. auto.
  - rewrite (Board_tokenAt_hasRobber b3 B d true d HB).
    destruct (Board_tokenAt b3 d) as [t|] eqn:Ht; [|reflexivity].
    exfalso. assert (d ∈ P) as Hin by (apply (ti_at _ _ _ _ _ T); congruence).
    apply HP, elem_of_allBut in Hin. tauto.
  - reflexivity.
  - intros k h. rewrite HB, JSMap_get_modify.
    destruct (JSMap.get k (Board.hexes b3)) as [h3|] eqn:Hget; [|discriminate].
    destruct (Board_erase_hasRobber _ _ k h3 Her Hget) as (h0 & Hget0 & Hsame).
    pose proof (Hnorob k h0 Hget0) as Hfalse.
    destruct (decide (d = k)) as [->|Hne]; simpl; intros [= <-].
    + rewrite bool_decide_eq_true_2; reflexivity.
    + rewrite bool_decide_eq_false_2 by congruence. simpl. congruence.
  - intros k. rewrite Hex_hasHighProbabilityToken_tokenAt.
    rewrite (Board_tokenAt_hasRobber b3 B d true k HB).
    destruct (Board_tokenAt b3 k) as [t|] eqn:Ht; [|discriminate].
    change (tokenIsHighProbability B t) with (tokenIsHighProbability b3 t).
    rewrite (Board_erase_tokenIsHighProbability _ _ _ Her).
    exact (ti_high _ _ _ _ _ T k t Ht).
  - rewrite Forall_forall in HR |- *. intros r Hr.
    apply (allBut_layout d). auto.
  - exact Hindep.
Qed.
End Generated.

(** C5.  Whatever board [generateStandardBoard] is called on (a fresh one or
    one that was generated before) and whatever the random source, the board
    it leaves has exactly 19 hexes, at pairwise distinct coordinates, and
    exactly 18 number tokens; every token lies on a hex that points back at
    it; exactly one hex is a desert, it carries no token, the robber stands
    on it, and it is the only hex flagged as holding the robber. *)
Theorem generateStandardBoard_rebuilds_the_board (b : Board.t) (G : Globals) :
  JSMap.size (Board.hexes (Board_generateStandardBoard b G).1) = 19%nat
  /\ NoDup (JSMap.keys (Board.hexes (Board_generateStandardBoard b G).1))
  /\ length (Board.numberTokens (Board_generateStandardBoard b G).1) = 18%nat
  /\ (forall i,
        (i < 18)%nat ->
        exists k,
          Board_hexOf (Board_generateStandardBoard b G).1 i = Some k
          /\ Board_tokenAt (Board_generateStandardBoard b G).1 k = Some i)
  /\ exists d,
       d ∈ JSMap.keys (Board.hexes (Board_generateStandardBoard b G).1)
       /\ (forall k,
             k ∈ JSMap.keys (Board.hexes (Board_generateStandardBoard b G).1) ->
             Hex_terrainIs (Board_generateStandardBoard b G).1 desert k
             = bool_decide (k = d))
       /\ Board_tokenAt (Board_generateStandardBoard b G).1 d = None
       /\ Robber.hex (Board.robber (Board_generateStandardBoard b G).1) = Some d
       /\ (forall k h,
             JSMap.get k (Board.hexes (Board_generateStandardBoard b G).1)
             = Some h ->
             Hex.hasRobber h = bool_decide (k = d)).
Proof.
  destruct (Board_generateStandardBoard_StandardBoard b G) as (d & R & S).
  generalize dependent (Board_generateStandardBoard b G).1. intros B S.
  pose proof (sb_keys _ _ _ S) as Hkeys.
  split.
  { unfold JSMap.size. rewrite <- (length_map fst).
    change (map fst (Board.hexes B)) with (JSMap.keys (Board.hexes B)).
    rewrite Hkeys. reflexivity. }
  split; [rewrite Hkeys; exact hexLayout_NoDup|].
  split.
  { rewrite <- (length_map NumberToken.value), (sb_values _ _ _ S).
    reflexivity. }
  split; [exact (sb_bound _ _ _ S)|].
  exists d. rewrite Hkeys.
  split; [exact (sb_desert_in _ _ _ S)|].
  split; [exact (sb_desert _ _ _ S)|].
  split; [exact (sb_desert_bare _ _ _ S)|].
  split; [exact (sb_robber _ _ _ S)|exact (sb_hasRobber _ _ _ S)].
Qed.

(** C6.  On the board left by [generateStandardBoard], whatever the random
    source, two hexes that carry a 6 or an 8 are never neighbours: on the
    standard layout the loop of [placeRedTokensWithConstraint] always finds
    a hex none of whose neighbours carries a 6 or an 8, so that its other
    branch is never taken. *)
Theorem red_tokens_are_never_adjacent (b : Board.t) (G : Globals)
    (k1 k2 : HexKey) :
  Hex_hasHighProbabilityToken (Board_generateStandardBoard b G).1 k1 = true ->
  Hex_hasHighProbabilityToken (Board_generateStandardBoard b G).1 k2 = true ->
  k2 ∉ Hex_neighbors (Board_generateStandardBoard b G).1 k1.
Proof.
  destruct (Board_generateStandardBoard_StandardBoard b G) as (d & R & S).
  generalize dependent (Board_generateStandardBoard b G).1. intros B S H1 H2.
  apply (sb_high _ _ _ S) in H1, H2.
  pose proof (sb_R _ _ _ S) as HR. rewrite Forall_forall in HR.
  rewrite (sb_neighbors _ _ _ S k1 (HR k1 H1)).
  exact (sb_indep _ _ _ S k1 k2 H1 H2).
Qed.

Lemma red_tokens_are_never_adjacent_witness :
  Hex_hasHighProbabilityToken
    (Board_generateStandardBoard (Board_new sampleGlobals).1 sampleGlobals).1
    (-1, -1) = true
  /\ Hex_hasHighProbabilityToken
       (Board_generateStandardBoard (Board_new sampleGlobals).1 sampleGlobals).1
       (1, -2) = true
  /\ (1, -2) ∉ Hex_neighbors
       (Board_generateStandardBoard (Board_new sampleGlobals).1 sampleGlobals).1
       (-1, -1).
Proof.
  split; [vm_compute; reflexivity|]. split; [vm_compute; reflexivity|].
  apply red_tokens_are_never_adjacent; vm_compute; reflexivity.
Defined.

(** ** Road lengths: the walk over a graph *)
Section Walk_facts.
Context {E V : Type} `{!EqDecision E}.
Variables (own : E -> bool) (blocked : V -> bool)
  (everts : E -> list V) (vedges : V -> list E).

Lemma walk_S fuel self visited :
  walk own blocked everts vedges (S fuel) self visited =
    if includes self visited then Some (0%nat, visited)
    else if negb (own self) then Some (0%nat, visited)
    else
      match fold_left
              (visitVertex own blocked vedges
                 (walk own blocked everts vedges fuel) self)
              (everts self) (Some (0%nat, visited ++ [self])) with
      | Some (maxLength, visited') => Some (S maxLength, visited')
      | None => None
      end.
Proof. reflexivity. Qed.

Lemma fold_left_None {A B} (f : option A -> B -> option A) (l : list B) :
  (forall x, f None x = None) -> fold_left f l None = None.
Proof. intros H. induction l as [|x l IH]; simpl; [|rewrite H]; auto. Qed.

Lemma fold_left_Some_mono {A B} (f g : option A -> B -> option A) :
  (forall x, f None x = None) ->
  (forall acc x r, f acc x = Some r -> g acc x = Some r) ->
  forall l acc r, fold_left f l acc = Some r -> fold_left g l acc = Some r.
Proof.
  intros Hstrict Hfg. induction l as [|x l IH]; intros acc r H; [exact H|].
  simpl in *. destruct (f acc x) as [r'|] eqn:Hf.
  - rewrite (Hfg _ _ _ Hf). apply IH. exact H.
  - rewrite fold_left_None in H by exact Hstrict. discriminate.
Qed.

Lemma visitEdge_None rec self edge : visitEdge own rec self None edge = None.
Proof. reflexivity. Qed.

Lemma visitVertex_None rec self vertex :
  visitVertex own blocked vedges rec self None vertex = None.
Proof.
  unfold visitVertex. destruct (blocked vertex); [reflexivity|].
  apply fold_left_None. intros x. reflexivity.
Qed.

(** More fuel does not change a result. *)
Lemma walk_fuel_S fuel : forall self visited r,
  walk own blocked everts vedges fuel self visited = Some r ->
  walk own blocked everts vedges (S fuel) self visited = Some r.
Proof.
  induction fuel as [|fuel IH]; intros self visited r H; [discriminate|].
  rewrite walk_S in H. rewrite walk_S.
  destruct (includes self visited); [exact H|].
  destruct (negb (own self)); [exact H|].
  destruct (fold_left
              (visitVertex own blocked vedges
                 (walk own blocked everts vedges fuel) self) _ _)
    as [r0|] eqn:Hfold; [|discriminate].
  rewrite (fold_left_Some_mono
             (visitVertex own blocked vedges
                (walk own blocked everts vedges fuel) self)
             (visitVertex own blocked vedges
                (walk own blocked everts vedges (S fuel)) self)
             ltac:(intros x; apply visitVertex_None)) with (r := r0);
    [exact H| |exact Hfold].
  - intros acc v r1. unfold visitVertex.
    destruct (blocked v); [auto|].
    apply fold_left_Some_mono; [intros x; reflexivity|].
    intros acc' e r2. unfold visitEdge.
    destruct acc' as [[m vis]|]; [|discriminate].
    destruct (negb (bool_decide (e = self)) && own e); [|auto].
    destruct (walk own blocked everts vedges fuel e vis) as [[len vis']|] eqn:Hw;
      [|discriminate].
    rewrite (IH _ _ _ Hw). auto.
Qed.

Lemma walk_fuel_le fuel fuel' self visited r :
  (fuel <= fuel')%nat ->
  walk own blocked everts vedges fuel self visited = Some r ->
  walk own blocked everts vedges fuel' self visited = Some r.
Proof.
  intros Hle H. induction Hle as [|fuel' Hle IH]; [exact H|].
  apply walk_fuel_S. exact IH.
Qed.
End Walk_facts.

(** [getRoadLength] is the walk over the graph of the board. *)
Lemma fold_left_ext_all {A B} (f g : A -> B -> A) (l : list B) (a : A) :
  (forall a x, f a x = g a x) -> fold_left f l a = fold_left g l a.
Proof.
  intros H. revert a. induction l as [|x l IH]; intros a; simpl; [auto|].
  rewrite H. apply IH.
Qed.

Lemma Edge_getRoadLength_walk b player fuel : forall self visited,
  Edge_getRoadLength fuel b player self visited
  = walk (Edge_roadOwnedBy b player) (Vertex_blockedFor b player)
      (Edge_vertices b) (Vertex_edges b) fuel self visited.
Proof.
  induction fuel as [|fuel IH]; intros self visited; [reflexivity|].
  rewrite walk_S. cbn [Edge_getRoadLength].
  destruct (includes self visited); [reflexivity|].
  destruct (negb (Edge_roadOwnedBy b player self)); [reflexivity|].
  cbv zeta.
  match goal with
  | |- match ?X with _ => _ end = match ?Y with _ => _ end =>
      assert (X = Y) as ->; [|reflexivity]
  end.
  apply fold_left_ext_all. intros acc vertex. unfold visitVertex.
  destruct (Vertex_blockedFor b player vertex); [reflexivity|].
  apply fold_left_ext_all. intros acc' edge. unfold visitEdge.
  destruct acc' as [[m vis]|]; [|reflexivity].
  destruct (negb (bool_decide (edge = self)) && Edge_roadOwnedBy b player edge);
    [|reflexivity].
  rewrite IH. reflexivity.
Qed.

(** ** Road lengths: renaming the edges and vertices of a graph *)
Section Simulation.
Context {E1 V1 E2 V2 : Type} `{!EqDecision E1, !EqDecision E2}.
Variables (fE : E1 -> E2) (fV : V1 -> V2) (D : E1 -> Prop).
Variables (own1 : E1 -> bool) (blocked1 : V1 -> bool)
  (everts1 : E1 -> list V1) (vedges1 : V1 -> list E1).
Variables (own2 : E2 -> bool) (blocked2 : V2 -> bool)
  (everts2 : E2 -> list V2) (vedges2 : V2 -> list E2).
Hypothesis fE_inj : forall x y, fE x = fE y -> x = y.
Hypothesis D_closed :
  forall e v e', D e -> v ∈ everts1 e -> e' ∈ vedges1 v -> D e'.
Hypothesis Hown : forall e, D e -> own2 (fE e) = own1 e.
Hypothesis Hblocked :
  forall e v, D e -> v ∈ everts1 e -> blocked2 (fV v) = blocked1 v.
Hypothesis Heverts : forall e, D e -> everts2 (fE e) = map fV (everts1 e).
Hypothesis Hvedges :
  forall e v, D e -> v ∈ everts1 e -> vedges2 (fV v) = map fE (vedges1 v).
Local Abbreviation lift :=
  (option_map (fun r : nat * list E1 => (r.1, map fE r.2))).

Lemma includes_map e vis : includes (fE e) (map fE vis) = includes e vis.
Proof.
  unfold includes. induction vis as [|x vis IH]; [reflexivity|].
  simpl. rewrite IH. f_equal. apply bool_decide_ext.
  split; [apply fE_inj|congruence].
Qed.

Lemma visitEdge_sim rec1 rec2 self edge acc :
  (forall vis, rec2 (fE edge) (map fE vis) = lift (rec1 edge vis)) ->
  D edge ->
  visitEdge own2 rec2 (fE self) (lift acc) (fE edge)
  = lift (visitEdge own1 rec1 self acc edge).
Proof.
  intros Hrec HD. unfold visitEdge.
  destruct acc as [[m vis]|]; [|reflexivity]. cbn [option_map fst snd].
  rewrite (Hown _ HD).
  rewrite (bool_decide_ext (fE edge = fE self) (edge = self))
    by (split; [apply fE_inj|congruence]).
  destruct (negb (bool_decide (edge = self)) && own1 edge); [|reflexivity].
  rewrite Hrec. destruct (rec1 edge vis) as [[len vis']|]; reflexivity.
Qed.

Lemma fold_visitEdge_sim rec1 rec2 self (l : list E1) :
  (forall e vis, D e -> rec2 (fE e) (map fE vis) = lift (rec1 e vis)) ->
  Forall D l ->
  forall acc,
    fold_left (visitEdge own2 rec2 (fE self)) (map fE l) (lift acc)
    = lift (fold_left (visitEdge own1 rec1 self) l acc).
Proof.
  intros Hrec. induction l as [|e l IH]; intros Hall acc; [reflexivity|].
  apply Forall_cons in Hall as [He Hall]. cbn [map fold_left].
  rewrite (visitEdge_sim rec1 rec2 self e acc (fun vis => Hrec e vis He) He).
  apply IH. exact Hall.
Qed.

Lemma visitVertex_sim rec1 rec2 self v acc :
  (forall e vis, D e -> rec2 (fE e) (map fE vis) = lift (rec1 e vis)) ->
  D self -> v ∈ everts1 self ->
  visitVertex own2 blocked2 vedges2 rec2 (fE self) (lift acc) (fV v)
  = lift (visitVertex own1 blocked1 vedges1 rec1 self acc v).
Proof.
  intros Hrec HD Hv. unfold visitVertex.
  rewrite (Hblocked self v HD Hv). destruct (blocked1 v); [reflexivity|].
  rewrite (Hvedges self v HD Hv). apply fold_visitEdge_sim; [exact Hrec|].
  apply Forall_forall. intros e' He'. exact (D_closed self v e' HD Hv He').
Qed.

Lemma fold_visitVertex_sim rec1 rec2 self (l : list V1) :
  (forall e vis, D e -> rec2 (fE e) (map fE vis) = lift (rec1 e vis)) ->
  D self -> (forall v, v ∈ l -> v ∈ everts1 self) ->
  forall acc,
    fold_left (visitVertex own2 blocked2 vedges2 rec2 (fE self)) (map fV l)
      (lift acc)
    = lift (fold_left (visitVertex own1 blocked1 vedges1 rec1 self) l acc).
Proof.
  intros Hrec HD. induction l as [|v l IH]; intros Hl acc; [reflexivity|].
  cbn [map fold_left].
  rewrite (visitVertex_sim rec1 rec2 self v acc Hrec HD).
  - apply IH. intros v' Hv'. apply Hl. right. exact Hv'.
  - apply Hl. left.
Qed.

Lemma walk_sim fuel : forall self visited,
  D self ->
  walk own2 blocked2 everts2 vedges2 fuel (fE self) (map fE visited)
  = lift (walk own1 blocked1 everts1 vedges1 fuel self visited).
Proof.
  induction fuel as [|fuel IH]; intros self visited HD; [reflexivity|].
  rewrite !walk_S, includes_map.
  destruct (includes self visited); [reflexivity|].
  rewrite (Hown _ HD). destruct (negb (own1 self)); [reflexivity|].
  rewrite (Heverts _ HD).
  change (Some (0%nat, map fE visited ++ [fE self]))
    with (Some (0%nat, map fE visited ++ map fE [self])).
  rewrite <- map_app.
  change (Some (0%nat, map fE (visited ++ [self])))
    with (lift (Some (0%nat, visited ++ [self]))).
  rewrite (fold_visitVertex_sim
             (walk own1 blocked1 everts1 vedges1 fuel)
             (walk own2 blocked2 everts2 vedges2 fuel) self (everts1 self)
             (fun e vis He => IH e vis He) HD (fun v Hv => Hv)).
  destruct (fold_left _ _ _) as [[m vis']|]; reflexivity.
Qed.
End Simulation.

(** ** Road lengths: the six edges of one hex *)
Section HexWalk.
Implicit Types (b : Board.t) (k : HexKey) (j : nat) (player : PlayerRef).

Lemma allBits_spec n : forall l : list bool, length l = n -> In l (allBits n).
Proof.
  induction n as [|n IH]; intros [|x l] H; try discriminate.
  - left. reflexivity.
  - simpl. apply in_app_iff. injection H as H.
    destruct x; [right|left]; apply in_map; auto.
Qed.

(** Checked by running through the 64 x 64 states of a hex: a further
    road, on the edge [j0], never shortens the walk from an edge [j]
    ([j0 = 6] stands for a road laid elsewhere), and 7 units of fuel
    are enough. *)
Lemma hexWalk_monotone_true :
  forallb (fun own => forallb (fun bl => forallb (fun j0 => forallb (fun j =>
    match hexWalk 7 own bl j [], hexWalk 7 (<[j0:=true]> own) bl j [] with
    | Some (n, _), Some (n', _) => (n <=? n')%nat
    | _, _ => false
    end) (seq 0 6)) (seq 0 7)) (allBits 6)) (allBits 6) = true.
Proof. vm_compute. reflexivity. Qed.

Lemma in_seq_0 n j : (j < n)%nat -> In j (seq 0 n).
Proof. intros H. apply in_seq. lia. Qed.

Lemma hexWalk_mono (own bl : list bool) j0 j :
  length own = 6%nat -> length bl = 6%nat -> (j0 <= 6)%nat -> (j < 6)%nat ->
  exists n n' vis vis',
    hexWalk 7 own bl j [] = Some (n, vis)
    /\ hexWalk 7 (<[j0:=true]> own) bl j [] = Some (n', vis')
    /\ (n <= n')%nat.
Proof.
  intros Hown Hbl Hj0 Hj. pose proof hexWalk_monotone_true as H.
  rewrite forallb_forall in H. specialize (H own (allBits_spec 6 own Hown)).
  rewrite forallb_forall in H. specialize (H bl (allBits_spec 6 bl Hbl)).
  rewrite forallb_forall in H. specialize (H j0 (in_seq_0 7 j0 ltac:(lia))).
  rewrite forallb_forall in H. specialize (H j (in_seq_0 6 j Hj)).
  destruct (hexWalk 7 own bl j []) as [[n vis]|]; [|discriminate].
  destruct (hexWalk 7 (<[j0:=true]> own) bl j []) as [[n' vis']|];
    [|discriminate].
  exists n, n', vis, vis'. apply Nat.leb_le in H. auto.
Qed.

Lemma hexWalk_fuel fuel (own bl : list bool) j r :
  (7 <= fuel)%nat ->
  hexWalk 7 own bl j [] = Some r -> hexWalk fuel own bl j [] = Some r.
Proof. intros Hle. apply walk_fuel_le. exact Hle. Qed.

Lemma hexGraph_closed e v :
  (e < 6)%nat -> v ∈ hexEdgeVertices e ->
  (v < 6)%nat /\ forall e', e' ∈ hexVertexEdges v -> (e' < 6)%nat.
Proof.
  intros He Hv.
  do 6 (destruct e as [|e];
    [cbn in Hv; rewrite !elem_of_cons, elem_of_nil in Hv;
     destruct Hv as [->|[->|[->|[]]]];
     (split; [lia|]; intros e' He'; cbn in He';
      rewrite !elem_of_cons, elem_of_nil in He'; lia)|]).
  lia.
Qed.

(** The edges and vertices of a hex refer to each other by direction. *)
Lemma sample_topology_true :
  forallb (fun k : HexKey =>
    forallb (fun j =>
      bool_decide
        (Edge_vertices sampleBoard.1 (Board_getEdgeCoords k.1 k.2 j)
         = map (Board_getVertexCoords k.1 k.2) (hexEdgeVertices j))
      && bool_decide
           (Vertex_edges sampleBoard.1 (Board_getVertexCoords k.1 k.2 j)
            = map (Board_getEdgeCoords k.1 k.2) (hexVertexEdges j)))
      (seq 0 6)) hexLayout = true.
Proof. vm_compute. reflexivity. Qed.

Lemma StandardTopology_hex b k j :
  StandardTopology b -> k ∈ hexLayout -> (j < 6)%nat ->
  Edge_vertices b (Board_getEdgeCoords k.1 k.2 j)
    = map (Board_getVertexCoords k.1 k.2) (hexEdgeVertices j)
  /\ Vertex_edges b (Board_getVertexCoords k.1 k.2 j)
    = map (Board_getEdgeCoords k.1 k.2) (hexVertexEdges j).
Proof.
  intros [He Hv] Hk Hj. rewrite He, Hv. pose proof sample_topology_true as H.
  rewrite forallb_forall in H.
  specialize (H k (proj1 (list_elem_of_In _ _) Hk)).
  rewrite forallb_forall in H. specialize (H j (in_seq_0 6 j Hj)).
  apply andb_true_iff in H as [H1 H2].
  apply bool_decide_eq_true_1 in H1, H2. auto.
Qed.

Lemma nth_map_seq_6 (f : nat -> bool) j :
  (j < 6)%nat -> nth j (map f (seq 0 6)) false = f j.
Proof. intros H. do 6 (destruct j as [|j]; [reflexivity|]). lia. Qed.

(** The walk from an edge of the hex [k] is the walk on that hex. *)
Lemma Edge_getRoadLength_hexWalk b player k fuel j :
  StandardTopology b -> k ∈ hexLayout -> (j < 6)%nat ->
  Edge_getRoadLength fuel b player (Board_getEdgeCoords k.1 k.2 j) []
  = option_map (fun r => (r.1, map (Board_getEdgeCoords k.1 k.2) r.2))
      (hexWalk fuel
         (map (fun j => Edge_roadOwnedBy b player (Board_getEdgeCoords k.1 k.2 j))
            (seq 0 6))
         (map (fun i => Vertex_blockedFor b player (Board_getVertexCoords k.1 k.2 i))
            (seq 0 6))
         j []).
Proof.
  intros Htop Hk Hj. rewrite Edge_getRoadLength_walk. unfold hexWalk.
  refine (walk_sim (Board_getEdgeCoords k.1 k.2) (Board_getVertexCoords k.1 k.2)
            (fun j => (j < 6)%nat) _ _ _ _ _ _ _ _ _ _ _ _ _ _ fuel j [] Hj).
  - intros x y H. unfold Board_getEdgeCoords in H. injection H as H. lia.
  - intros e v e' He Hv He'. exact (proj2 (hexGraph_closed e v He Hv) e' He').
  - intros e He. rewrite nth_map_seq_6 by exact He. reflexivity.
  - intros e v He Hv. rewrite nth_map_seq_6; [reflexivity|].
    exact (proj1 (hexGraph_closed e v He Hv)).
  - intros e He. exact (proj1 (StandardTopology_hex b k e Htop Hk He)).
  - intros e v He Hv.
    exact (proj2 (StandardTopology_hex b k v Htop Hk
                    (proj1 (hexGraph_closed e v He Hv)))).
Qed.
End HexWalk.

(** ** Road lengths: one more road on the board *)
Lemma sample_edges_standard_true :
  forallb isStandardEdge (JSMap.keys (Board.edges sampleBoard.1)) = true.
Proof. vm_compute. reflexivity. Qed.

Lemma isStandardEdge_false_vertices b e :
  StandardTopology b -> isStandardEdge e = false -> Edge_vertices b e = [].
Proof.
  intros [He _] Hstd. rewrite He. unfold Edge_vertices.
  destruct (JSMap.get e (Board.edges sampleBoard.1)) as [ed|] eqn:Hget;
    [|reflexivity].
  exfalso. apply JSMap_get_Some_In in Hget.
  pose proof sample_edges_standard_true as H. rewrite forallb_forall in H.
  rewrite (H e) in Hstd; [discriminate|].
  apply (in_map fst _ (e, ed)). apply list_elem_of_In. exact Hget.
Qed.

Lemma isStandardEdge_true e :
  isStandardEdge e = true ->
  exists k j, k ∈ hexLayout /\ (j < 6)%nat /\ e = Board_getEdgeCoords k.1 k.2 j.
Proof.
  destruct e as [[q r] d]. unfold isStandardEdge. cbn [fst snd].
  rewrite !andb_true_iff, memHex_elem_of, Z.leb_le, Z.ltb_lt.
  intros [[Hk H0] H6]. exists (q, r), (Z.to_nat d).
  split; [exact Hk|]. split; [lia|].
  unfold Board_getEdgeCoords. cbn [fst snd]. rewrite Z2Nat.id by lia.
  reflexivity.
Qed.

Lemma Edge_getRoadLength_isolated b player fuel e :
  Edge_vertices b e = [] -> (1 <= fuel)%nat ->
  Edge_getRoadLength fuel b player e []
  = if Edge_roadOwnedBy b player e then Some (1%nat, [e]) else Some (0%nat, []).
Proof.
  intros Hnil Hfuel. destruct fuel as [|fuel]; [lia|].
  cbn [Edge_getRoadLength includes existsb].
  destruct (Edge_roadOwnedBy b player e); cbn [negb]; [|reflexivity].
  rewrite Hnil. reflexivity.
Qed.

Lemma map_seq_insert (f f' : nat -> bool) j0 :
  (forall j, (j < 6)%nat -> f' j = if bool_decide (j = j0) then true else f j) ->
  map f' (seq 0 6) = <[j0:=true]> (map f (seq 0 6)).
Proof.
  intros H. cbn [map seq]. rewrite !H by lia.
  do 6 (destruct j0 as [|j0]; [reflexivity|]). reflexivity.
Qed.

Section RoadBoards.
Variables (b b' : Board.t) (player : PlayerRef) (e0 : EdgeKey).
Hypothesis Htop : StandardTopology b.
Hypothesis Htop' : StandardTopology b'.
Hypothesis Hblocked :
  forall v, Vertex_blockedFor b' player v = Vertex_blockedFor b player v.
Hypothesis Hother :
  forall x, x <> e0 -> Edge_roadOwnedBy b' player x = Edge_roadOwnedBy b player x.
Hypothesis Hat :
  Edge_roadOwnedBy b' player e0 = true
  \/ Edge_roadOwnedBy b' player e0 = Edge_roadOwnedBy b player e0.

(** Seen from the hex [k], [b'] is [b] with one more road on the edge
    [j0], or [b] itself ([j0 = 6]). *)
Lemma ownBits_insert k :
  exists j0,
    (j0 <= 6)%nat
    /\ ((j0 < 6)%nat -> e0 = Board_getEdgeCoords k.1 k.2 j0)
    /\ map (fun j => Edge_roadOwnedBy b' player (Board_getEdgeCoords k.1 k.2 j))
         (seq 0 6)
       = <[j0:=true]>
           (map (fun j => Edge_roadOwnedBy b player (Board_getEdgeCoords k.1 k.2 j))
              (seq 0 6)).
Proof.
  assert (forall x y : nat,
            Board_getEdgeCoords k.1 k.2 x = Board_getEdgeCoords k.1 k.2 y ->
            x = y) as Hinj.
  { intros x y H. unfold Board_getEdgeCoords in H. injection H as H. lia. }
  destruct (decide (Exists (fun j0 => e0 = Board_getEdgeCoords k.1 k.2 j0
                                      /\ Edge_roadOwnedBy b' player e0 = true)
                      (seq 0 6)))
    as [Hyes|Hno].
  - apply Exists_exists in Hyes as (j0 & Hj0 & He0 & Htrue).
    apply elem_of_seq in Hj0.
    exists j0. split; [lia|]. split; [auto|].
    apply map_seq_insert. intros j Hj. case_bool_decide as E.
    + subst j. rewrite <- He0. exact Htrue.
    + apply Hother. rewrite He0. intros H. apply Hinj in H. contradiction.
  - exists 6%nat. split; [lia|]. split; [lia|].
    apply map_seq_insert. intros j Hj.
    rewrite bool_decide_eq_false_2 by lia.
    destruct (decide (Board_getEdgeCoords k.1 k.2 j = e0)) as [E|E];
      [|apply Hother; exact E].
    rewrite E. destruct Hat as [Htrue|Hsame]; [|exact Hsame].
    exfalso. apply Hno. apply Exists_exists. exists j.
    split; [apply elem_of_seq; lia|auto].
Qed.

Lemma blockedBits_same k :
  map (fun i => Vertex_blockedFor b' player (Board_getVertexCoords k.1 k.2 i))
    (seq 0 6)
  = map (fun i => Vertex_blockedFor b player (Board_getVertexCoords k.1 k.2 i))
      (seq 0 6).
Proof. apply map_ext. intros i. apply Hblocked. Qed.

Lemma own_monotone e :
  Edge_roadOwnedBy b player e = true -> Edge_roadOwnedBy b' player e = true.
Proof.
  intros H. destruct (decide (e = e0)) as [->|Hne].
  - destruct Hat as [Ht|Hs]; congruence.
  - rewrite Hother by exact Hne. exact H.
Qed.

(** With enough fuel the walk ends, and one more road does not shorten
    it. *)
Lemma Edge_getRoadLength_mono fuel e :
  (7 <= fuel)%nat ->
  exists n n' vis vis',
    Edge_getRoadLength fuel b player e [] = Some (n, vis)
    /\ Edge_getRoadLength fuel b' player e [] = Some (n', vis')
    /\ (n <= n')%nat.
Proof.
  intros Hfuel. destruct (isStandardEdge e) eqn:Hstd.
  - destruct (isStandardEdge_true e Hstd) as (k & j & Hk & Hj & ->).
    rewrite !Edge_getRoadLength_hexWalk by assumption.
    rewrite blockedBits_same.
    destruct (ownBits_insert k) as (j0 & Hj0 & _ & ->).
    destruct (hexWalk_mono
                (map (fun j => Edge_roadOwnedBy b player
                                 (Board_getEdgeCoords k.1 k.2 j)) (seq 0 6))
                (map (fun i => Vertex_blockedFor b player
                                 (Board_getVertexCoords k.1 k.2 i)) (seq 0 6))
                j0 j eq_refl eq_refl Hj0 Hj)
      as (n & n' & vis & vis' & H1 & H2 & Hle).
    rewrite (hexWalk_fuel fuel _ _ _ _ Hfuel H1).
    rewrite (hexWalk_fuel fuel _ _ _ _ Hfuel H2).
    cbn [option_map fst snd]. eauto 10.
  - rewrite !Edge_getRoadLength_isolated
      by (try apply isStandardEdge_false_vertices; auto; lia).
    destruct (Edge_roadOwnedBy b player e) eqn:Hown.
    + rewrite (own_monotone e Hown). eauto 10.
    + destruct (Edge_roadOwnedBy b' player e); eexists _, _, _, _;
        split_and!; try reflexivity; lia.
Qed.

End RoadBoards.

(** ** Road lengths: building a road *)
Section BuildRoad.
Implicit Types (b : Board.t) (p : Player.t) (e : EdgeKey) (player : PlayerRef).

Lemma Edge_roadOwnedBy_setRoad b e0 rd player x :
  Edge_roadOwnedBy (Board_setRoad e0 (Some rd) b) player x
  = if decide (e0 = x) then
      match JSMap.get x (Board.edges b) with
      | Some _ => bool_decide (Road.owner rd = player)
      | None => false
      end
    else Edge_roadOwnedBy b player x.
Proof.
  unfold Edge_roadOwnedBy, Board_setRoad. cbn [Board.edges Board.set_edges].
  rewrite JSMap_get_modify.
  destruct (decide (e0 = x)) as [->|Hne];
    destruct (JSMap.get x (Board.edges b)); reflexivity.
Qed.

Lemma Edge_vertices_setRoad b e0 road x :
  Edge_vertices (Board_setRoad e0 road b) x = Edge_vertices b x.
Proof.
  unfold Edge_vertices, Board_setRoad. cbn [Board.edges Board.set_edges].
  rewrite JSMap_get_modify.
  destruct (decide (e0 = x)) as [->|Hne];
    destruct (JSMap.get x (Board.edges b)); reflexivity.
Qed.

Lemma StandardTopology_setRoad b e0 road :
  StandardTopology b -> StandardTopology (Board_setRoad e0 road b).
Proof.
  intros [He Hv]. split.
  - intros x. rewrite Edge_vertices_setRoad. apply He.
  - exact Hv.
Qed.

(** The topology of a board can be read off its lists of edges and
    vertices. *)
Lemma StandardTopology_of_lists b :
  map (fun ke => (ke.1, Edge.vertices ke.2)) (Board.edges b)
    = map (fun ke => (ke.1, Edge.vertices ke.2)) (Board.edges sampleBoard.1) ->
  map (fun kv => (kv.1, Vertex.edges kv.2)) (Board.vertices b)
    = map (fun kv => (kv.1, Vertex.edges kv.2)) (Board.vertices sampleBoard.1) ->
  StandardTopology b.
Proof.
  intros He Hv. split.
  - intros e. apply (JSMap_get_map_values Edge.vertices e) in He.
    unfold Edge_vertices.
    destruct (JSMap.get e (Board.edges b)),
             (JSMap.get e (Board.edges sampleBoard.1));
      cbn [option_map] in He; congruence.
  - intros v. apply (JSMap_get_map_values Vertex.edges v) in Hv.
    unfold Vertex_edges.
    destruct (JSMap.get v (Board.vertices b)),
             (JSMap.get v (Board.vertices sampleBoard.1));
      cbn [option_map] in Hv; congruence.
Qed.

(** Every generated board has the standard topology. *)
Lemma StandardTopology_generated b G :
  StandardTopology (Board_generateStandardBoard b G).1.
Proof.
  destruct (Board_generateStandardBoard_topology b G) as [Hv He].
  apply StandardTopology_of_lists; [rewrite He|rewrite Hv]; reflexivity.
Qed.

(** Buildings do not change the topology either. *)
Lemma StandardTopology_set_building b vertex bd :
  StandardTopology b ->
  StandardTopology
    (Board.set_vertices
       (JSMap.modify vertex (Vertex.set_building bd) (Board.vertices b)) b).
Proof.
  intros [He Hv]. split; [exact He|].
  intros v. rewrite <- Hv. unfold Vertex_edges.
  cbn [Board.vertices Board.set_vertices]. rewrite JSMap_get_modify.
  destruct (decide (vertex = v)) as [->|Hne];
    destruct (JSMap.get v (Board.vertices b)); reflexivity.
Qed.

Lemma StandardTopology_placeSettlement settlement vertex b :
  StandardTopology b ->
  StandardTopology (Vertex_placeSettlement settlement vertex b).2.
Proof.
  intros Htop. unfold Vertex_placeSettlement.
  destruct (JSMap.get vertex (Board.vertices b)) as [v|]; [|exact Htop].
  destruct (Vertex_canPlaceSettlement b v); [|exact Htop].
  apply StandardTopology_set_building. exact Htop.
Qed.

Lemma StandardTopology_upgradeToCity city vertex b :
  StandardTopology b ->
  StandardTopology (Vertex_upgradeToCity city vertex b).2.
Proof.
  intros Htop. unfold Vertex_upgradeToCity.
  destruct (JSMap.get vertex (Board.vertices b)) as [v|]; [|exact Htop].
  destruct (Vertex_canPlaceCity (City.owner city) v); [|exact Htop].
  destruct (Vertex.building v) as [[s|c]|]; try exact Htop.
  apply StandardTopology_set_building. exact Htop.
Qed.

Lemma fold_removeResources_roads (cost : list (string * Z)) : forall p,
  Player.roads
    (fold_left (fun p '(resource, amount) =>
       (Player_removeResources resource amount p).2) cost p)
  = Player.roads p.
Proof.
  induction cost as [|[r a] cost IH]; intros p; [reflexivity|].
  cbn [fold_left]. rewrite IH. unfold Player_removeResources.
  destruct (JSMap.get r (Player.resources p)); reflexivity.
Qed.

Lemma Player_payFor_roads t p :
  Player.roads (Player_payFor t p).2 = Player.roads p.
Proof.
  unfold Player_payFor, Player_payFor_original.
  destruct (Player.payForOverridden p); [reflexivity|].
  destruct (negb (Player_canAfford t p)); [reflexivity|].
  destruct (costs t); [|reflexivity]. apply fold_removeResources_roads.
Qed.

(** What a successful [buildRoad] does to the board and to the list of
    roads of the player. *)
Lemma Player_buildRoad_Some e p b G road p' b' G' :
  Player_buildRoad e p b G = (Some road, p', b', G') ->
  exists ed,
    JSMap.get e (Board.edges b) = Some ed
    /\ Edge.road ed = None
    /\ b' = Board_setRoad e (Some road) b
    /\ Player.roads p' = Player.roads p ++ [road]
    /\ Road.owner road = Player.id p
    /\ Road.edge road = Some e.
Proof.
  unfold Player_buildRoad, Road_new, freshPieceId, Road_placeOn, Edge_placeRoad.
  destruct (negb (Player_canAfford "road" p) || (Player.roadsRemaining p <=? 0));
    [discriminate|].
  destruct (JSMap.get e (Board.edges b)) as [ed|]; [|discriminate].
  cbn [Road.owner].
  destruct (Edge_canPlaceRoad b (Player.id p) ed) eqn:Hcan; [|discriminate].
  intros [= <- <- <- <-]. exists ed. split; [reflexivity|].
  split.
  { unfold Edge_canPlaceRoad in Hcan. destruct (Edge.road ed); congruence. }
  split; [reflexivity|].
  split; [|split; reflexivity].
  cbn [Player.roads Player.set_roads]. rewrite Player_payFor_roads. reflexivity.
Qed.

Lemma longest_fold_mono fuel b b' (roads : list Road.t) :
  (forall r, exists n n',
     Road_getRoadNetworkLength fuel b r = Some n
     /\ Road_getRoadNetworkLength fuel b' r = Some n' /\ (n <= n')%nat) ->
  forall m m', (m <= m')%nat ->
  exists M M',
    fold_left (fun acc road =>
      match acc, Road_getRoadNetworkLength fuel b road with
      | Some maxLength, Some len => Some (Nat.max maxLength len)
      | _, _ => None
      end) roads (Some m) = Some M
    /\ fold_left (fun acc road =>
         match acc, Road_getRoadNetworkLength fuel b' road with
         | Some maxLength, Some len => Some (Nat.max maxLength len)
         | _, _ => None
         end) roads (Some m') = Some M'
    /\ (M <= M')%nat.
Proof.
  intros Hroad. induction roads as [|r roads IH]; intros m m' Hle.
  - exists m, m'. auto.
  - cbn [fold_left]. destruct (Hroad r) as (n & n' & -> & -> & Hn).
    apply IH. lia.
Qed.
End BuildRoad.

(** C9.  On a board with the standard topology (every generated board has
    it, and [buildRoad] keeps it), with enough fuel for the walk to end, a
    successful [buildRoad] never decreases what [getLongestRoadLength]
    returns for the player who builds.  But a road between two corners that
    hold buildings of an opponent does extend a path: the code lists three
    vertices for every edge and walks on through any of them that is not
    blocked.  The edge 0 of the centre hex lists the corners 0, 1 and 5 of
    that hex; whichever two of them are taken for its ends, there is a state
    in which the other player holds both, player 1 has one road (on an edge
    next to it), [buildRoad] on the edge succeeds and the longest road of
    player 1 grows from 1 to 2. *)
Theorem road_between_blocked_corners_extends :
  (forall (b : Board.t) (fuel : nat),
     StandardTopology b ->
     (7 <= fuel)%nat ->
     forall e p G road p' b' G',
       Player_buildRoad e p b G = (Some road, p', b', G') ->
       StandardTopology b'
       /\ exists n n',
            Player_getLongestRoadLength fuel b p = Some n
            /\ Player_getLongestRoadLength fuel b' p' = Some n'
            /\ (n <= n')%nat)
  /\ (forall b G,
        Edge_vertices (Board_generateStandardBoard b G).1
          (Board_getEdgeCoords 0 0 0)
        = [Board_getVertexCoords 0 0 0; Board_getVertexCoords 0 0 1;
           Board_getVertexCoords 0 0 5])
  /\ (Board_getVertexCoords 0 0 0, Board_getVertexCoords 0 0 1,
      Board_getVertexCoords 0 0 5)
     = ((1, -1, 4), (1, 0, 5), (0, -1, 3))
  /\ blockedEndsReport (0, -1, 3) (0, 0, 5) (1, -1, 4) (1, 0, 5)
     = ([true; true], Some 1%nat, true, Some 2%nat, Some 2%nat)
  /\ blockedEndsReport (1, 0, 5) (0, 0, 1) (0, -1, 3) (1, -1, 4)
     = ([true; true], Some 1%nat, true, Some 2%nat, Some 2%nat)
  /\ blockedEndsReport (1, -1, 4) (0, 0, 5) (0, -1, 3) (1, 0, 5)
     = ([true; true], Some 1%nat, true, Some 2%nat, Some 2%nat).
Proof.
  split.
  - intros b fuel Htop Hfuel e p G road p' b' G' Hbuild.
    destruct (Player_buildRoad_Some _ _ _ _ _ _ _ _ Hbuild)
      as (ed & Hget & Hnone & -> & Hroads & Howner & Hedge).
    pose proof (StandardTopology_setRoad b e (Some road) Htop) as Htop'.
    split; [exact Htop'|].
    assert (forall player x, exists n n' vis vis',
              Edge_getRoadLength fuel b player x [] = Some (n, vis)
              /\ Edge_getRoadLength fuel (Board_setRoad e (Some road) b)
                   player x [] = Some (n', vis')
              /\ (n <= n')%nat) as Hmono.
    { intros player x.
      apply (Edge_getRoadLength_mono b (Board_setRoad e (Some road) b)
               player e Htop Htop'); [| | |exact Hfuel].
      - intros v. reflexivity.
      - intros y Hne. rewrite Edge_roadOwnedBy_setRoad.
        rewrite decide_False by congruence. reflexivity.
      - rewrite Edge_roadOwnedBy_setRoad, decide_True by reflexivity.
        rewrite Hget. destruct (bool_decide (Road.owner road = player));
          [left; reflexivity|right].
        unfold Edge_roadOwnedBy. rewrite Hget, Hnone. reflexivity. }
    assert (forall r, exists n n',
              Road_getRoadNetworkLength fuel b r = Some n
              /\ Road_getRoadNetworkLength fuel (Board_setRoad e (Some road) b) r
                 = Some n'
              /\ (n <= n')%nat) as Hroad.
    { intros r. unfold Road_getRoadNetworkLength.
      destruct (Road.edge r) as [x|]; [|exists 0%nat, 0%nat; auto].
      destruct (Hmono (Road.owner r) x) as (n & n' & vis & vis' & -> & -> & Hle).
      eauto. }
    unfold Player_getLongestRoadLength. rewrite Hroads, fold_left_app.
    destruct (longest_fold_mono fuel b (Board_setRoad e (Some road) b)
                (Player.roads p) Hroad 0%nat 0%nat (le_n 0))
      as (M & M' & HM & HM' & Hle).
    rewrite HM, HM'. cbn [fold_left].
    destruct (Hroad road) as (n & n' & _ & -> & _).
    exists M, (Nat.max M' n'). split_and!; auto. lia.
  - split.
    { intros b G. unfold Edge_vertices.
      rewrite (proj2 (Board_generateStandardBoard_topology b G)).
      vm_compute. reflexivity. }
    split_and!; vm_compute; reflexivity.
Qed.

(** * Further properties of the code *)

(** ** Distances between hexes *)

(** For hexes with coordinates of at most [2 ^ 50] in absolute value, for
    which every number that [distanceTo] computes is an integer of at most
    [2 ^ 53] and so exact in JavaScript: [distanceTo] divides an even number,
    so that its result is the integer the JavaScript division gives; it is
    symmetric, it is zero exactly between hexes with the same coordinates,
    and it satisfies the triangle inequality. *)
Theorem distanceTo_is_a_metric (a b c : Hex.t) :
  Hex_inRange a -> Hex_inRange b -> Hex_inRange c ->
  2 * Hex_distanceTo a b
    = Z.abs (Hex.q a - Hex.q b)
      + Z.abs (Hex.q a + Hex.r a - Hex.q b - Hex.r b)
      + Z.abs (Hex.r a - Hex.r b)
  /\ Z.abs (Hex.q a - Hex.q b) <= 2 ^ 51
  /\ Z.abs (Hex.q a + Hex.r a) <= 2 ^ 51
  /\ Z.abs (Hex.q a + Hex.r a - Hex.q b) <= 2 ^ 52
  /\ Z.abs (Hex.q a + Hex.r a - Hex.q b - Hex.r b) <= 2 ^ 52
  /\ Z.abs (Hex.r a - Hex.r b) <= 2 ^ 51
  /\ 2 * Hex_distanceTo a b <= 2 ^ 53
  /\ Hex_distanceTo a b = Hex_distanceTo b a
  /\ (Hex_distanceTo a b = 0 <-> Hex.q a = Hex.q b /\ Hex.r a = Hex.r b)
  /\ Hex_distanceTo a c <= Hex_distanceTo a b + Hex_distanceTo b c.
Proof.
  unfold Hex_distanceTo, Hex_inRange.
  generalize (Hex.q a) (Hex.r a) (Hex.q b) (Hex.r b) (Hex.q c) (Hex.r c).
  intros qa ra qb rb qc rc [Ha1 Ha2] [Hb1 Hb2] _.
  split; [Z.div_mod_to_equations; lia|].
  do 5 (split; [lia|]).
  split; [Z.div_mod_to_equations; lia|].
  clear Ha1 Ha2 Hb1 Hb2.
  split_and!; Z.div_mod_to_equations; lia.
Qed.

Lemma distanceTo_is_a_metric_witness :
  Hex_inRange (Hex_new 0 0 desert)
  /\ Hex_inRange (Hex_new 1 (-1) hills)
  /\ Hex_inRange (Hex_new 2 (-1) mountains)
  /\ Hex_distanceTo (Hex_new 0 0 desert) (Hex_new 1 (-1) hills)
     = Hex_distanceTo (Hex_new 1 (-1) hills) (Hex_new 0 0 desert)
  /\ Hex_distanceTo (Hex_new 0 0 desert) (Hex_new 2 (-1) mountains)
     <= Hex_distanceTo (Hex_new 0 0 desert) (Hex_new 1 (-1) hills)
        + Hex_distanceTo (Hex_new 1 (-1) hills) (Hex_new 2 (-1) mountains).
Proof.
  assert (forall q r t, Z.abs q <= 2 -> Z.abs r <= 2 -> Hex_inRange (Hex_new q r t))
    as Hin.
  { intros q r t Hq Hr. unfold Hex_inRange, Hex_new. cbn [Hex.q Hex.r].
    lia. }
  pose proof (Hin 0 0 desert ltac:(lia) ltac:(lia)) as Ha.
  pose proof (Hin 1 (-1) hills ltac:(lia) ltac:(lia)) as Hb.
  pose proof (Hin 2 (-1) mountains ltac:(lia) ltac:(lia)) as Hc.
  destruct (distanceTo_is_a_metric _ _ _ Ha Hb Hc)
    as (_ & _ & _ & _ & _ & _ & _ & Hsym & _ & Htri).
  split; [exact Ha|]. split; [exact Hb|]. split; [exact Hc|].
  split; [exact Hsym|exact Htri].
Defined.

(** The hexes of a board are stored under their own coordinates. *)
Section HexCoords.
Implicit Types (b : Board.t) (k : HexKey).

Lemma createHexes_coords ts rob bt :
  length ts = 19%nat ->
  Forall (fun kh : HexKey * Hex.t => Hex.q kh.2 = kh.1.1 /\ Hex.r kh.2 = kh.1.2)
    (Board.hexes
       (Board_buildRelationships
          (createHexes ts (Board.mk [] [] [] [] rob false bt)))).
Proof.
  intros H. apply list_of_length_19 in H.
  destruct H as (t0 & t1 & t2 & t3 & t4 & t5 & t6 & t7 & t8 & t9 & t10 & t11
                 & t12 & t13 & t14 & t15 & t16 & t17 & t18 & ->).
  vm_compute. repeat constructor.
Qed.

Lemma JSMap_modify_coords (f : Hex.t -> Hex.t) k0 (m : list (HexKey * Hex.t)) :
  (forall h, Hex.q (f h) = Hex.q h /\ Hex.r (f h) = Hex.r h) ->
  (forall k h, JSMap.get k m = Some h -> Hex.q h = k.1 /\ Hex.r h = k.2) ->
  forall k h, JSMap.get k (JSMap.modify k0 f m) = Some h ->
              Hex.q h = k.1 /\ Hex.r h = k.2.
Proof.
  intros Hf Hm k h. rewrite JSMap_get_modify.
  destruct (JSMap.get k m) as [h0|] eqn:Hget; [|discriminate].
  destruct (Hm k h0 Hget) as [Hq Hr].
  destruct (decide (k0 = k)); cbn [option_map]; intros [= <-]; auto.
  destruct (Hf h0) as [-> ->]. auto.
Qed.

Lemma Board_generateStandardBoard_coords b G k h :
  JSMap.get k (Board.hexes (Board_generateStandardBoard b G).1) = Some h ->
  Hex.q h = k.1 /\ Hex.r h = k.2.
Proof.
  destruct (Board_generateStandardBoard_stages b G)
    as (ts & rob & bt & G1 & b3 & G3 & _ & Hperm & Htok & ->).
  pose proof (createHexes_coords ts rob bt (Permutation_length Hperm)) as Hc.
  pose proof (Board_placeNumberTokens_erase
                (Board_buildRelationships
                   (createHexes ts (Board.mk [] [] [] [] rob false bt))) G1)
    as Her.
  rewrite Htok in Her. cbn [fst] in Her.
  revert Hc Her.
  generalize (Board_buildRelationships
                (createHexes ts (Board.mk [] [] [] [] rob false bt))).
  intros b2 Hc Her. clear Htok. cbn [fst Board.hexes].
  assert (forall k h, JSMap.get k (Board.hexes b3) = Some h ->
                      Hex.q h = k.1 /\ Hex.r h = k.2) as H3.
  { intros k' h' Hget. apply (Board_erase_hexes_get _ _ k') in Her.
    rewrite Hget in Her. cbn [Board.hexes Board.set_numberTokens] in Her.
    destruct (JSMap.get k' (Board.hexes b2)) as [h2|] eqn:Hget2; [|discriminate].
    apply JSMap_get_Some_In in Hget2.
    rewrite Forall_forall in Hc. destruct (Hc _ Hget2) as [Hq Hr].
    cbn [option_map] in Her.
    assert (Hex.set_numberToken None h' = Hex.set_numberToken None h2) as E
      by congruence.
    pose proof (f_equal Hex.q E) as Eq. pose proof (f_equal Hex.r E) as Er.
    cbn in Eq, Er, Hq, Hr. split; congruence. }
  revert k h. unfold Board_placeRobberOnDesert.
  destruct (find _ _) as [d|]; [|exact H3].
  unfold Robber_moveTo. cbn [Board.hexes Board.set_robber Board.set_hexes].
  apply JSMap_modify_coords; [intros h; split; reflexivity|].
  destruct (Robber.hex (Board.robber b3)) as [old|]; [|exact H3].
  apply JSMap_modify_coords; [intros h; split; reflexivity|exact H3].
Qed.
End HexCoords.

(** Checked by running through the pairs of hexes of the layout. *)
Lemma stdNeighbors_distance_true :
  forallb (fun k : HexKey => forallb (fun n : HexKey =>
    bool_decide
      (memHex n (stdNeighbors k)
       = (Hex_distanceTo (Hex_new k.1 k.2 desert) (Hex_new n.1 n.2 desert) =? 1)))
    hexLayout) hexLayout = true.
Proof. vm_compute. reflexivity. Qed.

(** On a generated board the neighbours of a hex, as
    [linkHexRelationships] records them, are exactly the hexes of the board
    at distance 1. *)
Theorem neighbors_are_the_hexes_at_distance_one (b : Board.t) (G : Globals)
    (k n : HexKey) (hk hn : Hex.t) :
  JSMap.get k (Board.hexes (Board_generateStandardBoard b G).1) = Some hk ->
  JSMap.get n (Board.hexes (Board_generateStandardBoard b G).1) = Some hn ->
  (n ∈ Hex.neighbors hk <-> Hex_distanceTo hk hn = 1).
Proof.
  intros Hk Hn.
  destruct (Board_generateStandardBoard_coords b G k hk Hk) as [Hkq Hkr].
  destruct (Board_generateStandardBoard_coords b G n hn Hn) as [Hnq Hnr].
  destruct (Board_generateStandardBoard_StandardBoard b G) as (d & R & S).
  revert S Hk Hn. generalize (Board_generateStandardBoard b G).1. intros B S Hk Hn.
  assert (forall x hx, JSMap.get x (Board.hexes B) = Some hx -> x ∈ hexLayout)
    as Hin.
  { intros x hx Hx. rewrite <- (sb_keys _ _ _ S).
    apply JSMap_get_Some_In in Hx.
    apply list_elem_of_In, (in_map fst _ (x, hx)), list_elem_of_In. exact Hx. }
  pose proof (sb_neighbors _ _ _ S k (Hin k hk Hk)) as Hnb.
  unfold Hex_neighbors in Hnb. rewrite Hk in Hnb. rewrite Hnb.
  pose proof stdNeighbors_distance_true as H.
  rewrite forallb_forall in H.
  specialize (H k (proj1 (list_elem_of_In _ _) (Hin k hk Hk))).
  rewrite forallb_forall in H.
  specialize (H n (proj1 (list_elem_of_In _ _) (Hin n hn Hn))).
  apply bool_decide_eq_true_1 in H.
  rewrite <- memHex_elem_of, H, Z.eqb_eq.
  unfold Hex_distanceTo, Hex_new. cbn [Hex.q Hex.r].
  rewrite Hkq, Hkr, Hnq, Hnr. reflexivity.
Qed.

Lemma neighbors_are_the_hexes_at_distance_one_witness :
  exists hk hn,
    JSMap.get (0, 0)
      (Board.hexes
         (Board_generateStandardBoard (Board_new sampleGlobals).1
            sampleGlobals).1) = Some hk
    /\ JSMap.get (1, 0)
         (Board.hexes
            (Board_generateStandardBoard (Board_new sampleGlobals).1
               sampleGlobals).1) = Some hn
    /\ ((1, 0) ∈ Hex.neighbors hk <-> Hex_distanceTo hk hn = 1).
Proof.
  destruct (JSMap.get (0, 0)
              (Board.hexes
                 (Board_generateStandardBoard (Board_new sampleGlobals).1
                    sampleGlobals).1)) as [hk|] eqn:Hk;
    [|vm_compute in Hk; discriminate].
  destruct (JSMap.get (1, 0)
              (Board.hexes
                 (Board_generateStandardBoard (Board_new sampleGlobals).1
                    sampleGlobals).1)) as [hn|] eqn:Hn;
    [|vm_compute in Hn; discriminate].
  exists hk, hn. split; [reflexivity|]. split; [reflexivity|].
  exact (neighbors_are_the_hexes_at_distance_one _ _ _ _ _ _ Hk Hn).
Defined.

(** ** Number tokens *)

Lemma NumberToken_calculateProbability_outside v :
  v < 2 \/ 12 < v -> NumberToken_calculateProbability v = 0.
Proof.
  intros H. destruct v as [|p|p]; try reflexivity.
  do 4 (destruct p as [p|p|]; try reflexivity; try lia).
Qed.

Lemma filter_nil_all {A} (f : A -> bool) (l : list A) :
  (forall x, In x l -> f x = false) -> List.filter f l = [].
Proof.
  induction l as [|x l IH]; intros H; [reflexivity|].
  simpl. rewrite (H x) by (left; reflexivity). apply IH.
  intros y Hy. apply H. right. exact Hy.
Qed.

Lemma diceWays_outside v : v < 2 \/ 12 < v -> diceWays v = 0.
Proof.
  intros H. unfold diceWays. rewrite filter_nil_all; [reflexivity|].
  intros [d1 d2] Hin. apply in_prod_iff in Hin as [H1 H2].
  cbn [fst snd]. apply Z.eqb_neq. simpl in H1, H2. lia.
Qed.

(** The table of [calculateProbability] is the number of ways of rolling
    the value with two dice, for every integer; in particular it is 0
    outside of 2..12. *)
Theorem calculateProbability_counts_dice_rolls (v : Z) :
  NumberToken_calculateProbability v = diceWays v.
Proof.
  destruct (decide (v < 2 \/ 12 < v)) as [Hout|Hin].
  - rewrite NumberToken_calculateProbability_outside, diceWays_outside; auto.
  - assert (v = 2 \/ v = 3 \/ v = 4 \/ v = 5 \/ v = 6 \/ v = 7 \/ v = 8
            \/ v = 9 \/ v = 10 \/ v = 11 \/ v = 12) as H by lia.
    repeat (destruct H as [->|H]; [vm_compute; reflexivity|]).
    subst v. vm_compute. reflexivity.
Qed.

(** A token built by [new NumberToken(value)] is high-probability (red)
    exactly when its value is one of the likeliest sums but 7, those rolled
    in 5 ways, and low-probability exactly when its value is rolled in one
    way only. *)
Theorem token_classes_follow_probability (value : Z) :
  (NumberToken_isHighProbability (NumberToken_new value) = true
   <-> NumberToken.probability (NumberToken_new value) = 5)
  /\ (NumberToken_getColor (NumberToken_new value) = "red"%string
      <-> NumberToken.probability (NumberToken_new value) = 5)
  /\ (NumberToken_isLowProbability (NumberToken_new value) = true
      <-> NumberToken.probability (NumberToken_new value) = 1)
  /\ (value <> 7 -> NumberToken.probability (NumberToken_new value) <= 5).
Proof.
  unfold NumberToken_getColor, NumberToken_isHighProbability,
    NumberToken_isLowProbability, NumberToken_new.
  cbn [NumberToken.value NumberToken.probability].
  destruct (decide (value < 2 \/ 12 < value)) as [Hout|Hin].
  - rewrite NumberToken_calculateProbability_outside by exact Hout.
    rewrite !bool_decide_eq_false_2 by lia. cbn.
    split_and!; try (split; [discriminate|lia]); lia.
  - assert (value = 2 \/ value = 3 \/ value = 4 \/ value = 5 \/ value = 6
            \/ value = 7 \/ value = 8 \/ value = 9 \/ value = 10
            \/ value = 11 \/ value = 12) as H by lia.
    repeat (destruct H as [->|H];
      [cbn; split_and!; try (split; [discriminate|lia]);
       try (split; reflexivity); lia|]).
    subst value. cbn. split_and!; try (split; [discriminate|lia]);
      try (split; reflexivity); lia.
Qed.

(** ** Shuffling *)

Lemma shuffleLoop_globals {A} (i : nat) : forall (l : list A) (G : Globals),
  GamePiece_nextId (shuffleLoop i l G).2 = GamePiece_nextId G
  /\ Player_nextId (shuffleLoop i l G).2 = Player_nextId G
  /\ Math_random (shuffleLoop i l G).2 = drop i (Math_random G).
Proof.
  induction i as [|i IH]; intros l G; [auto|].
  cbn [shuffleLoop]. unfold randomBelow.
  destruct (Math_random G) as [|x rest] eqn:HG.
  - destruct (IH (swap (S i) 0 l) G) as (H1 & H2 & H3).
    rewrite H1, H2, H3, HG. rewrite drop_nil. auto.
  - destruct (IH (swap (S i) (x mod (S i + 1)) l)
                (mkGlobals (GamePiece_nextId G) (Player_nextId G) rest))
      as (H1 & H2 & H3).
    rewrite H1, H2, H3. auto.
Qed.

(** [shuffleArray] returns a rearrangement of its argument, with the same
    elements as many times each, whatever [Math.random] returns; it calls
    [Math.random] once per element but the first, and touches no other
    counter. *)
Theorem shuffleArray_rearranges {A} (array : list A) (G : Globals) :
  Permutation (Board_shuffleArray array G).1 array
  /\ length (Board_shuffleArray array G).1 = length array
  /\ Math_random (Board_shuffleArray array G).2
     = drop (length array - 1) (Math_random G)
  /\ GamePiece_nextId (Board_shuffleArray array G).2 = GamePiece_nextId G
  /\ Player_nextId (Board_shuffleArray array G).2 = Player_nextId G.
Proof.
  pose proof (shuffleLoop_Permutation (length array - 1) array G) as Hperm.
  destruct (shuffleLoop_globals (length array - 1) array G) as (H1 & H2 & H3).
  unfold Board_shuffleArray. split; [exact Hperm|].
  split; [exact (Permutation_length Hperm)|]. auto.
Qed.

(** ** Binding tokens and hexes *)
Section JSMap_more.
Context {K V : Type} `{!EqDecision K}.
Implicit Types (m : list (K * V)) (k : K) (v : V).

Lemma JSMap_set_set k v v' m : JSMap.set k v (JSMap.set k v' m) = JSMap.set k v m.
Proof.
  induction m as [|[k0 v0] m IH]; simpl.
  - rewrite decide_True; auto.
  - destruct (decide (k0 = k)); simpl.
    + rewrite decide_True; auto.
    + rewrite decide_False by auto. rewrite IH. reflexivity.
Qed.

Lemma JSMap_set_same k v m : JSMap.get k m = Some v -> JSMap.set k v m = m.
Proof.
  induction m as [|[k0 v0] m IH]; simpl; [discriminate|].
  destruct (decide (k0 = k)).
  - intros [= ->]. reflexivity.
  - intros H. rewrite IH; auto.
Qed.

Lemma JSMap_modify_modify k (f g : V -> V) m :
  JSMap.modify k f (JSMap.modify k g m) = JSMap.modify k (fun v => f (g v)) m.
Proof.
  unfold JSMap.modify. destruct (JSMap.get k m) as [v|] eqn:Hget.
  - rewrite JSMap_get_set_eq, JSMap_set_set. reflexivity.
  - rewrite Hget. reflexivity.
Qed.

Lemma JSMap_modify_same k (f : V -> V) m :
  (forall v, JSMap.get k m = Some v -> f v = v) -> JSMap.modify k f m = m.
Proof.
  intros H. unfold JSMap.modify. destruct (JSMap.get k m) as [v|] eqn:Hget; auto.
  rewrite (H v eq_refl). apply JSMap_set_same. exact Hget.
Qed.
End JSMap_more.

Lemma Board_tokenAt_removeFromHex b token h tok :
  Board.numberTokens b !! token = Some tok ->
  NumberToken.hex tok = Some h ->
  forall k,
    Board_tokenAt (NumberToken_removeFromHex token b) k
      = if decide (h = k) then None else Board_tokenAt b k.
Proof.
  intros Htok Hhex k. unfold NumberToken_removeFromHex, Board_tokenAt.
  rewrite Htok, Hhex. cbn [Board.hexes Board.set_hexes Board.set_numberTokens].
  rewrite JSMap_get_modify.
  destruct (decide (h = k)); destruct (JSMap.get k (Board.hexes b)); reflexivity.
Qed.

Lemma Board_hexOf_removeFromHex b token h tok :
  Board.numberTokens b !! token = Some tok ->
  NumberToken.hex tok = Some h ->
  forall j,
    Board_hexOf (NumberToken_removeFromHex token b) j
      = if decide (token = j) then None else Board_hexOf b j.
Proof.
  intros Htok Hhex j. unfold NumberToken_removeFromHex, Board_hexOf.
  rewrite Htok, Hhex. cbn [Board.numberTokens Board.set_numberTokens].
  destruct (decide (token = j)) as [->|Hne].
  - rewrite list_lookup_insert_eq by (eapply lookup_lt_Some; eauto). reflexivity.
  - rewrite list_lookup_insert_ne by exact Hne. reflexivity.
Qed.

(** Laying a token that lies nowhere on a hex without token and taking it
    off again gives the board back. *)
Theorem placeOnHex_then_removeFromHex (b : Board.t) (token : TokenRef)
    (h : HexKey) :
  Board_hexOf b token = None ->
  Board_tokenAt b h = None ->
  NumberToken_removeFromHex token (NumberToken_placeOnHex token (Some h) b) = b.
Proof.
  intros Hfree Hbare. unfold NumberToken_placeOnHex, NumberToken_removeFromHex.
  unfold Board_hexOf in Hfree.
  destruct (Board.numberTokens b !! token) as [tok|] eqn:Htok;
    [|rewrite Htok; reflexivity].
  rewrite Hfree.
  cbn [Board.numberTokens Board.hexes Board.set_hexes Board.set_numberTokens].
  rewrite list_lookup_insert_eq by (eapply lookup_lt_Some; eauto).
  cbn [NumberToken.hex NumberToken.set_hex].
  rewrite list_insert_insert_eq, JSMap_modify_modify.
  rewrite JSMap_modify_same.
  - rewrite list_insert_id; [destruct b; reflexivity|].
    rewrite Htok. f_equal. destruct tok as [v hx p]. cbn in *. subst hx. reflexivity.
  - intros hx Hget. unfold Board_tokenAt in Hbare. rewrite Hget in Hbare.
    destruct hx. cbn in *. subst. reflexivity.
Qed.

Lemma placeOnHex_then_removeFromHex_witness :
  Board_hexOf oneTokenOff 1 = None
  /\ Board_tokenAt oneTokenOff (-1, 2) = None
  /\ NumberToken_removeFromHex 1
       (NumberToken_placeOnHex 1 (Some (-1, 2)) oneTokenOff) = oneTokenOff.
Proof.
  split; [reflexivity|]. split; [reflexivity|].
  apply placeOnHex_then_removeFromHex; reflexivity.
Defined.

(** [placeOnHex(null)] is [removeFromHex()]. *)
Theorem placeOnHex_null_is_removeFromHex (b : Board.t) (token : TokenRef) :
  NumberToken_placeOnHex token None b = NumberToken_removeFromHex token b.
Proof.
  unfold NumberToken_placeOnHex, NumberToken_removeFromHex.
  destruct (Board.numberTokens b !! token) as [tok|] eqn:Htok; [|reflexivity].
  destruct (NumberToken.hex tok) as [old|] eqn:Hold; [reflexivity|].
  rewrite list_insert_id; [destruct b; reflexivity|].
  rewrite Htok. f_equal. destruct tok as [v hx p]. cbn in *. subst hx. reflexivity.
Qed.

(** Laying a token on a hex that carries another token does not tell the
    other token: both tokens then name the hex, and taking the displaced
    token off strips the hex of the new one, which goes on naming it. *)
Theorem placeOnHex_leaves_displaced_token_bound (b : Board.t)
    (t u : TokenRef) (h : HexKey) :
  t <> u ->
  (t < length (Board.numberTokens b))%nat ->
  Board_hexOf b t = None ->
  Board_hexOf b u = Some h ->
  Board_tokenAt b h = Some u ->
  Board_tokenAt (NumberToken_placeOnHex t (Some h) b) h = Some t
  /\ Board_hexOf (NumberToken_placeOnHex t (Some h) b) t = Some h
  /\ Board_hexOf (NumberToken_placeOnHex t (Some h) b) u = Some h
  /\ Board_tokenAt
       (NumberToken_removeFromHex u (NumberToken_placeOnHex t (Some h) b)) h
     = None
  /\ Board_hexOf
       (NumberToken_removeFromHex u (NumberToken_placeOnHex t (Some h) b)) t
     = Some h.
Proof.
  intros Hne Hlt Hfree Hu Hat.
  destruct (Board_hexOf_None_lookup b t Hlt Hfree) as (tokT & HtokT & HhexT).
  assert (h ∈ JSMap.keys (Board.hexes b)) as Hkey.
  { unfold Board_tokenAt in Hat.
    destruct (JSMap.get h (Board.hexes b)) as [hx|] eqn:Hget; [|discriminate].
    apply JSMap_get_Some_In in Hget.
    apply list_elem_of_In, (in_map fst _ (h, hx)), list_elem_of_In. exact Hget. }
  pose proof (Board_tokenAt_placeOnHex b t h tokT HtokT HhexT Hkey) as Hat1.
  pose proof (Board_hexOf_placeOnHex b t h tokT HtokT) as Hof1.
  assert (Board_hexOf (NumberToken_placeOnHex t (Some h) b) u = Some h) as Hu1.
  { rewrite Hof1, decide_False by exact Hne. exact Hu. }
  split; [rewrite Hat1, decide_True by reflexivity; reflexivity|].
  split; [rewrite Hof1, decide_True by reflexivity; reflexivity|].
  split; [exact Hu1|].
  unfold Board_hexOf in Hu1.
  destruct (Board.numberTokens (NumberToken_placeOnHex t (Some h) b) !! u)
    as [tokU|] eqn:HtokU; [|discriminate].
  split.
  - rewrite (Board_tokenAt_removeFromHex _ u h tokU HtokU Hu1).
    rewrite decide_True by reflexivity. reflexivity.
  - rewrite (Board_hexOf_removeFromHex _ u h tokU HtokU Hu1).
    rewrite decide_False by congruence.
    rewrite Hof1, decide_True by reflexivity. reflexivity.
Qed.

Lemma placeOnHex_leaves_displaced_token_bound_witness :
  Board_tokenAt (NumberToken_placeOnHex 1 (Some (-2, 2)) oneTokenOff) (-2, 2)
    = Some 1%nat
  /\ Board_hexOf (NumberToken_placeOnHex 1 (Some (-2, 2)) oneTokenOff) 0
     = Some (-2, 2)
  /\ Board_tokenAt
       (NumberToken_removeFromHex 0
          (NumberToken_placeOnHex 1 (Some (-2, 2)) oneTokenOff)) (-2, 2)
     = None.
Proof.
  destruct (placeOnHex_leaves_displaced_token_bound oneTokenOff 1 0 (-2, 2))
    as (H1 & _ & H3 & H4 & _);
    [discriminate|vm_compute; lia|reflexivity|reflexivity|reflexivity|].
  auto.
Defined.

(** ** The robber *)
Lemma Robber_moveTo_get hex b k :
  JSMap.get k (Board.hexes (Robber_moveTo hex b))
  = option_map
      (fun h =>
         if bool_decide (hex = Some k) then Hex.set_hasRobber true h
         else if bool_decide (Robber.hex (Board.robber b) = Some k)
              then Hex.set_hasRobber false h
              else h)
      (JSMap.get k (Board.hexes b)).
Proof.
  unfold Robber_moveTo. cbn [Board.hexes Board.set_robber Board.set_hexes].
  destruct hex as [h|], (Robber.hex (Board.robber b)) as [old|];
    rewrite ?JSMap_get_modify;
    destruct (JSMap.get k (Board.hexes b)) as [hx|]; cbn [option_map];
    try reflexivity; f_equal;
    repeat case_bool_decide; repeat case_decide; simplify_eq; reflexivity.
Qed.

Lemma StandardBoard_RobberConsistent d R B :
  StandardBoard d R B -> RobberConsistent B.
Proof.
  intros S k h Hget. rewrite (sb_hasRobber _ _ _ S k h Hget), (sb_robber _ _ _ S).
  rewrite bool_decide_eq_true. split; congruence.
Qed.

(** [moveTo] keeps the flags of the hexes and the robber in agreement: after
    it the robber names the hex it was given, that hex is the only one
    flagged, and the hex it left is no longer flagged.  It touches neither
    tokens, vertices nor edges. *)
Theorem moveTo_keeps_one_robber (b : Board.t) (hex : option HexKey) :
  RobberConsistent b ->
  RobberConsistent (Robber_moveTo hex b)
  /\ Robber.hex (Board.robber (Robber_moveTo hex b)) = hex
  /\ JSMap.keys (Board.hexes (Robber_moveTo hex b)) = JSMap.keys (Board.hexes b)
  /\ Board.numberTokens (Robber_moveTo hex b) = Board.numberTokens b
  /\ Board.vertices (Robber_moveTo hex b) = Board.vertices b
  /\ Board.edges (Robber_moveTo hex b) = Board.edges b.
Proof.
  intros Hc. split_and!; try reflexivity.
  - intros k h. rewrite Robber_moveTo_get.
    destruct (JSMap.get k (Board.hexes b)) as [hx|] eqn:Hget; [|discriminate].
    cbn [option_map]. intros [= <-].
    change (Robber.hex (Board.robber (Robber_moveTo hex b))) with hex.
    case_bool_decide as E1; [split; auto|].
    case_bool_decide as E2; cbn [Hex.hasRobber Hex.set_hasRobber].
    + split; [discriminate|contradiction].
    + rewrite (Hc k hx Hget). split; contradiction.
  - unfold Robber_moveTo. cbn [Board.hexes Board.set_robber Board.set_hexes].
    destruct hex, (Robber.hex (Board.robber b));
      rewrite ?JSMap_keys_modify; reflexivity.
Qed.

Lemma moveTo_keeps_one_robber_witness :
  RobberConsistent
    (Board_generateStandardBoard (Board_new sampleGlobals).1 sampleGlobals).1
  /\ RobberConsistent
       (Robber_moveTo (Some (1, 0))
          (Board_generateStandardBoard (Board_new sampleGlobals).1
             sampleGlobals).1).
Proof.
  destruct (Board_generateStandardBoard_StandardBoard
              (Board_new sampleGlobals).1 sampleGlobals) as (d & R & S).
  pose proof (StandardBoard_RobberConsistent _ _ _ S) as Hc.
  split; [exact Hc|].
  exact (proj1 (moveTo_keeps_one_robber _ (Some (1, 0)) Hc)).
Defined.

(** [moveRobber] asks for nothing but a last roll of 7: neither the phase nor
    an earlier move of the same turn stops it.  The hex it is given then
    yields nothing on any roll, the robber names it, and players and dice
    result are as before.  Without a last roll of 7 it returns [false] and
    changes nothing. *)
Theorem moveRobber_needs_only_a_seven (hex : HexKey) (g : Game.t) :
  (forall result,
     Game.diceResult g = Some result ->
     DiceResult.total result = 7 ->
     (Game_moveRobber hex g).1 = true
     /\ Robber.hex (Board.robber (Game.board (Game_moveRobber hex g).2))
        = Some hex
     /\ (forall diceRoll,
           Hex_yield (Game.board (Game_moveRobber hex g).2) diceRoll hex = [])
     /\ Game.diceResult (Game_moveRobber hex g).2 = Game.diceResult g
     /\ Game.players (Game_moveRobber hex g).2 = Game.players g
     /\ Game.gamePhase (Game_moveRobber hex g).2 = Game.gamePhase g)
  /\ ((forall result,
         Game.diceResult g = Some result -> DiceResult.total result <> 7) ->
      Game_moveRobber hex g = (false, g)).
Proof.
  unfold Game_moveRobber. split.
  - intros result Hres H7. rewrite Hres, bool_decide_eq_true_2 by exact H7.
    cbn [fst snd]. split_and!; try reflexivity; [|exact Hres].
    intros diceRoll. unfold Hex_yield.
    cbn [Game.board Game_logEvent Game.set_eventLog Game.set_board].
    rewrite Robber_moveTo_get, bool_decide_eq_true_2 by reflexivity.
    destruct (JSMap.get hex (Board.hexes (Game.board g))) as [hx|];
      [|reflexivity].
    cbn [option_map]. unfold Hex_shouldProduce.
    cbn [Hex.hasRobber Hex.set_hasRobber negb]. rewrite andb_false_r.
    reflexivity.
  - intros Hno. destruct (Game.diceResult g) as [result|]; [|reflexivity].
    rewrite bool_decide_eq_false_2 by (apply Hno; reflexivity). reflexivity.
Qed.

Lemma includes_elem_of {A} `{!EqDecision A} (x : A) (l : list A) :
  includes x l = true <-> x ∈ l.
Proof.
  unfold includes. rewrite existsb_exists. split.
  - intros (y & Hy & E). apply bool_decide_eq_true_1 in E. subst y.
    apply list_elem_of_In. exact Hy.
  - intros H. exists x. split; [apply list_elem_of_In; exact H|].
    apply bool_decide_eq_true_2. reflexivity.
Qed.

Lemma collectOwners_spec b (vertices : list (Z * Z * Z)) :
  forall players : list nat,
  NoDup players ->
  NoDup
    (fold_left (fun players vertex =>
       match Board_buildingAt b vertex with
       | Some building =>
           if includes (Building_owner building) players then players
           else players ++ [Building_owner building]
       | None => players
       end) vertices players)
  /\ forall p,
       p ∈ fold_left (fun players vertex =>
             match Board_buildingAt b vertex with
             | Some building =>
                 if includes (Building_owner building) players then players
                 else players ++ [Building_owner building]
             | None => players
             end) vertices players
       <-> p ∈ players
           \/ exists vertex building,
                vertex ∈ vertices
                /\ Board_buildingAt b vertex = Some building
                /\ Building_owner building = p.
Proof.
  induction vertices as [|v vertices IH]; intros players Hnd.
  - split; [exact Hnd|]. intros p. cbn [fold_left]. split; [auto|].
    intros [H|(vx & bd & Hin & _)]; [exact H|inversion Hin].
  - cbn [fold_left].
    destruct (Board_buildingAt b v) as [bd|] eqn:Hbd.
    + destruct (includes (Building_owner bd) players) eqn:Hinc.
      * destruct (IH players Hnd) as [Hnd' Hmem]. split; [exact Hnd'|].
        intros p. rewrite Hmem. apply includes_elem_of in Hinc.
        split.
        -- intros [H|(vx & bd' & Hin & Hb & Ho)]; [auto|].
           right. exists vx, bd'. split; [right; exact Hin|auto].
        -- intros [H|(vx & bd' & Hin & Hb & Ho)]; [auto|].
           apply elem_of_cons in Hin as [->|Hin].
           ++ left. congruence.
           ++ right. exists vx, bd'. auto.
      * assert (Building_owner bd ∉ players) as Hout.
        { rewrite <- includes_elem_of, Hinc. discriminate. }
        destruct (IH (players ++ [Building_owner bd])) as [Hnd' Hmem].
        { apply NoDup_app. split; [exact Hnd|]. split.
          - intros x Hx Hx'. apply list_elem_of_singleton in Hx'. congruence.
          - apply NoDup_singleton. }
        split; [exact Hnd'|]. intros p. rewrite Hmem, elem_of_app.
        rewrite list_elem_of_singleton. split.
        -- intros [[H| ->]|(vx & bd' & Hin & Hb & Ho)]; [auto| |].
           ++ right. exists v, bd. split; [left|auto].
           ++ right. exists vx, bd'. split; [right; exact Hin|auto].
        -- intros [H|(vx & bd' & Hin & Hb & Ho)]; [auto|].
           apply elem_of_cons in Hin as [->|Hin].
           ++ left. right. congruence.
           ++ right. exists vx, bd'. auto.
    + destruct (IH players Hnd) as [Hnd' Hmem]. split; [exact Hnd'|].
      intros p. rewrite Hmem. split.
      * intros [H|(vx & bd' & Hin & Hb & Ho)]; [auto|].
        right. exists vx, bd'. split; [right; exact Hin|auto].
      * intros [H|(vx & bd' & Hin & Hb & Ho)]; [auto|].
        apply elem_of_cons in Hin as [->|Hin]; [congruence|].
        right. exists vx, bd'. auto.
Qed.

(** [getAdjacentPlayers] lists no player twice; it lists exactly the owners
    of the buildings on the vertices of the hex of the robber, and nobody
    while the robber stands nowhere. *)
Theorem getAdjacentPlayers_lists_each_owner_once (b : Board.t) :
  NoDup (Robber_getAdjacentPlayers b)
  /\ (forall h hex,
        Robber.hex (Board.robber b) = Some h ->
        JSMap.get h (Board.hexes b) = Some hex ->
        forall p,
          p ∈ Robber_getAdjacentPlayers b
          <-> exists vertex building,
                vertex ∈ Hex.vertices hex
                /\ Board_buildingAt b vertex = Some building
                /\ Building_owner building = p)
  /\ (Robber.hex (Board.robber b) = None -> Robber_getAdjacentPlayers b = []).
Proof.
  unfold Robber_getAdjacentPlayers. split_and!.
  - destruct (Robber.hex (Board.robber b)) as [h|]; [|constructor].
    destruct (JSMap.get h (Board.hexes b)) as [hex|]; [|constructor].
    apply collectOwners_spec. constructor.
  - intros h hex -> -> p.
    rewrite (proj2 (collectOwners_spec b (Hex.vertices hex) [] (NoDup_nil_2)) p).
    split; [|auto]. intros [H|H]; [inversion H|exact H].
  - intros ->. reflexivity.
Qed.

(** ** The ledger of a player *)

(** For a counter and an amount of at most [2 ^ 52] in absolute value, whose
    sum and difference JavaScript computes exactly: adding to a counter
    that is not negative and removing the same amount gives the player
    back; so does removing an amount the counter covers and adding it
    again.  Adding to a resource the ledger does not know changes
    nothing. *)
Theorem addResources_removeResources_round_trip
    (p : Player.t) (r : string) (n v : Z) :
  JSMap.get r (Player.resources p) = Some v ->
  0 <= v ->
  Amount_inRange v ->
  Amount_inRange n ->
  Z.abs (v + n) <= 2 ^ 53
  /\ Z.abs (v - n) <= 2 ^ 53
  /\ (Player_removeResources r n (Player_addResources r n p)).2 = p
  /\ (0 <= n <= v ->
      Player_addResources r n (Player_removeResources r n p).2 = p)
  /\ (forall unknown m,
        JSMap.get unknown (Player.resources p) = None ->
        Player_addResources unknown m p = p).
Proof.
  intros Hget Hv Hrv Hrn. unfold Amount_inRange in Hrv, Hrn.
  unfold Player_addResources, Player_removeResources.
  split_and!.
  - lia.
  - lia.
  - rewrite Hget. cbn [Player.resources Player.set_resources snd].
    rewrite JSMap_get_set_eq. cbn [snd]. rewrite JSMap_set_set.
    replace (Z.max 0 (v + n - n)) with v by lia.
    rewrite JSMap_set_same by exact Hget. destruct p; reflexivity.
  - intros Hn. rewrite Hget. cbn [Player.resources Player.set_resources snd].
    rewrite JSMap_get_set_eq, JSMap_set_set.
    replace (Z.max 0 (v - n) + n) with v by lia.
    rewrite JSMap_set_same by exact Hget. destruct p; reflexivity.
  - intros unknown m ->. reflexivity.
Qed.

Lemma addResources_removeResources_round_trip_witness :
  JSMap.get "ore"%string (Player.resources (playerWith 1 (ledger 1 0 3 0 0)))
  = Some 3
  /\ Amount_inRange 3
  /\ Amount_inRange 2
  /\ (Player_removeResources "ore" 2
       (Player_addResources "ore" 2 (playerWith 1 (ledger 1 0 3 0 0)))).2
     = playerWith 1 (ledger 1 0 3 0 0)
  /\ Player_addResources "ore" 2
       (Player_removeResources "ore" 2 (playerWith 1 (ledger 1 0 3 0 0))).2
     = playerWith 1 (ledger 1 0 3 0 0).
Proof.
  assert (forall n, Z.abs n <= 3 -> Amount_inRange n) as Hin.
  { intros n Hn. unfold Amount_inRange. lia. }
  pose proof (Hin 3 ltac:(lia)) as H3. pose proof (Hin 2 ltac:(lia)) as H2.
  destruct (addResources_removeResources_round_trip
              (playerWith 1 (ledger 1 0 3 0 0)) "ore" 2 3 eq_refl ltac:(lia)
              H3 H2)
    as (_ & _ & Hback & Hforth & _).
  split; [reflexivity|]. split; [exact H3|]. split; [exact H2|].
  split; [exact Hback|]. apply Hforth. lia.
Defined.





(** ** Building *)
Lemma Board_buildingAt_modify_ne b vertex other x :
  other <> vertex ->
  Board_buildingAt
    (Board.set_vertices
       (JSMap.modify vertex (Vertex.set_building x) (Board.vertices b)) b)
    other = Board_buildingAt b other.
Proof.
  intros Hne. unfold Board_buildingAt. cbn [Board.vertices Board.set_vertices].
  rewrite JSMap_get_modify_ne by congruence. reflexivity.
Qed.

Lemma Player_score_frame p res :
  Player_score (Player.set_resources res p) = Player_score p.
Proof. reflexivity. Qed.

(** [buildSettlement] returns a settlement exactly when the player can
    afford one, has one left, and the vertex exists and accepts it.  The
    settlement then stands on the vertex, which was empty, and on no other;
    it belongs to the player and carries the next serial number; the player
    has one more settlement, one less in the supply, has paid through
    [payFor] and scores one point more.  When it returns [null] neither the
    player nor the board has changed, but a serial number is used up as soon
    as the player could afford and had a piece left. *)
Theorem buildSettlement_places_and_counts
    (vertex : VertexKey) (self : Player.t) (b : Board.t) (G : Globals)
    (result : option Settlement.t)
    (self' : Player.t) (b' : Board.t) (G' : Globals) :
  Player_buildSettlement vertex self b G = (result, self', b', G') ->
  (result <> None <->
     Player_canAfford "settlement" self = true
     /\ 0 < Player.settlementsRemaining self
     /\ exists v, JSMap.get vertex (Board.vertices b) = Some v
                  /\ Vertex_canPlaceSettlement b v = true)
  /\ (forall s, result = Some s ->
        Board_buildingAt b vertex = None
        /\ Board_buildingAt b' vertex = Some (ASettlement s)
        /\ (forall other, other <> vertex ->
              Board_buildingAt b' other = Board_buildingAt b other)
        /\ Settlement.owner s = Player.id self
        /\ Settlement.vertex s = Some vertex
        /\ Settlement.id s = GamePiece_nextId G
        /\ Player.settlements self' = Player.settlements self ++ [s]
        /\ Player.settlementsRemaining self'
           = Player.settlementsRemaining self - 1
        /\ Player.resources self'
           = Player.resources (Player_payFor "settlement" self).2
        /\ Player.victoryPoints self' = Player_score self'
        /\ Player_score self' = Player_score self + 1)
  /\ (result = None -> self' = self /\ b' = b)
  /\ (Player_canAfford "settlement" self = true ->
      0 < Player.settlementsRemaining self ->
      GamePiece_nextId G' = S (GamePiece_nextId G)).
Proof.
  unfold Player_buildSettlement.
  destruct (Player_canAfford "settlement" self) eqn:Hafford; cbn [negb orb];
    [|intros [= <- <- <- <-]; split_and!; try discriminate; auto;
      split; [contradiction|intros (? & _); discriminate]].
  destruct (Player.settlementsRemaining self <=? 0) eqn:Hrem;
    [apply Z.leb_le in Hrem; intros [= <- <- <- <-];
     split_and!; try discriminate; auto; try lia;
     split; [contradiction|intros (_ & ? & _); lia]|].
  apply Z.leb_gt in Hrem.
  unfold Settlement_new, freshPieceId, Settlement_placeOn, Vertex_placeSettlement.
  cbn [Settlement.id Settlement.owner].
  destruct (JSMap.get vertex (Board.vertices b)) as [v|] eqn:Hget;
    [|intros [= <- <- <- <-]; split_and!; try discriminate; auto;
      split; [contradiction|intros (_ & _ & ? & ? & _); discriminate]].
  destruct (Vertex_canPlaceSettlement b v) eqn:Hcan;
    [|intros [= <- <- <- <-]; split_and!; try discriminate; auto;
      split; [contradiction|intros (_ & _ & ? & [= <-] & ?); congruence]].
  intros [= <- <- <- <-]. split_and!.
  - split; [intros _|discriminate]. split_and!; auto. exists v. auto.
  - intros s [= <-].
    assert (Board_buildingAt b vertex = None) as Hnone.
    { unfold Board_buildingAt. rewrite Hget.
      unfold Vertex_canPlaceSettlement in Hcan.
      destruct (Vertex.building v); [discriminate|reflexivity]. }
    split; [exact Hnone|].
    split.
    { apply Board_buildingAt_modify. right. unfold JSMap.has.
      rewrite Hget. reflexivity. }
    split; [intros other Hne; apply Board_buildingAt_modify_ne; exact Hne|].
    rewrite (Player_payFor_frame "settlement" self).
    do 7 (split; [reflexivity|]).
    unfold Player_score, Player_updateVictoryPoints.
    cbn [Player.settlements Player.cities Player.developmentCards
         Player.hasLongestRoad Player.hasLargestArmy Player.set_settlements
         Player.set_resources Player.set_victoryPoints fst].
    rewrite length_app. cbn [length].
    destruct (Player.hasLongestRoad self), (Player.hasLargestArmy self); lia.
  - discriminate.
  - reflexivity.
Qed.

Lemma buildSettlement_places_and_counts_witness :
  exists s self' b' G',
    Player_buildSettlement (1, -1, 4) (playerWith 1 (ledger 1 1 0 1 1))
      sampleBoard.1 sampleBoard.2 = (Some s, self', b', G')
    /\ Board_buildingAt b' (1, -1, 4) = Some (ASettlement s)
    /\ Player_score self' = Player_score (playerWith 1 (ledger 1 1 0 1 1)) + 1.
Proof.
  destruct (Player_buildSettlement (1, -1, 4) (playerWith 1 (ledger 1 1 0 1 1))
              sampleBoard.1 sampleBoard.2) as [[[result self'] b'] G'] eqn:E.
  pose proof (buildSettlement_places_and_counts _ _ _ _ _ _ _ _ E)
    as (_ & H & _).
  assert (exists s, result = Some s) as [s ->].
  { pose proof E as E2. vm_compute in E2. injection E2 as <- _ _ _. eauto. }
  destruct (H s eq_refl) as (_ & Hat & _ & _ & _ & _ & _ & _ & _ & _ & Hscore).
  exists s, self', b', G'. auto.
Defined.

(** ** The supply of pieces *)
Lemma Player_payFor_pieces t p :
  Player.settlements (Player_payFor t p).2 = Player.settlements p
  /\ Player.settlementsRemaining (Player_payFor t p).2
     = Player.settlementsRemaining p
  /\ Player.cities (Player_payFor t p).2 = Player.cities p
  /\ Player.citiesRemaining (Player_payFor t p).2 = Player.citiesRemaining p
  /\ Player.roads (Player_payFor t p).2 = Player.roads p
  /\ Player.roadsRemaining (Player_payFor t p).2 = Player.roadsRemaining p
  /\ Player.payForOverridden (Player_payFor t p).2 = Player.payForOverridden p
  /\ Player.id (Player_payFor t p).2 = Player.id p.
Proof. rewrite (Player_payFor_frame t p). split_and!; reflexivity. Qed.

(** Building keeps the count of pieces: what stands on the board and what
    is left in the supply add up to 5 settlements, 4 cities and 15 roads
    after [buildSettlement] and [buildRoad], whatever they return, and
    after [buildCity] provided the settlement on the vertex is one of the
    player's list. *)
Theorem builds_keep_the_supply (p : Player.t) :
  Player_supplyOk p ->
  (forall vertex b G,
     Player_supplyOk (Player_buildSettlement vertex p b G).1.1.2)
  /\ (forall edge b G, Player_supplyOk (Player_buildRoad edge p b G).1.1.2)
  /\ (forall vertex b G,
        (forall old,
           Board_buildingAt b vertex = Some (ASettlement old) ->
           exists s, s ∈ Player.settlements p
                     /\ Settlement.id s = Settlement.id old) ->
        Player_supplyOk (Player_buildCity vertex p b G).1.1.2).
Proof.
  intros (Hs & Hc & Hr).
  destruct (Player_payFor_pieces "settlement" p)
    as (Ps1 & Ps2 & Ps3 & Ps4 & Ps5 & Ps6 & _).
  destruct (Player_payFor_pieces "road" p)
    as (Pr1 & Pr2 & Pr3 & Pr4 & Pr5 & Pr6 & _).
  destruct (Player_payFor_pieces "city" p)
    as (Pc1 & Pc2 & Pc3 & Pc4 & Pc5 & Pc6 & _).
  split_and!.
  - intros vertex b G. unfold Player_buildSettlement.
    destruct (_ || _); [split_and!; assumption|].
    destruct (Settlement_new (Player.id p) G) as [settlement G1].
    destruct (Settlement_placeOn settlement vertex b) as [[ok s1] b1].
    destruct ok; [|split_and!; assumption].
    unfold Player_supplyOk. cbn. rewrite Ps1, Ps2, Ps3, Ps4, Ps5, Ps6.
    rewrite length_app. cbn [length]. lia.
  - intros edge b G. unfold Player_buildRoad.
    destruct (_ || _); [split_and!; assumption|].
    destruct (Road_new (Player.id p) G) as [road G1].
    destruct (Road_placeOn road edge b) as [[ok r1] b1].
    destruct ok; [|split_and!; assumption].
    unfold Player_supplyOk. cbn. rewrite Pr1, Pr2, Pr3, Pr4, Pr5, Pr6.
    rewrite length_app. cbn [length]. lia.
  - intros vertex b G Hold. unfold Player_buildCity.
    destruct (_ || _); [split_and!; assumption|].
    unfold City_new, freshPieceId, City_placeOn.
    rewrite Vertex_upgradeToCity_spec.
    destruct (Board_buildingAt b vertex) as [[old|c]|] eqn:Hat;
      try (split_and!; assumption).
    cbn [City.owner].
    destruct (decide (Settlement.owner old = Player.id p));
      [|split_and!; assumption].
    pose proof (removeSettlement_length old (Player.settlements p)
                  (Hold old eq_refl)) as Hlen.
    unfold Player_supplyOk. cbn. rewrite Pc1, Pc2, Pc3, Pc4, Pc5, Pc6.
    rewrite length_app. cbn [length]. lia.
Qed.

Lemma builds_keep_the_supply_witness :
  Player_supplyOk (Player_new "red" None sampleGlobals).1
  /\ Player_supplyOk (playerWith 1 (ledger 1 1 0 1 1))
  /\ Player_supplyOk
       (Player_buildSettlement (1, -1, 4) (playerWith 1 (ledger 1 1 0 1 1))
          sampleBoard.1 sampleBoard.2).1.1.2.
Proof.
  assert (Player_supplyOk (playerWith 1 (ledger 1 1 0 1 1))) as H0
    by (split_and!; reflexivity).
  split; [split_and!; reflexivity|]. split; [exact H0|].
  apply (builds_keep_the_supply (playerWith 1 (ledger 1 1 0 1 1)) H0).
Defined.

(** ** Paying after the setup *)
Lemma fold_addResources_override (l : list string) : forall p,
  Player.payForOverridden
    (fold_left (fun p resource => Player_addResources resource 1 p) l p)
  = Player.payForOverridden p.
Proof.
  induction l as [|r l IH]; intros p; [reflexivity|].
  cbn [fold_left]. rewrite IH, (Player_addResources_frame r 1 p). reflexivity.
Qed.

(** A successful setup placement replaces [payFor] of the player for good:
    the player stored in the game has the override, nothing in [Player]
    takes it back, and with it every later [buildSettlement], [buildCity]
    and [buildRoad] leaves the resources of the player as they were. *)
Theorem setup_placement_frees_later_builds :
  (forall vertex player g G s g' G',
     Game_placeSetupSettlement vertex player g G = (Some s, g', G') ->
     exists p', Game.players g' !! player = Some p'
                /\ Player.payForOverridden p' = true)
  /\ (forall edge player g G road g' G',
        Game_placeSetupRoad edge player g G = (Some road, g', G') ->
        exists p', Game.players g' !! player = Some p'
                   /\ Player.payForOverridden p' = true)
  /\ (forall p,
        Player.payForOverridden p = true ->
        (forall buildingType, Player_payFor buildingType p = (true, p))
        /\ (forall vertex b G,
              Player.resources (Player_buildSettlement vertex p b G).1.1.2
                = Player.resources p
              /\ Player.payForOverridden
                   (Player_buildSettlement vertex p b G).1.1.2 = true)
        /\ (forall vertex b G,
              Player.resources (Player_buildCity vertex p b G).1.1.2
                = Player.resources p
              /\ Player.payForOverridden
                   (Player_buildCity vertex p b G).1.1.2 = true)
        /\ (forall edge b G,
              Player.resources (Player_buildRoad edge p b G).1.1.2
                = Player.resources p
              /\ Player.payForOverridden
                   (Player_buildRoad edge p b G).1.1.2 = true)).
Proof.
  split_and!.
  - intros vertex player g G s g' G'. unfold Game_placeSetupSettlement.
    destruct (Game.players g !! player) as [p|] eqn:Hp; [|discriminate].
    destruct (JSMap.get vertex (Board.vertices (Game.board g))) as [v|];
      [|discriminate].
    destruct (negb _); [discriminate|].
    destruct (Player_buildSettlement vertex p (Game.board g) G)
      as [[[settlement p1] b1] G1].
    destruct settlement as [s0|]; [|discriminate].
    intros [= <- <- <-].
    cbn [Game.players Game_logEvent Game.set_eventLog Game.set_players].
    eexists. split.
    + apply list_lookup_insert_eq. eapply lookup_lt_Some. exact Hp.
    + destruct (bool_decide (Game.setupRound g = 2)); [|reflexivity].
      rewrite fold_addResources_override. reflexivity.
  - intros edge player g G road g' G'. unfold Game_placeSetupRoad.
    destruct (Game.players g !! player) as [p|] eqn:Hp; [|discriminate].
    destruct (Player_buildRoad edge p (Game.board g) G)
      as [[[rd p1] b1] G1].
    destruct rd as [r0|]; [|discriminate].
    intros [= <- <- <-].
    cbn [Game.players Game_logEvent Game.set_eventLog Game.set_players].
    eexists. split.
    + apply list_lookup_insert_eq. eapply lookup_lt_Some. exact Hp.
    + reflexivity.
  - intros p Hov.
    assert (forall t, Player_payFor t p = (true, p)) as Hpay
      by (intros t; unfold Player_payFor; rewrite Hov; reflexivity).
    split; [exact Hpay|]. split_and!.
    + intros vertex b G. unfold Player_buildSettlement.
      destruct (_ || _); [auto|].
      destruct (Settlement_new (Player.id p) G) as [settlement G1].
      destruct (Settlement_placeOn settlement vertex b) as [[ok s1] b1].
      destruct ok; [|auto]. rewrite Hpay. cbn. auto.
    + intros vertex b G. unfold Player_buildCity.
      destruct (_ || _); [auto|].
      destruct (City_new (Player.id p) G) as [city G1].
      destruct (City_placeOn city vertex b) as [[old c1] b1].
      destruct old; [|auto]. rewrite Hpay. cbn. auto.
    + intros edge b G. unfold Player_buildRoad.
      destruct (_ || _); [auto|].
      destruct (Road_new (Player.id p) G) as [road G1].
      destruct (Road_placeOn road edge b) as [[ok r1] b1].
      destruct ok; [|auto]. rewrite Hpay. cbn. auto.
Qed.

(** ** Where a road may go *)
Lemma EdgesUnlinked_generated b G :
  EdgesUnlinked (Board_generateStandardBoard b G).1.
Proof.
  unfold EdgesUnlinked.
  rewrite (proj2 (Board_generateStandardBoard_topology b G)).
  vm_compute. repeat constructor.
Qed.

Lemma Forall_JSMap_set {K V} `{!EqDecision K} (P : K * V -> Prop) k v
    (m : list (K * V)) :
  Forall P m -> (forall k', P (k', v)) -> Forall P (JSMap.set k v m).
Proof.
  intros Hm Hv. induction m as [|[k0 v0] m IH]; simpl.
  - constructor; [apply Hv|constructor].
  - apply Forall_cons in Hm as [H0 Hm].
    destruct (decide (k0 = k)); constructor; auto.
Qed.

Lemma EdgesUnlinked_setRoad b e0 road :
  EdgesUnlinked b -> EdgesUnlinked (Board_setRoad e0 road b).
Proof.
  unfold EdgesUnlinked, Board_setRoad. cbn [Board.edges Board.set_edges].
  intros H. unfold JSMap.modify.
  destruct (JSMap.get e0 (Board.edges b)) as [ed|] eqn:Hget; [|exact H].
  apply Forall_JSMap_set; [exact H|]. intros k'. cbn.
  apply JSMap_get_Some_In in Hget. rewrite Forall_forall in H.
  exact (H _ Hget).
Qed.

(** No operation fills [adjacentEdges]: on every generated board, and after
    any [buildRoad] on it, the list is empty at every edge.  There an edge
    accepts a road of a player exactly when it is free and one of its
    vertices holds a building of that player: a road of the player next to
    it does not count.  So every road [buildRoad] places lies at a building
    of its owner, and while no building stands on the board
    [getValidRoadPlacements] is empty for every player. *)
Theorem road_needs_a_building_of_its_owner (b : Board.t) :
  EdgesUnlinked b ->
  (forall player e ed,
     JSMap.get e (Board.edges b) = Some ed ->
     (Edge_canPlaceRoad b player ed = true
      <-> Edge.road ed = None
          /\ exists v, v ∈ Edge.vertices ed
                       /\ Vertex_buildingOwnedBy b player v = true))
  /\ (forall e p G road p' b' G',
        Player_buildRoad e p b G = (Some road, p', b', G') ->
        EdgesUnlinked b'
        /\ exists v, v ∈ Edge_vertices b e
                     /\ Vertex_buildingOwnedBy b (Player.id p) v = true)
  /\ ((forall v, Board_buildingAt b v = None) ->
      forall player, Board_getValidRoadPlacements player b = []).
Proof.
  intros Hun.
  assert (forall player ed,
            Edge.adjacentEdges ed = [] ->
            (Edge_canPlaceRoad b player ed = true
             <-> Edge.road ed = None
                 /\ exists v, v ∈ Edge.vertices ed
                              /\ Vertex_buildingOwnedBy b player v = true)) as Hcan.
  { intros player ed Hnil. unfold Edge_canPlaceRoad.
    rewrite Hnil. cbn [existsb]. rewrite orb_false_r.
    destruct (Edge.road ed) as [rd|].
    - split; [discriminate|intros [? _]; discriminate].
    - rewrite existsb_exists. split.
      + intros (v & Hin & Hv). split; [reflexivity|].
        exists v. split; [apply list_elem_of_In; exact Hin|exact Hv].
      + intros (_ & v & Hin & Hv). exists v.
        split; [apply list_elem_of_In; exact Hin|exact Hv]. }
  pose proof Hun as Hall. unfold EdgesUnlinked in Hall.
  rewrite Forall_forall in Hall.
  split_and!.
  - intros player e ed Hget. apply Hcan.
    exact (Hall _ (JSMap_get_Some_In _ _ _ Hget)).
  - intros e p G road p' b' G' Hbuild.
    pose proof Hbuild as Hb2. unfold Player_buildRoad in Hb2.
    destruct (Player_buildRoad_Some _ _ _ _ _ _ _ _ Hbuild)
      as (ed & Hget & Hnone & -> & _ & _ & _).
    split; [apply EdgesUnlinked_setRoad; exact Hun|].
    destruct (negb (Player_canAfford "road" p) || (Player.roadsRemaining p <=? 0));
      [discriminate|].
    unfold Road_new, freshPieceId, Road_placeOn, Edge_placeRoad in Hb2.
    rewrite Hget in Hb2. cbn [Road.owner] in Hb2.
    destruct (Edge_canPlaceRoad b (Player.id p) ed) eqn:Hc; [|discriminate].
    apply (Hcan (Player.id p) ed (Hall _ (JSMap_get_Some_In _ _ _ Hget))) in Hc
      as (_ & v & Hin & Hv).
    exists v. unfold Edge_vertices. rewrite Hget. auto.
  - intros Hempty player. unfold Board_getValidRoadPlacements.
    rewrite filter_nil_all; [reflexivity|].
    intros [e ed] Hin. cbn [snd].
    destruct (Edge_canPlaceRoad b player ed) eqn:Hc; [|reflexivity].
    exfalso.
    apply (Hcan player ed (Hall _ (proj2 (list_elem_of_In _ _) Hin))) in Hc
      as (_ & v & _ & Hv).
    unfold Vertex_buildingOwnedBy in Hv. specialize (Hempty v).
    unfold Board_buildingAt in Hempty.
    destruct (JSMap.get v (Board.vertices b)) as [vx|]; [|discriminate].
    rewrite Hempty in Hv. discriminate.
Qed.

Lemma Board_generateStandardBoard_no_building b G v :
  Board_buildingAt (Board_generateStandardBoard b G).1 v = None.
Proof.
  unfold Board_buildingAt.
  rewrite (proj1 (Board_generateStandardBoard_topology b G)).
  destruct (JSMap.get v (Board.vertices sampleBoard.1)) as [vx|] eqn:Hget;
    [|reflexivity].
  apply JSMap_get_Some_In, list_elem_of_In in Hget.
  assert (forallb (fun kv : Z * Z * Z * Vertex.t =>
                     match Vertex.building kv.2 with None => true | _ => false end)
            (Board.vertices sampleBoard.1) = true) as H
    by (vm_compute; reflexivity).
  rewrite forallb_forall in H. specialize (H _ Hget). cbn in H.
  destruct (Vertex.building vx); [discriminate|reflexivity].
Qed.

Lemma road_needs_a_building_of_its_owner_witness :
  EdgesUnlinked
    (Board_generateStandardBoard (Board_new sampleGlobals).1 sampleGlobals).1
  /\ Board_getValidRoadPlacements 1
       (Board_generateStandardBoard (Board_new sampleGlobals).1 sampleGlobals).1
     = [].
Proof.
  pose proof (EdgesUnlinked_generated (Board_new sampleGlobals).1 sampleGlobals)
    as Hun.
  split; [exact Hun|].
  apply (road_needs_a_building_of_its_owner _ Hun).
  apply Board_generateStandardBoard_no_building.
Defined.

(** ** What the loops of [Game] leave alone *)
Section Game_frames.
Implicit Types (g : Game.t).

Lemma Game_logEvent_prefix m g :
  Game.eventLog g `prefix_of` Game.eventLog (Game_logEvent m g).
Proof. eexists. reflexivity. Qed.

Lemma checkWinLoop_frame indices : forall g,
  Game.eventLog g `prefix_of` Game.eventLog (checkWinLoop indices g).2
  /\ length (Game.players (checkWinLoop indices g).2) = length (Game.players g)
  /\ Game.board (checkWinLoop indices g).2 = Game.board g
  /\ Game.targetVictoryPoints (checkWinLoop indices g).2
     = Game.targetVictoryPoints g
  /\ Game.maxPlayers (checkWinLoop indices g).2 = Game.maxPlayers g
  /\ ((checkWinLoop indices g).1 = false ->
      Game_control (checkWinLoop indices g).2 = Game_control g)
  /\ ((checkWinLoop indices g).1 = true ->
      Game.gamePhase (checkWinLoop indices g).2 = finished).
Proof.
  induction indices as [|i rest IH]; intros g.
  - cbn. split_and!; auto; discriminate.
  - rewrite checkWinLoop_cons.
    destruct (Game.players g !! i) as [p|] eqn:Hp; [|apply IH].
    cbv zeta. destruct (Game.targetVictoryPoints g <=? Player_score p).
    + cbn [fst snd]. split_and!; try reflexivity; try discriminate.
      * eexists. reflexivity.
      * cbn. apply length_insert.
    + destruct (IH (Game.set_players
                      (<[i := (Player_updateVictoryPoints p).2]> (Game.players g))
                      g)) as (H1 & H2 & H3 & H4 & H5 & H6 & H7).
      split_and!; auto.
      rewrite H2. cbn. apply length_insert.
Qed.

Lemma Game_handleResourceProduction_frame V g :
  Game.eventLog g `prefix_of` Game.eventLog (Game_handleResourceProduction V g)
  /\ Game_control (Game_handleResourceProduction V g) = Game_control g.
Proof.
  unfold Game_handleResourceProduction. cbv zeta.
  generalize (seq 0 (length (Game.players g))). intros l.
  revert g. induction l as [|i l IH]; intros g; [split; reflexivity|].
  cbn [fold_left].
  destruct (Game.players g !! i) as [p|]; [|apply IH].
  destruct (Player_collectFromDiceRoll (Game.board g) (Some V) p)
    as [collected p1].
  destruct (0 <? length collected)%nat.
  - destruct (IH (Game_logEvent (MsgCollected (Player.name p1) collected)
                    (Game.set_players (<[i := p1]> (Game.players g)) g)))
      as [H1 H2].
    split; [|rewrite H2; reflexivity].
    etransitivity; [|exact H1]. eexists. reflexivity.
  - destruct (IH (Game.set_players (<[i := p1]> (Game.players g)) g))
      as [H1 H2].
    split; [exact H1|rewrite H2; reflexivity].
Qed.

Lemma Game_handleRobberRoll_frame g g' :
  Game_handleRobberRoll g = Some g' ->
  Game.eventLog g `prefix_of` Game.eventLog g'
  /\ Game_control g' = Game_control g.
Proof.
  unfold Game_handleRobberRoll. cbv zeta.
  generalize (seq 0 (length (Game.players g))). intros l.
  assert (forall g0 g1,
            fold_left (fun acc index =>
              match acc with
              | None => None
              | Some g =>
                  match Game.players g !! index with
                  | Some player =>
                      if 7 <? Player_getTotalResources player then
                        match Player_discardHalf player with
                        | Some (discarded, p1) =>
                            Some (Game_logEvent
                                    (MsgDiscarded (Player.name p1) (length discarded))
                                    (Game.set_players
                                       (<[index := p1]> (Game.players g)) g))
                        | None => None
                        end
                      else Some g
                  | None => Some g
                  end
              end) l (Some g0) = Some g1 ->
            Game.eventLog g0 `prefix_of` Game.eventLog g1
            /\ Game_control g1 = Game_control g0) as Hfold.
  { induction l as [|i l IH]; intros g0 g1.
    - cbn. intros [= <-]. split; reflexivity.
    - cbn [fold_left].
      destruct (Game.players g0 !! i) as [p|]; [|apply IH].
      destruct (7 <? Player_getTotalResources p); [|apply IH].
      destruct (Player_discardHalf p) as [[discarded p1]|].
      + intros H. apply IH in H as [H1 H2].
        split; [|rewrite H2; reflexivity].
        etransitivity; [|exact H1]. eexists. reflexivity.
      + intros H. exfalso. revert H. clear. induction l as [|j l IHl];
          [discriminate|exact IHl]. }
  destruct (fold_left _ l (Some g)) as [g1|] eqn:Hf; [|discriminate].
  cbn [option_map]. intros [= <-].
  destruct (Hfold g g1 Hf) as [H1 H2].
  split; [|rewrite <- H2; reflexivity].
  etransitivity; [exact H1|]. eexists. reflexivity.
Qed.
End Game_frames.

(** ** Ending a turn while nobody has won *)
Section Game_turns.
Implicit Types (g : Game.t).

Lemma Game_undecided_scores g g' :
  map Player_score (Game.players g') = map Player_score (Game.players g) ->
  Game.targetVictoryPoints g' = Game.targetVictoryPoints g ->
  Game_undecided g -> Game_undecided g'.
Proof.
  intros Hmap Htarget Hu p Hp. rewrite Htarget.
  assert (Player_score p ∈ map Player_score (Game.players g)) as Hin.
  { rewrite <- Hmap. apply list_elem_of_fmap. exists p. auto. }
  apply list_elem_of_fmap in Hin as (q & -> & Hq). apply Hu. exact Hq.
Qed.

Lemma Game_checkWinCondition_undecided g :
  Game_undecided g ->
  (Game_checkWinCondition g).1 = false
  /\ Game_control (Game_checkWinCondition g).2 = Game_control g
  /\ length (Game.players (Game_checkWinCondition g).2) = length (Game.players g)
  /\ Game_undecided (Game_checkWinCondition g).2.
Proof.
  intros Hu. unfold Game_checkWinCondition.
  destruct (checkWinLoop (seq 0 (length (Game.players g))) g) as [won g'] eqn:Hloop.
  pose proof (checkWinLoop_spec _ 0%nat g eq_refl won g' Hloop)
    as (Hmap & Htarget & _ & Htrue & _).
  pose proof (checkWinLoop_frame (seq 0 (length (Game.players g))) g) as Hframe.
  rewrite Hloop in Hframe. cbn [fst snd] in Hframe |- *.
  destruct Hframe as (_ & Hlen & _ & _ & _ & Hctl & _).
  assert (won = false) as ->.
  { destruct won; [|reflexivity].
    destruct (Htrue eq_refl) as (_ & i & p & _ & Hp & Hsc & _).
    assert (p ∈ Game.players g) as Hin by (apply list_elem_of_lookup; eauto).
    specialize (Hu p Hin). lia. }
  split_and!; auto.
  exact (Game_undecided_scores g g' Hmap Htarget Hu).
Qed.

Lemma Game_endTurn_undecided g :
  Game_undecided g ->
  Game_control (Game_endTurn g)
  = Game_control match Game.gamePhase g with
                 | setup => Game_endSetupTurn g
                 | playing => Game_endNormalTurn g
                 | _ => g
                 end
  /\ length (Game.players (Game_endTurn g)) = length (Game.players g)
  /\ Game_undecided (Game_endTurn g).
Proof.
  intros Hu. unfold Game_endTurn.
  set (g1 := match Game.gamePhase g with
             | setup => Game_endSetupTurn g
             | playing => Game_endNormalTurn g
             | _ => g
             end).
  assert (Game.players g1 = Game.players g
          /\ Game.targetVictoryPoints g1 = Game.targetVictoryPoints g)
    as [Hplayers Htarget].
  { subst g1.
    destruct (Game.gamePhase g);
      auto using Game_endSetupTurn_players, Game_endNormalTurn_players. }
  assert (Game_undecided g1) as Hu1.
  { intros p Hp. rewrite Htarget. apply Hu. rewrite <- Hplayers. exact Hp. }
  destruct (Game_checkWinCondition_undecided g1 Hu1) as (_ & Hctl & Hlen & Hu2).
  split_and!; auto. congruence.
Qed.

(** The fields of the game after a turn end, read off [Game_control]. *)
Lemma Game_control_fields g g' :
  Game_control g' = Game_control g ->
  Game.gamePhase g' = Game.gamePhase g
  /\ Game.currentPlayerIndex g' = Game.currentPlayerIndex g
  /\ Game.turnNumber g' = Game.turnNumber g
  /\ Game.setupRound g' = Game.setupRound g
  /\ Game.setupDirection g' = Game.setupDirection g
  /\ Game.hasRolledDice g' = Game.hasRolledDice g
  /\ Game.diceResult g' = Game.diceResult g
  /\ Game.canBuild g' = Game.canBuild g
  /\ Game.canTrade g' = Game.canTrade g.
Proof. unfold Game_control. intros [= -> -> -> -> -> -> -> -> ->]. auto 10. Qed.
End Game_turns.




(** In the playing phase, with [n] players of whom none has reached the
    target, [k] calls of [endTurn] pass the turn to the player
    [(i + k) mod n], add [k] to the turn counter and keep the phase; after
    the first of them the dice count as not rolled and building and trading
    are closed. *)
Theorem normal_turns_rotate (g : Game.t) (k : nat) :
  Game.gamePhase g = playing ->
  0 <= Game.currentPlayerIndex g < Z.of_nat (length (Game.players g)) ->
  Game_undecided g ->
  let n := Z.of_nat (length (Game.players g)) in
  let g' := Nat.iter k Game_endTurn g in
  Game.gamePhase g' = playing
  /\ Game.currentPlayerIndex g' = (Game.currentPlayerIndex g + Z.of_nat k) mod n
  /\ Game.turnNumber g' = Game.turnNumber g + Z.of_nat k
  /\ length (Game.players g') = length (Game.players g)
  /\ ((0 < k)%nat ->
      Game.hasRolledDice g' = false /\ Game.diceResult g' = None
      /\ Game.canBuild g' = false /\ Game.canTrade g' = false).
Proof.
  intros Hphase Hidx Hu n g'. subst g'.
  assert (Game_undecided (Nat.iter k Game_endTurn g)
          /\ Game.gamePhase (Nat.iter k Game_endTurn g) = playing
          /\ Game.currentPlayerIndex (Nat.iter k Game_endTurn g)
             = (Game.currentPlayerIndex g + Z.of_nat k) mod n
          /\ Game.turnNumber (Nat.iter k Game_endTurn g)
             = Game.turnNumber g + Z.of_nat k
          /\ length (Game.players (Nat.iter k Game_endTurn g))
             = length (Game.players g)
          /\ ((0 < k)%nat ->
              Game.hasRolledDice (Nat.iter k Game_endTurn g) = false
              /\ Game.diceResult (Nat.iter k Game_endTurn g) = None
              /\ Game.canBuild (Nat.iter k Game_endTurn g) = false
              /\ Game.canTrade (Nat.iter k Game_endTurn g) = false)) as H.
  { induction k as [|k IH].
    - change (Nat.iter 0 Game_endTurn g) with g. change (Z.of_nat 0) with 0.
      rewrite !Z.add_0_r, Z.mod_small by (subst n; lia).
      split_and!; auto; lia.
    - destruct IH as (Hu' & Hph & Hi & Ht & Hl & _).
      rewrite Nat.iter_succ. set (gk := Nat.iter k Game_endTurn g) in *.
      destruct (Game_endTurn_undecided gk Hu') as (Hctl & Hlen' & Hu'').
      apply Game_control_fields in Hctl
        as (Cph & Cidx & Ctn & _ & _ & Crd & Cdr & Ccb & Cct).
      rewrite Cph, Cidx, Ctn, Crd, Cdr, Ccb, Cct, Hlen', Hph.
      unfold Game_endNormalTurn. cbv zeta.
      cbn [Game_logEvent Game.set_eventLog Game.set_turnNumber
           Game.set_currentPlayerIndex Game.set_turnState
           Game.gamePhase Game.currentPlayerIndex Game.turnNumber
           Game.players Game.hasRolledDice Game.diceResult Game.canBuild
           Game.canTrade].
      rewrite Hl, Hi, Ht. fold n.
      split_and!; auto; try lia.
      rewrite Z.rem_mod_nonneg.
      + rewrite Zplus_mod_idemp_l. f_equal. lia.
      + pose proof (Z.mod_pos_bound (Game.currentPlayerIndex g + Z.of_nat k) n
                      ltac:(subst n; lia)). lia.
      + subst n; lia. }
  destruct H as (_ & H). exact H.
Qed.

Lemma readyToRoll_undecided : Game_undecided readyToRoll.1.
Proof.
  intros p Hp. revert p Hp. apply Forall_forall.
  repeat constructor; vm_compute; reflexivity.
Qed.

Lemma normal_turns_rotate_witness :
  Game.gamePhase readyToRoll.1 = playing
  /\ Game_undecided readyToRoll.1
  /\ Game.currentPlayerIndex (Nat.iter 3 Game_endTurn readyToRoll.1) = 0
  /\ Game.turnNumber (Nat.iter 3 Game_endTurn readyToRoll.1) = 4.
Proof.
  split; [reflexivity|]. split; [exact readyToRoll_undecided|].
  destruct (normal_turns_rotate readyToRoll.1 3 eq_refl
              ltac:(vm_compute; split; [discriminate|reflexivity])
              readyToRoll_undecided) as (_ & Hi & Ht & _).
  split; [exact Hi|exact Ht].
Defined.

(** ** The order of a turn *)

Lemma randomBelow_drop n G :
  Math_random (randomBelow n G).2 = drop 1 (Math_random G)
  /\ GamePiece_nextId (randomBelow n G).2 = GamePiece_nextId G
  /\ Player_nextId (randomBelow n G).2 = Player_nextId G.
Proof.
  unfold randomBelow. destruct (Math_random G) eqn:E; cbn; rewrite ?E; auto.
Qed.

(** A roll that is accepted was made in the playing phase with the dice not
    yet rolled; it draws two random numbers, opens building and trading,
    records its result and leaves phase, turn counter and current player
    alone.  After it, another call of [rollDice] returns [null] and changes
    nothing, whatever the random source. *)
Theorem rollDice_once_per_turn (g g' : Game.t) (G G' : Globals)
    (result : DiceResult.t) :
  Game_rollDice g G = Some (Some result, g', G') ->
  (Game.gamePhase g = playing /\ Game.hasRolledDice g = false)
  /\ Game.gamePhase g' = playing
  /\ Game.hasRolledDice g' = true
  /\ Game.canBuild g' = true
  /\ Game.canTrade g' = true
  /\ Game.diceResult g' = Some result
  /\ Game.currentPlayerIndex g' = Game.currentPlayerIndex g
  /\ Game.turnNumber g' = Game.turnNumber g
  /\ Math_random G' = drop 2 (Math_random G)
  /\ (forall G2, Game_rollDice g' G2 = Some (None, g', G2)).
Proof.
  unfold Game_rollDice.
  destruct (bool_decide (Game.gamePhase g = playing)) eqn:Hph;
    [|cbn; discriminate].
  apply bool_decide_eq_true_1 in Hph.
  destruct (Game.hasRolledDice g) eqn:Hrolled; [cbn; discriminate|].
  cbn [negb orb]. unfold Dice_roll.
  pose proof (randomBelow_drop 6 G) as (HG1 & _).
  destruct (randomBelow 6 G) as [x1 G1].
  pose proof (randomBelow_drop 6 G1) as (HG2 & _).
  destruct (randomBelow 6 G1) as [x2 G2]. cbn [snd] in HG1, HG2.
  cbv zeta.
  set (res := DiceResult.mk _ _ _). set (g3 := Game_logEvent _ _).
  assert (Game_control g3
          = (playing, Game.currentPlayerIndex g, Game.turnNumber g,
             Game.setupRound g, Game.setupDirection g, true, Some res, true,
             true)) as Hc3.
  { unfold Game_control. subst g3. cbn. rewrite Hph. reflexivity. }
  assert (forall g4, Game_control g4 = Game_control g3 ->
            Game.gamePhase g4 = playing
            /\ Game.hasRolledDice g4 = true
            /\ Game.canBuild g4 = true
            /\ Game.canTrade g4 = true
            /\ Game.diceResult g4 = Some res
            /\ Game.currentPlayerIndex g4 = Game.currentPlayerIndex g
            /\ Game.turnNumber g4 = Game.turnNumber g
            /\ (forall G2, Game_rollDice g4 G2 = Some (None, g4, G2))) as Hout.
  { intros g4 H4. rewrite Hc3 in H4. unfold Game_control in H4.
    injection H4 as Hp4 -> -> _ _ Hr4 -> -> ->.
    split_and!; auto.
    intros G0. unfold Game_rollDice. rewrite Hr4, orb_true_r. reflexivity. }
  assert (Math_random G2 = drop 2 (Math_random G)) as Hrand.
  { rewrite HG2, HG1, drop_drop. reflexivity. }
  destruct (bool_decide (_ = 7)).
  - destruct (Game_handleRobberRoll g3) as [g4|] eqn:H4; [|discriminate].
    intros [= <- <- <-].
    apply Game_handleRobberRoll_frame in H4 as [_ H4].
    destruct (Hout g4 H4) as (? & ? & ? & ? & ? & ? & ? & ?).
    split_and!; auto.
  - intros [= <- <- <-].
    destruct (Game_handleResourceProduction_frame
                (DiceResult.total res) g3) as [_ H4].
    destruct (Hout _ H4) as (? & ? & ? & ? & ? & ? & ? & ?).
    split_and!; auto.
Qed.

Lemma rollDice_once_per_turn_witness :
  exists result g' G',
    Game_rollDice readyToRoll.1 readyToRoll.2 = Some (Some result, g', G')
    /\ Game.hasRolledDice g' = true
    /\ forall G2, Game_rollDice g' G2 = Some (None, g', G2).
Proof.
  destruct (Game_rollDice readyToRoll.1 readyToRoll.2)
    as [[[[result|] g'] G']|] eqn:Hroll; try (vm_compute in Hroll; discriminate).
  exists result, g', G'.
  destruct (rollDice_once_per_turn _ _ _ _ _ Hroll)
    as (_ & _ & Hr & _ & _ & _ & _ & _ & _ & Hagain).
  split; [reflexivity|]. split; [exact Hr|exact Hagain].
Defined.

(** After [endTurn] in the playing phase nothing can be built before the
    dice are rolled: [placeSettlement] and [placeRoad] return [null] and
    change neither the game nor the counters, for every vertex, edge and
    player, whether the turn end finished the game or passed the turn. *)
Theorem no_build_between_turn_end_and_roll (g : Game.t) :
  Game.gamePhase g = playing ->
  forall (vertex : VertexKey) (edge : EdgeKey) (player : option nat)
         (G : Globals),
    Game_placeSettlement vertex player (Game_endTurn g) G
      = (None, Game_endTurn g, G)
    /\ Game_placeRoad edge player (Game_endTurn g) G
      = (None, Game_endTurn g, G).
Proof.
  intros Hphase vertex edge player G.
  assert (Game.gamePhase (Game_endTurn g) = finished
          \/ (Game.gamePhase (Game_endTurn g) = playing
              /\ Game.hasRolledDice (Game_endTurn g) = false)) as Hcase.
  { unfold Game_endTurn, Game_checkWinCondition. rewrite Hphase.
    set (g1 := Game_endNormalTurn g).
    pose proof (checkWinLoop_frame (seq 0 (length (Game.players g1))) g1)
      as (_ & _ & _ & _ & _ & Hfalse & Htrue).
    destruct (checkWinLoop _ g1) as [[|] g2]; cbn [fst snd] in *.
    - left. auto.
    - right. apply Game_control_fields in Hfalse; [|reflexivity].
      destruct Hfalse as (-> & _ & _ & _ & _ & -> & _).
      split; [exact Hphase|reflexivity]. }
  generalize dependent (Game_endTurn g). intros g1 Hcase.
  unfold Game_placeSettlement, Game_placeRoad,
    Game_placeNormalSettlement, Game_placeNormalRoad.
  destruct (Game_resolvePlayer player g1); [|auto].
  destruct Hcase as [->|[-> ->]]; [auto|].
  rewrite orb_true_r. auto.
Qed.

Lemma no_build_between_turn_end_and_roll_witness :
  Game.gamePhase readyToRoll.1 = playing
  /\ Game_placeSettlement (0, 0, 0) None (Game_endTurn readyToRoll.1)
       readyToRoll.2
     = (None, Game_endTurn readyToRoll.1, readyToRoll.2).
Proof.
  split; [reflexivity|].
  exact (proj1 (no_build_between_turn_end_and_roll readyToRoll.1 eq_refl
                  (0, 0, 0) (0, 0, 0) None readyToRoll.2)).
Defined.

(** ** What the calls of [Game] keep *)
Section Game_static_facts.
Implicit Types (g : Game.t) (p : Player.t).

Lemma Player_identity_set_resources res p :
  Player_identity (Player.set_resources res p) = Player_identity p.
Proof. reflexivity. Qed.

Lemma Player_removeResources_identity kind n p :
  Player_identity (Player_removeResources kind n p).2 = Player_identity p.
Proof. rewrite Player_removeResources_frame. reflexivity. Qed.

Lemma Player_payFor_identity t p :
  Player_identity (Player_payFor t p).2 = Player_identity p.
Proof. rewrite Player_payFor_frame. reflexivity. Qed.

Lemma addAll_identity l p : Player_identity (addAll l p) = Player_identity p.
Proof. rewrite addAll_frame. reflexivity. Qed.

Lemma Player_collectFromDiceRoll_identity b V p :
  Player_identity (Player_collectFromDiceRoll b V p).2 = Player_identity p.
Proof. rewrite Player_collectFromDiceRoll_spec. apply addAll_identity. Qed.

Lemma discardPass_identity rts : forall st,
  Player_identity (discardPass rts st).1.1 = Player_identity st.1.1.
Proof.
  unfold discardPass. induction rts as [|r rts IH]; intros [[p d] rem];
    [reflexivity|].
  cbn [fold_left]. destruct (rem <=? 0); [apply IH|].
  destruct (JSMap.get r (Player.resources p)) as [v|]; [|apply IH].
  destruct (0 <? v); [|apply IH].
  rewrite IH. cbn [fst]. apply Player_removeResources_identity.
Qed.

Lemma discardLoop_identity fuel rts : forall st st',
  discardLoop fuel rts st = Some st' ->
  Player_identity st'.1.1 = Player_identity st.1.1.
Proof.
  induction fuel as [|fuel IH]; intros st st'; cbn [discardLoop];
    destruct (st.2 <=? 0); try (intros [= <-]; reflexivity); try discriminate.
  intros H. apply IH in H. rewrite H. apply discardPass_identity.
Qed.

Lemma Player_discardHalf_identity p d p' :
  Player_discardHalf p = Some (d, p') -> Player_identity p' = Player_identity p.
Proof.
  unfold Player_discardHalf. cbv zeta.
  destruct (Player_getTotalResources p <=? 7); [intros [= <- <-]; reflexivity|].
  destruct (discardLoop _ _ _) as [[[q d0] rem]|] eqn:Hloop; [|discriminate].
  intros [= <- <-]. exact (discardLoop_identity _ _ _ _ Hloop).
Qed.

Lemma Player_buildSettlement_identity vertex p b G :
  Player_identity (Player_buildSettlement vertex p b G).1.1.2 = Player_identity p
  /\ Player_nextId (Player_buildSettlement vertex p b G).2 = Player_nextId G.
Proof.
  unfold Player_buildSettlement.
  destruct (_ || _); [split; reflexivity|].
  unfold Settlement_new, freshPieceId.
  destruct (Settlement_placeOn _ vertex b) as [[[|] s1] b1]; cbn [fst snd];
    split; try reflexivity.
  unfold Player_identity. cbn. rewrite Player_payFor_frame. reflexivity.
Qed.

Lemma Player_buildRoad_identity edge p b G :
  Player_identity (Player_buildRoad edge p b G).1.1.2 = Player_identity p
  /\ Player_nextId (Player_buildRoad edge p b G).2 = Player_nextId G.
Proof.
  unfold Player_buildRoad.
  destruct (_ || _); [split; reflexivity|].
  unfold Road_new, freshPieceId.
  destruct (Road_placeOn _ edge b) as [[[|] r1] b1]; cbn [fst snd];
    split; try reflexivity.
  unfold Player_identity. cbn. rewrite Player_payFor_frame. reflexivity.
Qed.

Lemma map_identity_insert (l : list Player.t) i p p' :
  l !! i = Some p ->
  Player_identity p' = Player_identity p ->
  map Player_identity (<[i := p']> l) = map Player_identity l.
Proof.
  intros Hl Hid. exact (map_list_insert Player_identity i p' p l Hl Hid).
Qed.

Lemma Game_static_insert g i p p' :
  Game.players g !! i = Some p ->
  Player_identity p' = Player_identity p ->
  Game_static (Game.set_players (<[i := p']> (Game.players g)) g)
  = Game_static g.
Proof.
  intros Hl Hid. unfold Game_static. cbn.
  rewrite (map_identity_insert _ _ _ _ Hl Hid). reflexivity.
Qed.

Lemma checkWinLoop_static indices : forall g,
  Game_static (checkWinLoop indices g).2 = Game_static g
  /\ (Game.gamePhase (checkWinLoop indices g).2 = Game.gamePhase g
      \/ Game.gamePhase (checkWinLoop indices g).2 = finished).
Proof.
  induction indices as [|i rest IH]; intros g; [split; auto|].
  rewrite checkWinLoop_cons.
  destruct (Game.players g !! i) as [p|] eqn:Hp; [|apply IH].
  cbv zeta.
  pose proof (Game_static_insert g i p (Player_updateVictoryPoints p).2 Hp
                eq_refl) as Hs.
  destruct (Game.targetVictoryPoints g <=? Player_score p).
  - cbn [snd]. split; [exact Hs|right; reflexivity].
  - destruct (IH (Game.set_players
                    (<[i := (Player_updateVictoryPoints p).2]> (Game.players g))
                    g)) as [H1 H2].
    split; [rewrite H1; exact Hs|exact H2].
Qed.

Lemma Game_handleResourceProduction_static V g :
  Game_static (Game_handleResourceProduction V g) = Game_static g.
Proof.
  unfold Game_handleResourceProduction. cbv zeta.
  generalize (seq 0 (length (Game.players g))). intros l.
  revert g. induction l as [|i l IH]; intros g; [reflexivity|].
  cbn [fold_left].
  destruct (Game.players g !! i) as [p|] eqn:Hp; [|apply IH].
  pose proof (Player_collectFromDiceRoll_identity (Game.board g) (Some V) p)
    as Hid.
  destruct (Player_collectFromDiceRoll (Game.board g) (Some V) p)
    as [collected p1]. cbn [snd] in Hid.
  pose proof (Game_static_insert g i p p1 Hp Hid) as Hs.
  destruct (0 <? length collected)%nat; rewrite IH; exact Hs.
Qed.

Lemma Game_handleRobberRoll_static g g' :
  Game_handleRobberRoll g = Some g' -> Game_static g' = Game_static g.
Proof.
  unfold Game_handleRobberRoll. cbv zeta.
  generalize (seq 0 (length (Game.players g))). intros l.
  assert (forall g0 g1,
            fold_left (fun acc index =>
              match acc with
              | None => None
              | Some g =>
                  match Game.players g !! index with
                  | Some player =>
                      if 7 <? Player_getTotalResources player then
                        match Player_discardHalf player with
                        | Some (discarded, p1) =>
                            Some (Game_logEvent
                                    (MsgDiscarded (Player.name p1) (length discarded))
                                    (Game.set_players
                                       (<[index := p1]> (Game.players g)) g))
                        | None => None
                        end
                      else Some g
                  | None => Some g
                  end
              end) l (Some g0) = Some g1 ->
            Game_static g1 = Game_static g0) as Hfold.
  { induction l as [|i l IH]; intros g0 g1.
    - cbn. intros [= <-]. reflexivity.
    - cbn [fold_left].
      destruct (Game.players g0 !! i) as [p|] eqn:Hp; [|apply IH].
      destruct (7 <? Player_getTotalResources p); [|apply IH].
      destruct (Player_discardHalf p) as [[discarded p1]|] eqn:Hd.
      + intros H. apply IH in H. rewrite H.
        exact (Game_static_insert g0 i p p1 Hp
                 (Player_discardHalf_identity _ _ _ Hd)).
      + intros H. exfalso. revert H. clear. induction l as [|j l IHl];
          [discriminate|exact IHl]. }
  destruct (fold_left _ l (Some g)) as [g1|] eqn:Hf; [|discriminate].
  cbn [option_map]. intros [= <-]. exact (Hfold g g1 Hf).
Qed.
End Game_static_facts.

Section Game_counters.
Lemma Board_shuffleArray_Player_nextId {A} (l : list A) G :
  Player_nextId (Board_shuffleArray l G).2 = Player_nextId G.
Proof.
  unfold Board_shuffleArray.
  exact (proj1 (proj2 (shuffleLoop_globals (length l - 1) l G))).
Qed.

Lemma placeRedToken_Player_nextId st token :
  Player_nextId (placeRedToken st token).2 = Player_nextId st.2.
Proof.
  destruct st as [[avail b] G]. unfold placeRedToken.
  destruct (0 <? length (validHexesFor b avail))%nat.
  - pose proof (randomBelow_drop (length (validHexesFor b avail)) G)
      as (_ & _ & H).
    destruct (randomBelow _ G) as [x G1]. exact H.
  - destruct (0 <? length avail)%nat; [|reflexivity].
    destruct (pop avail). reflexivity.
Qed.

Lemma Board_placeNumberTokens_Player_nextId b G :
  Player_nextId (Board_placeNumberTokens b G).2 = Player_nextId G.
Proof.
  unfold Board_placeNumberTokens. cbv zeta.
  set (b0 := Board.set_numberTokens NumberToken_createStandardSet b).
  set (hexes := List.filter _ (JSMap.keys (Board.hexes b0))).
  set (red := List.filter (tokenIsHighProbability b0) _).
  set (nonRed := List.filter _ (seq 0 _)).
  pose proof (Board_shuffleArray_Player_nextId red G) as H1.
  destruct (Board_shuffleArray red G) as [sred G1].
  pose proof (Board_shuffleArray_Player_nextId nonRed G1) as H2.
  destruct (Board_shuffleArray nonRed G1) as [snon G2]. cbn [snd] in H1, H2.
  assert (Player_nextId (Board_placeRedTokensWithConstraint sred hexes b0 G2).2
          = Player_nextId G2) as H3.
  { unfold Board_placeRedTokensWithConstraint.
    assert (forall st, Player_nextId (fold_left placeRedToken sred st).2
                       = Player_nextId st.2) as Hfold.
    { induction sred as [|t l IH]; intros st; [reflexivity|].
      cbn [fold_left]. rewrite IH. apply placeRedToken_Player_nextId. }
    specialize (Hfold (hexes, b0, G2)).
    destruct (fold_left placeRedToken sred (hexes, b0, G2)) as [[a b'] G'].
    exact Hfold. }
  destruct (Board_placeRedTokensWithConstraint sred hexes b0 G2) as [b1 G3].
  cbn [snd] in H3. unfold Board_placeRemainingTokens.
  pose proof (Board_shuffleArray_Player_nextId
                (List.filter (fun hex => negb (Hex_hasNumberToken b1 hex)) hexes)
                G3) as H4.
  destruct (Board_shuffleArray _ G3) as [sav G4]. cbn [snd] in H4 |- *.
  congruence.
Qed.

Lemma Board_generateStandardBoard_Player_nextId b G :
  Player_nextId (Board_generateStandardBoard b G).2 = Player_nextId G.
Proof.
  unfold Board_generateStandardBoard, Board_clear, Robber_new, freshPieceId.
  set (G0 := mkGlobals _ _ _).
  pose proof (Board_shuffleArray_Player_nextId terrains G0) as H1.
  destruct (Board_shuffleArray terrains G0) as [ts G1]. cbn [snd] in H1.
  pose proof (Board_placeNumberTokens_Player_nextId
                (Board_buildRelationships
                   (createHexes ts
                      (Board.mk [] [] [] []
                         (Robber.mk (GamePiece_nextId G) None) false
                         (Board.boardType b)))) G1) as H2.
  destruct (Board_placeNumberTokens _ G1) as [b3 G3]. cbn [snd] in H2 |- *.
  rewrite H2, H1. reflexivity.
Qed.
End Game_counters.

Section Game_steps.
Implicit Types (g : Game.t) (G : Globals).

(** What one call does to the log, to the seats and to the phase. *)
Lemma Game_call_step c g G g' G' :
  Game_call c g G = Some (g', G') ->
  Game.eventLog g `prefix_of` Game.eventLog g'
  /\ (Game.gamePhase g <> waiting -> Game.gamePhase g' <> waiting)
  /\ ((Game_static g' = Game_static g /\ Player_nextId G' = Player_nextId G)
      \/ exists p,
           Game.gamePhase g = waiting
           /\ Z.of_nat (length (Game.players g)) < Game.maxPlayers g
           /\ Game.players g' = Game.players g ++ [p]
           /\ Player.id p = Player_nextId G
           /\ Player_nextId G' = S (Player_nextId G)
           /\ Game.targetVictoryPoints g' = Game.targetVictoryPoints g
           /\ Game.maxPlayers g' = Game.maxPlayers g).
Proof.
  destruct c as [color name| |vertex player|edge player| | |hex];
    cbn [Game_call].
  - (* addPlayer *)
    unfold Game_addPlayer.
    destruct (Z.leb_spec (Game.maxPlayers g) (Z.of_nat (length (Game.players g))))
      as [Hfull|Hroom].
    { intros [= <- <-]. split_and!; auto. }
    case_bool_decide as Hph; cbn [negb].
    2:{ intros [= <- <-]. split_and!; auto. }
    unfold Player_new, freshPlayerId. intros [= <- <-].
    split; [eexists; reflexivity|]. split; [intros H; contradiction|].
    right. eexists. split_and!; try reflexivity; auto.
  - (* startGame *)
    unfold Game_startGame.
    destruct (length (Game.players g) <? 2)%nat.
    { intros [= <- <-]. split_and!; auto. }
    pose proof (Board_generateStandardBoard_Player_nextId (Game.board g) G) as HG.
    destruct (Board_generateStandardBoard (Game.board g) G) as [b G1].
    intros [= <- <-]. split; [eexists; reflexivity|].
    split; [discriminate|]. left. split; [reflexivity|exact HG].
  - (* placeSettlement *)
    unfold Game_placeSettlement.
    destruct (Game_resolvePlayer player g) as [i|];
      [|intros [= <- <-]; split_and!; auto].
    destruct (Game.gamePhase g) eqn:Hph;
      try (intros [= <- <-]; rewrite ?Hph; split_and!; auto).
    + unfold Game_placeSetupSettlement.
      destruct (Game.players g !! i) as [p|] eqn:Hp;
        [|intros [= <- <-]; rewrite ?Hph; split_and!; auto].
      destruct (JSMap.get vertex (Board.vertices (Game.board g))) as [v|];
        [|intros [= <- <-]; rewrite ?Hph; split_and!; auto].
      destruct (negb (Vertex_canPlaceSettlement (Game.board g) v));
        [intros [= <- <-]; rewrite ?Hph; split_and!; auto|].
      pose proof (Player_buildSettlement_identity vertex p (Game.board g) G)
        as [Hid HG].
      destruct (Player_buildSettlement vertex p (Game.board g) G)
        as [[[[s|] p1] b1] G1]; cbn [fst snd] in Hid, HG; intros [= <- <-].
      * split; [eexists; reflexivity|]. split; [cbn; rewrite Hph; discriminate|].
        left. split; [|exact HG].
        apply (Game_static_insert (Game.set_board b1 g) i p); [exact Hp|].
        destruct (bool_decide (Game.setupRound g = 2)); [|exact Hid].
        rewrite (addAll_identity _ (Player.set_payForOverridden true p1)).
        exact Hid.
      * split; [reflexivity|]. split; [cbn; rewrite Hph; discriminate|].
        left. split; [|exact HG].
        apply (Game_static_insert (Game.set_board b1 g) i p); [exact Hp|exact Hid].
    + unfold Game_placeNormalSettlement.
      destruct (_ || _); [intros [= <- <-]; rewrite ?Hph; split_and!; auto|].
      destruct (Game.players g !! i) as [p|] eqn:Hp;
        [|intros [= <- <-]; rewrite ?Hph; split_and!; auto].
      pose proof (Player_buildSettlement_identity vertex p (Game.board g) G)
        as [Hid HG].
      destruct (Player_buildSettlement vertex p (Game.board g) G)
        as [[[s p1] b1] G1]; cbn [fst snd] in Hid, HG; intros [= <- <-].
      split; [reflexivity|]. split; [cbn; rewrite Hph; discriminate|].
      left. split; [|exact HG].
      apply (Game_static_insert (Game.set_board b1 g) i p); [exact Hp|exact Hid].
  - (* placeRoad *)
    unfold Game_placeRoad.
    destruct (Game_resolvePlayer player g) as [i|];
      [|intros [= <- <-]; split_and!; auto].
    destruct (Game.gamePhase g) eqn:Hph;
      try (intros [= <- <-]; rewrite ?Hph; split_and!; auto).
    + unfold Game_placeSetupRoad.
      destruct (Game.players g !! i) as [p|] eqn:Hp;
        [|intros [= <- <-]; rewrite ?Hph; split_and!; auto].
      pose proof (Player_buildRoad_identity edge p (Game.board g) G)
        as [Hid HG].
      destruct (Player_buildRoad edge p (Game.board g) G)
        as [[[[r|] p1] b1] G1]; cbn [fst snd] in Hid, HG; intros [= <- <-].
      * split; [eexists; reflexivity|]. split; [cbn; rewrite Hph; discriminate|].
        left. split; [|exact HG].
        apply (Game_static_insert (Game.set_board b1 g) i p); [exact Hp|exact Hid].
      * split; [reflexivity|]. split; [cbn; rewrite Hph; discriminate|].
        left. split; [|exact HG].
        apply (Game_static_insert (Game.set_board b1 g) i p); [exact Hp|exact Hid].
    + unfold Game_placeNormalRoad.
      destruct (_ || _); [intros [= <- <-]; rewrite ?Hph; split_and!; auto|].
      destruct (Game.players g !! i) as [p|] eqn:Hp;
        [|intros [= <- <-]; rewrite ?Hph; split_and!; auto].
      pose proof (Player_buildRoad_identity edge p (Game.board g) G)
        as [Hid HG].
      destruct (Player_buildRoad edge p (Game.board g) G)
        as [[[r p1] b1] G1]; cbn [fst snd] in Hid, HG; intros [= <- <-].
      split; [reflexivity|]. split; [cbn; rewrite Hph; discriminate|].
      left. split; [|exact HG].
      apply (Game_static_insert (Game.set_board b1 g) i p); [exact Hp|exact Hid].
  - (* rollDice *)
    unfold Game_rollDice.
    destruct (negb (bool_decide (Game.gamePhase g = playing))
              || Game.hasRolledDice g) eqn:Hgate.
    { intros [= <- <-]. split_and!; auto. }
    apply orb_false_elim in Hgate as [Hph _].
    apply negb_false_iff, bool_decide_eq_true_1 in Hph.
    unfold Dice_roll.
    pose proof (randomBelow_drop 6 G) as (_ & _ & HG1).
    destruct (randomBelow 6 G) as [x1 G1].
    pose proof (randomBelow_drop 6 G1) as (_ & _ & HG2).
    destruct (randomBelow 6 G1) as [x2 G2]. cbn [snd] in HG1, HG2.
    cbv zeta. set (g3 := Game_logEvent _ _).
    assert (Game.eventLog g `prefix_of` Game.eventLog g3) as Hlog3
      by (eexists; reflexivity).
    assert (Game_static g3 = Game_static g) as Hs3 by reflexivity.
    assert (Game.gamePhase g3 = playing) as Hp3 by exact Hph.
    destruct (bool_decide (_ = 7)).
    + destruct (Game_handleRobberRoll g3) as [g4|] eqn:H4; [|discriminate].
      intros [= <- <-].
      pose proof (Game_handleRobberRoll_static _ _ H4) as Hs4.
      apply Game_handleRobberRoll_frame in H4 as [Hlog4 Hc4].
      apply Game_control_fields in Hc4 as (Hp4 & _).
      split; [etransitivity; eauto|]. split; [rewrite Hp4, Hp3; discriminate|].
      left. split; congruence.
    + intros [= <- <-].
      destruct (Game_handleResourceProduction_frame
                  (Z.of_nat x1 + 1 + (Z.of_nat x2 + 1)) g3) as [Hlog4 Hc4].
      apply Game_control_fields in Hc4 as (Hp4 & _).
      split; [etransitivity; eauto|]. split; [rewrite Hp4, Hp3; discriminate|].
      left. rewrite Game_handleResourceProduction_static. split; congruence.
  - (* endTurn *)
    intros [= <- <-]. unfold Game_endTurn, Game_checkWinCondition.
    set (g1 := match Game.gamePhase g with
               | setup => Game_endSetupTurn g
               | playing => Game_endNormalTurn g
               | _ => g
               end).
    assert (Game.eventLog g `prefix_of` Game.eventLog g1
            /\ Game_static g1 = Game_static g
            /\ (Game.gamePhase g <> waiting -> Game.gamePhase g1 <> waiting))
      as (Hlog1 & Hs1 & Hp1).
    { subst g1. destruct (Game.gamePhase g) eqn:Hph.
      1, 4: split_and!; auto; intros _; rewrite Hph; discriminate.
      - unfold Game_endSetupTurn.
        repeat match goal with |- context [if ?c then _ else _] => destruct c end;
          (split_and!;
           [first [reflexivity | eexists; reflexivity]
           |reflexivity
           |intros _; cbn; rewrite ?Hph; discriminate]).
      - split_and!;
          [eexists; reflexivity|reflexivity
          |intros _; cbn; rewrite Hph; discriminate]. }
    destruct (checkWinLoop_frame (seq 0 (length (Game.players g1))) g1)
      as (Hlog2 & _).
    destruct (checkWinLoop_static (seq 0 (length (Game.players g1))) g1)
      as (Hs2 & Hp2).
    split; [etransitivity; eauto|]. split.
    + intros Hw. destruct Hp2 as [-> | ->]; [auto|discriminate].
    + left. split; [congruence|reflexivity].
  - (* moveRobber *)
    intros [= <- <-]. unfold Game_moveRobber.
    destruct (Game.diceResult g) as [result|]; [|split_and!; auto].
    destruct (bool_decide (DiceResult.total result = 7)); [|split_and!; auto].
    cbn [snd]. split; [eexists; reflexivity|]. split; [auto|]. left. auto.
Qed.
End Game_steps.

Lemma Game_static_fields (g g' : Game.t) :
  Game_static g' = Game_static g ->
  map Player_identity (Game.players g') = map Player_identity (Game.players g)
  /\ map Player.id (Game.players g') = map Player.id (Game.players g)
  /\ length (Game.players g') = length (Game.players g)
  /\ Game.targetVictoryPoints g' = Game.targetVictoryPoints g
  /\ Game.maxPlayers g' = Game.maxPlayers g.
Proof.
  unfold Game_static. intros [= Hid Ht Hm]. split_and!; auto.
  - apply (f_equal (map (fun x : PlayerRef * string * string => x.1.1))) in Hid.
    rewrite !map_map in Hid. exact Hid.
  - apply (f_equal length) in Hid. rewrite !length_map in Hid. exact Hid.
Qed.

(** Whatever methods of [Game] are called, and in whatever order, the event
    log only grows at its end, the players that sat at the table stay in
    their seats with their serial number, colour and name (new ones are
    added behind them), the target and the maximal number of players do not
    change, and the counter of player numbers never goes back. *)
Theorem calls_only_append_to_log_and_players (cs : list GameCall)
    (g g' : Game.t) (G G' : Globals) :
  Game_calls cs g G = Some (g', G') ->
  Game.eventLog g `prefix_of` Game.eventLog g'
  /\ map Player_identity (Game.players g)
       `prefix_of` map Player_identity (Game.players g')
  /\ Game.targetVictoryPoints g' = Game.targetVictoryPoints g
  /\ Game.maxPlayers g' = Game.maxPlayers g
  /\ (Player_nextId G <= Player_nextId G')%nat.
Proof.
  revert g G. induction cs as [|c cs IH]; intros g G; cbn [Game_calls].
  - intros [= <- <-]. split_and!; auto.
  - destruct (Game_call c g G) as [[g1 G1]|] eqn:Hc; [|discriminate].
    intros H. apply IH in H as (Hlog & Hid & Ht & Hm & HG).
    apply Game_call_step in Hc as (Hlog1 & _ & Hcase).
    split; [etransitivity; eauto|].
    destruct Hcase as [[Hs HG1]|(p & _ & _ & Hp & _ & HG1 & Ht1 & Hm1)].
    + apply Game_static_fields in Hs as (Hid1 & _ & _ & Ht1 & Hm1).
      rewrite <- Hid1. split_and!; auto; try congruence; lia.
    + split_and!; try congruence; try lia.
      etransitivity; [|exact Hid]. rewrite Hp, map_app.
      eexists. reflexivity.
Qed.

Lemma calls_only_append_to_log_and_players_witness :
  exists g' G',
    Game_calls [CallEndTurn; CallAddPlayer "white" None; CallEndTurn]
      setupStart.1 setupStart.2 = Some (g', G')
    /\ Game.eventLog setupStart.1 `prefix_of` Game.eventLog g'
    /\ Game.maxPlayers g' = Game.maxPlayers setupStart.1.
Proof.
  destruct (Game_calls [CallEndTurn; CallAddPlayer "white" None; CallEndTurn]
              setupStart.1 setupStart.2) as [[g' G']|] eqn:H;
    [|vm_compute in H; discriminate].
  exists g', G'.
  destruct (calls_only_append_to_log_and_players _ _ _ _ _ H)
    as (Hlog & _ & _ & Hm & _).
  split; [reflexivity|]. split; [exact Hlog|exact Hm].
Defined.

(** Once the game has left the waiting phase it never returns to it, and
    from then on no call changes who plays: the players, their serial
    numbers, colours, names and seats are those of the start, and no player
    number is handed out. *)
Theorem started_game_keeps_its_players (cs : list GameCall)
    (g g' : Game.t) (G G' : Globals) :
  Game.gamePhase g <> waiting ->
  Game_calls cs g G = Some (g', G') ->
  Game.gamePhase g' <> waiting
  /\ map Player_identity (Game.players g') = map Player_identity (Game.players g)
  /\ length (Game.players g') = length (Game.players g)
  /\ Player_nextId G' = Player_nextId G.
Proof.
  revert g G. induction cs as [|c cs IH]; intros g G Hph; cbn [Game_calls].
  - intros [= <- <-]. split_and!; auto.
  - destruct (Game_call c g G) as [[g1 G1]|] eqn:Hc; [|discriminate].
    apply Game_call_step in Hc as (_ & Hph1 & Hcase).
    intros H. apply IH in H as (Hph' & Hid & Hlen & HG); [|auto].
    destruct Hcase as [[Hs HG1]|(p & Hw & _)]; [|contradiction].
    apply Game_static_fields in Hs as (Hid1 & _ & Hlen1 & _).
    split_and!; auto; congruence.
Qed.

Lemma started_game_keeps_its_players_witness :
  Game.gamePhase setupStart.1 <> waiting
  /\ exists g' G',
       Game_calls [CallAddPlayer "white" None; CallEndTurn; CallStartGame]
         setupStart.1 setupStart.2 = Some (g', G')
       /\ length (Game.players g') = length (Game.players setupStart.1).
Proof.
  assert (Game.gamePhase setupStart.1 <> waiting) as Hph by discriminate.
  split; [exact Hph|].
  destruct (Game_calls [CallAddPlayer "white" None; CallEndTurn; CallStartGame]
              setupStart.1 setupStart.2) as [[g' G']|] eqn:H;
    [|vm_compute in H; discriminate].
  exists g', G'. split; [reflexivity|].
  exact (proj1 (proj2 (proj2
           (started_game_keeps_its_players _ _ _ _ _ Hph H)))).
Defined.

(** The serial numbers of the players stay pairwise distinct and below the
    counter [Player.nextId], and the table never holds more players than
    [maxPlayers], whatever is called: [addPlayer] is the only method that
    adds a player, and it numbers the new player with the counter. *)
Theorem player_ids_stay_unique (cs : list GameCall)
    (g g' : Game.t) (G G' : Globals) :
  Game_playersFresh g G ->
  Z.of_nat (length (Game.players g)) <= Game.maxPlayers g ->
  Game_calls cs g G = Some (g', G') ->
  Game_playersFresh g' G'
  /\ Z.of_nat (length (Game.players g')) <= Game.maxPlayers g'.
Proof.
  revert g G. induction cs as [|c cs IH]; intros g G Hfresh Hmax;
    cbn [Game_calls].
  - intros [= <- <-]. auto.
  - destruct (Game_call c g G) as [[g1 G1]|] eqn:Hc; [|discriminate].
    apply Game_call_step in Hc as (_ & _ & Hcase).
    apply IH; destruct Hfresh as [Hnd Hlt].
    + destruct Hcase as [[Hs HG1]|(p & _ & _ & Hp & Hidp & HG1 & _)].
      * apply Game_static_fields in Hs as (_ & Hid1 & _).
        split; [rewrite Hid1; exact Hnd|].
        pose proof (proj2 (Forall_fmap Player.id
                             (fun i => (i < Player_nextId G)%nat)
                             (Game.players g)) Hlt) as Hlt'.
        apply (Forall_fmap Player.id (fun i => (i < Player_nextId G1)%nat)).
        change (Player.id <$> Game.players g1)
          with (map Player.id (Game.players g1)).
        change (Player.id <$> Game.players g)
          with (map Player.id (Game.players g)) in Hlt'.
        rewrite Hid1, HG1. exact Hlt'.
      * rewrite Forall_forall in Hlt.
        split.
        -- rewrite Hp, map_app. apply NoDup_app. split; [exact Hnd|].
           split; [|apply NoDup_singleton].
           intros i Hi Hi'. cbn in Hi'. apply list_elem_of_singleton in Hi'.
           apply list_elem_of_fmap in Hi as (q & -> & Hq).
           specialize (Hlt q Hq). lia.
        -- rewrite Hp, HG1. apply Forall_app. split.
           ++ apply Forall_forall. intros q Hq. specialize (Hlt q Hq). lia.
           ++ apply Forall_singleton. lia.
    + destruct Hcase as [[Hs HG1]|(p & _ & Hroom & Hp & _ & _ & _ & Hm1)].
      * apply Game_static_fields in Hs as (_ & _ & Hlen1 & _ & Hm1).
        rewrite Hlen1, Hm1. exact Hmax.
      * rewrite Hp, Hm1, length_app. cbn [length]. lia.
Qed.

Lemma player_ids_stay_unique_witness :
  Game_playersFresh (Game_new sampleGlobals).1 (Game_new sampleGlobals).2
  /\ exists g' G',
       Game_calls [CallAddPlayer "red" None; CallAddPlayer "blue" None;
                   CallStartGame; CallEndTurn]
         (Game_new sampleGlobals).1 (Game_new sampleGlobals).2 = Some (g', G')
       /\ Game_playersFresh g' G'.
Proof.
  assert (Game_playersFresh (Game_new sampleGlobals).1 (Game_new sampleGlobals).2)
    as Hfresh by (split; constructor).
  split; [exact Hfresh|].
  destruct (Game_calls [CallAddPlayer "red" None; CallAddPlayer "blue" None;
                        CallStartGame; CallEndTurn]
              (Game_new sampleGlobals).1 (Game_new sampleGlobals).2)
    as [[g' G']|] eqn:H; [|vm_compute in H; discriminate].
  exists g', G'. split; [reflexivity|].
  exact (proj1 (player_ids_stay_unique _ _ _ _ _ Hfresh
                  ltac:(vm_compute; discriminate) H)).
Defined.

(** ** Starting a game *)

(** [startGame] looks at nothing but the number of players.  With fewer than
    two it returns [false] and changes nothing.  With two or more it
    succeeds in every phase, also on a game that is being played or is
    finished: the board is generated anew as a standard board, the phase is
    [setup] and the first player is to move, while the players with what
    they own, the setup round and direction, the turn counter, the turn
    state and the winner stay what they were. *)
Theorem startGame_checks_only_the_player_count (g : Game.t) (G : Globals) :
  ((length (Game.players g) < 2)%nat -> Game_startGame g G = (false, g, G))
  /\ ((2 <= length (Game.players g))%nat ->
      (Game_startGame g G).1.1 = true
      /\ Game.gamePhase (Game_startGame g G).1.2 = setup
      /\ Game.currentPlayerIndex (Game_startGame g G).1.2 = 0
      /\ (exists d R, StandardBoard d R (Game.board (Game_startGame g G).1.2))
      /\ Game.players (Game_startGame g G).1.2 = Game.players g
      /\ Game.setupRound (Game_startGame g G).1.2 = Game.setupRound g
      /\ Game.setupDirection (Game_startGame g G).1.2 = Game.setupDirection g
      /\ Game.turnNumber (Game_startGame g G).1.2 = Game.turnNumber g
      /\ Game.hasRolledDice (Game_startGame g G).1.2 = Game.hasRolledDice g
      /\ Game.diceResult (Game_startGame g G).1.2 = Game.diceResult g
      /\ Game.winner (Game_startGame g G).1.2 = Game.winner g).
Proof.
  unfold Game_startGame. split.
  - intros H. apply Nat.ltb_lt in H. rewrite H. reflexivity.
  - intros H. apply Nat.ltb_ge in H. rewrite H.
    pose proof (Board_generateStandardBoard_StandardBoard (Game.board g) G)
      as Hstd.
    destruct (Board_generateStandardBoard (Game.board g) G) as [b G1].
    cbn [fst snd] in *. split_and!; try reflexivity. exact Hstd.
Qed.

(** ** The terrains of a generated board *)

Lemma Board_generateStandardBoard_terrains b G :
  exists ts,
    Permutation ts terrains
    /\ map (fun kh : HexKey * Hex.t => (kh.1, Hex.terrain kh.2))
         (Board.hexes (Board_generateStandardBoard b G).1)
       = combine hexLayout ts.
Proof.
  destruct (Board_generateStandardBoard_stages b G)
    as (ts & rob & bt & G1 & b3 & G3 & _ & Hperm & Htok & ->).
  exists ts. split; [exact Hperm|].
  pose proof (createHexes_view ts rob bt (Permutation_length Hperm))
    as [Hview _].
  pose proof (Board_placeNumberTokens_erase
                (Board_buildRelationships
                   (createHexes ts (Board.mk [] [] [] [] rob false bt))) G1)
    as Her.
  rewrite Htok in Her. cbn [fst] in Her.
  revert Hview Her.
  generalize (Board_buildRelationships
                (createHexes ts (Board.mk [] [] [] [] rob false bt))).
  intros b2 Hview Her. clear Htok. cbn [fst Board.hexes].
  assert (map (fun kh : HexKey * Hex.t => (kh.1, Hex.terrain kh.2))
            (Board.hexes b3) = combine hexLayout ts) as H3.
  { apply (f_equal Board.hexes) in Her. cbn [Board_erase Board.hexes] in Her.
    apply (f_equal (map (fun kh : HexKey * Hex.t => (kh.1, Hex.terrain kh.2))))
      in Her.
    rewrite !map_map in Her. cbn [fst snd Hex.terrain Hex.set_numberToken] in Her.
    rewrite Her.
    apply (f_equal (map (fun x : HexKey
                                 * (Terrain * option TokenRef * bool
                                    * list HexKey) =>
                           (x.1, x.2.1.1.1)))) in Hview.
    rewrite !map_map in Hview. unfold hexView in Hview.
    transitivity (map (fun x : HexKey * Terrain => (x.1, x.2))
                    (combine hexLayout ts)); [exact Hview|].
    erewrite map_ext; [apply map_id|intros [? ?]; reflexivity]. }
  rewrite <- H3. unfold Board_placeRobberOnDesert.
  destruct (find _ _) as [d|]; [|reflexivity].
  unfold Robber_moveTo. cbn [Board.hexes Board.set_robber Board.set_hexes].
  rewrite map_JSMap_modify by reflexivity.
  destruct (Robber.hex (Board.robber b3)) as [old|]; [|reflexivity].
  rewrite map_JSMap_modify by reflexivity. reflexivity.
Qed.

(** Whatever the random source, the terrains of the hexes of a generated
    board are the nineteen of the fixed list in some order: four forests,
    four pastures, four fields, three hills, three mountains and one desert,
    and no sea. *)
Theorem generated_terrains_are_a_rearrangement (b : Board.t) (G : Globals) :
  let ts :=
    map Hex.terrain
      (JSMap.values (Board.hexes (Board_generateStandardBoard b G).1)) in
  Permutation ts terrains
  /\ count_occ Terrain_eq_dec ts forest = 4%nat
  /\ count_occ Terrain_eq_dec ts pasture = 4%nat
  /\ count_occ Terrain_eq_dec ts fields = 4%nat
  /\ count_occ Terrain_eq_dec ts hills = 3%nat
  /\ count_occ Terrain_eq_dec ts mountains = 3%nat
  /\ count_occ Terrain_eq_dec ts desert = 1%nat
  /\ count_occ Terrain_eq_dec ts sea = 0%nat.
Proof.
  destruct (Board_generateStandardBoard_terrains b G) as (ts0 & Hperm & Hmap).
  revert Hmap. generalize (Board.hexes (Board_generateStandardBoard b G).1).
  intros hexes Hmap ts.
  assert (ts = ts0) as ->.
  { subst ts. unfold JSMap.values. rewrite map_map.
    apply (f_equal (map snd)) in Hmap. rewrite map_map in Hmap.
    etransitivity; [exact Hmap|]. apply map_snd_combine.
    rewrite (Permutation_length Hperm). reflexivity. }
  split; [exact Hperm|].
  pose proof (proj1 (Permutation_count_occ Terrain_eq_dec ts0 terrains) Hperm)
    as Hc.
  rewrite !Hc. split_and!; reflexivity.
Qed.

(** ** The hexes that a roll activates *)
Section Counting.
Lemma length_filter_map {A B} (f : A -> B) (P : A -> bool) (Q : B -> bool)
    (l : list A) :
  (forall x, x ∈ l -> P x = Q (f x)) ->
  length (List.filter P l) = length (List.filter Q (map f l)).
Proof.
  induction l as [|x l IH]; intros H; [reflexivity|].
  cbn [List.filter map]. rewrite <- (H x) by left.
  destruct (P x); cbn [length]; rewrite IH; auto;
    intros y Hy; apply H; right; exact Hy.
Qed.

Lemma length_filter_Permutation {A} (P : A -> bool) (l l' : list A) :
  Permutation l l' -> length (List.filter P l) = length (List.filter P l').
Proof.
  induction 1 as [|x l l' _ IH|x y l|l l' l'' _ IH1 _ IH2]; cbn [List.filter].
  - reflexivity.
  - destruct (P x); cbn [length]; rewrite IH; reflexivity.
  - destruct (P x), (P y); reflexivity.
  - congruence.
Qed.

Lemma count_nth (l : list Z) (V : Z) : forall a,
  length (List.filter (fun i => bool_decide (nth (i - a) l 0 = V))
            (seq a (length l)))
  = count_occ Z.eq_dec l V.
Proof.
  induction l as [|x l IH]; intros a; [reflexivity|].
  change (seq a (length (x :: l))) with (a :: seq (S a) (length l)).
  cbn [List.filter count_occ]. rewrite Nat.sub_diag.
  change (nth 0 (x :: l) 0) with x.
  assert (length (List.filter (fun i => bool_decide (nth (i - a) (x :: l) 0 = V))
                    (seq (S a) (length l)))
          = count_occ Z.eq_dec l V) as Hrest.
  { rewrite <- (IH (S a)). f_equal. apply List.filter_ext_in.
    intros i Hi. apply in_seq in Hi.
    replace (i - a)%nat with (S (i - S a)) by lia. reflexivity. }
  case_bool_decide as E; destruct (Z.eq_dec x V) as [E'|E']; try contradiction;
    cbn [length]; rewrite Hrest; reflexivity.
Qed.
End Counting.

Lemma terrains_no_sea t : t ∈ terrains -> t <> sea /\ t <> other_terrain.
Proof.
  intros H. revert t H. apply Forall_forall.
  repeat constructor; discriminate.
Qed.

(** On a board as [generateStandardBoard] leaves it, with the robber on the
    desert, a roll of [V] activates exactly as many hexes as the standard
    set has tokens of value [V]: one for 2 and for 12, two for each of 3,
    4, 5, 6, 8, 9, 10 and 11, and none for 7 or any other number; without
    a roll no hex is active. *)
Theorem each_roll_activates_its_tokens (b : Board.t) (G : Globals) (V : Z) :
  length (Board_getProducingHexes (Some V) (Board_generateStandardBoard b G).1)
  = count_occ Z.eq_dec
      [2; 3; 3; 4; 4; 5; 5; 6; 6; 8; 8; 9; 9; 10; 10; 11; 11; 12] V
  /\ Board_getProducingHexes None (Board_generateStandardBoard b G).1 = [].
Proof.
  destruct (Board_generateStandardBoard_StandardBoard b G) as (d & R & S).
  destruct (Board_generateStandardBoard_terrains b G) as (ts & Hperm & Hmap).
  revert S Hmap. generalize (Board_generateStandardBoard b G).1.
  intros B S Hmap.
  pose proof (sb_keys _ _ _ S) as Hkeys.
  assert (NoDup (JSMap.keys (Board.hexes B))) as Hnd
    by (rewrite Hkeys; exact hexLayout_NoDup).
  split.
  2:{ unfold Board_getProducingHexes. clear.
      induction (Board.hexes B) as [|kh m IH]; [reflexivity|].
      cbn [List.filter]. rewrite Hex_shouldProduce_undefined. exact IH. }
  set (values := [2; 3; 3; 4; 4; 5; 5; 6; 6; 8; 8; 9; 9; 10; 10; 11; 11; 12]).
  set (Q := fun k : HexKey =>
              match JSMap.get k (Board.hexes B) with
              | Some h => Hex_shouldProduce (Board.numberTokens B) (Some V) h
              | None => false
              end).
  set (kOf := fun i : nat =>
                match Board_hexOf B i with Some k => k | None => d end).
  (* the hex of each token *)
  assert (forall i, (i < 18)%nat ->
            Board_tokenAt B (kOf i) = Some i
            /\ kOf i ∈ allBut d
            /\ Q (kOf i) = bool_decide (nth i values 0 = V)) as HkOf.
  { intros i Hi. destruct (sb_bound _ _ _ S i Hi) as (k & Hof & Hat).
    assert (kOf i = k) as -> by (unfold kOf; rewrite Hof; reflexivity).
    split; [exact Hat|].
    assert (k <> d) as Hkd.
    { intros ->. rewrite (sb_desert_bare _ _ _ S) in Hat. discriminate. }
    unfold Board_tokenAt in Hat.
    destruct (JSMap.get k (Board.hexes B)) as [h|] eqn:Hget; [|discriminate].
    assert (k ∈ hexLayout) as Hk.
    { rewrite <- Hkeys. destruct (decide (k ∈ JSMap.keys (Board.hexes B)));
        [assumption|].
      apply JSMap_get_None_keys in n. congruence. }
    split; [apply elem_of_allBut; auto|].
    unfold Q. rewrite Hget. unfold Hex_shouldProduce, Hex_canProduceResources.
    rewrite Hat.
    pose proof (sb_desert _ _ _ S k Hk) as Hdes.
    unfold Hex_terrainIs in Hdes. rewrite Hget in Hdes. rewrite Hdes.
    rewrite (bool_decide_eq_false_2 (k = d)) by exact Hkd.
    rewrite (sb_hasRobber _ _ _ S k h Hget).
    rewrite (bool_decide_eq_false_2 (k = d)) by exact Hkd.
    assert (Hex.terrain h <> sea) as Hsea.
    { apply terrains_no_sea. rewrite <- Hperm.
      assert ((k, Hex.terrain h) ∈ combine hexLayout ts) as Hin.
      { rewrite <- Hmap.
        exact (list_elem_of_fmap_2
                 (fun kh : HexKey * Hex.t => (kh.1, Hex.terrain kh.2)) _ _
                 (JSMap_get_Some_In _ _ _ Hget)). }
      apply list_elem_of_In, in_combine_r in Hin.
      apply list_elem_of_In. exact Hin. }
    rewrite (bool_decide_eq_false_2 _ Hsea). cbn [negb andb].
    rewrite andb_true_r.
    pose proof (sb_values _ _ _ S) as Hvals. fold values in Hvals.
    assert (length (Board.numberTokens B) = 18%nat) as Hlen.
    { rewrite <- (length_map NumberToken.value), Hvals. reflexivity. }
    destruct (Board.numberTokens B !! i) as [tok|] eqn:Htok.
    - assert (NumberToken.value tok = nth i values 0) as ->; [|reflexivity].
      rewrite <- Hvals.
      apply (f_equal (option_map NumberToken.value)) in Htok.
      rewrite <- list_lookup_fmap in Htok. cbn [option_map] in Htok.
      symmetry. apply nth_lookup_Some with (d := 0) in Htok. exact Htok.
    - apply lookup_ge_None in Htok. lia. }
  (* the tokens cover the hexes other than the desert *)
  assert (Permutation (map kOf (seq 0 18)) (allBut d)) as Hcover.
  { apply submseteq_length_Permutation.
    - apply NoDup_submseteq.
      + apply (NoDup_fmap_2_strong kOf); [|apply NoDup_seq].
        intros i j Hi Hj Heq. apply elem_of_seq in Hi, Hj.
        destruct (HkOf i ltac:(lia)) as (Hi' & _).
        destruct (HkOf j ltac:(lia)) as (Hj' & _).
        rewrite Heq in Hi'. congruence.
      + intros k Hk. apply list_elem_of_fmap in Hk as (i & -> & Hi).
        apply elem_of_seq in Hi. apply HkOf. lia.
    - rewrite length_map, length_seq,
        (allBut_length_in d (sb_desert_in _ _ _ S)). lia. }
  assert (Permutation hexLayout (d :: allBut d)) as Hsplit.
  { apply NoDup_Permutation.
    - exact hexLayout_NoDup.
    - apply NoDup_cons. split.
      + intros Hin. apply elem_of_allBut in Hin as [_ Hne]. contradiction.
      + apply allBut_NoDup.
    - intros k. rewrite elem_of_cons, elem_of_allBut.
      pose proof (sb_desert_in _ _ _ S).
      destruct (decide (k = d)) as [->|]; intuition. }
  unfold Board_getProducingHexes. rewrite length_map.
  rewrite (length_filter_map fst _ Q).
  2:{ intros [k h] Hin. unfold Q. cbn [fst snd].
      rewrite (JSMap_In_get k h _ Hnd Hin). reflexivity. }
  change (map fst (Board.hexes B)) with (JSMap.keys (Board.hexes B)).
  rewrite Hkeys, (length_filter_Permutation Q _ _ Hsplit).
  cbn [List.filter].
  assert (Q d = false) as ->.
  { unfold Q. pose proof (sb_desert_bare _ _ _ S) as Hbare.
    unfold Board_tokenAt in Hbare.
    destruct (JSMap.get d (Board.hexes B)) as [h|]; [|reflexivity].
    unfold Hex_shouldProduce, Hex_canProduceResources. rewrite Hbare.
    rewrite andb_false_r. reflexivity. }
  rewrite <- (length_filter_Permutation Q _ _ Hcover).
  rewrite <- (length_filter_map kOf
                (fun i => bool_decide (nth (i - 0) values 0 = V)) Q).
  - exact (count_nth values V 0%nat).
  - intros i Hi. apply elem_of_seq in Hi. rewrite Nat.sub_0_r.
    symmetry. apply HkOf. lia.
Qed.

(** ** What buildings collect from *)

Lemma flat_map_filter_nil {A B} (f : A -> list B) (P : A -> bool) (l : list A) :
  (forall x, P x = false -> f x = []) ->
  flat_map f (List.filter P l) = flat_map f l.
Proof.
  intros H. induction l as [|x l IH]; [reflexivity|].
  cbn [List.filter flat_map]. destruct (P x) eqn:E.
  - cbn [flat_map]. rewrite IH. reflexivity.
  - rewrite IH, (H x E). reflexivity.
Qed.

Lemma Hex_yield_needs_canProduce b diceRoll hex :
  match JSMap.get hex (Board.hexes b) with
  | Some h => Hex_canProduceResources h
  | None => false
  end = false ->
  Hex_yield b diceRoll hex = [].
Proof.
  unfold Hex_yield, Hex_shouldProduce.
  destruct (JSMap.get hex (Board.hexes b)) as [h|]; [|reflexivity].
  intros ->. reflexivity.
Qed.

(** On every roll a settlement or a city collects exactly what the hexes of
    [getResourceHexes] give it (a city twice): a hex next to the building
    that [getResourceHexes] leaves out, because it is a desert, a sea or
    without a token, never gives anything. *)
Theorem collectResources_reads_the_resource_hexes (b : Board.t)
    (diceRoll : option Z) :
  (forall s,
     Settlement_collectResources b diceRoll s
     = flat_map (Hex_yield b diceRoll) (Settlement_getResourceHexes b s))
  /\ (forall c,
        City_collectResources b diceRoll c
        = flat_map
            (fun hex => flat_map (fun r => [r; r]) (Hex_yield b diceRoll hex))
            (City_getResourceHexes b c))
  /\ (forall vertex hex,
        hex ∈ Vertex_hexes b vertex ->
        hex ∉ Vertex_getResourceHexes b vertex ->
        Hex_yield b diceRoll hex = []).
Proof.
  split_and!.
  - intros s. unfold Settlement_collectResources, Settlement_getResourceHexes.
    destruct (Settlement.vertex s) as [v|]; [|reflexivity].
    unfold Vertex_getResourceHexes. rewrite flat_map_filter_nil; [reflexivity|].
    intros hex. apply Hex_yield_needs_canProduce.
  - intros c. unfold City_collectResources, City_getResourceHexes.
    destruct (City.vertex c) as [v|]; [|reflexivity].
    unfold Vertex_getResourceHexes. rewrite flat_map_filter_nil; [reflexivity|].
    intros hex H. rewrite (Hex_yield_needs_canProduce _ _ _ H). reflexivity.
  - intros vertex hex Hin Hout. apply Hex_yield_needs_canProduce.
    destruct (match JSMap.get hex (Board.hexes b) with
              | Some h => Hex_canProduceResources h
              | None => false
              end) eqn:E; [|reflexivity].
    exfalso. apply Hout. unfold Vertex_getResourceHexes.
    apply elem_of_List_filter. split; [exact Hin|exact E].
Qed.

(** ** Coastal edges *)

(** On a generated board [isCoastal] is true of every edge, also of the six
    edges of the centre hex: every edge lists one hex only. *)
Theorem every_generated_edge_is_coastal (b : Board.t) (G : Globals) :
  (forall e ed,
     JSMap.get e (Board.edges (Board_generateStandardBoard b G).1) = Some ed ->
     Edge_isCoastal (Board_generateStandardBoard b G).1 ed = true)
  /\ Forall (fun direction =>
       option_map (Edge_isCoastal (Board_generateStandardBoard b G).1)
         (JSMap.get (0, 0, direction)
            (Board.edges (Board_generateStandardBoard b G).1))
       = Some true) [0; 1; 2; 3; 4; 5].
Proof.
  assert (forallb (fun ke : EdgeKey * Edge.t =>
                     (length (Edge.hexes ke.2) <? 2)%nat)
            (Board.edges sampleBoard.1) = true) as Hall
    by (vm_compute; reflexivity).
  rewrite forallb_forall in Hall.
  assert (forall e ed,
            JSMap.get e (Board.edges (Board_generateStandardBoard b G).1)
            = Some ed ->
            Edge_isCoastal (Board_generateStandardBoard b G).1 ed = true) as H.
  { intros e ed Hget.
    rewrite (proj2 (Board_generateStandardBoard_topology b G)) in Hget.
    apply JSMap_get_Some_In, list_elem_of_In in Hget.
    specialize (Hall _ Hget). cbn [snd] in Hall.
    unfold Edge_isCoastal. rewrite Hall. apply orb_true_r. }
  split; [exact H|].
  apply Forall_forall. intros direction Hd.
  destruct (JSMap.get (0, 0, direction)
              (Board.edges (Board_generateStandardBoard b G).1))
    as [ed|] eqn:Hget.
  - cbn [option_map]. rewrite (H _ _ Hget). reflexivity.
  - exfalso. rewrite (proj2 (Board_generateStandardBoard_topology b G)) in Hget.
    revert direction Hd Hget.
    apply (proj1 (Forall_forall
                    (fun d => JSMap.get (0, 0, d) (Board.edges sampleBoard.1)
                              = None -> False) [0; 1; 2; 3; 4; 5])).
    repeat constructor; vm_compute; discriminate.
Qed.

(** ** Upgradable settlements *)

(** A settlement that [buildSettlement] has just placed can be upgraded;
    the settlement that [buildCity] replaces could be upgraded before, if it
    names the vertex, and cannot afterwards, though it goes on naming the
    vertex; a settlement that names no vertex cannot be upgraded. *)
Theorem canUpgradeToCity_follows_the_vertex :
  (forall vertex p b G s p' b' G',
     Player_buildSettlement vertex p b G = (Some s, p', b', G') ->
     Settlement_canUpgradeToCity b' s = true)
  /\ (forall vertex p b G city old p' b' G',
        Player_buildCity vertex p b G = (Some (city, old), p', b', G') ->
        Settlement.vertex old = Some vertex ->
        Settlement_canUpgradeToCity b old = true
        /\ Settlement_canUpgradeToCity b' old = false)
  /\ (forall b s,
        Settlement.vertex s = None -> Settlement_canUpgradeToCity b s = false).
Proof.
  split_and!.
  - intros vertex p b G s p' b' G'. unfold Player_buildSettlement.
    destruct (_ || _); [discriminate|].
    unfold Settlement_new, freshPieceId, Settlement_placeOn,
      Vertex_placeSettlement.
    cbn [Settlement.id Settlement.owner].
    destruct (JSMap.get vertex (Board.vertices b)) as [v|] eqn:Hget;
      [|discriminate].
    destruct (Vertex_canPlaceSettlement b v); [|discriminate].
    intros [= <- <- <- <-]. unfold Settlement_canUpgradeToCity.
    cbn [Settlement.vertex Settlement.id].
    rewrite Board_buildingAt_modify
      by (right; unfold JSMap.has; rewrite Hget; reflexivity).
    apply bool_decide_eq_true_2. reflexivity.
  - intros vertex p b G city old p' b' G'. unfold Player_buildCity.
    destruct (_ || _); [discriminate|].
    unfold City_new, freshPieceId, City_placeOn.
    rewrite Vertex_upgradeToCity_spec. cbn [City.owner City.id].
    destruct (Board_buildingAt b vertex) as [[s|c]|] eqn:Hat; try discriminate.
    destruct (decide (Settlement.owner s = Player.id p)); [|discriminate].
    intros [= <- <- <- <-] Hv. unfold Settlement_canUpgradeToCity.
    rewrite Hv, Hat. split; [apply bool_decide_eq_true_2; reflexivity|].
    rewrite Board_buildingAt_modify by (left; congruence). reflexivity.
  - intros b s H. unfold Settlement_canUpgradeToCity. rewrite H. reflexivity.
Qed.

(** ** Vertices reached by roads *)
Section Connected.
Variables (b : Board.t) (player : PlayerRef).


End Connected.




(** ** Tokens under the robber *)

(** On a board as [generateStandardBoard] leaves it no token is blocked by
    the robber, which stands on the desert; once the robber has moved to a
    hex, the token that lies on that hex is blocked and no other, and a
    token is blocked exactly when the robber blocks the hex it names. *)
Theorem robber_blocks_the_token_of_its_hex (b : Board.t) (G : Globals)
    (i : nat) (tok : NumberToken.t) :
  Board.numberTokens (Board_generateStandardBoard b G).1 !! i = Some tok ->
  NumberToken_isBlockedByRobber (Board_generateStandardBoard b G).1 tok = false
  /\ forall hex,
       Board.numberTokens
         (Robber_moveTo (Some hex) (Board_generateStandardBoard b G).1) !! i
       = Some tok
       /\ NumberToken_isBlockedByRobber
            (Robber_moveTo (Some hex) (Board_generateStandardBoard b G).1) tok
          = bool_decide (NumberToken.hex tok = Some hex)
       /\ exists k,
            NumberToken.hex tok = Some k
            /\ NumberToken_isBlockedByRobber
                 (Robber_moveTo (Some hex) (Board_generateStandardBoard b G).1)
                 tok
               = Robber_isBlocking
                   (Board.robber
                      (Robber_moveTo (Some hex)
                         (Board_generateStandardBoard b G).1)) k.
Proof.
  destruct (Board_generateStandardBoard_StandardBoard b G) as (d & R & S).
  revert S. generalize (Board_generateStandardBoard b G).1. intros B S Htok.
  assert (i < 18)%nat as Hi.
  { apply lookup_lt_Some in Htok.
    rewrite <- (length_map NumberToken.value), (sb_values _ _ _ S) in Htok.
    exact Htok. }
  destruct (sb_bound _ _ _ S i Hi) as (k & Hof & Hat).
  unfold Board_hexOf in Hof. rewrite Htok in Hof.
  assert (k <> d) as Hkd.
  { intros ->. rewrite (sb_desert_bare _ _ _ S) in Hat. discriminate. }
  unfold Board_tokenAt in Hat.
  destruct (JSMap.get k (Board.hexes B)) as [h|] eqn:Hget; [|discriminate].
  pose proof (sb_hasRobber _ _ _ S k h Hget) as Hrob.
  rewrite (bool_decide_eq_false_2 _ Hkd) in Hrob.
  split.
  { unfold NumberToken_isBlockedByRobber. rewrite Hof, Hget. exact Hrob. }
  intros hex. split; [exact Htok|].
  assert (NumberToken_isBlockedByRobber (Robber_moveTo (Some hex) B) tok
          = bool_decide (Some k = Some hex)) as Hblocked.
  { unfold NumberToken_isBlockedByRobber.
    rewrite Hof, Robber_moveTo_get, Hget. cbn [option_map].
    rewrite (sb_robber _ _ _ S).
    destruct (decide (hex = k)) as [->|Hne].
    - rewrite !bool_decide_eq_true_2 by reflexivity. reflexivity.
    - rewrite (bool_decide_eq_false_2 (Some hex = Some k)) by congruence.
      rewrite (bool_decide_eq_false_2 (Some d = Some k)) by congruence.
      rewrite (bool_decide_eq_false_2 (Some k = Some hex)) by congruence.
      exact Hrob. }
  split; [rewrite Hof; exact Hblocked|].
  exists k. split; [exact Hof|]. rewrite Hblocked.
  unfold Robber_isBlocking, Robber_moveTo. cbn [Board.robber Board.set_robber
    Board.set_hexes Robber.hex].
  destruct (decide (hex = k)) as [->|Hne].
  - rewrite !bool_decide_eq_true_2 by reflexivity. reflexivity.
  - rewrite !bool_decide_eq_false_2 by congruence. reflexivity.
Qed.

Lemma robber_blocks_the_token_of_its_hex_witness :
  exists tok,
    Board.numberTokens
      (Board_generateStandardBoard (Board_new sampleGlobals).1 sampleGlobals).1
      !! 0%nat = Some tok
    /\ NumberToken_isBlockedByRobber
         (Board_generateStandardBoard (Board_new sampleGlobals).1
            sampleGlobals).1 tok = false.
Proof.
  destruct (Board.numberTokens
              (Board_generateStandardBoard (Board_new sampleGlobals).1
                 sampleGlobals).1 !! 0%nat) as [tok|] eqn:H;
    [|vm_compute in H; discriminate].
  exists tok. split; [reflexivity|].
  exact (proj1 (robber_blocks_the_token_of_its_hex _ _ _ _ H)).
Defined.
